(** * Spatial join sampling: a shallow embedding of the two-pass sampler

    The development embeds the C++ sources of the rectangle join sampler
    (plane-sweep events, the two segment trees of the active index, the
    sweep context, the Framework II and Framework III drivers and the
    runner) as Rocq functions and proves properties of them.

    Conventions of the embedding.
    - Machine integers ([u32], [u64], [usize], [Id]) are values of [Z];
      every operation that can leave the range of its C++ type is written
      with its wrap-around ([wrap32], [wrap64]).
    - The scalar coordinate type [T] of the templates is used by the code
      modelled here only through [<] and [==]; it is embedded as [Z], a
      strict total order, as the finite non-NaN values of the default
      [double] are.
    - [std::vector] is a [list]; an index is a [Z] converted with
      [Z.to_nat].  An access outside the vector is undefined behaviour in
      the source and yields [None] here.
    - A loop whose termination is not structural carries a fuel argument;
      running out of fuel yields [None] as well.
    - A method that returns [false] with an error message yields
      [Fail msg]; undefined behaviour and exhausted fuel yield [Undef]. *)

From Stdlib Require Import ZArith List Bool Lia String QArith.
From stdpp Require Import base option list numbers sorting.

Local Open Scope Z_scope.

(** ** Machine integers (core/types.h) *)

Definition u32_max : Z := 4294967295.
Definition u64_max : Z := 18446744073709551615.
Definition i32_max : Z := 2147483647.

Definition wrap32 (z : Z) : Z := z mod 2 ^ 32.
Definition wrap64 (z : Z) : Z := z mod 2 ^ 64.

(** [static_cast<i32>] of an unsigned value. *)
Definition to_i32 (z : Z) : Z :=
  let w := wrap32 z in if w <=? i32_max then w else w - 2 ^ 32.

(** The number of loop iterations granted to loops over machine words. *)
Definition word_fuel : nat := 64.

(** Vector read and write; [None] outside the vector. *)
Definition vget {A} (l : list A) (i : Z) : option A :=
  if i <? 0 then None else l !! Z.to_nat i.

Definition vset {A} (l : list A) (i : Z) (x : A) : option (list A) :=
  if (0 <=? i) && (i <? Z.of_nat (length l))
  then Some (<[Z.to_nat i := x]> l) else None.

(** ** Results of fallible methods *)

Inductive outcome (A : Type) : Type :=
| Done (a : A)
| Fail (msg : string)
| Undef.
Arguments Done {A} a.
Arguments Fail {A} msg.
Arguments Undef {A}.

Definition outcome_bind {A B} (f : A -> outcome B) (m : outcome A) : outcome B :=
  match m with
  | Done a => f a
  | Fail e => Fail e
  | Undef => Undef
  end.

#[global] Instance outcome_mbind : MBind outcome := @outcome_bind.
#[global] Instance outcome_mret : MRet outcome := @Done.

Definition lift_opt {A} (o : option A) : outcome A :=
  match o with Some a => Done a | None => Undef end.

(** ** Geometry (geometry/point.h, geometry/box.h, geometry/predicates.h) *)

Record Point := mkPoint { v0 : Z; v1 : Z }.

Definition coord (p : Point) (axis : nat) : Z :=
  match axis with O => v0 p | _ => v1 p end.

Record Box := mkBox { lo : Point; hi : Point }.

Definition axes : list nat := [0%nat; 1%nat].

Module BoxOps.

Definition IsValid (b : Box) : bool :=
    forallb (fun i => negb (coord (hi b) i <? coord (lo b) i)) axes.

Definition IsEmpty (b : Box) : bool :=
    existsb (fun i => negb (coord (lo b) i <? coord (hi b) i)) axes.

Definition IsProper (b : Box) : bool := negb (IsEmpty b).

Definition Intersects (a b : Box) : bool :=
    if IsEmpty a || IsEmpty b then false
    else forallb (fun i => (coord (lo a) i <? coord (hi b) i)
                           && (coord (lo b) i <? coord (hi a) i)) axes.

End BoxOps.

Definition IntersectsHalfOpen (a b : Box) : bool := BoxOps.Intersects a b.

(** ** Relations and datasets (io/dataset.h) *)

Record Relation := mkRelation { boxes : list Box; ids : list Z }.

Module RelationOps.

Definition Size (r : Relation) : Z := Z.of_nat (length (boxes r)).

  (** [GetId]: the position itself, narrowed to [Id], when no explicit
      ids are stored; otherwise [ids[i]]. *)
Definition GetId (r : Relation) (i : Z) : option Z :=
    match ids r with
    | [] => Some (wrap32 i)
    | _ => vget (ids r) i
    end.

Definition Validate (require_proper : bool) (r : Relation) : bool :=
    forallb (fun b => BoxOps.IsValid b
                      && negb (require_proper && BoxOps.IsEmpty b)) (boxes r)
    && match ids r with
       | [] => true
       | _ => Nat.eqb (length (ids r)) (length (boxes r))
       end.

End RelationOps.

Record Dataset := mkDataset { half_open : bool; R : Relation; S : Relation }.

Module DatasetOps.

Definition Validate (require_proper : bool) (ds : Dataset) : bool :=
    half_open ds
    && RelationOps.Validate require_proper (R ds)
    && RelationOps.Validate require_proper (S ds).

End DatasetOps.

(** ** The brute-force oracle (join/join_oracle.h) *)

Definition CountNaive (r s : Relation) : Z :=
  fold_left
    (fun count rb =>
       fold_left
         (fun count sb =>
            if IntersectsHalfOpen rb sb then wrap64 (count + 1) else count)
         (boxes s) count)
    (boxes r) 0.

(** ** Sweep events (join/join_types.h, join/sweep_events.h) *)

Inductive Side := SideR | SideS.
Inductive EventKind := End | Start.
Inductive SideTieBreak := RBeforeS | SBeforeR.

Definition Side_eqb (a b : Side) : bool :=
  match a, b with SideR, SideR | SideS, SideS => true | _, _ => false end.

Definition EventKind_eqb (a b : EventKind) : bool :=
  match a, b with End, End | Start, Start => true | _, _ => false end.

(** The numeric value of the enumerators ([static_cast<u8>]). *)
Definition kind_u8 (k : EventKind) : Z := match k with End => 0 | Start => 1 end.

Definition IsFirst (tb : SideTieBreak) (a b : Side) : bool :=
  if Side_eqb a b then false
  else match tb with
       | RBeforeS => Side_eqb a SideR && Side_eqb b SideS
       | SBeforeR => Side_eqb a SideS && Side_eqb b SideR
       end.

Record Event := mkEvent {
  ev_x : Z;
  ev_kind : EventKind;
  ev_side : Side;
  ev_id : Z;
  ev_index : Z
}.

Definition EventLess (side_order : SideTieBreak) (a b : Event) : bool :=
  if ev_x a <? ev_x b then true
  else if ev_x b <? ev_x a then false
  else if kind_u8 (ev_kind a) <? kind_u8 (ev_kind b) then true
  else if kind_u8 (ev_kind b) <? kind_u8 (ev_kind a) then false
  else if ev_id a <? ev_id b then true
  else if ev_id b <? ev_id a then false
  else if negb (Side_eqb (ev_side a) (ev_side b))
       then IsFirst side_order (ev_side a) (ev_side b)
  else ev_index a <? ev_index b.

(** [AppendRelationEvents]: the loop over [rel.boxes], from position [i]. *)
Fixpoint AppendRelationEvents_loop (rel : Relation) (side : Side) (axis : nat)
    (bs : list Box) (i : Z) (events : list Event) : option (list Event) :=
  match bs with
  | [] => Some events
  | b :: bs' =>
      let start := coord (lo b) axis in
      let end_ := coord (hi b) axis in
      id ← RelationOps.GetId rel i;
      if negb (start <? end_)
      then AppendRelationEvents_loop rel side axis bs' (i + 1) events
      else AppendRelationEvents_loop rel side axis bs' (i + 1)
             (events ++ [mkEvent start Start side id i; mkEvent end_ End side id i])
  end.

Definition AppendRelationEvents (rel : Relation) (side : Side) (axis : nat)
    (events : list Event) : option (list Event) :=
  AppendRelationEvents_loop rel side axis (boxes rel) 0 events.

(** [std::sort] with a comparator.  [EventLess] is a strict total order on
    events (see [EventLess_total]), so every sorting algorithm returns the
    same vector; the embedding uses insertion. *)
Fixpoint sort_insert {A} (less : A -> A -> bool) (x : A) (l : list A) : list A :=
  match l with
  | [] => [x]
  | y :: l' => if less x y then x :: y :: l' else y :: sort_insert less x l'
  end.

Definition std_sort {A} (less : A -> A -> bool) (l : list A) : list A :=
  fold_right (sort_insert less) [] l.

Definition SortSweepEvents (events : list Event) (side_order : SideTieBreak)
    : list Event :=
  std_sort (EventLess side_order) events.

Definition BuildSweepEvents (ds : Dataset) (axis : nat) (side_order : SideTieBreak)
    : option (list Event) :=
  ev1 ← AppendRelationEvents (R ds) SideR axis [];
  ev2 ← AppendRelationEvents (S ds) SideS axis ev1;
  Some (SortSweepEvents ev2 side_order).

(** ** Random numbers (core/rng.h) *)

Definition Rotl (x : Z) (k : Z) : Z :=
  Z.lor (wrap64 (Z.shiftl x k)) (Z.shiftr x (64 - k)).

(** The splitmix64 finalizer shared by [SplitMix64::Next] and [HashSeed]. *)
Definition splitmix_mix (z0 : Z) : Z :=
  let z := wrap64 (Z.lxor z0 (Z.shiftr z0 30) * 0xbf58476d1ce4e5b9) in
  let z := wrap64 (Z.lxor z (Z.shiftr z 27) * 0x94d049bb133111eb) in
  Z.lxor z (Z.shiftr z 31).

Module SplitMix64.

(** [Next]: the new state and the value drawn. *)
Definition Next (state_ : Z) : Z * Z :=
  let state' := wrap64 (state_ + 0x9e3779b97f4a7c15) in
  (state', splitmix_mix state').

End SplitMix64.

(** The state of [Xoshiro256StarStar]; [Rng] only wraps it. *)
Record Rng := mkRng { s0 : Z; s1 : Z; s2 : Z; s3 : Z }.

Module RngOps.

Definition Seed (seed : Z) : Rng :=
  let '(sm, a) := SplitMix64.Next (wrap64 seed) in
  let '(sm, b) := SplitMix64.Next sm in
  let '(sm, c) := SplitMix64.Next sm in
  let '(sm, d) := SplitMix64.Next sm in
  if Z.lor (Z.lor a b) (Z.lor c d) =? 0
  then mkRng 0x9e3779b97f4a7c15 b c d
  else mkRng a b c d.

Definition NextU64 (g : Rng) : Z * Rng :=
  let result := wrap64 (Rotl (wrap64 (s1 g * 5)) 7 * 9) in
  let t := wrap64 (Z.shiftl (s1 g) 17) in
  let x2 := Z.lxor (s2 g) (s0 g) in
  let x3 := Z.lxor (s3 g) (s1 g) in
  let x1 := Z.lxor (s1 g) x2 in
  let x0 := Z.lxor (s0 g) x3 in
  let x2 := Z.lxor x2 t in
  let x3 := Rotl x3 45 in
  (result, mkRng x0 x1 x2 x3).

Definition NextU32 (g : Rng) : Z * Rng :=
  let '(x, g) := NextU64 g in (Z.shiftr x 32, g).

(** The rejection loop of [UniformU64] (Lemire's method, the branch taken
    when 128-bit integers are available, as [AliasTable::BuildFromU64]
    requires). *)
Fixpoint UniformU64_loop (fuel : nat) (bound threshold : Z) (g : Rng)
    : option (Z * Rng) :=
  match fuel with
  | O => None
  | Datatypes.S fuel' =>
      let '(x, g) := NextU64 g in
      let m := x * bound in
      let l := wrap64 m in
      if threshold <=? l then Some (Z.shiftr m 64, g)
      else UniformU64_loop fuel' bound threshold g
  end.

Definition UniformU64 (bound : Z) (g : Rng) : option (Z * Rng) :=
  if bound =? 0 then Some (0, g)
  else
    let threshold := wrap64 (- bound) mod bound in
    UniformU64_loop word_fuel bound threshold g.

Definition UniformU32 (bound : Z) (g : Rng) : option (Z * Rng) :=
  '(x, g) ← UniformU64 bound g; Some (wrap32 x, g).

End RngOps.

Definition HashSeed (x : Z) : Z :=
  splitmix_mix (wrap64 (x + 0x9e3779b97f4a7c15)).

Definition DeriveSeed (master salt : Z) : Z :=
  HashSeed (Z.lxor master (wrap64 (salt + 0xD1B54A32D192ED03))).

Definition DeriveSeed3 (master a b : Z) : Z :=
  DeriveSeed (DeriveSeed master a) b.

(** ** Floating point

    The sources compute with [double] and [long double] in the alias table,
    in the exact count's [value] and in the prefetch score.  The embedding
    takes the floating-point operations as an interface: every theorem
    stated over [FloatOps] holds for whatever the platform's arithmetic
    does.  [f_unit53 k] is [static_cast<double>(k) * 2^-53], the value of
    [Rng::NextDouble]; [f_round] is [static_cast<double>] of a
    [long double]; [f_poisson_survival] is [PoissonSurvival], which calls
    [exp], [sqrt] and [erfc]. *)
Class FloatOps := {
  F : Type;
  f_of_Z : Z -> F;
  f_add : F -> F -> F;
  f_sub : F -> F -> F;
  f_mul : F -> F -> F;
  f_div : F -> F -> F;
  f_ltb : F -> F -> bool;
  f_round : F -> F;
  f_unit53 : Z -> F;
  f_poisson_survival : F -> Z -> F
}.

(** Exact rational arithmetic.  It agrees with IEEE arithmetic whenever
    every intermediate value is a dyadic rational with a short significand,
    which is the case for the small integer weights evaluated below.
    [PoissonSurvival] has no rational value; the instance returns the
    value the source returns for [r = 0] and is evaluated only on runs whose
    budget disables prefetching, where the score is never computed. *)
#[global] Instance QFloat : FloatOps := {|
  F := Q;
  f_of_Z := inject_Z;
  f_add := fun a b => Qred (Qplus a b);
  f_sub := fun a b => Qred (Qminus a b);
  f_mul := fun a b => Qred (Qmult a b);
  f_div := fun a b => Qred (Qdiv a b);
  f_ltb := fun a b => negb (Qle_bool b a);
  f_round := fun a => a;
  f_unit53 := fun k => Qred (Qmake k (2 ^ 53));
  f_poisson_survival := fun _ _ => inject_Z 1
|}.

Definition NextDouble `{FloatOps} (g : Rng) : F * Rng :=
  let '(x, g) := RngOps.NextU64 g in (f_unit53 (Z.shiftr x 11), g).

(** ** Monadic loops *)

Fixpoint ofold {A St : Type} (f : St -> A -> option St) (l : list A) (s : St)
    : option St :=
  match l with
  | [] => Some s
  | a :: l' => s' ← f s a; ofold f l' s'
  end.

Fixpoint outfold {A St : Type} (f : St -> A -> outcome St) (l : list A) (s : St)
    : outcome St :=
  match l with
  | [] => Done s
  | a :: l' => s' ← f s a; outfold f l' s'
  end.

(** The index range of [for (i = 0; i < n; ++i)]. *)
Definition upto (n : Z) : list Z := seqZ 0 n.

(** ** Alias table (sampling/alias_table.h) *)

Module AliasTable.
Section WithFloats.
Context `{FloatOps}.

Record t := mk {
  prob_ : list F;
  alias_ : list Z;
  n_ : Z;
  total_weight_ : F;
  uniform_fallback_ : bool
}.

Definition f_zero : F := f_of_Z 0.
Definition f_one : F := f_of_Z 1.

Definition Clear : t := mk [] [] 0 f_zero false.

(** The main construction loop of Vose's method.  The vectors [small] and
    [large] are used as stacks only; the lists keep their back at the
    head. *)
Fixpoint build_loop (fuel : nat) (scaled prob : list F) (alias : list Z)
    (small large : list Z) : option (list F * list Z * list Z * list Z) :=
  match fuel with
  | O => None
  | Datatypes.S fuel' =>
      match small, large with
      | s :: small', l :: large' =>
          ss ← vget scaled s;
          prob ← vset prob s (f_round ss);
          alias ← vset alias s l;
          sl ← vget scaled l;
          let nl := f_sub (f_add sl ss) f_one in
          scaled ← vset scaled l nl;
          if f_ltb nl f_one
          then build_loop fuel' scaled prob alias (l :: small') large'
          else build_loop fuel' scaled prob alias small' (l :: large')
      | _, _ => Some (prob, alias, small, large)
      end
  end.

(** [prob_[idx] = 1.0; alias_[idx] = idx] for the indices left on a stack. *)
Definition settle (idxs : list Z) (pa : list F * list Z) : option (list F * list Z) :=
  ofold (fun '(prob, alias) idx =>
           prob ← vset prob idx f_one;
           alias ← vset alias idx idx;
           Some (prob, alias)) idxs pa.

(** The defensive clamps at the end of the build. *)
Definition clamp (n : Z) (pa : list F * list Z) : option (list F * list Z) :=
  ofold (fun '(prob, alias) i =>
           p ← vget prob i;
           prob ← (if f_ltb p f_zero then vset prob i f_zero else Some prob);
           p ← vget prob i;
           prob ← (if f_ltb f_one p then vset prob i f_one else Some prob);
           a ← vget alias i;
           alias ← (if n <=? a then vset alias i i else Some alias);
           Some (prob, alias)) (upto n) pa.

Definition BuildFromU64 (weights : list Z) : outcome t :=
  let n := Z.of_nat (length weights) in
  if n =? 0 then Done Clear
  else if u32_max <? n
  then Fail "AliasTable::BuildFromU64: n too large for u32 alias indices"
  else
    let sum128 := fold_left Z.add weights 0 in
    let prob := replicate (Z.to_nat n) f_one in
    if sum128 =? 0
    then Done (mk prob (upto n) n f_zero true)
    else
      let sum := f_of_Z sum128 in
      let n_ld := f_of_Z n in
      let scaled := map (fun w => f_div (f_mul (f_of_Z w) n_ld) sum) weights in
      let '(small, large) :=
        fold_left (fun '(small, large) '(i, sc) =>
                     if f_ltb sc f_one then (i :: small, large)
                     else (small, i :: large)) (zip (upto n) scaled) ([], []) in
      lift_opt (
        '(prob, alias, small, large) ←
           build_loop (Datatypes.S (length weights)) scaled prob
             (replicate (Z.to_nat n) 0) small large;
        pa ← settle large (prob, alias);
        pa ← settle small pa;
        '(prob, alias) ← clamp n pa;
        Some (mk prob alias n (f_round sum) false)).

Definition Sample (a : t) (g : Rng) : option (Z * Rng) :=
  if uniform_fallback_ a then RngOps.UniformU64 (n_ a) g
  else
    '(i, g) ← RngOps.UniformU64 (n_ a) g;
    let '(u, g) := NextDouble g in
    p ← vget (prob_ a) i;
    if f_ltb u p then Some (i, g)
    else al ← vget (alias_ a) i; Some (al, g).

End WithFloats.
End AliasTable.

(** ** The two segment trees of the active index (baselines/ours/sampling.h) *)

Record Item := mkItem { it_handle : Z; it_backref : Z }.

Definition kInvalidRank : Z := u32_max.

(** [p_ = 1; while (p_ < m_) p_ <<= 1;] on [u32]. *)
Fixpoint pow2_loop (fuel : nat) (p m : Z) : option Z :=
  match fuel with
  | O => None
  | Datatypes.S fuel' =>
      if p <? m then pow2_loop fuel' (wrap32 (Z.shiftl p 1)) m else Some p
  end.

(** [for (u32 x = p_; x > 1; x >>= 1) ++logp;] *)
Fixpoint logp_loop (fuel : nat) (x logp : Z) : option Z :=
  match fuel with
  | O => None
  | Datatypes.S fuel' =>
      if 1 <? x then logp_loop fuel' (Z.shiftr x 1) (logp + 1) else Some logp
  end.

Definition odd (z : Z) : bool := negb (Z.land z 1 =? 0).

(** The prefix scan that picks a bucket for the draw [x]:
    [for (; bi < n; ++bi) { cum += weights[bi]; if (x < cum) break; }]
    followed by the defensive [if (bi >= n) bi = n - 1]. *)
Fixpoint pick_scan (weights : list Z) (cum bi x : Z) : Z :=
  match weights with
  | [] => bi
  | w :: ws =>
      let cum := wrap64 (cum + w) in
      if x <? cum then bi else pick_scan ws cum (bi + 1) x
  end.

Definition pick_bucket (weights : list Z) (x : Z) : Z :=
  let n := Z.of_nat (length weights) in
  let bi := pick_scan weights 0 0 x in
  if n <=? bi then wrap32 (n - 1) else bi.

(** The [k] draws shared by [StabbingSegTree::Sample] and
    [RangePointSegTree::SampleRange]: a bucket by prefix scan, then a
    uniform position inside it. *)
Definition draw_handles (nodes_ : list (list Item)) (nodes weights : list Z)
    (total k : Z) (g : Rng) : option (list Z * Rng) :=
  ofold (fun '(out, g) (_ : Z) =>
           '(x, g) ← RngOps.UniformU64 total g;
           let bi := pick_bucket weights x in
           node ← vget nodes bi;
           bucket ← vget nodes_ node;
           '(pos, g) ← RngOps.UniformU32 (wrap32 (Z.of_nat (length bucket))) g;
           it ← vget bucket pos;
           Some (out ++ [it_handle it], g)) (upto k) ([], g).

(** The bucket updates that [AddToNode] and [RemoveFromNode] perform in
    both trees.  [bucket_push] appends [it] to the bucket of [node] and
    records its position at [pidx] of [pos_in_node_]; [bucket_swap_remove]
    is the swap-delete of position [pos], which moves the last item of the
    bucket into the hole and updates the position recorded for it. *)
Definition bucket_push (nodes : list (list Item)) (pin : list Z) (pidx node : Z)
    (it : Item) : option (list (list Item) * list Z) :=
  bucket ← vget nodes node;
  let pos := wrap32 (Z.of_nat (length bucket)) in
  pin ← vset pin pidx pos;
  nodes ← vset nodes node (bucket ++ [it]);
  Some (nodes, pin).

Definition bucket_swap_remove (nodes : list (list Item)) (pin : list Z)
    (max_refs node pos : Z) : option (list (list Item) * list Z) :=
  bucket ← vget nodes node;
  if Nat.eqb (length bucket) 0 then None
  else
    let last_pos := Z.of_nat (length bucket) - 1 in
    '(bucket, pin) ←
      (if pos =? last_pos then Some (bucket, pin)
       else
         swapped ← vget bucket last_pos;
         bucket ← vset bucket pos swapped;
         pin ← vset pin (it_handle swapped * max_refs + it_backref swapped) pos;
         Some (bucket, pin));
    nodes ← vset nodes node (removelast bucket);
    Some (nodes, pin).

Module RangePointSegTree.

Record t := mk {
  n_handles_ : Z;
  m_ : Z;
  p_ : Z;
  max_refs_ : Z;
  nodes_ : list (list Item);
  pos_in_node_ : list Z;
  placement_size_ : list Z;
  rank_of_handle_ : list Z
}.

Definition kMaxCoverNodes : Z := 128.

Definition Init (num_handles num_ranks : Z) : option t :=
  p ← pow2_loop word_fuel 1 num_ranks;
  logp ← logp_loop word_fuel p 0;
  let max_refs := wrap32 (logp + 1) in
  Some (mk num_handles num_ranks p max_refs
          (replicate (Z.to_nat (wrap32 (2 * p))) [])
          (replicate (Z.to_nat (num_handles * max_refs)) 0)
          (replicate (Z.to_nat num_handles) 0)
          (replicate (Z.to_nat num_handles) kInvalidRank)).

Definition Clear : t := mk 0 0 0 0 [] [] [] [].

Definition ResetActive (st : t) : t :=
  mk (n_handles_ st) (m_ st) (p_ st) (max_refs_ st)
     (map (fun _ => []) (nodes_ st))
     (pos_in_node_ st)
     (map (fun _ => 0) (placement_size_ st))
     (map (fun _ => kInvalidRank) (rank_of_handle_ st)).

Definition PlacementIndex (st : t) (handle backref : Z) : Z :=
  handle * max_refs_ st + backref.

Definition set_nodes (st : t) (nodes : list (list Item)) (pos : list Z) : t :=
  mk (n_handles_ st) (m_ st) (p_ st) (max_refs_ st) nodes pos
     (placement_size_ st) (rank_of_handle_ st).

Definition AddToNode (st : t) (handle node backref : Z) : option t :=
  '(nodes, pin) ← bucket_push (nodes_ st) (pos_in_node_ st)
                    (PlacementIndex st handle backref) node (mkItem handle backref);
  Some (set_nodes st nodes pin).

Definition RemoveFromNode (st : t) (node pos : Z) : option t :=
  '(nodes, pin) ← bucket_swap_remove (nodes_ st) (pos_in_node_ st)
                    (max_refs_ st) node pos;
  Some (set_nodes st nodes pin).

Fixpoint Insert_loop (fuel : nat) (st : t) (handle idx backref : Z)
    : option (t * Z) :=
  match fuel with
  | O => None
  | Datatypes.S fuel' =>
      if 0 <? idx then
        st ← AddToNode st handle idx backref;
        Insert_loop fuel' st handle (Z.shiftr idx 1) (wrap32 (backref + 1))
      else Some (st, backref)
  end.

Definition Insert (st : t) (handle rank : Z) : option t :=
  roh ← vset (rank_of_handle_ st) handle rank;
  let st := mk (n_handles_ st) (m_ st) (p_ st) (max_refs_ st) (nodes_ st)
               (pos_in_node_ st) (placement_size_ st) roh in
  '(st, backref) ← Insert_loop word_fuel st handle (wrap32 (rank + p_ st)) 0;
  ps ← vset (placement_size_ st) handle backref;
  Some (mk (n_handles_ st) (m_ st) (p_ st) (max_refs_ st) (nodes_ st)
           (pos_in_node_ st) ps (rank_of_handle_ st)).

Definition Erase (st : t) (handle : Z) : option t :=
  sz ← vget (placement_size_ st) handle;
  if sz =? 0 then Some st
  else
    rank ← vget (rank_of_handle_ st) handle;
    '(st, _) ←
      ofold (fun '(st, idx) i =>
               pos ← vget (pos_in_node_ st) (PlacementIndex st handle i);
               st ← RemoveFromNode st idx pos;
               Some (st, Z.shiftr idx 1))
            (upto sz) (st, wrap32 (rank + p_ st));
    ps ← vset (placement_size_ st) handle 0;
    roh ← vset (rank_of_handle_ st) handle kInvalidRank;
    Some (mk (n_handles_ st) (m_ st) (p_ st) (max_refs_ st) (nodes_ st)
             (pos_in_node_ st) ps roh).

Definition bucket_size (st : t) (node : Z) : option Z :=
  bucket ← vget (nodes_ st) node; Some (Z.of_nat (length bucket)).

Fixpoint CountRange_loop (fuel : nat) (st : t) (L R total : Z) : option Z :=
  match fuel with
  | O => None
  | Datatypes.S fuel' =>
      if L <? R then
        '(L, total) ←
          (if odd L then w ← bucket_size st L; Some (L + 1, wrap64 (total + w))
           else Some (L, total));
        '(R, total) ←
          (if odd R then w ← bucket_size st (R - 1); Some (R - 1, wrap64 (total + w))
           else Some (R, total));
        CountRange_loop fuel' st (Z.shiftr L 1) (Z.shiftr R 1) total
      else Some total
  end.

Definition CountRange (st : t) (l r : Z) : option Z :=
  if (r <=? l) || (m_ st =? 0) then Some 0
  else
    let l := Z.min l (m_ st) in
    let r := Z.min r (m_ st) in
    if r <=? l then Some 0
    else CountRange_loop word_fuel st (wrap32 (l + p_ st)) (wrap32 (r + p_ st)) 0.

(** The arrays [left] and [right] of the source hold [kMaxCoverNodes] entries; a write
    past them is undefined. *)
Fixpoint Decompose_loop (fuel : nat) (L R : Z) (lefts rights : list Z)
    : option (list Z * list Z) :=
  match fuel with
  | O => None
  | Datatypes.S fuel' =>
      if L <? R then
        '(L, lefts) ←
          (if odd L then
             if Z.of_nat (length lefts) <? kMaxCoverNodes
             then Some (L + 1, lefts ++ [L]) else None
           else Some (L, lefts));
        '(R, rights) ←
          (if odd R then
             if Z.of_nat (length rights) <? kMaxCoverNodes
             then Some (R - 1, rights ++ [R - 1]) else None
           else Some (R, rights));
        Decompose_loop fuel' (Z.shiftr L 1) (Z.shiftr R 1) lefts rights
      else Some (lefts, rights)
  end.

Definition DecomposeOrdered (st : t) (l r : Z) : option (list Z) :=
  if r <=? l then Some []
  else
    '(lefts, rights) ←
      Decompose_loop word_fuel (wrap32 (l + p_ st)) (wrap32 (r + p_ st)) [] [];
    if Z.of_nat (length lefts + length rights) <=? kMaxCoverNodes
    then Some (lefts ++ rev rights) else None.

(** [SampleRange]: the flag returned, the vector [out] and the generator. *)
Definition SampleRange (st : t) (l r k : Z) (g : Rng)
    : option (bool * list Z * Rng) :=
  if k =? 0 then Some (true, [], g)
  else if (r <=? l) || (m_ st =? 0) then Some (false, [], g)
  else
    let l := Z.min l (m_ st) in
    let r := Z.min r (m_ st) in
    if r <=? l then Some (false, [], g)
    else
      cover ← DecomposeOrdered st l r;
      '(nodes, weights, total) ←
        ofold (fun '(nodes, weights, total) node =>
                 w ← bucket_size st node;
                 if w =? 0 then Some (nodes, weights, total)
                 else Some (nodes ++ [node], weights ++ [w], wrap64 (total + w)))
              cover ([], [], 0);
      if (total =? 0) || Nat.eqb (length nodes) 0 then Some (false, [], g)
      else
        '(out, g) ← draw_handles (nodes_ st) nodes weights total k g;
        Some (true, out, g).

Definition ReportRange (st : t) (l r : Z) (out : list Z) : option (list Z) :=
  if (r <=? l) || (m_ st =? 0) then Some out
  else
    let l := Z.min l (m_ st) in
    let r := Z.min r (m_ st) in
    if r <=? l then Some out
    else
      cover ← DecomposeOrdered st l r;
      ofold (fun out node =>
               bucket ← vget (nodes_ st) node;
               Some (out ++ map it_handle bucket)) cover out.

End RangePointSegTree.

Module StabbingSegTree.

Record t := mk {
  n_handles_ : Z;
  m_ : Z;
  p_ : Z;
  max_refs_ : Z;
  nodes_ : list (list Item);
  pos_in_node_ : list Z;
  placement_size_ : list Z;
  lo_rank_ : list Z;
  hi_rank_ : list Z
}.

Definition kMaxPathNodes : Z := 64.

Definition Init (num_handles num_points : Z) : option t :=
  p ← pow2_loop word_fuel 1 num_points;
  logp ← logp_loop word_fuel p 0;
  let max_refs := wrap32 (2 * logp + 4) in
  Some (mk num_handles num_points p max_refs
          (replicate (Z.to_nat (wrap32 (2 * p))) [])
          (replicate (Z.to_nat (num_handles * max_refs)) 0)
          (replicate (Z.to_nat num_handles) 0)
          (replicate (Z.to_nat num_handles) kInvalidRank)
          (replicate (Z.to_nat num_handles) kInvalidRank)).

Definition Clear : t := mk 0 0 0 0 [] [] [] [] [].

Definition ResetActive (st : t) : t :=
  mk (n_handles_ st) (m_ st) (p_ st) (max_refs_ st)
     (map (fun _ => []) (nodes_ st))
     (pos_in_node_ st)
     (map (fun _ => 0) (placement_size_ st))
     (map (fun _ => kInvalidRank) (lo_rank_ st))
     (map (fun _ => kInvalidRank) (hi_rank_ st)).

Definition PlacementIndex (st : t) (handle backref : Z) : Z :=
  handle * max_refs_ st + backref.

Definition set_nodes (st : t) (nodes : list (list Item)) (pos ps : list Z) : t :=
  mk (n_handles_ st) (m_ st) (p_ st) (max_refs_ st) nodes pos ps
     (lo_rank_ st) (hi_rank_ st).

Definition set_ranks (st : t) (ps lo_rank hi_rank : list Z) : t :=
  mk (n_handles_ st) (m_ st) (p_ st) (max_refs_ st) (nodes_ st)
     (pos_in_node_ st) ps lo_rank hi_rank.

Definition AddToNode (st : t) (handle node : Z) : option t :=
  sz ← vget (placement_size_ st) handle;
  '(nodes, pin) ← bucket_push (nodes_ st) (pos_in_node_ st)
                    (PlacementIndex st handle sz) node (mkItem handle sz);
  ps ← vset (placement_size_ st) handle (wrap32 (sz + 1));
  Some (set_nodes st nodes pin ps).

Definition RemoveFromNode (st : t) (node pos : Z) : option t :=
  '(nodes, pin) ← bucket_swap_remove (nodes_ st) (pos_in_node_ st)
                    (max_refs_ st) node pos;
  Some (set_nodes st nodes pin (placement_size_ st)).

Fixpoint Insert_loop (fuel : nat) (st : t) (handle l r : Z) : option t :=
  match fuel with
  | O => None
  | Datatypes.S fuel' =>
      if l <? r then
        '(st, l) ←
          (if odd l then st ← AddToNode st handle l; Some (st, l + 1)
           else Some (st, l));
        '(st, r) ←
          (if odd r then st ← AddToNode st handle (r - 1); Some (st, r - 1)
           else Some (st, r));
        Insert_loop fuel' st handle (Z.shiftr l 1) (Z.shiftr r 1)
      else Some st
  end.

Definition Insert (st : t) (handle L R : Z) : option t :=
  if (R <=? L) || (m_ st =? 0) then Some st
  else
    let L := Z.min L (m_ st) in
    let R := Z.min R (m_ st) in
    if R <=? L then Some st
    else
      lo_rank ← vset (lo_rank_ st) handle L;
      hi_rank ← vset (hi_rank_ st) handle R;
      let st := set_ranks st (placement_size_ st) lo_rank hi_rank in
      Insert_loop word_fuel st handle (wrap32 (L + p_ st)) (wrap32 (R + p_ st)).

Fixpoint Erase_loop (fuel : nat) (st : t) (handle l r backref : Z)
    : option (t * Z) :=
  match fuel with
  | O => None
  | Datatypes.S fuel' =>
      if l <? r then
        '(st, l, backref) ←
          (if odd l then
             pos ← vget (pos_in_node_ st) (PlacementIndex st handle backref);
             st ← RemoveFromNode st l pos;
             Some (st, l + 1, wrap32 (backref + 1))
           else Some (st, l, backref));
        '(st, r, backref) ←
          (if odd r then
             pos ← vget (pos_in_node_ st) (PlacementIndex st handle backref);
             st ← RemoveFromNode st (r - 1) pos;
             Some (st, r - 1, wrap32 (backref + 1))
           else Some (st, r, backref));
        Erase_loop fuel' st handle (Z.shiftr l 1) (Z.shiftr r 1) backref
      else Some (st, backref)
  end.

Definition Erase (st : t) (handle : Z) : option t :=
  sz ← vget (placement_size_ st) handle;
  if sz =? 0 then Some st
  else
    L ← vget (lo_rank_ st) handle;
    R ← vget (hi_rank_ st) handle;
    '(st, _) ←
      Erase_loop word_fuel st handle (wrap32 (L + p_ st)) (wrap32 (R + p_ st)) 0;
    ps ← vset (placement_size_ st) handle 0;
    lo_rank ← vset (lo_rank_ st) handle kInvalidRank;
    hi_rank ← vset (hi_rank_ st) handle kInvalidRank;
    Some (set_ranks st ps lo_rank hi_rank).

Definition bucket_size (st : t) (node : Z) : option Z :=
  bucket ← vget (nodes_ st) node; Some (Z.of_nat (length bucket)).

Fixpoint Count_loop (fuel : nat) (st : t) (idx total : Z) : option Z :=
  match fuel with
  | O => None
  | Datatypes.S fuel' =>
      if 0 <? idx then
        w ← bucket_size st idx;
        Count_loop fuel' st (Z.shiftr idx 1) (wrap64 (total + w))
      else Some total
  end.

Definition Count (st : t) (q : Z) : option Z :=
  if (m_ st =? 0) || (m_ st <=? q) then Some 0
  else Count_loop word_fuel st (wrap32 (q + p_ st)) 0.

(** The non-empty buckets on the leaf-to-root path of [idx]; the arrays
    [path_nodes] and [weights] hold [kMaxPathNodes] entries. *)
Fixpoint Sample_path (fuel : nat) (st : t) (idx : Z) (nodes weights : list Z)
    (total : Z) : option (list Z * list Z * Z) :=
  match fuel with
  | O => None
  | Datatypes.S fuel' =>
      if 0 <? idx then
        w ← bucket_size st idx;
        if 0 <? w then
          if Z.of_nat (length nodes) <? kMaxPathNodes
          then Sample_path fuel' st (Z.shiftr idx 1) (nodes ++ [idx])
                 (weights ++ [w]) (wrap64 (total + w))
          else None
        else Sample_path fuel' st (Z.shiftr idx 1) nodes weights total
      else Some (nodes, weights, total)
  end.

(** [Sample]: the flag returned, the vector [out] and the generator. *)
Definition Sample (st : t) (q k : Z) (g : Rng) : option (bool * list Z * Rng) :=
  if k =? 0 then Some (true, [], g)
  else if (m_ st =? 0) || (m_ st <=? q) then Some (false, [], g)
  else
    '(nodes, weights, total) ←
      Sample_path word_fuel st (wrap32 (q + p_ st)) [] [] 0;
    if (total =? 0) || Nat.eqb (length nodes) 0 then Some (false, [], g)
    else
      '(out, g) ← draw_handles (nodes_ st) nodes weights total k g;
      Some (true, out, g).

Fixpoint Report_loop (fuel : nat) (st : t) (idx : Z) (out : list Z)
    : option (list Z) :=
  match fuel with
  | O => None
  | Datatypes.S fuel' =>
      if 0 <? idx then
        bucket ← vget (nodes_ st) idx;
        Report_loop fuel' st (Z.shiftr idx 1) (out ++ map it_handle bucket)
      else Some out
  end.

Definition Report (st : t) (q : Z) (out : list Z) : option (list Z) :=
  if (m_ st =? 0) || (m_ st <=? q) then Some out
  else Report_loop word_fuel st (wrap32 (q + p_ st)) out.

End StabbingSegTree.

(** ** The active index of one side *)

Module ActiveIndex2D.

Record t := mk {
  n_ : Z;
  m_ : Z;
  stab_ : StabbingSegTree.t;
  pts_ : RangePointSegTree.t
}.

Definition Init (num_handles num_ylo_ranks : Z) : option t :=
  stab ← StabbingSegTree.Init num_handles num_ylo_ranks;
  pts ← RangePointSegTree.Init num_handles num_ylo_ranks;
  Some (mk num_handles num_ylo_ranks stab pts).

Definition Clear : t := mk 0 0 StabbingSegTree.Clear RangePointSegTree.Clear.

Definition ResetActive (a : t) : t :=
  mk (n_ a) (m_ a) (StabbingSegTree.ResetActive (stab_ a))
     (RangePointSegTree.ResetActive (pts_ a)).

Definition Insert (a : t) (handle ylo_rank yhi_lb_rank : Z) : option t :=
  stab ← StabbingSegTree.Insert (stab_ a) handle ylo_rank yhi_lb_rank;
  pts ← RangePointSegTree.Insert (pts_ a) handle ylo_rank;
  Some (mk (n_ a) (m_ a) stab pts).

Definition Erase (a : t) (handle : Z) : option t :=
  stab ← StabbingSegTree.Erase (stab_ a) handle;
  pts ← RangePointSegTree.Erase (pts_ a) handle;
  Some (mk (n_ a) (m_ a) stab pts).

Definition CountA (a : t) (y_q_lo_rank : Z) : option Z :=
  StabbingSegTree.Count (stab_ a) y_q_lo_rank.

(** The bounds [l] and [r] that the B-pattern queries pass down. *)
Definition range_lo (a : t) (y_q_lo_rank : Z) : Z :=
  if wrap32 (y_q_lo_rank + 1) <=? m_ a then wrap32 (y_q_lo_rank + 1) else m_ a.

Definition range_hi (a : t) (y_q_hi_lb_rank : Z) : Z := Z.min y_q_hi_lb_rank (m_ a).

Definition CountB (a : t) (y_q_lo_rank y_q_hi_lb_rank : Z) : option Z :=
  if m_ a =? 0 then Some 0
  else RangePointSegTree.CountRange (pts_ a)
         (range_lo a y_q_lo_rank) (range_hi a y_q_hi_lb_rank).

Definition SampleA (a : t) (y_q_lo_rank k : Z) (g : Rng)
    : option (bool * list Z * Rng) :=
  StabbingSegTree.Sample (stab_ a) y_q_lo_rank k g.

Definition SampleB (a : t) (y_q_lo_rank y_q_hi_lb_rank k : Z) (g : Rng)
    : option (bool * list Z * Rng) :=
  RangePointSegTree.SampleRange (pts_ a)
    (range_lo a y_q_lo_rank) (range_hi a y_q_hi_lb_rank) k g.

Definition ReportA (a : t) (y_q_lo_rank : Z) (out : list Z) : option (list Z) :=
  StabbingSegTree.Report (stab_ a) y_q_lo_rank out.

Definition ReportB (a : t) (y_q_lo_rank y_q_hi_lb_rank : Z) (out : list Z)
    : option (list Z) :=
  RangePointSegTree.ReportRange (pts_ a)
    (range_lo a y_q_lo_rank) (range_hi a y_q_hi_lb_rank) out.

End ActiveIndex2D.

(** ** The shared sweep context *)

(** [std::unique]: the first element of every run of equal neighbours. *)
Fixpoint std_unique (l : list Z) : list Z :=
  match l with
  | [] => []
  | x :: l' =>
      match l' with
      | [] => [x]
      | y :: _ => if x =? y then std_unique l' else x :: std_unique l'
      end
  end.

(** [std::lower_bound] on a sorted vector: the first position whose element
    is not less than [v]. *)
Fixpoint lower_bound (l : list Z) (v : Z) : Z :=
  match l with
  | [] => 0
  | y :: l' => if y <? v then 1 + lower_bound l' v else 0
  end.

Module Ours2DContext.

Record t := mk {
  ds_ : option Dataset;
  built_ : bool;
  events_ : list Event;
  start_id_of_event_ : list Z;
  start_event_pos_ : list Z;
  y_coords_ : list Z;
  ylo_rank_r_ : list Z;
  yhi_lb_rank_r_ : list Z;
  ylo_rank_s_ : list Z;
  yhi_lb_rank_s_ : list Z;
  active_r_ : ActiveIndex2D.t;
  active_s_ : ActiveIndex2D.t
}.

(** [Reset] clears every member. *)
Definition Reset (c : t) : t :=
  mk None false [] [] [] [] [] [] [] [] ActiveIndex2D.Clear ActiveIndex2D.Clear.

(** The START id mapping: [start_id_of_event_] and [start_event_pos_]. *)
Fixpoint start_ids (events : list Event) (i : Z) (start_event_pos : list Z)
    : list Z * list Z :=
  match events with
  | [] => ([], start_event_pos)
  | e :: events' =>
      match ev_kind e with
      | Start =>
          let sid := to_i32 (Z.of_nat (length start_event_pos)) in
          let '(sids, sep) := start_ids events' (i + 1) (start_event_pos ++ [i]) in
          (sid :: sids, sep)
      | End =>
          let '(sids, sep) := start_ids events' (i + 1) start_event_pos in
          (-1 :: sids, sep)
      end
  end.

Definition lb_rank (y_coords : list Z) (v : Z) : Z := wrap32 (lower_bound y_coords v).

(** [Build] assigns every member anew ([assign], [clear] followed by
    [push_back], [resize] followed by a write of every position, [Init]);
    nothing of the previous state [c] is read. *)
Definition Build (c : t) (ds : Dataset) : outcome t :=
  let nR := RelationOps.Size (R ds) in
  let nS := RelationOps.Size (S ds) in
  if (u32_max <? nR) || (u32_max <? nS)
  then Fail "Ours2DContext: relation size exceeds u32"
  else
    events ← lift_opt (BuildSweepEvents ds 0 RBeforeS);
    let '(start_id_of_event, start_event_pos) := start_ids events 0 [] in
    let y_coords :=
      std_unique (std_sort Z.ltb
        (map (fun b => v1 (lo b)) (boxes (R ds))
         ++ map (fun b => v1 (lo b)) (boxes (S ds)))) in
    if Nat.eqb (length y_coords) 0
    then Fail "Ours2DContext: empty y-domain"
    else
      let m := wrap32 (Z.of_nat (length y_coords)) in
      let ylo_rank_r := map (fun b => lb_rank y_coords (v1 (lo b))) (boxes (R ds)) in
      let yhi_lb_rank_r := map (fun b => lb_rank y_coords (v1 (hi b))) (boxes (R ds)) in
      let ylo_rank_s := map (fun b => lb_rank y_coords (v1 (lo b))) (boxes (S ds)) in
      let yhi_lb_rank_s := map (fun b => lb_rank y_coords (v1 (hi b))) (boxes (S ds)) in
      active_r ← lift_opt (ActiveIndex2D.Init (wrap32 nR) m);
      active_s ← lift_opt (ActiveIndex2D.Init (wrap32 nS) m);
      Done (mk (Some ds) true events start_id_of_event start_event_pos y_coords
              ylo_rank_r yhi_lb_rank_r ylo_rank_s yhi_lb_rank_s
              (ActiveIndex2D.ResetActive active_r)
              (ActiveIndex2D.ResetActive active_s)).

Definition num_start_events (c : t) : Z := Z.of_nat (length (start_event_pos_ c)).

Definition set_active (c : t) (ar as_ : ActiveIndex2D.t) : t :=
  mk (ds_ c) (built_ c) (events_ c) (start_id_of_event_ c) (start_event_pos_ c)
     (y_coords_ c) (ylo_rank_r_ c) (yhi_lb_rank_r_ c) (ylo_rank_s_ c)
     (yhi_lb_rank_s_ c) ar as_.

Definition ResetActive (c : t) : t :=
  set_active c (ActiveIndex2D.ResetActive (active_r_ c))
               (ActiveIndex2D.ResetActive (active_s_ c)).

(** The y-ranks of the query of a START event: [q_ylo] and [q_yhi]. *)
Definition query_ranks (c : t) (ev : Event) : option (Z * Z) :=
  match ev_side ev with
  | SideR =>
      q_ylo ← vget (ylo_rank_r_ c) (ev_index ev);
      q_yhi ← vget (yhi_lb_rank_r_ c) (ev_index ev);
      Some (q_ylo, q_yhi)
  | SideS =>
      q_ylo ← vget (ylo_rank_s_ c) (ev_index ev);
      q_yhi ← vget (yhi_lb_rank_s_ c) (ev_index ev);
      Some (q_ylo, q_yhi)
  end.

End Ours2DContext.

(** The steps both sweeps share: an END event erases the handle from its
    own side; a START event queries the other side and then inserts. *)
Definition sweep_erase (ev : Event) (ar as_ : ActiveIndex2D.t)
    : option (ActiveIndex2D.t * ActiveIndex2D.t) :=
  let handle := wrap32 (ev_index ev) in
  match ev_side ev with
  | SideR => ar ← ActiveIndex2D.Erase ar handle; Some (ar, as_)
  | SideS => as_ ← ActiveIndex2D.Erase as_ handle; Some (ar, as_)
  end.

Definition sweep_insert (ev : Event) (q_ylo q_yhi : Z) (ar as_ : ActiveIndex2D.t)
    : option (ActiveIndex2D.t * ActiveIndex2D.t) :=
  let handle := wrap32 (ev_index ev) in
  match ev_side ev with
  | SideR => ar ← ActiveIndex2D.Insert ar handle q_ylo q_yhi; Some (ar, as_)
  | SideS => as_ ← ActiveIndex2D.Insert as_ handle q_ylo q_yhi; Some (ar, as_)
  end.

Definition sweep_other (ev : Event) (ar as_ : ActiveIndex2D.t) : ActiveIndex2D.t :=
  match ev_side ev with SideR => as_ | SideS => ar end.

(** The events of a sweep paired with their positions. *)
Definition with_pos {A} (l : list A) : list (Z * A) := zip (upto (Z.of_nat (length l))) l.

(** ** Results handed to the runner (baselines/baseline_api.h) *)

Record PairId := mkPairId { pr : Z; ps : Z }.

(** [weights] is never written by the drivers modelled here; the record
    keeps its size, which is what [Validate] reads when [weighted] is
    false. *)
Record SampleSet := mkSampleSet {
  pairs : list PairId;
  weights_size : Z;
  weighted : bool;
  with_replacement : bool
}.

Module SampleSetOps.

Definition Clear : SampleSet := mkSampleSet [] 0 false true.

Definition Validate (s : SampleSet) : outcome unit :=
  if negb (weighted s) then
    if negb (weights_size s =? 0)
    then Fail "SampleSet::Validate: weights must be empty when weighted=false"
    else Done tt
  else if negb (weights_size s =? Z.of_nat (length (pairs s)))
  then Fail "SampleSet::Validate: weights.size() != pairs.size()"
  else Done tt.

End SampleSetOps.

(** [extra] gives, for a key of [cfg.run.extra], the value [ParseU64]
    reads from its string, when the key is present and parses. *)
Record Config := mkConfig {
  run_t : Z;
  run_j_star : Z;
  extra : string -> option Z
}.

Definition ExtraU64Or (cfg : Config) (key : string) (def : Z) : Z :=
  match extra cfg key with Some v => v | None => def end.

(** ** The slot plan *)

Record SlotPlan2D := mkSlotPlan2D {
  offset_a : list Z;
  offset_b : list Z;
  slots_a : list Z;
  slots_b : list Z
}.

(** [offset[0] = 0; offset[e + 1] = offset[e] + cnt[e]]. *)
Fixpoint prefix_sums (acc : Z) (cnt : list Z) : list Z :=
  match cnt with
  | [] => [acc]
  | c :: cs => acc :: prefix_sums (wrap32 (acc + c)) cs
  end.

(** The pattern drawn for a slot of an event with weights [wa] and [wb]:
    0 is pattern A, 1 is pattern B. *)
Definition draw_pattern (wa wb : Z) (g : Rng) : option (Z * Rng) :=
  if wa =? 0 then Some (1, g)
  else if wb =? 0 then Some (0, g)
  else
    '(r, g) ← RngOps.UniformU64 (wrap64 (wa + wb)) g;
    Some (if r <? wa then 0 else 1, g).

(** [++v[i]] on a vector of [u32]. *)
Definition vincr (v : list Z) (i : Z) : option (list Z) :=
  c ← vget v i; vset v i (wrap32 (c + 1)).

Section WithFloats.
Context `{FloatOps}.

(** First pass of [BuildSlotPlan2D]: the event and the pattern of every
    slot, and the per-event counts. *)
Definition plan_assign (alias : AliasTable.t) (w_a w_b : list Z)
    (st : list Z * list Z * list Z * list Z * Rng) (j : Z)
    : option (list Z * list Z * list Z * list Z * Rng) :=
  let '(eid_of_slot, pat_of_slot, cnt_a, cnt_b, g) := st in
  '(i, g) ← AliasTable.Sample alias g;
  let eid := wrap32 i in
  wa ← vget w_a eid;
  wb ← vget w_b eid;
  '(pat, g) ← draw_pattern wa wb g;
  if pat =? 0
  then cnt_a ← vincr cnt_a eid;
       Some (eid_of_slot ++ [eid], pat_of_slot ++ [pat], cnt_a, cnt_b, g)
  else cnt_b ← vincr cnt_b eid;
       Some (eid_of_slot ++ [eid], pat_of_slot ++ [pat], cnt_a, cnt_b, g).

(** Second pass: [plan->slots_a[cur_a[eid]++] = j] or the same on B. *)
Definition plan_fill (st : list Z * list Z * list Z * list Z) (slot : Z * (Z * Z))
    : option (list Z * list Z * list Z * list Z) :=
  let '(slots_a, slots_b, cur_a, cur_b) := st in
  let '(j, (eid, pat)) := slot in
  if pat =? 0
  then c ← vget cur_a eid;
       slots_a ← vset slots_a c j;
       cur_a ← vset cur_a eid (wrap32 (c + 1));
       Some (slots_a, slots_b, cur_a, cur_b)
  else c ← vget cur_b eid;
       slots_b ← vset slots_b c j;
       cur_b ← vset cur_b eid (wrap32 (c + 1));
       Some (slots_a, slots_b, cur_a, cur_b).

Definition BuildSlotPlan2D (t : Z) (g : Rng) (w_total w_a w_b : list Z)
    : outcome (SlotPlan2D * Rng) :=
  let E := length w_total in
  if Nat.eqb E 0 then Fail "BuildSlotPlan2D: empty event set"
  else
    alias ← AliasTable.BuildFromU64 w_total;
    '(eid_of_slot, pat_of_slot, cnt_a, cnt_b, g) ←
      lift_opt (ofold (plan_assign alias w_a w_b) (upto t)
                  ([], [], replicate E 0, replicate E 0, g));
    let offset_a := prefix_sums 0 cnt_a in
    let offset_b := prefix_sums 0 cnt_b in
    total_a ← lift_opt (vget offset_a (Z.of_nat E));
    total_b ← lift_opt (vget offset_b (Z.of_nat E));
    '(slots_a, slots_b, _, _) ←
      lift_opt (ofold plan_fill (zip (upto t) (zip eid_of_slot pat_of_slot))
                  (replicate (Z.to_nat total_a) 0, replicate (Z.to_nat total_b) 0,
                   offset_a, offset_b));
    Done (mkSlotPlan2D offset_a offset_b slots_a slots_b, g).

End WithFloats.

(** ** Framework II: the two-pass sampler *)

Section WithFloats.
Context `{FloatOps}.

Record CountResult := mkCountResult { value : F; exact : bool; aux_draws : Z }.

Definition MakeExactCount (v : Z) : CountResult := mkCountResult (f_of_Z v) true 0.

(** The pair written for a sampled partner [oh] of the query of [ev]. *)
Definition make_pair (ds : Dataset) (ev : Event) (oh : Z) : option PairId :=
  match ev_side ev with
  | SideR =>
      r ← RelationOps.GetId (R ds) (ev_index ev);
      s ← RelationOps.GetId (S ds) oh;
      Some (mkPairId r s)
  | SideS =>
      r ← RelationOps.GetId (R ds) oh;
      s ← RelationOps.GetId (S ds) (ev_index ev);
      Some (mkPairId r s)
  end.

(** [out->pairs[slots[begin + i]] = pair(sampled[i])] for [i < k]. *)
Definition fill_slots (ds : Dataset) (ev : Event) (slots sampled : list Z)
    (begin k : Z) (pairs : list PairId) : option (list PairId) :=
  ofold (fun pairs i =>
           slot ← vget slots (wrap32 (begin + i));
           oh ← vget sampled i;
           p ← make_pair ds ev oh;
           vset pairs slot p) (upto k) pairs.

(** One pattern of one START event in the second sweep: draw [k] partners
    with [sample] and fill the slots [slots[begin .. end)].  [sid_next] is
    [sid + 1], computed on [u32] by Framework II and on [usize] by
    Framework III. *)
Definition sample_pattern (msg : string) (ds : Dataset) (ev : Event)
    (sample : Z -> Rng -> option (bool * list Z * Rng))
    (offsets slots : list Z) (sid sid_next : Z) (pairs : list PairId) (g : Rng)
    : outcome (list PairId * Rng) :=
  begin ← lift_opt (vget offsets sid);
  end_ ← lift_opt (vget offsets sid_next);
  let k := wrap32 (end_ - begin) in
  if 0 <? k then
    '(ok, sampled, g) ← lift_opt (sample k g);
    if negb ok || negb (Z.of_nat (length sampled) =? k) then Fail msg
    else
      pairs ← lift_opt (fill_slots ds ev slots sampled begin k pairs);
      Done (pairs, g)
  else Done (pairs, g).

End WithFloats.

Module OursSamplingBaseline.
Section WithFloats.
Context `{FloatOps}.

Record t := mk {
  built_ : bool;
  ctx_ : Ours2DContext.t;
  w_total_ : list Z;
  w_a_ : list Z;
  w_b_ : list Z;
  W_ : Z;
  weights_valid_ : bool
}.

Definition Reset (b : t) : t :=
  mk false (Ours2DContext.Reset (ctx_ b)) [] [] [] 0 false.

Definition Build (b : t) (ds : Dataset) (cfg : Config) : outcome t :=
  let b := Reset b in
  ctx ← Ours2DContext.Build (ctx_ b) ds;
  let E := Z.to_nat (Ours2DContext.num_start_events ctx) in
  Done (mk true ctx (replicate E 0) (replicate E 0) (replicate E 0) 0 false).

(** The state of the first sweep: both active indices, the weight vectors
    and the running total [W]. *)
Record count_state := mkCountState {
  cs_ar : ActiveIndex2D.t;
  cs_as : ActiveIndex2D.t;
  cs_w_a : list Z;
  cs_w_b : list Z;
  cs_w_total : list Z;
  cs_W : Z
}.

Definition Count_step (ctx : Ours2DContext.t) (st : count_state) (pe : Z * Event)
    : option count_state :=
  let '(pos, ev) := pe in
  match ev_kind ev with
  | End =>
      '(ar, as_) ← sweep_erase ev (cs_ar st) (cs_as st);
      Some (mkCountState ar as_ (cs_w_a st) (cs_w_b st) (cs_w_total st) (cs_W st))
  | Start =>
      sid_i32 ← vget (Ours2DContext.start_id_of_event_ ctx) pos;
      let sid := wrap32 sid_i32 in
      '(q_ylo, q_yhi) ← Ours2DContext.query_ranks ctx ev;
      let other := sweep_other ev (cs_ar st) (cs_as st) in
      wa ← ActiveIndex2D.CountA other q_ylo;
      wb ← ActiveIndex2D.CountB other q_ylo q_yhi;
      let w := wrap64 (wa + wb) in
      w_a ← vset (cs_w_a st) sid wa;
      w_b ← vset (cs_w_b st) sid wb;
      w_total ← vset (cs_w_total st) sid w;
      let W := wrap64 (cs_W st + w) in
      '(ar, as_) ← sweep_insert ev q_ylo q_yhi (cs_ar st) (cs_as st);
      Some (mkCountState ar as_ w_a w_b w_total W)
  end.

Definition Count (b : t) (cfg : Config) : outcome (CountResult * t) :=
  if negb (built_ b) || negb (Ours2DContext.built_ (ctx_ b))
     || negb (bool_decide (is_Some (Ours2DContext.ds_ (ctx_ b))))
  then Fail "OursSamplingBaseline::Count: call Build() first"
  else
    let ctx := Ours2DContext.ResetActive (ctx_ b) in
    st ← lift_opt
      (ofold (Count_step ctx) (with_pos (Ours2DContext.events_ ctx))
         (mkCountState (Ours2DContext.active_r_ ctx) (Ours2DContext.active_s_ ctx)
            (map (fun _ => 0) (w_a_ b)) (map (fun _ => 0) (w_b_ b))
            (map (fun _ => 0) (w_total_ b)) 0));
    let ctx := Ours2DContext.ResetActive
                 (Ours2DContext.set_active ctx (cs_ar st) (cs_as st)) in
    Done (MakeExactCount (cs_W st),
          mk (built_ b) ctx (cs_w_total st) (cs_w_a st) (cs_w_b st) (cs_W st) true).

(** The state of the second sweep: both active indices, the output pairs
    and the generator. *)
Definition Sample_step (ctx : Ours2DContext.t) (ds : Dataset) (plan : SlotPlan2D)
    (st : ActiveIndex2D.t * ActiveIndex2D.t * list PairId * Rng) (pe : Z * Event)
    : outcome (ActiveIndex2D.t * ActiveIndex2D.t * list PairId * Rng) :=
  let '(ar, as_, pairs, g) := st in
  let '(pos, ev) := pe in
  match ev_kind ev with
  | End =>
      '(ar, as_) ← lift_opt (sweep_erase ev ar as_);
      Done (ar, as_, pairs, g)
  | Start =>
      sid_i32 ← lift_opt (vget (Ours2DContext.start_id_of_event_ ctx) pos);
      let sid := wrap32 sid_i32 in
      '(q_ylo, q_yhi) ← lift_opt (Ours2DContext.query_ranks ctx ev);
      let other := sweep_other ev ar as_ in
      '(pairs, g) ←
        sample_pattern "OursSamplingBaseline::Sample: SampleA failed (inconsistent weights)"
          ds ev (ActiveIndex2D.SampleA other q_ylo)
          (offset_a plan) (slots_a plan) sid (wrap32 (sid + 1)) pairs g;
      '(pairs, g) ←
        sample_pattern "OursSamplingBaseline::Sample: SampleB failed (inconsistent weights)"
          ds ev (ActiveIndex2D.SampleB other q_ylo q_yhi)
          (offset_b plan) (slots_b plan) sid (wrap32 (sid + 1)) pairs g;
      '(ar, as_) ← lift_opt (sweep_insert ev q_ylo q_yhi ar as_);
      Done (ar, as_, pairs, g)
  end.

Definition Sample (b : t) (cfg : Config) (g : Rng) : outcome (SampleSet * t * Rng) :=
  match Ours2DContext.ds_ (ctx_ b) with
  | Some ds =>
    if negb (built_ b) || negb (Ours2DContext.built_ (ctx_ b))
    then Fail "OursSamplingBaseline::Sample: call Build() first"
    else if u32_max <? run_t cfg
    then Fail "OursSamplingBaseline::Sample: run.t too large (must fit in u32)"
    else
      let t := wrap32 (run_t cfg) in
      let out := mkSampleSet [] 0 false true in
      if t =? 0 then Done (out, b, g)
      else
        b ← (if weights_valid_ b then Done b
             else '(_, b) ← Count b cfg; Done b);
        if W_ b =? 0 then Done (out, b, g)
        else
          '(plan, g) ← BuildSlotPlan2D t g (w_total_ b) (w_a_ b) (w_b_ b);
          let pairs := replicate (Z.to_nat t) (mkPairId 0 0) in
          let ctx := Ours2DContext.ResetActive (ctx_ b) in
          '(ar, as_, pairs, g) ←
            outfold (Sample_step ctx ds plan) (with_pos (Ours2DContext.events_ ctx))
              (Ours2DContext.active_r_ ctx, Ours2DContext.active_s_ ctx, pairs, g);
          let ctx := Ours2DContext.ResetActive (Ours2DContext.set_active ctx ar as_) in
          Done (mkSampleSet pairs 0 false true,
                mk (built_ b) ctx (w_total_ b) (w_a_ b) (w_b_ b) (W_ b)
                   (weights_valid_ b), g)
  | None => Fail "OursSamplingBaseline::Sample: call Build() first"
  end.

End WithFloats.
End OursSamplingBaseline.

(** ** Framework III helpers (baselines/detail/adaptive_prefetch.h) *)

Section WithFloats.
Context `{FloatOps}.

Definition f_zero : F := f_of_Z 0.
Definition f_one : F := f_of_Z 1.

(** [a != b] on scores, which are never NaN. *)
Definition f_neb (a b : F) : bool := f_ltb a b || f_ltb b a.

Definition EstimateTotalW (total_events i : Z) (w_sofar : F) : F :=
  if (total_events =? 0) || (i =? 0) then w_sofar
  else
    let M := f_of_Z total_events in
    let ii := f_of_Z i in
    if f_ltb f_zero ii then f_mul w_sofar (f_div M ii) else w_sofar.

Definition SlotScorePoisson (w_i total_events i : Z) (w_sofar : F) (t r : Z) : F :=
  if r =? 0 then f_one
  else if (w_i =? 0) || (t =? 0) then f_zero
  else
    let W_hat := EstimateTotalW total_events i w_sofar in
    if negb (f_ltb f_zero W_hat) then f_zero
    else
      let p_hat := f_div (f_of_Z w_i) W_hat in
      let mu_hat := f_mul (f_of_Z t) p_hat in
      f_poisson_survival (f_round mu_hat) r.

Record PrefetchSlot := mkPrefetchSlot { score : F; slot_sid : Z }.

Definition PrefetchSlotGreater (a b : PrefetchSlot) : bool :=
  if f_neb (score a) (score b) then f_ltb (score b) (score a)
  else slot_sid b <? slot_sid a.

End WithFloats.

(** [std::priority_queue] ordered by [PrefetchSlotGreater]: its top is a
    least slot.  The queue is kept as the list of its elements. *)
Module PrefetchHeap.
Section WithFloats.
Context `{FloatOps}.

Definition t := list PrefetchSlot.

Definition Size (h : t) : Z := Z.of_nat (length h).

Definition Top (h : t) : option PrefetchSlot :=
  match h with
  | [] => None
  | s :: h' =>
      Some (fold_left (fun m x => if PrefetchSlotGreater m x then x else m) h' s)
  end.

(** [MinScore]; [None] stands for the minus infinity of an empty queue. *)
Definition MinScore (h : t) : option F := score <$> Top h.

Definition Push (h : t) (s : PrefetchSlot) : t := s :: h.

Fixpoint remove_slot (s : PrefetchSlot) (h : t) : t :=
  match h with
  | [] => []
  | x :: h' =>
      if negb (PrefetchSlotGreater s x) && negb (PrefetchSlotGreater x s)
      then h' else x :: remove_slot s h'
  end.

Definition PopMin (h : t) : option (PrefetchSlot * t) :=
  s ← Top h; Some (s, remove_slot s h).

End WithFloats.
End PrefetchHeap.

(** ** Framework III: the adaptive sampler (baselines/ours/adaptive.h) *)

Module OursAdaptiveBaseline.
Section WithFloats.
Context `{FloatOps}.

Record t := mk {
  built_ : bool;
  ctx_ : Ours2DContext.t;
  start_side_ : list Side;
  start_index_ : list Z;
  w_total_ : list Z;
  w_a_ : list Z;
  w_b_ : list Z;
  W_ : Z;
  weights_valid_ : bool;
  cached_ : list Z;
  cache_off_ : list Z;
  cache_len_ : list Z;
  cache_partners_ : list Z;
  prefetch_keep_ : list Z;
  prefetch_partners_ : list (list Z);
  cache_valid_ : bool;
  budget_B_ : Z;
  budget_used_ : Z;
  w_small_ : Z
}.

Definition Reset (b : t) : t :=
  mk false (Ours2DContext.Reset (ctx_ b)) [] [] [] [] [] 0 false
     [] [] [] [] [] [] false 0 0 0.

(** The map from a START id to the side and index of its rectangle. *)
Definition start_map_step (ctx : Ours2DContext.t) (E : Z)
    (st : list Side * list Z) (pe : Z * Event) : option (list Side * list Z) :=
  let '(start_side, start_index) := st in
  let '(pos, ev) := pe in
  match ev_kind ev with
  | End => Some st
  | Start =>
      sid_i32 ← vget (Ours2DContext.start_id_of_event_ ctx) pos;
      let sid := wrap32 sid_i32 in
      if sid <? wrap32 E then
        start_side ← vset start_side sid (ev_side ev);
        start_index ← vset start_index sid (wrap32 (ev_index ev));
        Some (start_side, start_index)
      else Some st
  end.

Definition Build (b : t) (ds : Dataset) (cfg : Config) : outcome t :=
  let b := Reset b in
  ctx ← Ours2DContext.Build (ctx_ b) ds;
  let E := Ours2DContext.num_start_events ctx in
  let En := Z.to_nat E in
  '(start_side, start_index) ←
    lift_opt (ofold (start_map_step ctx E) (with_pos (Ours2DContext.events_ ctx))
                (replicate En SideR, replicate En 0));
  Done (mk true ctx start_side start_index
          (replicate En 0) (replicate En 0) (replicate En 0) 0 false
          (replicate En 0) (replicate En 0) (replicate En 0) []
          (replicate En 0) (replicate En []) false 0 0 0).

(** The state of the first sweep. *)
Record count_state := mkCountState {
  cs_ar : ActiveIndex2D.t;
  cs_as : ActiveIndex2D.t;
  cs_w_a : list Z;
  cs_w_b : list Z;
  cs_w_total : list Z;
  cs_W : Z;
  cs_W_sofar : F;
  cs_cached : list Z;
  cs_cache_off : list Z;
  cs_cache_len : list Z;
  cs_cache_partners : list Z;
  cs_prefetch_keep : list Z;
  cs_prefetch_partners : list (list Z);
  cs_heap : PrefetchHeap.t;
  cs_mem_full : Z
}.

(** The bookkeeping after a slot was popped from the heap: the event that
    owned it keeps one prefetched sample less. *)
Definition drop_kept (popped : PrefetchSlot) (keep : list Z) (partners : list (list Z))
    : option (list Z * list (list Z)) :=
  let j := slot_sid popped in
  if j <? Z.of_nat (length keep) then
    kj ← vget keep j;
    if 0 <? kj then
      keep ← vset keep j (wrap32 (kj - 1));
      pj ← vget partners j;
      partners ← (if Nat.eqb (length pj) 0 then Some partners
                  else vset partners j (removelast pj));
      Some (keep, partners)
    else Some (keep, partners)
  else Some (keep, partners).

(** [while (heap.Size() > B_samp) { pop; ... }] *)
Fixpoint shrink_heap (fuel : nat) (B_samp : Z) (heap : PrefetchHeap.t)
    (keep : list Z) (partners : list (list Z))
    : option (PrefetchHeap.t * list Z * list (list Z)) :=
  match fuel with
  | O => None
  | Datatypes.S fuel' =>
      if B_samp <? PrefetchHeap.Size heap then
        '(popped, heap) ← PrefetchHeap.PopMin heap;
        '(keep, partners) ← drop_kept popped keep partners;
        shrink_heap fuel' B_samp heap keep partners
      else Some (heap, keep, partners)
  end.

(** The [while (true)] loop that offers the next slots of event [sid] to
    the heap. *)
Fixpoint prefetch_offer (fuel : nat) (w E i : Z) (W_sofar : F) (t sid B_samp : Z)
    (heap : PrefetchHeap.t) (keep : list Z) (partners : list (list Z))
    : option (PrefetchHeap.t * list Z * list (list Z)) :=
  match fuel with
  | O => None
  | Datatypes.S fuel' =>
      kp ← vget keep sid;
      let r := wrap32 (kp + 1) in
      let sc := SlotScorePoisson w (wrap32 E) i W_sofar t r in
      if PrefetchHeap.Size heap <? B_samp then
        keep ← vincr keep sid;
        prefetch_offer fuel' w E i W_sofar t sid B_samp
          (PrefetchHeap.Push heap (mkPrefetchSlot sc sid)) keep partners
      else if match PrefetchHeap.MinScore heap with
              | Some m => f_ltb m sc
              | None => true
              end
      then
        let heap := PrefetchHeap.Push heap (mkPrefetchSlot sc sid) in
        keep ← vincr keep sid;
        '(popped, heap) ← PrefetchHeap.PopMin heap;
        '(keep, partners) ← drop_kept popped keep partners;
        prefetch_offer fuel' w E i W_sofar t sid B_samp heap keep partners
      else Some (heap, keep, partners)
  end.

(** The patterns of the [s_keep] prefetched samples and their counts. *)
Definition prefetch_patterns (wa wb s_keep : Z) (g : Rng)
    : option (list Z * Z * Z) :=
  '(pat, kA, kB, _) ←
    ofold (fun '(pat, kA, kB, g) (_ : Z) =>
             '(p, g) ← draw_pattern wa wb g;
             if p =? 0 then Some (pat ++ [p], wrap32 (kA + 1), kB, g)
             else Some (pat ++ [p], kA, wrap32 (kB + 1), g))
          (upto s_keep) ([], 0, 0, g);
  Some (pat, kA, kB).

(** The prefetched samples in slot order: the next A or B sample according
    to the pattern of the slot. *)
Fixpoint interleave (pat sampA sampB : list Z) : option (list Z) :=
  match pat with
  | [] => Some []
  | p :: pat' =>
      if p =? 0 then
        match sampA with
        | a :: sampA' => rest ← interleave pat' sampA' sampB; Some (a :: rest)
        | [] => None
        end
      else
        match sampB with
        | b :: sampB' => rest ← interleave pat' sampA sampB'; Some (b :: rest)
        | [] => None
        end
  end.

Definition prefetch_samples (other : ActiveIndex2D.t) (q_ylo q_yhi wa wb sid s_keep : Z)
    (base_prefetch_seed : Z) : outcome (list Z) :=
  let ev_seed := DeriveSeed3 base_prefetch_seed 0xA11C3E sid in
  let rng_pat := RngOps.Seed (DeriveSeed ev_seed 1) in
  let rng_samp := RngOps.Seed (DeriveSeed ev_seed 2) in
  '(pat, kA, kB) ← lift_opt (prefetch_patterns wa wb s_keep rng_pat);
  '(sampA, rng_samp) ←
    (if 0 <? kA then
       '(ok, sampA, g) ← lift_opt (ActiveIndex2D.SampleA other q_ylo kA rng_samp);
       if negb ok || negb (Z.of_nat (length sampA) =? kA)
       then Fail "OursAdaptiveBaseline::Count: prefetch SampleA failed"
       else Done (sampA, g)
     else Done ([], rng_samp));
  '(sampB, _) ←
    (if 0 <? kB then
       '(ok, sampB, g) ← lift_opt (ActiveIndex2D.SampleB other q_ylo q_yhi kB rng_samp);
       if negb ok || negb (Z.of_nat (length sampB) =? kB)
       then Fail "OursAdaptiveBaseline::Count: prefetch SampleB failed"
       else Done (sampB, g)
     else Done ([], rng_samp));
  lift_opt (interleave pat sampA sampB).

Definition set_weights (st : count_state) (w_a w_b w_total : list Z) (W : Z)
    (W_sofar : F) : count_state :=
  mkCountState (cs_ar st) (cs_as st) w_a w_b w_total W W_sofar
    (cs_cached st) (cs_cache_off st) (cs_cache_len st) (cs_cache_partners st)
    (cs_prefetch_keep st) (cs_prefetch_partners st) (cs_heap st) (cs_mem_full st).

Definition set_actives (st : count_state) (ar as_ : ActiveIndex2D.t) : count_state :=
  mkCountState ar as_ (cs_w_a st) (cs_w_b st) (cs_w_total st) (cs_W st)
    (cs_W_sofar st) (cs_cached st) (cs_cache_off st) (cs_cache_len st)
    (cs_cache_partners st) (cs_prefetch_keep st) (cs_prefetch_partners st)
    (cs_heap st) (cs_mem_full st).

(** The full-cache branch of a START event. *)
Definition full_cache (budget_B : Z) (other : ActiveIndex2D.t) (q_ylo q_yhi w sid : Z)
    (st : count_state) : outcome count_state :=
  cached ← lift_opt (vset (cs_cached st) sid 1);
  let off := Z.of_nat (length (cs_cache_partners st)) in
  cache_off ← lift_opt (vset (cs_cache_off st) sid off);
  tmp ← lift_opt (ActiveIndex2D.ReportA other q_ylo []);
  let partners := cs_cache_partners st ++ tmp in
  tmp ← lift_opt (ActiveIndex2D.ReportB other q_ylo q_yhi []);
  let partners := partners ++ tmp in
  let len := wrap64 (Z.of_nat (length partners) - off) in
  cache_len ← lift_opt (vset (cs_cache_len st) sid len);
  if negb (len =? w)
  then Fail "OursAdaptiveBaseline::Count: cache REPORT size mismatch (bug)"
  else
    let mem_full := wrap64 (cs_mem_full st + w) in
    let B_samp := if mem_full <? budget_B then budget_B - mem_full else 0 in
    '(heap, keep, pp) ←
      lift_opt (shrink_heap (Datatypes.S (length (cs_heap st))) B_samp (cs_heap st)
                  (cs_prefetch_keep st) (cs_prefetch_partners st));
    Done (mkCountState (cs_ar st) (cs_as st) (cs_w_a st) (cs_w_b st) (cs_w_total st)
            (cs_W st) (cs_W_sofar st) cached cache_off cache_len partners
            keep pp heap mem_full).

(** The prefetch branch of a START event. *)
Definition prefetch (cfg : Config) (budget_B E i base_prefetch_seed : Z)
    (other : ActiveIndex2D.t) (q_ylo q_yhi wa wb w sid : Z) (st : count_state)
    : outcome count_state :=
  let B_samp := if cs_mem_full st <? budget_B then budget_B - cs_mem_full st else 0 in
  if 0 <? B_samp then
    '(heap, keep, pp) ←
      lift_opt (prefetch_offer (Datatypes.S (Datatypes.S (Z.to_nat B_samp)))
                  w E i (cs_W_sofar st) (run_t cfg) sid B_samp
                  (cs_heap st) (cs_prefetch_keep st) (cs_prefetch_partners st));
    s_keep ← lift_opt (vget keep sid);
    pp ← (if 0 <? s_keep then
            dst ← prefetch_samples other q_ylo q_yhi wa wb sid s_keep base_prefetch_seed;
            lift_opt (vset pp sid dst)
          else Done pp);
    Done (mkCountState (cs_ar st) (cs_as st) (cs_w_a st) (cs_w_b st) (cs_w_total st)
            (cs_W st) (cs_W_sofar st) (cs_cached st) (cs_cache_off st)
            (cs_cache_len st) (cs_cache_partners st) keep pp heap (cs_mem_full st))
  else Done st.

Definition Count_step (cfg : Config) (ctx : Ours2DContext.t)
    (budget_B w_small E base_prefetch_seed : Z) (enable_prefetch : bool)
    (st : count_state) (pe : Z * Event) : outcome count_state :=
  let '(pos, ev) := pe in
  match ev_kind ev with
  | End =>
      '(ar, as_) ← lift_opt (sweep_erase ev (cs_ar st) (cs_as st));
      Done (set_actives st ar as_)
  | Start =>
      sid_i32 ← lift_opt (vget (Ours2DContext.start_id_of_event_ ctx) pos);
      let sid := wrap32 sid_i32 in
      if wrap32 E <=? sid
      then Fail "OursAdaptiveBaseline::Count: sid out of range"
      else
        let i := wrap32 (sid + 1) in
        '(q_ylo, q_yhi) ← lift_opt (Ours2DContext.query_ranks ctx ev);
        let other := sweep_other ev (cs_ar st) (cs_as st) in
        wa ← lift_opt (ActiveIndex2D.CountA other q_ylo);
        wb ← lift_opt (ActiveIndex2D.CountB other q_ylo q_yhi);
        let w := wrap64 (wa + wb) in
        w_a ← lift_opt (vset (cs_w_a st) sid wa);
        w_b ← lift_opt (vset (cs_w_b st) sid wb);
        w_total ← lift_opt (vset (cs_w_total st) sid w);
        W ← (if 0 <? w then
               if u64_max - w <? cs_W st
               then Fail "OursAdaptiveBaseline::Count: |J| overflowed u64"
               else Done (cs_W st + w)
             else Done (cs_W st));
        let st := set_weights st w_a w_b w_total W (f_add (cs_W_sofar st) (f_of_Z w)) in
        let can_full_cache :=
          (0 <? w_small) && (0 <? w) && (w <=? w_small)
          && (wrap64 (cs_mem_full st + w) <=? budget_B) in
        st ← (if can_full_cache then full_cache budget_B other q_ylo q_yhi w sid st
              else if enable_prefetch && (0 <? w)
              then prefetch cfg budget_B E i base_prefetch_seed other q_ylo q_yhi wa wb w sid st
              else Done st);
        '(ar, as_) ← lift_opt (sweep_insert ev q_ylo q_yhi (cs_ar st) (cs_as st));
        Done (set_actives st ar as_)
  end.

Definition Count (b : t) (cfg : Config) (g : Rng) : outcome (CountResult * t * Rng) :=
  if negb (built_ b) || negb (Ours2DContext.built_ (ctx_ b))
     || negb (bool_decide (is_Some (Ours2DContext.ds_ (ctx_ b))))
  then Fail "OursAdaptiveBaseline::Count: call Build() first"
  else
    let E := Z.of_nat (length (w_total_ b)) in
    let budget_B := ExtraU64Or cfg "budget" (run_j_star cfg) in
    let w_small := ExtraU64Or cfg "w_small" 0 in
    let enable_prefetch := (0 <? budget_B) && (0 <? run_t cfg) in
    let '(base_prefetch_seed, g) :=
      if enable_prefetch then RngOps.NextU64 g else (0, g) in
    let ctx := Ours2DContext.ResetActive (ctx_ b) in
    st ← outfold (Count_step cfg ctx budget_B w_small E base_prefetch_seed enable_prefetch)
         (with_pos (Ours2DContext.events_ ctx))
         (mkCountState (Ours2DContext.active_r_ ctx) (Ours2DContext.active_s_ ctx)
            (map (fun _ => 0) (w_a_ b)) (map (fun _ => 0) (w_b_ b))
            (map (fun _ => 0) (w_total_ b)) 0 f_zero
            (map (fun _ => 0) (cached_ b)) (map (fun _ => 0) (cache_off_ b))
            (map (fun _ => 0) (cache_len_ b)) []
            (map (fun _ => 0) (prefetch_keep_ b))
            (map (fun _ => []) (prefetch_partners_ b)) [] 0);
    let ctx := Ours2DContext.ResetActive
                 (Ours2DContext.set_active ctx (cs_ar st) (cs_as st)) in
    let used := wrap64 (cs_mem_full st + PrefetchHeap.Size (cs_heap st)) in
    let budget_used := if budget_B <? used then budget_B else used in
    Done (MakeExactCount (cs_W st),
          mk (built_ b) ctx (start_side_ b) (start_index_ b)
             (cs_w_total st) (cs_w_a st) (cs_w_b st) (cs_W st) true
             (cs_cached st) (cs_cache_off st) (cs_cache_len st) (cs_cache_partners st)
             (cs_prefetch_keep st) (cs_prefetch_partners st) true
             budget_B budget_used w_small, g).

(** [by_sid_slot], the order of the slot assignments. *)
Definition by_sid_slot (a b : Z * Z) : bool :=
  if fst a <? fst b then true
  else if fst b <? fst a then false
  else snd a <? snd b.

(** The pair written for partner [oh] of the query rectangle [q_idx]. *)
Definition cache_pair (ds : Dataset) (side : Side) (q_id oh : Z) : option PairId :=
  match side with
  | SideR => s ← RelationOps.GetId (S ds) oh; Some (mkPairId q_id s)
  | SideS => r ← RelationOps.GetId (R ds) oh; Some (mkPairId r q_id)
  end.

(** The slots of one event when its partner list is fully cached. *)
Definition fill_from_cache (b : t) (ds : Dataset) (side : Side) (q_id sid : Z)
    (seed_cache : Z) (slots : list Z) (pairs : list PairId) : outcome (list PairId) :=
  len ← lift_opt (vget (cache_len_ b) sid);
  off ← lift_opt (vget (cache_off_ b) sid);
  if len =? 0 then Fail "OursAdaptiveBaseline::Sample: cached sid has empty cache"
  else
    let crng := RngOps.Seed (DeriveSeed3 seed_cache 0xCA11CE sid) in
    '(pairs, _) ←
      lift_opt (ofold (fun '(pairs, crng) slot =>
                         '(pick, crng) ← RngOps.UniformU64 len crng;
                         oh ← vget (cache_partners_ b) (wrap64 (off + pick));
                         p ← cache_pair ds side q_id oh;
                         pairs ← vset pairs slot p;
                         Some (pairs, crng)) slots (pairs, crng));
    Done pairs.

(** The slots of one event that is not fully cached: the prefetched
    prefix first, then the residual slots, tagged with a pattern. *)
Definition fill_from_prefetch (b : t) (ds : Dataset) (side : Side) (q_id sid : Z)
    (seed_pat : Z) (slots : list Z) (k : Z)
    (st : list PairId * list (Z * Z) * list (Z * Z))
    : outcome (list PairId * list (Z * Z) * list (Z * Z)) :=
  let '(pairs, asg_a, asg_b) := st in
  pref ← lift_opt (vget (prefetch_partners_ b) sid);
  let s := wrap32 (Z.of_nat (length pref)) in
  let a := if s <? k then s else k in
  pairs ← lift_opt (ofold (fun pairs j =>
                             slot ← vget slots j;
                             oh ← vget pref j;
                             p ← cache_pair ds side q_id oh;
                             vset pairs slot p) (upto a) pairs);
  if a <? k then
    wa ← lift_opt (vget (w_a_ b) sid);
    wb ← lift_opt (vget (w_b_ b) sid);
    let w := wrap64 (wa + wb) in
    if w =? 0
    then Fail "OursAdaptiveBaseline::Sample: sampled an event with w_e==0 (unexpected)"
    else
      let prng := RngOps.Seed (DeriveSeed3 seed_pat 0xA7717 sid) in
      '(asg_a, asg_b, _) ←
        lift_opt (ofold (fun '(asg_a, asg_b, prng) j =>
                           slot ← vget slots j;
                           '(pat, prng) ← draw_pattern wa wb prng;
                           if pat =? 0 then Some (asg_a ++ [(sid, slot)], asg_b, prng)
                           else Some (asg_a, asg_b ++ [(sid, slot)], prng))
                    (seqZ a (k - a)) (asg_a, asg_b, prng));
      Done (pairs, asg_a, asg_b)
  else Done (pairs, asg_a, asg_b).

(** The run of assignments of event [sid] at the front of [asg]
    ([while (end < asg.size() && asg[end].sid == sid) ++end]) and the rest. *)
Fixpoint run_of (sid : Z) (asg : list (Z * Z)) : list (Z * Z) * list (Z * Z) :=
  match asg with
  | [] => ([], [])
  | x :: asg' =>
      if fst x =? sid
      then let '(grp, rest) := run_of sid asg' in (x :: grp, rest)
      else ([], asg)
  end.

(** The loop over the runs of equal [sid] in the sorted assignment. *)
Fixpoint fill_groups (fuel : nat) (b : t) (ds : Dataset) (seed_cache seed_pat : Z)
    (asg : list (Z * Z)) (st : list PairId * list (Z * Z) * list (Z * Z))
    : outcome (list PairId * list (Z * Z) * list (Z * Z)) :=
  match fuel with
  | O => Undef
  | Datatypes.S fuel' =>
      match asg with
      | [] => Done st
      | (sid, _) :: _ =>
          let '(grp, rest) := run_of sid asg in
          let slots := map snd grp in
          let k := wrap32 (Z.of_nat (length grp)) in
          side ← lift_opt (vget (start_side_ b) sid);
          q_idx ← lift_opt (vget (start_index_ b) sid);
          q_id ← lift_opt (match side with
                           | SideR => RelationOps.GetId (R ds) q_idx
                           | SideS => RelationOps.GetId (S ds) q_idx
                           end);
          c ← lift_opt (vget (cached_ b) sid);
          st ← (if negb (c =? 0) then
                  let '(pairs, asg_a, asg_b) := st in
                  pairs ← fill_from_cache b ds side q_id sid seed_cache slots pairs;
                  Done (pairs, asg_a, asg_b)
                else fill_from_prefetch b ds side q_id sid seed_pat slots k st);
          fill_groups fuel' b ds seed_cache seed_pat rest st
      end
  end.

(** The residual plan of one pattern: counts, prefix sums in place, and
    the cursor fill. *)
Definition residual_plan (E : Z) (asg : list (Z * Z)) : option (list Z * list Z) :=
  let asg := std_sort by_sid_slot asg in
  offset ← ofold (fun off (x : Z * Z) => vincr off (fst x + 1)) asg
              (replicate (Z.to_nat (E + 1)) 0);
  offset ← ofold (fun off i =>
                    a ← vget off i;
                    c ← vget off (i + 1);
                    vset off (i + 1) (wrap32 (c + a))) (upto E) offset;
  '(slots, _) ←
    ofold (fun '(slots, cursor) (x : Z * Z) =>
             pos ← vget cursor (fst x);
             cursor ← vset cursor (fst x) (wrap32 (pos + 1));
             slots ← vset slots pos (snd x);
             Some (slots, cursor)) asg
          (replicate (length asg) 0, offset);
  Some (offset, slots).

(** One event of the residual sweep; each event draws from generators
    derived from [seed_sweep] and its START id. *)
Definition Sample_step (ctx : Ours2DContext.t) (ds : Dataset) (plan : SlotPlan2D)
    (seed_sweep : Z)
    (st : ActiveIndex2D.t * ActiveIndex2D.t * list PairId) (pe : Z * Event)
    : outcome (ActiveIndex2D.t * ActiveIndex2D.t * list PairId) :=
  let '(ar, as_, pairs) := st in
  let '(pos, ev) := pe in
  match ev_kind ev with
  | End =>
      '(ar, as_) ← lift_opt (sweep_erase ev ar as_);
      Done (ar, as_, pairs)
  | Start =>
      sid_i32 ← lift_opt (vget (Ours2DContext.start_id_of_event_ ctx) pos);
      let sid := wrap32 sid_i32 in
      '(q_ylo, q_yhi) ← lift_opt (Ours2DContext.query_ranks ctx ev);
      let other := sweep_other ev ar as_ in
      let ev_seed := DeriveSeed3 seed_sweep 0x5EED sid in
      let rngA := RngOps.Seed (DeriveSeed ev_seed 1) in
      let rngB := RngOps.Seed (DeriveSeed ev_seed 2) in
      '(pairs, _) ←
        sample_pattern "OursAdaptiveBaseline::Sample: residual SampleA failed"
          ds ev (ActiveIndex2D.SampleA other q_ylo)
          (offset_a plan) (slots_a plan) sid (sid + 1) pairs rngA;
      '(pairs, _) ←
        sample_pattern "OursAdaptiveBaseline::Sample: residual SampleB failed"
          ds ev (ActiveIndex2D.SampleB other q_ylo q_yhi)
          (offset_b plan) (slots_b plan) sid (sid + 1) pairs rngB;
      '(ar, as_) ← lift_opt (sweep_insert ev q_ylo q_yhi ar as_);
      Done (ar, as_, pairs)
  end.

Definition set_ctx (b : t) (ctx : Ours2DContext.t) : t :=
  mk (built_ b) ctx (start_side_ b) (start_index_ b) (w_total_ b) (w_a_ b) (w_b_ b)
     (W_ b) (weights_valid_ b) (cached_ b) (cache_off_ b) (cache_len_ b)
     (cache_partners_ b) (prefetch_keep_ b) (prefetch_partners_ b) (cache_valid_ b)
     (budget_B_ b) (budget_used_ b) (w_small_ b).

Definition Sample (b : t) (cfg : Config) (g : Rng) : outcome (SampleSet * t * Rng) :=
  match Ours2DContext.ds_ (ctx_ b) with
  | Some ds =>
    if negb (built_ b) || negb (Ours2DContext.built_ (ctx_ b))
    then Fail "OursAdaptiveBaseline::Sample: call Build() first"
    else if u32_max <? run_t cfg
    then Fail "OursAdaptiveBaseline::Sample: run.t too large (must fit in u32)"
    else
      let t := wrap32 (run_t cfg) in
      let out := mkSampleSet [] 0 false true in
      if t =? 0 then Done (out, b, g)
      else
        '(b, g) ← (if weights_valid_ b && cache_valid_ b then Done (b, g)
                   else '(_, b, g) ← Count b cfg g; Done (b, g));
        if W_ b =? 0 then Done (out, b, g)
        else
          let E := Z.of_nat (length (w_total_ b)) in
          alias ← AliasTable.BuildFromU64 (w_total_ b);
          let '(seed_assign, g) := RngOps.NextU64 g in
          let '(seed_cache, g) := RngOps.NextU64 g in
          let '(seed_pat, g) := RngOps.NextU64 g in
          let '(seed_sweep, g) := RngOps.NextU64 g in
          '(asg, _) ←
            lift_opt (ofold (fun '(asg, rng_assign) j =>
                               '(i, rng_assign) ← AliasTable.Sample alias rng_assign;
                               Some (asg ++ [(wrap32 i, j)], rng_assign))
                        (upto t) ([], RngOps.Seed seed_assign));
          let asg := std_sort by_sid_slot asg in
          let pairs := replicate (Z.to_nat t) (mkPairId 0 0) in
          '(pairs, asg_a, asg_b) ←
            fill_groups (Datatypes.S (length asg)) b ds seed_cache seed_pat asg
              (pairs, [], []);
          if Nat.eqb (length asg_a) 0 && Nat.eqb (length asg_b) 0
          then Done (mkSampleSet pairs 0 false true, b, g)
          else
            '(offset_a, slots_a) ← lift_opt (residual_plan E asg_a);
            '(offset_b, slots_b) ← lift_opt (residual_plan E asg_b);
            let plan := mkSlotPlan2D offset_a offset_b slots_a slots_b in
            let ctx := Ours2DContext.ResetActive (ctx_ b) in
            '(ar, as_, pairs) ←
              outfold (Sample_step ctx ds plan seed_sweep)
                (with_pos (Ours2DContext.events_ ctx))
                (Ours2DContext.active_r_ ctx, Ours2DContext.active_s_ ctx, pairs);
            let ctx := Ours2DContext.ResetActive (Ours2DContext.set_active ctx ar as_) in
            Done (mkSampleSet pairs 0 false true, set_ctx b ctx, g)
  | None => Fail "OursAdaptiveBaseline::Sample: call Build() first"
  end.

End WithFloats.
End OursAdaptiveBaseline.

(** ** The runner protocol (baselines/baseline_api.h, baselines/runners) *)

Section WithFloats.
Context `{FloatOps}.

(** The interface [IBaseline]: every method takes the object and returns
    it updated. *)
Class IBaseline (B : Type) := {
  Reset : B -> B;
  Build : B -> Dataset -> Config -> outcome B;
  Count : B -> Config -> Rng -> outcome (CountResult * B * Rng);
  Sample : B -> Config -> Rng -> outcome (SampleSet * B * Rng)
}.

#[global] Instance OursSampling_IBaseline : IBaseline OursSamplingBaseline.t := {|
  Reset := OursSamplingBaseline.Reset;
  Build := OursSamplingBaseline.Build;
  Count := fun b cfg g =>
             '(c, b) ← OursSamplingBaseline.Count b cfg; Done (c, b, g);
  Sample := OursSamplingBaseline.Sample
|}.

#[global] Instance OursAdaptive_IBaseline : IBaseline OursAdaptiveBaseline.t := {|
  Reset := OursAdaptiveBaseline.Reset;
  Build := OursAdaptiveBaseline.Build;
  Count := OursAdaptiveBaseline.Count;
  Sample := OursAdaptiveBaseline.Sample
|}.

Record RunReport := mkRunReport {
  ok : bool;
  rr_seed : Z;
  rr_t : Z;
  rr_count : CountResult;
  rr_samples : SampleSet
}.

(** The protocol shared by [RunSamplingOnce] and [RunAdaptiveOnce]:
    Reset, Build, Count, Sample, with one generator per phase. *)
Definition run_protocol {B} `{IBaseline B} (baseline : B) (dataset : Dataset)
    (cfg : Config) (seed : Z) : outcome (RunReport * B) :=
  let rng_count := RngOps.Seed (DeriveSeed seed 1) in
  let rng_sample := RngOps.Seed (DeriveSeed seed 2) in
  let baseline := Reset baseline in
  baseline ← Build baseline dataset cfg;
  '(count, baseline, _) ← Count baseline cfg rng_count;
  '(samples, baseline, _) ← Sample baseline cfg rng_sample;
  _ ← match SampleSetOps.Validate samples with
      | Done u => Done u
      | Fail v_err => Fail ("SampleSet validation failed: " ++ v_err)
      | Undef => Undef
      end;
  Done (mkRunReport true seed (run_t cfg) count samples, baseline).

Definition RunSamplingOnce {B} `{IBaseline B} (baseline : B) (dataset : Dataset)
    (cfg : Config) (seed : Z) : outcome (RunReport * B) :=
  run_protocol baseline dataset cfg seed.

Definition RunAdaptiveOnce {B} `{IBaseline B} (baseline : B) (dataset : Dataset)
    (cfg : Config) (seed : Z) : outcome (RunReport * B) :=
  run_protocol baseline dataset cfg seed.

End WithFloats.

(** ** Membership tests and bounding boxes (geometry/box.h) *)

Module BoxQueries.

(** [Box::Contains]: half-open membership of a point. *)
Definition Contains (b : Box) (p : Point) : bool :=
  if BoxOps.IsEmpty b then false
  else forallb (fun i => negb (coord p i <? coord (lo b) i)
                         && (coord p i <? coord (hi b) i)) axes.

(** [Box::ContainsBox]: [outer.ContainsBox(inner)]. *)
Definition ContainsBox (outer inner : Box) : bool :=
  if BoxOps.IsEmpty inner then true
  else if BoxOps.IsEmpty outer then false
  else forallb (fun i => negb (coord (lo inner) i <? coord (lo outer) i)
                         && negb (coord (hi outer) i <? coord (hi inner) i)) axes.

(** [Box::ExpandToIncludeBox]: the box [a] after [a.ExpandToIncludeBox(b)]. *)
Definition ExpandToIncludeBox (a b : Box) : Box :=
  let lo_ i := if coord (lo b) i <? coord (lo a) i then coord (lo b) i else coord (lo a) i in
  let hi_ i := if coord (hi a) i <? coord (hi b) i then coord (hi b) i else coord (hi a) i in
  mkBox (mkPoint (lo_ 0%nat) (lo_ 1%nat)) (mkPoint (hi_ 0%nat) (hi_ 1%nat)).

End BoxQueries.

(** ** Editing a relation (io/dataset.h) *)

Module RelationEdit.

(** [ids.resize(n)] on a vector of [Id]: cut, or padded with zeros. *)
Definition resize (n : nat) (l : list Z) : list Z :=
  take n l ++ replicate (n - length l) 0.

(** The ids [0 .. n-1], each narrowed to [Id]. *)
Definition sequential_ids (n : nat) : list Z := map wrap32 (upto (Z.of_nat n)).

Definition EnsureIds (r : Relation) : Relation :=
  match ids r with
  | [] => mkRelation (boxes r) (sequential_ids (length (boxes r)))
  | _ => r
  end.

Definition ForceSequentialIds (r : Relation) : Relation :=
  mkRelation (boxes r) (sequential_ids (length (boxes r))).

(** [Add(b, id)]: the box is appended; explicit ids appear with the first
    id given, and from then on every object has one. *)
Definition Add (r : Relation) (b : Box) (id : option Z) : Relation :=
  let boxes' := boxes r ++ [b] in
  match id with
  | Some x =>
      let ids0 :=
        if Nat.eqb (length (ids r)) 0 && (1 <? Z.of_nat (length boxes'))
        then sequential_ids (length boxes' - 1)
        else ids r in
      mkRelation boxes' (ids0 ++ [x])
  | None =>
      if negb (Nat.eqb (length (ids r)) 0)
      then mkRelation boxes' (ids r ++ [wrap32 (Z.of_nat (length boxes') - 1)])
      else mkRelation boxes' (ids r)
  end.

(** One round of the compaction loop of [RemoveEmptyBoxes]: [w] is the
    write position. *)
Definition compact_step (has_ids : bool) (st : list Box * list Z * Z) (i : Z)
    : option (list Box * list Z * Z) :=
  let '(bs, ids_, w) := st in
  b ← vget bs i;
  if negb (BoxOps.IsEmpty b) then
    '(bs, ids_) ←
      (if negb (w =? i) then
         bs ← vset bs w b;
         ids_ ← (if has_ids then x ← vget ids_ i; vset ids_ w x else Some ids_);
         Some (bs, ids_)
       else Some (bs, ids_));
    Some (bs, ids_, w + 1)
  else Some (bs, ids_, w).

Definition RemoveEmptyBoxes (r : Relation) : option Relation :=
  if Nat.eqb (length (boxes r)) 0 then Some r
  else
    let has_ids := negb (Nat.eqb (length (ids r)) 0) in
    '(bs, ids_, w) ← ofold (compact_step has_ids)
                     (upto (Z.of_nat (length (boxes r)))) (boxes r, ids r, 0);
    Some (mkRelation (take (Z.to_nat w) bs)
            (if has_ids then resize (Z.to_nat w) ids_ else ids_)).

End RelationEdit.

(** ** Enumerating the join by brute force (join/join_oracle.h) *)

(** [CollectNaivePairs]: the pairs in the order of [(i, j)]; with
    [0 < cap] the function returns as soon as [cap] pairs are collected,
    which the flag carried with [out] records. *)
Definition collect_inner (rb : Box) (rid : Z) (s : Relation) (cap : Z)
    (st : list PairId * bool) (jsb : Z * Box) : option (list PairId * bool) :=
  let '(out, stop) := st in
  if stop then Some st
  else
    let '(j, sb) := jsb in
    if IntersectsHalfOpen rb sb then
      sid ← RelationOps.GetId s j;
      let out := out ++ [mkPairId rid sid] in
      Some (out, (0 <? cap) && (cap <=? Z.of_nat (length out)))
    else Some st.

Definition collect_outer (r s : Relation) (cap : Z)
    (st : list PairId * bool) (irb : Z * Box) : option (list PairId * bool) :=
  let '(out, stop) := st in
  if stop then Some st
  else
    let '(i, rb) := irb in
    rid ← RelationOps.GetId r i;
    ofold (collect_inner rb rid s cap) (with_pos (boxes s)) st.

Definition CollectNaivePairs (r s : Relation) (cap : Z) : option (list PairId) :=
  st ← ofold (collect_outer r s cap) (with_pos (boxes r)) ([], false);
  Some (fst st).

(** ** The report-based join enumerator (baselines/ours/sampling.h) *)

Record JoinStats := mkJoinStats {
  num_events : Z;
  candidate_checks : Z;
  output_pairs : Z;
  active_max_r : Z;
  active_max_s : Z
}.

Definition JoinStats_Reset : JoinStats := mkJoinStats 0 0 0 0 0.

Module OursReportJoinEnumerator2D.

Inductive Stage := Scan | Emit.
Inductive Pattern := PatA | PatB.

(** The enumerator works on the context of the driver that created it;
    [ctx_] is that context, with the two active indices it owns. *)
Record t := mk {
  ctx_ : Ours2DContext.t;
  pos_ : Z;
  stage_ : Stage;
  pat_ : Pattern;
  q_is_r_ : bool;
  q_idx_ : Z;
  q_handle_ : Z;
  q_ylo_ : Z;
  q_yhi_ : Z;
  tmp_ : list Z;
  tmp_i_ : Z;
  stats_ : JoinStats;
  active_r_ : Z;
  active_s_ : Z
}.

Definition Reset (e : t) : t :=
  let ctx := Ours2DContext.ResetActive (ctx_ e) in
  mk ctx 0 Scan (pat_ e) (q_is_r_ e) (q_idx_ e) (q_handle_ e) (q_ylo_ e) (q_yhi_ e)
     [] 0
     (mkJoinStats (wrap64 (Z.of_nat (length (Ours2DContext.events_ ctx)))) 0 0 0 0)
     0 0.

(** The constructor: the default member initialisers, then [Reset]. *)
Definition Create (ctx : Ours2DContext.t) : t :=
  Reset (mk ctx 0 Scan PatA true 0 0 0 0 [] 0 JoinStats_Reset 0 0).

(** What one round of the loop [while (true)] of [Next] does: it goes
    round again, returns [true] with a pair, or returns [false]. *)
Inductive round :=
| Again (e : t)
| Yield (e : t) (p : PairId)
| Finished (e : t).

Definition other_index (e : t) : ActiveIndex2D.t :=
  if q_is_r_ e then Ours2DContext.active_s_ (ctx_ e)
  else Ours2DContext.active_r_ (ctx_ e).

Definition emit_pair (ds : Dataset) (e : t) (oh : Z) : option PairId :=
  if q_is_r_ e then
    r ← RelationOps.GetId (R ds) (q_idx_ e);
    s ← RelationOps.GetId (S ds) oh;
    Some (mkPairId r s)
  else
    r ← RelationOps.GetId (R ds) oh;
    s ← RelationOps.GetId (S ds) (q_idx_ e);
    Some (mkPairId r s).

Definition Next_round (e : t) : option round :=
  let ctx := ctx_ e in
  let ar := Ours2DContext.active_r_ ctx in
  let as_ := Ours2DContext.active_s_ ctx in
  match stage_ e with
  | Emit =>
      if tmp_i_ e <? Z.of_nat (length (tmp_ e)) then
        oh ← vget (tmp_ e) (tmp_i_ e);
        ds ← Ours2DContext.ds_ ctx;
        p ← emit_pair ds e oh;
        let st := stats_ e in
        let st := mkJoinStats (num_events st) (wrap64 (candidate_checks st + 1))
                    (wrap64 (output_pairs st + 1)) (active_max_r st) (active_max_s st) in
        Some (Yield (mk ctx (pos_ e) Emit (pat_ e) (q_is_r_ e) (q_idx_ e) (q_handle_ e)
                        (q_ylo_ e) (q_yhi_ e) (tmp_ e) (wrap64 (tmp_i_ e + 1)) st
                        (active_r_ e) (active_s_ e)) p)
      else
        match pat_ e with
        | PatA =>
            tmp ← ActiveIndex2D.ReportB (other_index e) (q_ylo_ e) (q_yhi_ e) [];
            Some (Again (mk ctx (pos_ e) Emit PatB (q_is_r_ e) (q_idx_ e) (q_handle_ e)
                            (q_ylo_ e) (q_yhi_ e) tmp 0 (stats_ e)
                            (active_r_ e) (active_s_ e)))
        | PatB =>
            let st := stats_ e in
            if q_is_r_ e then
              ar ← ActiveIndex2D.Insert ar (q_handle_ e) (q_ylo_ e) (q_yhi_ e);
              let n := wrap64 (active_r_ e + 1) in
              let st := mkJoinStats (num_events st) (candidate_checks st) (output_pairs st)
                          (if active_max_r st <? n then n else active_max_r st)
                          (active_max_s st) in
              Some (Again (mk (Ours2DContext.set_active ctx ar as_) (wrap64 (pos_ e + 1))
                              Scan PatB (q_is_r_ e) (q_idx_ e) (q_handle_ e)
                              (q_ylo_ e) (q_yhi_ e) (tmp_ e) (tmp_i_ e) st
                              n (active_s_ e)))
            else
              as_ ← ActiveIndex2D.Insert as_ (q_handle_ e) (q_ylo_ e) (q_yhi_ e);
              let n := wrap64 (active_s_ e + 1) in
              let st := mkJoinStats (num_events st) (candidate_checks st) (output_pairs st)
                          (active_max_r st)
                          (if active_max_s st <? n then n else active_max_s st) in
              Some (Again (mk (Ours2DContext.set_active ctx ar as_) (wrap64 (pos_ e + 1))
                              Scan PatB (q_is_r_ e) (q_idx_ e) (q_handle_ e)
                              (q_ylo_ e) (q_yhi_ e) (tmp_ e) (tmp_i_ e) st
                              (active_r_ e) n))
        end
  | Scan =>
      if Z.of_nat (length (Ours2DContext.events_ ctx)) <=? pos_ e then
        Some (Finished (mk (Ours2DContext.ResetActive ctx) (pos_ e) Scan (pat_ e)
                           (q_is_r_ e) (q_idx_ e) (q_handle_ e) (q_ylo_ e) (q_yhi_ e)
                           (tmp_ e) (tmp_i_ e) (stats_ e) (active_r_ e) (active_s_ e)))
      else
        ev ← vget (Ours2DContext.events_ ctx) (pos_ e);
        let handle := wrap32 (ev_index ev) in
        match ev_kind ev with
        | End =>
            '(ar, as_) ← sweep_erase ev ar as_;
            let '(nr, ns) :=
              match ev_side ev with
              | SideR => (wrap64 (active_r_ e - 1), active_s_ e)
              | SideS => (active_r_ e, wrap64 (active_s_ e - 1))
              end in
            Some (Again (mk (Ours2DContext.set_active ctx ar as_) (wrap64 (pos_ e + 1))
                            Scan (pat_ e) (q_is_r_ e) (q_idx_ e) (q_handle_ e)
                            (q_ylo_ e) (q_yhi_ e) (tmp_ e) (tmp_i_ e) (stats_ e) nr ns))
        | Start =>
            let q_is_r := match ev_side ev with SideR => true | SideS => false end in
            '(q_ylo, q_yhi) ← Ours2DContext.query_ranks ctx ev;
            tmp ← ActiveIndex2D.ReportA (if q_is_r then as_ else ar) q_ylo [];
            Some (Again (mk ctx (pos_ e) Emit PatA q_is_r (wrap32 (ev_index ev)) handle
                            q_ylo q_yhi tmp 0 (stats_ e) (active_r_ e) (active_s_ e)))
        end
  end.

(** [Next]: rounds until one returns.  A round that goes round again
    either moves to the next pattern or to the next event, so three rounds
    for each event and four more always suffice. *)
Fixpoint Next_loop (fuel : nat) (e : t) : option (t * option PairId) :=
  match fuel with
  | O => None
  | Datatypes.S fuel' =>
      r ← Next_round e;
      match r with
      | Again e' => Next_loop fuel' e'
      | Yield e' p => Some (e', Some p)
      | Finished e' => Some (e', None)
      end
  end.

Definition Next (e : t) : option (t * option PairId) :=
  Next_loop (4 + 3 * length (Ours2DContext.events_ (ctx_ e))) e.

End OursReportJoinEnumerator2D.

(** ** The enumerator over a vector of pairs
       (baselines/detail/vector_join_enumerator.h) *)

Module VectorJoinEnumerator.

(** [pairs_] points to a vector that the enumerator does not own; [None]
    is the null pointer. *)
Record t := mk {
  pairs_ : option (list PairId);
  pos_ : Z;
  stats_ : JoinStats
}.

Definition Create (pairs : option (list PairId)) : t := mk pairs 0 JoinStats_Reset.

Definition Reset (e : t) : t := mk (pairs_ e) 0 JoinStats_Reset.

Definition Next (e : t) : option (t * option PairId) :=
  match pairs_ e with
  | None => Some (e, None)
  | Some pairs =>
      if Z.of_nat (length pairs) <=? pos_ e then Some (e, None)
      else
        p ← vget pairs (pos_ e);
        let pos := wrap64 (pos_ e + 1) in
        let st := stats_ e in
        Some (mk (pairs_ e) pos
                 (mkJoinStats (num_events st) (candidate_checks st) pos
                    (active_max_r st) (active_max_s st)),
              Some p)
  end.

End VectorJoinEnumerator.

(** ** The interface of the enumerators (baselines/baseline_api.h) *)

(** [IJoinEnumerator]: [Reset], [Next] and [Stats]; the methods take the
    object and return it updated. *)
Class IJoinEnumerator (E : Type) := {
  enum_Reset : E -> E;
  enum_Next : E -> option (E * option PairId);
  enum_Stats : E -> JoinStats
}.

#[global] Instance OursReport_IJoinEnumerator
    : IJoinEnumerator OursReportJoinEnumerator2D.t := {|
  enum_Reset := OursReportJoinEnumerator2D.Reset;
  enum_Next := OursReportJoinEnumerator2D.Next;
  enum_Stats := OursReportJoinEnumerator2D.stats_
|}.

#[global] Instance Vector_IJoinEnumerator : IJoinEnumerator VectorJoinEnumerator.t := {|
  enum_Reset := VectorJoinEnumerator.Reset;
  enum_Next := VectorJoinEnumerator.Next;
  enum_Stats := VectorJoinEnumerator.stats_
|}.

(** What [Enumerate] of the drivers returns: an object of one of the two
    classes behind the interface.  The vector enumerator reads the cached
    vector of its driver and the report-based one sweeps with the context of
    its driver; here each holds the value its driver had when it was made. *)
Inductive JoinEnumerator :=
| OfVector (e : VectorJoinEnumerator.t)
| OfReport (e : OursReportJoinEnumerator2D.t).

#[global] Instance JoinEnumerator_IJoinEnumerator : IJoinEnumerator JoinEnumerator := {|
  enum_Reset e :=
    match e with
    | OfVector v => OfVector (enum_Reset v)
    | OfReport r => OfReport (enum_Reset r)
    end;
  enum_Next e :=
    match e with
    | OfVector v => '(v, o) ← enum_Next v; Some (OfVector v, o)
    | OfReport r => '(r, o) ← enum_Next r; Some (OfReport r, o)
    end;
  enum_Stats e :=
    match e with
    | OfVector v => enum_Stats v
    | OfReport r => enum_Stats r
    end
|}.

(** [Enumerate] of Framework II and of Framework III. *)
Definition OursSamplingBaseline_Enumerate (b : OursSamplingBaseline.t)
    : outcome JoinEnumerator :=
  if negb (OursSamplingBaseline.built_ b)
     || negb (Ours2DContext.built_ (OursSamplingBaseline.ctx_ b))
     || negb (bool_decide (is_Some (Ours2DContext.ds_ (OursSamplingBaseline.ctx_ b))))
  then Fail "OursSamplingBaseline::Enumerate: call Build() first"
  else Done (OfReport (OursReportJoinEnumerator2D.Create (OursSamplingBaseline.ctx_ b))).

Definition OursAdaptiveBaseline_Enumerate `{FloatOps} (b : OursAdaptiveBaseline.t)
    : outcome JoinEnumerator :=
  if negb (OursAdaptiveBaseline.built_ b)
     || negb (Ours2DContext.built_ (OursAdaptiveBaseline.ctx_ b))
     || negb (bool_decide (is_Some (Ours2DContext.ds_ (OursAdaptiveBaseline.ctx_ b))))
  then Fail "OursAdaptiveBaseline::Enumerate: call Build() first"
  else Done (OfReport (OursReportJoinEnumerator2D.Create (OursAdaptiveBaseline.ctx_ b))).

(** ** Framework I: enumerate, then sample (baselines/ours/enum_sampling.h) *)

Module OursEnumSamplingBaseline.
Section WithFloats.
Context `{FloatOps}.

Record t := mk {
  built_ : bool;
  pairs_cached_ : bool;
  pairs_ : list PairId;
  ctx_ : Ours2DContext.t
}.

Definition Reset (b : t) : t := mk false false [] (Ours2DContext.Reset (ctx_ b)).

Definition Build (b : t) (ds : Dataset) (cfg : Config) : outcome t :=
  let b := Reset b in
  ctx ← Ours2DContext.Build (ctx_ b) ds;
  Done (mk true (pairs_cached_ b) (pairs_ b) ctx).

(** The loop [while (it.Next(&p))] of [Count]; [fuel] bounds the number of
    calls of [Next].  The result is the vector of pairs with the enumerator,
    or the enumerator alone when the vector grew past [cap]. *)
Fixpoint materialize (fuel : nat) (cap : Z) (it : OursReportJoinEnumerator2D.t)
    (pairs : list PairId)
    : option (OursReportJoinEnumerator2D.t * option (list PairId)) :=
  match fuel with
  | O => None
  | Datatypes.S fuel' =>
      '(it, o) ← OursReportJoinEnumerator2D.Next it;
      match o with
      | Some p =>
          let pairs := pairs ++ [p] in
          if (0 <? cap) && (cap <? Z.of_nat (length pairs)) then Some (it, None)
          else materialize fuel' cap it pairs
      | None => Some (it, Some pairs)
      end
  end.

(** [Count]; [enum_cap] is [cfg.run.enum_cap].  One call of [Next] for every
    pair of the join and one more end the loop; the join has at most
    [|R| * |S|] pairs. *)
Definition Count (b : t) (enum_cap : Z) : outcome (CountResult * t) :=
  match Ours2DContext.ds_ (ctx_ b) with
  | Some ds =>
    if negb (built_ b) || negb (Ours2DContext.built_ (ctx_ b))
    then Fail "OursEnumSamplingBaseline::Count: call Build() first"
    else if pairs_cached_ b
    then Done (MakeExactCount (wrap64 (Z.of_nat (length (pairs_ b)))), b)
    else
      let fuel := Datatypes.S (length (boxes (R ds)) * length (boxes (S ds))) in
      '(it, o) ← lift_opt
        (materialize fuel enum_cap (OursReportJoinEnumerator2D.Create (ctx_ b)) []);
      let ctx := OursReportJoinEnumerator2D.ctx_ it in
      match o with
      | None =>
          Fail "OursEnumSamplingBaseline: join size exceeds enum_cap; refusing to materialize"
      | Some pairs =>
          Done (MakeExactCount (wrap64 (Z.of_nat (length pairs))),
                mk (built_ b) true pairs ctx)
      end
  | None => Fail "OursEnumSamplingBaseline::Count: call Build() first"
  end.

(** [out->pairs[i] = pairs_[rng->UniformU64(W)]] for [i < t]. *)
Definition resample (pairs : list PairId) (W t : Z) (g : Rng)
    : option (list PairId * Rng) :=
  ofold (fun '(out, g) (_ : Z) =>
           '(idx, g) ← RngOps.UniformU64 W g;
           p ← vget pairs idx;
           Some (out ++ [p], g)) (upto t) ([], g).

Definition Sample (b : t) (cfg : Config) (enum_cap : Z) (g : Rng)
    : outcome (SampleSet * t * Rng) :=
  match Ours2DContext.ds_ (ctx_ b) with
  | Some ds =>
    if negb (built_ b) || negb (Ours2DContext.built_ (ctx_ b))
    then Fail "OursEnumSamplingBaseline::Sample: call Build() first"
    else if u32_max <? run_t cfg
    then Fail "OursEnumSamplingBaseline::Sample: run.t too large (must fit in u32)"
    else
      let t := wrap32 (run_t cfg) in
      let out := mkSampleSet [] 0 false true in
      if t =? 0 then Done (out, b, g)
      else
        b ← (if pairs_cached_ b then Done b
             else '(_, b) ← Count b enum_cap; Done b);
        let W := wrap64 (Z.of_nat (length (pairs_ b))) in
        if W =? 0 then Done (out, b, g)
        else
          '(pairs, g) ← lift_opt (resample (pairs_ b) W t g);
          Done (mkSampleSet pairs 0 false true, b, g)
  | None => Fail "OursEnumSamplingBaseline::Sample: call Build() first"
  end.

Definition Enumerate (b : t) : outcome JoinEnumerator :=
  if negb (built_ b) || negb (Ours2DContext.built_ (ctx_ b))
     || negb (bool_decide (is_Some (Ours2DContext.ds_ (ctx_ b))))
  then Fail "OursEnumSamplingBaseline::Enumerate: call Build() first"
  else if pairs_cached_ b
  then Done (OfVector (VectorJoinEnumerator.Create (Some (pairs_ b))))
  else Done (OfReport (OursReportJoinEnumerator2D.Create (ctx_ b))).

End WithFloats.
End OursEnumSamplingBaseline.

(** ** Streaming and callback enumeration by brute force (join/join_oracle.h) *)

(** [EnumerateNaive] with a callback [emit] that threads a state of its own
    and answers whether to go on.  The flag of the loop state says that the
    callback has stopped the enumeration; the result is the final state of
    the callback and [true] when the enumeration was not stopped. *)
Section EnumerateNaive.
Context {St : Type}.
Variable emit : St -> PairId -> St * bool.

Definition enumerate_inner (rb : Box) (rid : Z) (s : Relation)
    (st : St * bool) (jsb : Z * Box) : option (St * bool) :=
  let '(a, stop) := st in
  if stop then Some st
  else
    let '(j, sb) := jsb in
    if IntersectsHalfOpen rb sb then
      sid ← RelationOps.GetId s j;
      let '(a, go) := emit a (mkPairId rid sid) in
      Some (a, negb go)
    else Some st.

Definition enumerate_outer (r s : Relation)
    (st : St * bool) (irb : Z * Box) : option (St * bool) :=
  let '(a, stop) := st in
  if stop then Some st
  else
    let '(i, rb) := irb in
    rid ← RelationOps.GetId r i;
    ofold (enumerate_inner rb rid s) (with_pos (boxes s)) st.

Definition EnumerateNaive (r s : Relation) (a : St) : option (St * bool) :=
  '(a, stop) ← ofold (enumerate_outer r s) (with_pos (boxes r)) (a, false);
  Some (a, negb stop).

End EnumerateNaive.

Module NaiveJoinStream.

Record t := mk {
  R_ : Relation;
  S_ : Relation;
  i_ : Z;
  j_ : Z;
  done_ : bool
}.

Definition Reset (s : t) : t := mk (R_ s) (S_ s) 0 0 false.

(** The constructor. *)
Definition Create (r s : Relation) : t := Reset (mk r s 0 0 false).

(** The loop [while (j_ < ns)] for the box [rb] of [R]; [js] are the values
    of [j_] still to visit.  The result is [j_] after the loop and the pair
    returned, if any. *)
Fixpoint inner (rb : Box) (rid : Z) (s : Relation) (js : list Z) (j0 : Z)
    : option (Z * option PairId) :=
  match js with
  | [] => Some (j0, None)
  | j :: js' =>
      sb ← vget (boxes s) j;
      sid ← RelationOps.GetId s j;
      if IntersectsHalfOpen rb sb then Some (j + 1, Some (mkPairId rid sid))
      else inner rb rid s js' (j + 1)
  end.

(** The loop [while (i_ < nr)]; [is_] are the values of [i_] still to
    visit and [j] is [j_] on entry.  The result is [i_] and [j_] after the
    loop and the pair returned, if any. *)
Fixpoint outer (r s : Relation) (is_ : list Z) (i0 j : Z)
    : option (Z * Z * option PairId) :=
  match is_ with
  | [] => Some (i0, j, None)
  | i :: is' =>
      rb ← vget (boxes r) i;
      rid ← RelationOps.GetId r i;
      let ns := Z.of_nat (length (boxes s)) in
      '(j', o) ← inner rb rid s (seqZ j (ns - j)) j;
      match o with
      | Some p => Some (i, j', Some p)
      | None => outer r s is' (i + 1) 0
      end
  end.

Definition Next (s : t) : option (t * option PairId) :=
  if done_ s then Some (s, None)
  else
    let nr := Z.of_nat (length (boxes (R_ s))) in
    '(i, j, o) ← outer (R_ s) (S_ s) (seqZ (i_ s) (nr - i_ s)) (i_ s) (j_ s);
    match o with
    | Some p => Some (mk (R_ s) (S_ s) i j false, Some p)
    | None => Some (mk (R_ s) (S_ s) i j true, None)
    end.

End NaiveJoinStream.

(** ** The runner of Framework I (baselines/runners/enum_sampling_runner.h) *)

Section WithFloats.
Context `{FloatOps}.

(** [OursEnumSamplingBaseline] behind the interface [IBaseline].  [Count]
    and [Sample] read [cfg.run.enum_cap], which the embedding passes next
    to the configuration; [Count] does not use its generator. *)
Definition OursEnumSampling_IBaseline (enum_cap : Z)
    : IBaseline OursEnumSamplingBaseline.t := {|
  Reset := OursEnumSamplingBaseline.Reset;
  Build := OursEnumSamplingBaseline.Build;
  Count := fun b cfg g =>
             '(c, b) ← OursEnumSamplingBaseline.Count b enum_cap; Done (c, b, g);
  Sample := fun b cfg g => OursEnumSamplingBaseline.Sample b cfg enum_cap g
|}.

(** [RunEnumSamplingOnce] follows the protocol of the other two runners;
    the fields of the report that describe the enumeration are not part of
    [RunReport] here. *)
Definition RunEnumSamplingOnce {B} `{IBaseline B} (baseline : B) (dataset : Dataset)
    (cfg : Config) (seed : Z) : outcome (RunReport * B) :=
  run_protocol baseline dataset cfg seed.

End WithFloats.

(** * Basic facts: vectors and machine words *)

Lemma wrap32_small z : 0 <= z < 2 ^ 32 -> wrap32 z = z.
Proof. intros Hz. unfold wrap32. apply Z.mod_small. exact Hz. Qed.

Lemma wrap64_small z : 0 <= z < 2 ^ 64 -> wrap64 z = z.
Proof. intros Hz. unfold wrap64. apply Z.mod_small. exact Hz. Qed.

Lemma wrap32_range z : 0 <= wrap32 z < 2 ^ 32.
Proof. unfold wrap32. apply Z.mod_pos_bound. lia. Qed.

Lemma wrap64_range z : 0 <= wrap64 z < 2 ^ 64.
Proof. unfold wrap64. apply Z.mod_pos_bound. lia. Qed.

Lemma vget_Some {A} (l : list A) i x :
  vget l i = Some x <-> 0 <= i /\ l !! Z.to_nat i = Some x.
Proof.
  unfold vget. destruct (Z.ltb_spec i 0).
  - split; [discriminate | intros [? _]; lia].
  - split; [intros ?; split; [lia | assumption] | intros [_ ?]; assumption].
Qed.

Lemma vget_lt {A} (l : list A) i x :
  vget l i = Some x -> 0 <= i < Z.of_nat (length l).
Proof.
  intros [Hi Hl]%vget_Some. apply lookup_lt_Some in Hl. lia.
Qed.

Lemma vget_is_Some {A} (l : list A) i :
  0 <= i < Z.of_nat (length l) -> exists x, vget l i = Some x.
Proof.
  intros Hi. destruct (lookup_lt_is_Some_2 l (Z.to_nat i)) as [x Hx]; [lia |].
  exists x. apply vget_Some. split; [lia | assumption].
Qed.

Lemma vset_Some {A} (l : list A) i x l' :
  vset l i x = Some l' <->
  0 <= i < Z.of_nat (length l) /\ l' = <[Z.to_nat i := x]> l.
Proof.
  unfold vset.
  destruct (Z.leb_spec 0 i) as [H0|H0], (Z.ltb_spec i (Z.of_nat (length l))) as [H1|H1];
    simpl; split; intros Hs; try (destruct Hs; lia); try discriminate.
  - injection Hs as <-. split; [lia | reflexivity].
  - destruct Hs as [_ ->]. reflexivity.
Qed.

Lemma vset_is_Some {A} (l : list A) i x :
  0 <= i < Z.of_nat (length l) -> vset l i x = Some (<[Z.to_nat i := x]> l).
Proof. intros Hi. apply vset_Some. split; [assumption | reflexivity]. Qed.

Lemma vset_length {A} (l : list A) i x l' :
  vset l i x = Some l' -> length l' = length l.
Proof. intros [_ ->]%vset_Some. apply length_insert. Qed.

Lemma vget_vset_eq {A} (l : list A) i x l' :
  vset l i x = Some l' -> vget l' i = Some x.
Proof.
  intros [Hi ->]%vset_Some. apply vget_Some. split; [lia |].
  apply list_lookup_insert_eq. lia.
Qed.

Lemma vget_vset_ne {A} (l : list A) i j x l' :
  vset l i x = Some l' -> i <> j -> vget l' j = vget l j.
Proof.
  intros [Hi ->]%vset_Some Hne. unfold vget.
  destruct (Z.ltb_spec j 0); [reflexivity |].
  apply list_lookup_insert_ne. lia.
Qed.

Lemma vget_replicate {A} n (x : A) i :
  0 <= i < Z.of_nat n -> vget (replicate n x) i = Some x.
Proof.
  intros Hi. apply vget_Some. split; [lia |].
  apply lookup_replicate_2. lia.
Qed.

Lemma vget_map {A B} (f : A -> B) l i :
  vget (map f l) i = f <$> vget l i.
Proof.
  unfold vget. destruct (Z.ltb_spec i 0); [reflexivity |].
  apply list_lookup_fmap.
Qed.

(** C10: with [k = 0] both [StabbingSegTree::Sample] and
    [RangePointSegTree::SampleRange] return success with an empty output
    vector, whatever the tree holds and whatever the query is, because the
    test of [k] comes first; a returned failure flag therefore implies
    [k <> 0], and on a tree that holds nothing a query with [k = 1] does
    report the failure. *)
Theorem sample_k0_precedes_emptiness :
  (forall st q g, StabbingSegTree.Sample st q 0 g = Some (true, [], g))
  /\ (forall st l r g, RangePointSegTree.SampleRange st l r 0 g = Some (true, [], g))
  /\ (forall st q k g out g',
        StabbingSegTree.Sample st q k g = Some (false, out, g') -> k <> 0)
  /\ (forall st l r k g out g',
        RangePointSegTree.SampleRange st l r k g = Some (false, out, g') -> k <> 0)
  /\ (forall q g, StabbingSegTree.Sample StabbingSegTree.Clear q 1 g = Some (false, [], g))
  /\ (forall l r g,
        RangePointSegTree.SampleRange RangePointSegTree.Clear l r 1 g = Some (false, [], g)).
Proof.
  repeat split.
  - intros st q k g out g' Hs ->. discriminate Hs.
  - intros st l r k g out g' Hs ->. discriminate Hs.
  - intros l r g. unfold RangePointSegTree.SampleRange. cbn [Z.eqb Pos.eqb].
    cbn [RangePointSegTree.Clear RangePointSegTree.m_ Z.eqb]. rewrite orb_true_r. reflexivity.
Qed.

(** * The event order *)

(** The rank the tie-break gives a side: the side named first gets 0. *)
Definition side_rank (tb : SideTieBreak) (s : Side) : Z :=
  match tb, s with
  | RBeforeS, SideR | SBeforeR, SideS => 0
  | _, _ => 1
  end.

(** The key of the fixed total order:
    (x, kind with End < Start, id, side by tie-break, index). *)
Definition event_key (tb : SideTieBreak) (e : Event) : list Z :=
  [ev_x e; kind_u8 (ev_kind e); ev_id e; side_rank tb (ev_side e); ev_index e].

(** Strict lexicographic order on keys. *)
Fixpoint lex_lt (a b : list Z) : Prop :=
  match a, b with
  | x :: a', y :: b' => x < y \/ (x = y /\ lex_lt a' b')
  | _, _ => False
  end.

Lemma EventLess_lex tb a b :
  EventLess tb a b = true <-> lex_lt (event_key tb a) (event_key tb b).
Proof.
  unfold EventLess, event_key, IsFirst. simpl.
  destruct a as [xa ka sa ia na], b as [xb kb sb ib nb]; simpl.
  repeat match goal with
         | |- context [Z.ltb ?u ?v] => destruct (Z.ltb_spec u v)
         end;
    destruct tb, sa, sb, ka, kb; simpl in *; split; intros; try discriminate;
    try reflexivity; try lia.
Qed.

Lemma lex_lt_trans a b c : lex_lt a b -> lex_lt b c -> lex_lt a c.
Proof.
  revert b c. induction a as [|x a IH]; intros [|y b] [|z c]; simpl; try tauto.
  intros [H1 | [-> H1]] [H2 | [-> H2]]; [left; lia | left; lia | left; lia |].
  right. split; [reflexivity | eauto].
Qed.

Lemma lex_lt_irrefl a : ~ lex_lt a a.
Proof. induction a as [|x a IH]; simpl; [tauto |]. intros [H | [_ H]]; [lia | tauto]. Qed.

Lemma lex_lt_total a b :
  length a = length b -> lex_lt a b \/ a = b \/ lex_lt b a.
Proof.
  revert b. induction a as [|x a IH]; intros [|y b] Hl; simpl in *; try discriminate.
  - right. left. reflexivity.
  - injection Hl as Hl. destruct (Z.lt_trichotomy x y) as [H | [-> | H]].
    + left. left. exact H.
    + destruct (IH b Hl) as [H | [-> | H]].
      * left. right. split; [reflexivity | exact H].
      * right. left. reflexivity.
      * right. right. right. split; [reflexivity | exact H].
    + right. right. left. exact H.
Qed.

Lemma EventLess_trans tb a b c :
  EventLess tb a b = true -> EventLess tb b c = true -> EventLess tb a c = true.
Proof. rewrite !EventLess_lex. apply lex_lt_trans. Qed.

Lemma EventLess_irrefl tb a : EventLess tb a a = false.
Proof.
  destruct (EventLess tb a a) eqn:E; [| reflexivity].
  apply EventLess_lex in E. destruct (lex_lt_irrefl _ E).
Qed.

Lemma side_rank_inj tb s s' : side_rank tb s = side_rank tb s' -> s = s'.
Proof. destruct tb, s, s'; simpl; intros; try reflexivity; lia. Qed.

Lemma kind_u8_inj k k' : kind_u8 k = kind_u8 k' -> k = k'.
Proof. destruct k, k'; simpl; intros; try reflexivity; lia. Qed.

Lemma event_key_inj tb a b : event_key tb a = event_key tb b -> a = b.
Proof.
  destruct a, b. unfold event_key. simpl. intros H. injection H as -> Hk -> Hs ->.
  apply kind_u8_inj in Hk. apply side_rank_inj in Hs. subst. reflexivity.
Qed.

(** [EventLess] is a strict total order: two events that it does not
    order are equal. *)
Lemma EventLess_total tb a b :
  EventLess tb a b = false -> EventLess tb b a = false -> a = b.
Proof.
  intros Hab Hba.
  destruct (lex_lt_total (event_key tb a) (event_key tb b)) as [H | [H | H]];
    [reflexivity | | |].
  - apply EventLess_lex in H. congruence.
  - apply (event_key_inj tb). exact H.
  - apply EventLess_lex in H. congruence.
Qed.

(** Negative transitivity, which is what sortedness composes with. *)
Lemma EventLess_neg_trans tb a b c :
  EventLess tb b a = false -> EventLess tb c b = false -> EventLess tb c a = false.
Proof.
  intros Hba Hcb. destruct (EventLess tb c a) eqn:Hca; [| reflexivity].
  destruct (EventLess tb a b) eqn:Hab.
  - rewrite (EventLess_trans tb c a b Hca Hab) in Hcb. discriminate.
  - rewrite <- (EventLess_total tb a b Hab Hba) in Hcb. congruence.
Qed.

(** * Insertion sort *)

Lemma StronglySorted_mono {A} (R1 R2 : A -> A -> Prop) l :
  (forall a b, R1 a b -> R2 a b) -> StronglySorted R1 l -> StronglySorted R2 l.
Proof.
  intros Himp. induction 1 as [|x l Hs IH Hx]; constructor; [exact IH |].
  eapply Forall_impl; [exact Hx | auto].
Qed.

Section Sorting.
Context {A : Type} (less : A -> A -> bool).

(** [a] may stand before [b]. *)
Definition not_after (a b : A) : Prop := less b a = false.

Hypothesis less_irrefl : forall a, less a a = false.
Hypothesis less_trans : forall a b c, less a b = true -> less b c = true -> less a c = true.
Hypothesis less_neg_trans :
  forall a b c, less b a = false -> less c b = false -> less c a = false.

Lemma less_asym a b : less a b = true -> less b a = false.
Proof using less_irrefl less_trans.
  intros Hab. destruct (less b a) eqn:Hba; [| reflexivity].
  rewrite <- (less_irrefl a). symmetry. eapply less_trans; eassumption.
Qed.

Lemma sort_insert_perm x l : sort_insert less x l ≡ₚ x :: l.
Proof using Type.
  induction l as [|y l IH]; simpl; [reflexivity |].
  destruct (less x y); [reflexivity |].
  rewrite IH. apply perm_swap.
Qed.

Lemma std_sort_perm l : std_sort less l ≡ₚ l.
Proof using Type.
  induction l as [|x l IH]; simpl; [reflexivity |].
  unfold std_sort in *. simpl. rewrite sort_insert_perm, IH. reflexivity.
Qed.

Lemma sort_insert_sorted x l :
  StronglySorted not_after l -> StronglySorted not_after (sort_insert less x l).
Proof using less_irrefl less_trans less_neg_trans.
  induction 1 as [|y l Hs IH Hy]; simpl.
  - repeat constructor.
  - destruct (less x y) eqn:Hxy.
    + constructor; [constructor; assumption |].
      constructor.
      * apply less_asym. exact Hxy.
      * rewrite Forall_forall in Hy |- *. intros z Hz.
        unfold not_after in *. specialize (Hy z Hz).
        eapply less_neg_trans; [| exact Hy]. apply less_asym. exact Hxy.
    + constructor; [exact IH |].
      rewrite Forall_forall in Hy |- *. intros z Hz.
      rewrite sort_insert_perm in Hz. apply elem_of_cons in Hz.
      destruct Hz as [-> | Hz]; [exact Hxy | apply Hy; exact Hz].
Qed.

Lemma std_sort_sorted l : StronglySorted not_after (std_sort less l).
Proof using less_irrefl less_trans less_neg_trans.
  induction l as [|x l IH]; [constructor |].
  apply sort_insert_sorted. exact IH.
Qed.

End Sorting.

Lemma SortSweepEvents_sorted evs tb :
  StronglySorted (not_after (EventLess tb)) (SortSweepEvents evs tb).
Proof.
  apply std_sort_sorted.
  - apply EventLess_irrefl.
  - apply EventLess_trans.
  - apply EventLess_neg_trans.
Qed.

Lemma SortSweepEvents_perm evs tb : SortSweepEvents evs tb ≡ₚ evs.
Proof. apply std_sort_perm. Qed.

(** * Segment-tree arithmetic: leaf-to-root paths and canonical covers *)

(** The nodes [idx, idx >> 1, ...] visited by [while (idx > 0)]. *)
Fixpoint path_nodes (fuel : nat) (idx : Z) : list Z :=
  match fuel with
  | O => []
  | Datatypes.S fuel' =>
      if 0 <? idx then idx :: path_nodes fuel' (Z.shiftr idx 1) else []
  end.

(** The nodes visited by the bottom-up loop [while (l < r)], in the order
    in which [Insert] and [Erase] of the stabbing tree visit them. *)
Fixpoint cover_nodes (fuel : nat) (l r : Z) : list Z :=
  match fuel with
  | O => []
  | Datatypes.S fuel' =>
      if l <? r then
        (if odd l then [l] else [])
        ++ (if odd r then [r - 1] else [])
        ++ cover_nodes fuel' (Z.shiftr (if odd l then l + 1 else l) 1)
                             (Z.shiftr (if odd r then r - 1 else r) 1)
      else []
  end.

Lemma odd_true z : odd z = true <-> z mod 2 = 1.
Proof.
  unfold odd. change 1 with (Z.ones 1) at 1. rewrite Z.land_ones by lia.
  change (2 ^ 1) with 2. destruct (Z.eqb_spec (z mod 2) 0) as [E|E]; simpl.
  - split; [discriminate | lia].
  - split; [| reflexivity]. intros _. pose proof (Z.mod_pos_bound z 2). lia.
Qed.

Lemma odd_false z : odd z = false <-> z mod 2 = 0.
Proof.
  destruct (odd z) eqn:E.
  - apply odd_true in E. split; [discriminate | lia].
  - split; [| reflexivity]. intros _.
    destruct (Z.eq_dec (z mod 2) 0) as [H|H]; [exact H |].
    assert (odd z = true) as H1; [| congruence].
    apply odd_true. pose proof (Z.mod_pos_bound z 2). lia.
Qed.

Lemma shiftr1 z : Z.shiftr z 1 = z / 2.
Proof. rewrite Z.shiftr_div_pow2 by lia. reflexivity. Qed.

Lemma path_nodes_bounds fuel x y : y ∈ path_nodes fuel x -> 1 <= y <= x.
Proof.
  revert x. induction fuel as [|fuel IH]; intros x; simpl.
  - intros H. inversion H.
  - destruct (Z.ltb_spec 0 x); [| intros H'; inversion H'].
    intros [-> | Hy]%elem_of_cons; [lia |].
    apply IH in Hy. rewrite shiftr1 in Hy.
    pose proof (Z.div_le_upper_bound x 2 x). lia.
Qed.

Lemma path_nodes_NoDup fuel x : NoDup (path_nodes fuel x).
Proof.
  revert x. induction fuel as [|fuel IH]; intros x; simpl; [constructor |].
  destruct (Z.ltb_spec 0 x); [| constructor].
  constructor; [| apply IH].
  intros Hx%path_nodes_bounds. rewrite shiftr1 in Hx.
  assert (x / 2 < x) by (apply Z.div_lt; lia). lia.
Qed.

(** Nodes on level [j] are those in [[2^j, 2^(j+1))]. *)
Lemma path_nodes_length (j : nat) fuel x :
  (j < fuel)%nat -> 2 ^ Z.of_nat j <= x < 2 ^ (Z.of_nat j + 1) ->
  length (path_nodes fuel x) = Datatypes.S j.
Proof.
  revert fuel x. induction j as [|j IH]; intros fuel x Hf Hx.
  - destruct fuel as [|fuel]; [lia |]. simpl in *.
    assert (x = 1) as -> by lia. simpl.
    destruct fuel; reflexivity.
  - destruct fuel as [|fuel]; [lia |]. simpl.
    destruct (Z.ltb_spec 0 x); [| lia]. simpl. f_equal.
    apply IH; [lia |]. rewrite shiftr1.
    rewrite Nat2Z.inj_succ in Hx.
    replace (2 ^ (Z.succ (Z.of_nat j) + 1)) with (2 * 2 ^ (Z.of_nat j + 1)) in Hx
      by (rewrite <- Z.pow_succ_r by lia; f_equal; lia).
    replace (2 ^ Z.succ (Z.of_nat j)) with (2 * 2 ^ Z.of_nat j) in Hx
      by (rewrite <- Z.pow_succ_r by lia; reflexivity).
    split.
    + apply Z.div_le_lower_bound; lia.
    + apply Z.div_lt_upper_bound; lia.
Qed.

Ltac odd_cases :=
  repeat match goal with
         | H : odd _ = true |- _ => apply odd_true in H
         | H : odd _ = false |- _ => apply odd_false in H
         end.

Lemma half_bounds z : 2 * (z / 2) <= z < 2 * (z / 2) + 2.
Proof. pose proof (Z.div_mod z 2). pose proof (Z.mod_pos_bound z 2). lia. Qed.

Lemma half_exact z : z = 2 * (z / 2) + z mod 2.
Proof. apply Z.div_mod. lia. Qed.

Lemma cover_nodes_bounds fuel l r c :
  c ∈ cover_nodes fuel l r -> 0 < l -> 0 < c < r.
Proof.
  revert l r. induction fuel as [|fuel IH]; intros l r; simpl.
  - intros H. inversion H.
  - destruct (Z.ltb_spec l r) as [Hlr|Hlr]; [| intros H'; inversion H'].
    intros Hc Hl. rewrite !elem_of_app in Hc. destruct Hc as [Hc | [Hc | Hc]].
    + destruct (odd l); [| inversion Hc]. apply list_elem_of_singleton in Hc. lia.
    + destruct (odd r) eqn:Er; [| inversion Hc].
      apply list_elem_of_singleton in Hc. lia.
    + apply IH in Hc.
      * rewrite !shiftr1 in Hc. destruct Hc as [Hc1 Hc2].
        split; [exact Hc1 |].
        pose proof (half_bounds (if odd r then r - 1 else r)).
        destruct (odd r); lia.
      * rewrite shiftr1.
        pose proof (half_bounds l). pose proof (half_bounds (l + 1)).
        pose proof (half_exact l).
        destruct (odd l) eqn:El; odd_cases; lia.
Qed.

Lemma pow2_succ (j : nat) : 2 ^ (Z.of_nat (Datatypes.S j)) = 2 * 2 ^ Z.of_nat j.
Proof. rewrite Nat2Z.inj_succ. rewrite Z.pow_succ_r by lia. reflexivity. Qed.

Lemma pow2_succ' (j : nat) : 2 ^ (Z.of_nat j + 1) = 2 * 2 ^ Z.of_nat j.
Proof. rewrite Z.pow_add_r by lia. lia. Qed.

Lemma pow2_pos (j : nat) : 0 < 2 ^ Z.of_nat j.
Proof. apply Z.pow_pos_nonneg; lia. Qed.

(** * Finite sums and counts *)

Definition zsum {A} (g : A -> Z) (l : list A) : Z :=
  fold_right (fun a acc => g a + acc) 0 l.

Definition zcount {A} (f : A -> bool) (l : list A) : Z :=
  zsum (fun a => if f a then 1 else 0) l.

Lemma zsum_app {A} (g : A -> Z) l1 l2 : zsum g (l1 ++ l2) = zsum g l1 + zsum g l2.
Proof. induction l1 as [|a l1 IH]; simpl; [reflexivity | rewrite IH; lia]. Qed.

Lemma zsum_ext {A} (g1 g2 : A -> Z) l :
  (forall a, a ∈ l -> g1 a = g2 a) -> zsum g1 l = zsum g2 l.
Proof.
  induction l as [|a l IH]; intros H; simpl; [reflexivity |].
  rewrite H by (left). rewrite IH; [reflexivity |].
  intros b Hb. apply H. right. exact Hb.
Qed.

Lemma zsum_perm {A} (g : A -> Z) l1 l2 : l1 ≡ₚ l2 -> zsum g l1 = zsum g l2.
Proof. induction 1; simpl; lia. Qed.

Lemma zsum_swap {A B} (f : A -> B -> Z) la lb :
  zsum (fun a => zsum (fun b => f a b) lb) la
  = zsum (fun b => zsum (fun a => f a b) la) lb.
Proof.
  induction la as [|a la IH]; simpl.
  - induction lb as [|b lb IHb]; simpl; [reflexivity | lia].
  - rewrite IH. clear IH. induction lb as [|b lb IHb]; simpl; [reflexivity | lia].
Qed.

Lemma zsum_zero {A} (g : A -> Z) l : (forall a, a ∈ l -> g a = 0) -> zsum g l = 0.
Proof.
  induction l as [|a l IH]; intros H; simpl; [reflexivity |].
  rewrite H by left. rewrite IH; [reflexivity |]. intros b Hb. apply H. right. exact Hb.
Qed.

Lemma zcount_app {A} (f : A -> bool) l1 l2 :
  zcount f (l1 ++ l2) = zcount f l1 + zcount f l2.
Proof. apply zsum_app. Qed.

Lemma zcount_ext {A} (f1 f2 : A -> bool) l :
  (forall a, a ∈ l -> f1 a = f2 a) -> zcount f1 l = zcount f2 l.
Proof. intros H. apply zsum_ext. intros a Ha. rewrite H by exact Ha. reflexivity. Qed.

Lemma zcount_perm {A} (f : A -> bool) l1 l2 : l1 ≡ₚ l2 -> zcount f l1 = zcount f l2.
Proof. apply zsum_perm. Qed.

Lemma zcount_bounds {A} (f : A -> bool) l : 0 <= zcount f l <= Z.of_nat (length l).
Proof.
  induction l as [|a l IH]; simpl; [unfold zcount; simpl; lia |].
  unfold zcount in *. simpl. destruct (f a); lia.
Qed.

(** Membership count of a duplicate-free list. *)
Lemma zcount_mem_NoDup (x : Z) l :
  NoDup l -> zcount (fun y => bool_decide (y = x)) l = if bool_decide (x ∈ l) then 1 else 0.
Proof.
  induction 1 as [|a l Ha Hl IH]; simpl; [reflexivity |].
  unfold zcount in *. simpl. rewrite IH.
  destruct (bool_decide_reflect (a = x)) as [->|Hne].
  - rewrite (bool_decide_eq_false_2 _ Ha).
    rewrite bool_decide_eq_true_2 by left. reflexivity.
  - destruct (bool_decide_reflect (x ∈ l)) as [Hin|Hin].
    + rewrite bool_decide_eq_true_2 by (right; exact Hin). reflexivity.
    + rewrite bool_decide_eq_false_2; [reflexivity |].
      intros [->|H']%elem_of_cons; [congruence | contradiction].
Qed.

(** The number of nodes of a cover that lie on a path. *)
Definition hits (path cover : list Z) : Z :=
  zcount (fun c => bool_decide (c ∈ path)) cover.

Lemma hits_app path c1 c2 : hits path (c1 ++ c2) = hits path c1 + hits path c2.
Proof. apply zcount_app. Qed.

Lemma hits_ext path1 path2 cover :
  (forall c, c ∈ cover -> (c ∈ path1 <-> c ∈ path2)) ->
  hits path1 cover = hits path2 cover.
Proof.
  intros H. apply zcount_ext. intros c Hc. apply bool_decide_ext. apply H. exact Hc.
Qed.

(** Counting the common nodes from either list gives the same number. *)
Lemma hits_sym l1 l2 : NoDup l1 -> NoDup l2 -> hits l1 l2 = hits l2 l1.
Proof.
  intros H1 H2. unfold hits.
  transitivity (zsum (fun c => zsum (fun y => if bool_decide (y = c) then 1 else 0) l1) l2).
  - apply zsum_ext. intros c _.
    change (zsum (fun y => if bool_decide (y = c) then 1 else 0) l1)
      with (zcount (fun y => bool_decide (y = c)) l1).
    rewrite zcount_mem_NoDup by exact H1. reflexivity.
  - rewrite zsum_swap. apply zsum_ext. intros y _.
    transitivity (zcount (fun c => bool_decide (c = y)) l2).
    + apply zsum_ext. intros c _.
      rewrite (bool_decide_ext (y = c) (c = y)) by (split; congruence). reflexivity.
    + rewrite zcount_mem_NoDup by exact H2. reflexivity.
Qed.

Lemma cover_path_hits (j : nat) : forall f1 f2 l r x,
  (j < f1)%nat -> (j < f2)%nat ->
  2 ^ Z.of_nat j <= l -> l <= r -> r <= 2 ^ (Z.of_nat j + 1) ->
  2 ^ Z.of_nat j <= x < 2 ^ (Z.of_nat j + 1) ->
  hits (path_nodes f1 x) (cover_nodes f2 l r)
  = if bool_decide (l <= x < r) then 1 else 0.
Proof.
  induction j as [|j IH]; intros f1 f2 l r x Hf1 Hf2 Hl Hlr Hr Hx.
  - destruct f1 as [|f1]; [lia |]. destruct f2 as [|f2]; [lia |].
    simpl in Hl, Hr, Hx. assert (x = 1) as -> by lia.
    assert ((l = 1 /\ r = 1) \/ (l = 1 /\ r = 2) \/ (l = 2 /\ r = 2)) as Hc by lia.
    destruct Hc as [[-> ->] | [[-> ->] | [-> ->]]]; simpl.
    + reflexivity.
    + destruct f1, f2; reflexivity.
    + reflexivity.
  - destruct f1 as [|f1]; [lia |]. destruct f2 as [|f2]; [lia |].
    rewrite pow2_succ' in Hr, Hx. rewrite pow2_succ in Hl, Hx, Hr.
    pose proof (pow2_pos j) as Hp.
    cbn [cover_nodes].
    destruct (Z.ltb_spec l r) as [Hlt|Hge].
    2:{ rewrite bool_decide_eq_false_2 by lia. reflexivity. }
    cbn [path_nodes]. destruct (Z.ltb_spec 0 x) as [_|?]; [| lia].
    rewrite !shiftr1.
    set (l' := (if odd l then l + 1 else l) / 2).
    set (r' := (if odd r then r - 1 else r) / 2).
    assert (2 ^ Z.of_nat j <= l' /\ l' <= r' /\ r' <= 2 ^ (Z.of_nat j + 1)) as (Hl' & Hlr' & Hr').
    { rewrite pow2_succ'. subst l' r'.
      pose proof (half_bounds (if odd l then l + 1 else l)).
      pose proof (half_bounds (if odd r then r - 1 else r)).
      pose proof (half_exact l). pose proof (half_exact r).
      destruct (odd l) eqn:El, (odd r) eqn:Er; odd_cases;
        repeat split; lia. }
    rewrite pow2_succ' in Hr'.
    assert (2 ^ Z.of_nat j <= x / 2 < 2 ^ (Z.of_nat j + 1)) as Hx2.
    { rewrite pow2_succ'. pose proof (half_bounds x). lia. }
    (* membership in the path of [x] *)
    assert (Hmem_hi : forall n, 2 * 2 ^ Z.of_nat j <= n ->
              (n ∈ x :: path_nodes f1 (x / 2)) <-> n = x).
    { intros n Hn. rewrite elem_of_cons. split; [| left; assumption].
      intros [-> | Hin]; [reflexivity |].
      apply path_nodes_bounds in Hin. pose proof (half_bounds x). lia. }
    rewrite !hits_app.
    assert (hits (x :: path_nodes f1 (x / 2)) (cover_nodes f2 l' r')
            = if bool_decide (l' <= x / 2 < r') then 1 else 0) as ->.
    { rewrite <- (IH f1 f2 l' r' (x / 2)) by (try lia; rewrite ?pow2_succ'; lia).
      apply hits_ext. intros c Hc.
      apply cover_nodes_bounds in Hc; [| lia].
      rewrite elem_of_cons. split; [| right; assumption].
      intros [-> | Hin]; [lia | exact Hin]. }
    assert (hits (x :: path_nodes f1 (x / 2)) (if odd l then [l] else [])
            = if odd l && bool_decide (l = x) then 1 else 0) as ->.
    { destruct (odd l); [| reflexivity]. unfold hits, zcount. simpl.
      rewrite (bool_decide_ext _ (l = x)) by (apply Hmem_hi; lia).
      destruct (bool_decide (l = x)); reflexivity. }
    assert (hits (x :: path_nodes f1 (x / 2)) (if odd r then [r - 1] else [])
            = if odd r && bool_decide (r - 1 = x) then 1 else 0) as ->.
    { destruct (odd r) eqn:Er; [| reflexivity]. unfold hits, zcount. simpl.
      odd_cases.
      rewrite (bool_decide_ext _ (r - 1 = x)) by (apply Hmem_hi; lia).
      destruct (bool_decide (r - 1 = x)); reflexivity. }
    subst l' r'.
    pose proof (half_bounds (if odd l then l + 1 else l)).
    pose proof (half_bounds (if odd r then r - 1 else r)).
    pose proof (half_exact l). pose proof (half_exact r).
    pose proof (half_bounds x).
    destruct (odd l) eqn:El, (odd r) eqn:Er; odd_cases; simpl;
      repeat case_bool_decide; try lia.
Qed.

Lemma cover_level_step (j : nat) l r :
  2 ^ Z.of_nat (Datatypes.S j) <= l -> l < r -> r <= 2 ^ (Z.of_nat (Datatypes.S j) + 1) ->
  let l' := (if odd l then l + 1 else l) / 2 in
  let r' := (if odd r then r - 1 else r) / 2 in
  2 ^ Z.of_nat j <= l' /\ l' <= r' /\ r' <= 2 ^ (Z.of_nat j + 1).
Proof.
  intros Hl Hlt Hr l' r'. rewrite pow2_succ' in Hr |- *. rewrite pow2_succ in Hl, Hr.
  subst l' r'.
  pose proof (half_bounds (if odd l then l + 1 else l)).
  pose proof (half_bounds (if odd r then r - 1 else r)).
  pose proof (half_exact l). pose proof (half_exact r).
  destruct (odd l) eqn:El, (odd r) eqn:Er; odd_cases; repeat split; lia.
Qed.

Lemma cover_nodes_NoDup (j : nat) : forall fuel l r,
  2 ^ Z.of_nat j <= l -> l <= r -> r <= 2 ^ (Z.of_nat j + 1) ->
  NoDup (cover_nodes fuel l r).
Proof.
  induction j as [|j IH]; intros fuel l r Hl Hlr Hr.
  - simpl in Hl, Hr.
    assert ((l = 1 /\ r = 1) \/ (l = 1 /\ r = 2) \/ (l = 2 /\ r = 2)) as Hc by lia.
    destruct fuel as [|fuel]; [constructor |].
    destruct Hc as [[-> ->] | [[-> ->] | [-> ->]]]; simpl; try constructor.
    + destruct fuel; simpl; intros H; inversion H.
    + destruct fuel; constructor.
  - destruct fuel as [|fuel]; [constructor |]. cbn [cover_nodes].
    destruct (Z.ltb_spec l r) as [Hlt|Hge]; [| constructor].
    rewrite !shiftr1.
    destruct (cover_level_step j l r Hl Hlt Hr) as (Hl' & Hlr' & Hr').
    pose proof (pow2_pos j) as Hp. rewrite pow2_succ in Hl. rewrite pow2_succ' in Hr'.
    assert (Hc : forall c, c ∈ cover_nodes fuel ((if odd l then l + 1 else l) / 2)
                             ((if odd r then r - 1 else r) / 2) -> c < l /\ c < r - 1).
    { intros c Hc. apply cover_nodes_bounds in Hc; lia. }
    specialize (IH fuel _ _ Hl' Hlr' ltac:(rewrite pow2_succ'; exact Hr')).
    pose proof (half_exact l). pose proof (half_exact r).
    destruct (odd l) eqn:El, (odd r) eqn:Er; odd_cases; simpl.
    + constructor.
      * rewrite elem_of_cons. intros [E | Hin]; [| apply Hc in Hin]; lia.
      * constructor; [| exact IH]. intros Hin. apply Hc in Hin. lia.
    + constructor; [| exact IH]. intros Hin. apply Hc in Hin. lia.
    + constructor; [| exact IH]. intros Hin. apply Hc in Hin. lia.
    + exact IH.
Qed.

Lemma cover_nodes_length (j : nat) : forall fuel l r,
  2 ^ Z.of_nat j <= l -> l <= r -> r <= 2 ^ (Z.of_nat j + 1) ->
  Z.of_nat (length (cover_nodes fuel l r)) <= 2 * Z.of_nat j + 2.
Proof.
  induction j as [|j IH]; intros fuel l r Hl Hlr Hr.
  - simpl in Hl, Hr.
    assert ((l = 1 /\ r = 1) \/ (l = 1 /\ r = 2) \/ (l = 2 /\ r = 2)) as Hc by lia.
    destruct fuel as [|fuel]; [simpl; lia |].
    destruct Hc as [[-> ->] | [[-> ->] | [-> ->]]]; simpl; try lia.
    destruct fuel; simpl; lia.
  - destruct fuel as [|fuel]; [simpl; lia |]. cbn [cover_nodes].
    destruct (Z.ltb_spec l r) as [Hlt|Hge]; [| simpl; lia].
    rewrite !shiftr1.
    destruct (cover_level_step j l r Hl Hlt Hr) as (Hl' & Hlr' & Hr').
    specialize (IH fuel _ _ Hl' Hlr' Hr').
    rewrite !length_app.
    destruct (odd l), (odd r); simpl length; lia.
Qed.

(** With enough fuel the lists do not depend on the fuel. *)
Lemma path_nodes_fuel (j : nat) : forall f1 f2 x,
  (j < f1)%nat -> (j < f2)%nat -> 0 <= x < 2 ^ (Z.of_nat j + 1) ->
  path_nodes f1 x = path_nodes f2 x.
Proof.
  induction j as [|j IH]; intros f1 f2 x H1 H2 Hx.
  - destruct f1 as [|f1]; [lia |]. destruct f2 as [|f2]; [lia |].
    simpl in Hx. assert (x = 0 \/ x = 1) as [-> | ->] by lia; simpl; [reflexivity |].
    destruct f1, f2; reflexivity.
  - destruct f1 as [|f1]; [lia |]. destruct f2 as [|f2]; [lia |]. simpl.
    destruct (Z.ltb_spec 0 x); [| reflexivity]. f_equal.
    apply IH; [lia | lia |]. rewrite shiftr1.
    rewrite pow2_succ' in Hx |- *. rewrite pow2_succ in Hx.
    pose proof (half_bounds x). pose proof (pow2_pos j). lia.
Qed.

Lemma cover_nodes_fuel (j : nat) : forall f1 f2 l r,
  (j < f1)%nat -> (j < f2)%nat ->
  2 ^ Z.of_nat j <= l -> l <= r -> r <= 2 ^ (Z.of_nat j + 1) ->
  cover_nodes f1 l r = cover_nodes f2 l r.
Proof.
  induction j as [|j IH]; intros f1 f2 l r H1 H2 Hl Hlr Hr.
  - destruct f1 as [|f1]; [lia |]. destruct f2 as [|f2]; [lia |].
    simpl in Hl, Hr.
    assert ((l = 1 /\ r = 1) \/ (l = 1 /\ r = 2) \/ (l = 2 /\ r = 2)) as Hc by lia.
    destruct Hc as [[-> ->] | [[-> ->] | [-> ->]]]; simpl; try reflexivity.
    destruct f1, f2; reflexivity.
  - destruct f1 as [|f1]; [lia |]. destruct f2 as [|f2]; [lia |]. cbn [cover_nodes].
    destruct (Z.ltb_spec l r) as [Hlt|Hge]; [| reflexivity].
    rewrite !shiftr1.
    destruct (cover_level_step j l r Hl Hlt Hr) as (Hl' & Hlr' & Hr').
    f_equal. f_equal. apply IH; try lia; assumption.
Qed.

(** * The bucket store of a segment tree *)

Lemma vget_vset {A} (l : list A) i x l' j :
  vset l i x = Some l' ->
  vget l' j = if bool_decide (j = i) then Some x else vget l j.
Proof.
  intros Hs. case_bool_decide as E.
  - subst. eapply vget_vset_eq. exact Hs.
  - eapply vget_vset_ne; [exact Hs | congruence].
Qed.

(** The placement index is injective on backrefs below [mr]. *)
Lemma placement_inj mr h b h' b' :
  0 <= b < mr -> 0 <= b' < mr -> h * mr + b = h' * mr + b' -> h = h' /\ b = b'.
Proof. intros Hb Hb' E. assert (h = h') by nia. subst. lia. Qed.

Lemma placement_range nh mr h b :
  0 <= h < nh -> 0 <= b < mr -> 0 <= h * mr + b < nh * mr.
Proof. intros Hh Hb. nia. Qed.

(** A ghost placement: the node in which the item [(h, b)] is stored. *)
Definition plc_t := Z -> Z -> option Z.

Definition plc_upd (plc : plc_t) (h b : Z) (v : option Z) : plc_t :=
  fun h' b' => if bool_decide (h' = h /\ b' = b) then v else plc h' b'.

Record store_ok (N nh mr : Z) (nodes : list (list Item)) (pin : list Z)
    (plc : plc_t) : Prop := mk_store_ok {
  so_nh : 0 <= nh;
  so_len_nodes : Z.of_nat (length nodes) = N;
  so_len_pin : Z.of_nat (length pin) = nh * mr;
  so_dom : forall h b idx, plc h b = Some idx ->
             0 <= h < nh /\ 0 <= b < mr /\ 0 <= idx < N;
  so_inj : forall h b b' idx, plc h b = Some idx -> plc h b' = Some idx -> b = b';
  so_item : forall idx bucket j h b,
      vget nodes idx = Some bucket -> bucket !! j = Some (mkItem h b) ->
      plc h b = Some idx /\ vget pin (h * mr + b) = Some (Z.of_nat j);
  so_plc : forall h b idx, plc h b = Some idx ->
      exists bucket j, vget nodes idx = Some bucket
                       /\ vget pin (h * mr + b) = Some (Z.of_nat j)
                       /\ bucket !! j = Some (mkItem h b)
}.

Lemma NoDup_range_length (l : list Z) n :
  0 <= n -> NoDup l -> (forall x, x ∈ l -> 0 <= x < n) -> Z.of_nat (length l) <= n.
Proof.
  intros Hn Hnd Hr.
  assert (l ⊆+ seqZ 0 n) as Hs.
  { apply NoDup_submseteq; [exact Hnd |]. intros x Hx. apply elem_of_seqZ.
    specialize (Hr x Hx). lia. }
  apply submseteq_length in Hs. rewrite length_seqZ in Hs. lia.
Qed.

Section Store.
Context (N nh mr : Z).

Lemma store_bucket_handles_NoDup nodes pin plc idx bucket :
  store_ok N nh mr nodes pin plc -> vget nodes idx = Some bucket ->
  NoDup (map it_handle bucket).
Proof.
  intros Hok Hb. apply NoDup_alt. intros i j h Hi Hj.
  rewrite list_lookup_fmap in Hi, Hj.
  destruct (bucket !! i) as [[hi bi]|] eqn:Ei; [| discriminate].
  destruct (bucket !! j) as [[hj bj]|] eqn:Ej; [| discriminate].
  simpl in Hi, Hj. injection Hi as ->. injection Hj as ->.
  destruct (so_item _ _ _ _ _ _ Hok idx bucket i h bi Hb Ei) as [Hpi Hvi].
  destruct (so_item _ _ _ _ _ _ Hok idx bucket j h bj Hb Ej) as [Hpj Hvj].
  assert (bi = bj) as -> by (eapply so_inj; eassumption).
  rewrite Hvi in Hvj. injection Hvj as Hij. lia.
Qed.

Lemma store_bucket_length nodes pin plc idx bucket :
  store_ok N nh mr nodes pin plc -> vget nodes idx = Some bucket ->
  Z.of_nat (length bucket) <= nh.
Proof.
  intros Hok Hb. rewrite <- (length_map it_handle).
  apply NoDup_range_length.
  - eapply so_nh; eassumption.
  - eapply store_bucket_handles_NoDup; eassumption.
  - intros h Hh. apply list_elem_of_fmap in Hh as [[h' b] [-> Hin]].
    apply list_elem_of_lookup in Hin as [j Hj].
    destruct (so_item _ _ _ _ _ _ Hok idx bucket j h' b Hb Hj) as [Hp _].
    apply (so_dom _ _ _ _ _ _ Hok) in Hp. simpl. lia.
Qed.

Lemma bucket_push_ok nodes pin plc h b idx :
  store_ok N nh mr nodes pin plc ->
  nh < 2 ^ 32 ->
  plc h b = None -> (forall b', plc h b' <> Some idx) ->
  0 <= h < nh -> 0 <= b < mr -> 0 <= idx < N ->
  exists nodes' pin',
    bucket_push nodes pin (h * mr + b) idx (mkItem h b) = Some (nodes', pin')
    /\ store_ok N nh mr nodes' pin' (plc_upd plc h b (Some idx)).
Proof.
  intros Hok Hnh Hfree Hnew Hh Hb Hidx.
  pose proof (so_len_nodes _ _ _ _ _ _ Hok) as Hln.
  pose proof (so_len_pin _ _ _ _ _ _ Hok) as Hlp.
  destruct (vget_is_Some nodes idx ltac:(lia)) as [bucket Hbk].
  pose proof (store_bucket_length _ _ _ _ _ Hok Hbk) as Hlen.
  pose proof (placement_range nh mr h b Hh Hb) as Hpi.
  unfold bucket_push. rewrite Hbk. simpl.
  rewrite wrap32_small by lia.
  rewrite (vset_is_Some pin) by lia. simpl.
  rewrite (vset_is_Some nodes) by lia. simpl.
  eexists _, _. split; [reflexivity |].
  assert (Hvn : forall i, vget (<[Z.to_nat idx := bucket ++ [mkItem h b]]> nodes) i
                 = if bool_decide (i = idx) then Some (bucket ++ [mkItem h b])
                   else vget nodes i).
  { intros i. apply vget_vset. apply vset_is_Some. lia. }
  assert (Hvp : forall i, vget (<[Z.to_nat (h * mr + b) := Z.of_nat (length bucket)]> pin) i
                 = if bool_decide (i = h * mr + b) then Some (Z.of_nat (length bucket))
                   else vget pin i).
  { intros i. apply vget_vset. apply vset_is_Some. lia. }
  constructor.
  - lia.
  - rewrite length_insert. exact Hln.
  - rewrite length_insert. exact Hlp.
  - intros h' b' idx'. unfold plc_upd. case_bool_decide as E.
    + destruct E as [-> ->]. intros [= <-]. lia.
    + apply (so_dom _ _ _ _ _ _ Hok).
  - intros h' b1 b2 idx'. unfold plc_upd.
    repeat case_bool_decide; intros H1 H2.
    + lia.
    + destruct H as [-> ->]. injection H1 as <-. destruct (Hnew b2 H2).
    + destruct H0 as [-> ->]. injection H2 as <-. destruct (Hnew b1 H1).
    + eapply so_inj; eassumption.
  - intros idx' bucket' j h' b'. rewrite Hvn, Hvp. unfold plc_upd.
    case_bool_decide as Ei.
    + subst idx'. intros [= <-] Hj.
      apply lookup_app_Some in Hj as [Hj | [Hge Hj]].
      * destruct (so_item _ _ _ _ _ _ Hok idx bucket j h' b' Hbk Hj) as [Hp Hv].
        assert (~ (h' = h /\ b' = b)) as Hne by (intros [-> ->]; congruence).
        rewrite bool_decide_eq_false_2 by exact Hne.
        rewrite bool_decide_eq_false_2; [split; assumption |].
        intros E. apply Hne. apply (so_dom _ _ _ _ _ _ Hok) in Hp.
        eapply placement_inj; [| | exact E]; lia.
      * destruct (j - length bucket)%nat as [|k] eqn:Ek; simpl in Hj; [| discriminate].
        injection Hj as -> ->.
        rewrite bool_decide_eq_true_2 by (split; reflexivity).
        rewrite bool_decide_eq_true_2 by reflexivity.
        split; [reflexivity |]. f_equal. lia.
    + intros Hb' Hj.
      destruct (so_item _ _ _ _ _ _ Hok idx' bucket' j h' b' Hb' Hj) as [Hp Hv].
      assert (~ (h' = h /\ b' = b)) as Hne by (intros [-> ->]; congruence).
      rewrite bool_decide_eq_false_2 by exact Hne.
      rewrite bool_decide_eq_false_2; [split; assumption |].
      intros E. apply Hne. apply (so_dom _ _ _ _ _ _ Hok) in Hp.
      eapply placement_inj; [| | exact E]; lia.
  - intros h' b' idx'. unfold plc_upd. case_bool_decide as E.
    + destruct E as [-> ->]. intros [= <-].
      exists (bucket ++ [mkItem h b]), (length bucket).
      rewrite Hvn, Hvp. rewrite !bool_decide_eq_true_2 by reflexivity.
      repeat split. rewrite lookup_app_r by lia.
      rewrite Nat.sub_diag. reflexivity.
    + intros Hp.
      destruct (so_plc _ _ _ _ _ _ Hok h' b' idx' Hp) as (bucket' & j & Hb' & Hv & Hj).
      rewrite Hvn, Hvp.
      rewrite (bool_decide_eq_false_2 (h' * mr + b' = _)).
      2:{ intros E'. apply E. apply (so_dom _ _ _ _ _ _ Hok) in Hp.
          eapply placement_inj; [| | exact E']; lia. }
      case_bool_decide as Ei.
      * subst idx'. rewrite Hbk in Hb'. injection Hb' as <-.
        exists (bucket ++ [mkItem h b]), j. repeat split; [assumption |].
        apply lookup_app_l_Some. exact Hj.
      * exists bucket', j. repeat split; assumption.
Qed.

Lemma bucket_swap_remove_ok nodes pin plc h b idx pos :
  store_ok N nh mr nodes pin plc ->
  plc h b = Some idx -> vget pin (h * mr + b) = Some pos ->
  exists nodes' pin',
    bucket_swap_remove nodes pin mr idx pos = Some (nodes', pin')
    /\ store_ok N nh mr nodes' pin' (plc_upd plc h b None).
Proof.
  intros Hok Hp Hpos.
  pose proof (so_len_nodes _ _ _ _ _ _ Hok) as Hln.
  pose proof (so_len_pin _ _ _ _ _ _ Hok) as Hlp.
  destruct (so_plc _ _ _ _ _ _ Hok h b idx Hp) as (bucket & j & Hbk & Hv & Hj).
  rewrite Hpos in Hv. injection Hv as ->.
  pose proof (lookup_lt_Some _ _ _ Hj) as Hjlt.
  pose proof (so_dom _ _ _ _ _ _ Hok h b idx Hp) as (Hh & Hb & Hidx).
  set (last := (length bucket - 1)%nat).
  destruct (lookup_lt_is_Some_2 bucket last ltac:(subst last; lia)) as [[hs bs] Hlast].
  destruct (so_item _ _ _ _ _ _ Hok idx bucket last hs bs Hbk Hlast) as [Hps Hvs].
  pose proof (so_dom _ _ _ _ _ _ Hok hs bs idx Hps) as (Hhs & Hbs & _).
  pose proof (placement_range nh mr hs bs Hhs Hbs) as Hpis.
  (* the bucket and the positions after the removal *)
  set (nb := take last (if bool_decide (j = last) then bucket
                        else <[j := mkItem hs bs]> bucket)).
  set (pin' := if bool_decide (j = last) then pin
               else <[Z.to_nat (hs * mr + bs) := Z.of_nat j]> pin).
  assert (Hrun : bucket_swap_remove nodes pin mr idx (Z.of_nat j)
                 = Some (<[Z.to_nat idx := nb]> nodes, pin')).
  { unfold bucket_swap_remove. rewrite Hbk. simpl.
    destruct (Nat.eqb_spec (length bucket) 0) as [E0|_]; [lia |].
    subst nb pin'.
    destruct (Z.eqb_spec (Z.of_nat j) (Z.of_nat (length bucket) - 1)) as [E|E].
    - rewrite bool_decide_eq_true_2 by (subst last; lia). simpl.
      rewrite (vset_is_Some nodes) by lia. simpl.
      rewrite removelast_firstn_len. repeat f_equal. subst last. lia.
    - rewrite bool_decide_eq_false_2 by (subst last; lia).
      replace (Z.of_nat (length bucket) - 1) with (Z.of_nat last) by (subst last; lia).
      assert (vget bucket (Z.of_nat last) = Some (mkItem hs bs)) as ->.
      { apply vget_Some. split; [lia |]. rewrite Nat2Z.id. exact Hlast. }
      simpl. rewrite (vset_is_Some bucket) by lia. simpl.
      rewrite (vset_is_Some pin) by lia. simpl.
      rewrite (vset_is_Some nodes) by lia. simpl.
      rewrite removelast_firstn_len, length_insert, Nat2Z.id.
      repeat f_equal. subst last. lia. }
  rewrite Hrun. eexists _, _. split; [reflexivity |].
  assert (Hnb : forall j', nb !! j' =
            if bool_decide (j' < last)%nat
            then (if bool_decide (j' = j) then Some (mkItem hs bs) else bucket !! j')
            else None).
  { intros j'. subst nb.
    destruct (decide (j' < last)%nat) as [Elt|Elt].
    - rewrite (bool_decide_eq_true_2 (j' < last)%nat) by exact Elt.
      rewrite lookup_take_lt by exact Elt.
      destruct (decide (j' = j)) as [->|Ej].
      + rewrite (bool_decide_eq_true_2 (j = j)) by reflexivity.
        rewrite bool_decide_eq_false_2 by lia.
        apply list_lookup_insert_eq. lia.
      + rewrite (bool_decide_eq_false_2 (j' = j)) by exact Ej.
        case_bool_decide; [reflexivity |].
        apply list_lookup_insert_ne. congruence.
    - rewrite (bool_decide_eq_false_2 (j' < last)%nat) by exact Elt.
      apply lookup_take_ge. lia. }
  assert (Hpin : forall i, vget pin' i =
            if bool_decide (j <> last /\ i = hs * mr + bs) then Some (Z.of_nat j)
            else vget pin i).
  { intros i. subst pin'. destruct (decide (j = last)) as [Ejl|Ejl].
    - rewrite (bool_decide_eq_true_2 (j = last)) by exact Ejl.
      rewrite bool_decide_eq_false_2 by tauto. reflexivity.
    - rewrite (bool_decide_eq_false_2 (j = last)) by exact Ejl.
      rewrite (vget_vset pin (hs * mr + bs) (Z.of_nat j)) by (apply vset_is_Some; lia).
      rewrite (bool_decide_ext (j <> last /\ i = hs * mr + bs) (i = hs * mr + bs)) by tauto.
      reflexivity. }
  assert (Hvn : forall i, vget (<[Z.to_nat idx := nb]> nodes) i
                 = if bool_decide (i = idx) then Some nb else vget nodes i).
  { intros i. apply vget_vset. apply vset_is_Some. lia. }
  (* items at distinct positions of the bucket are distinct *)
  assert (Hdist : forall j1 h1 b1, bucket !! j1 = Some (mkItem h1 b1) ->
            (h1 = h /\ b1 = b <-> j1 = j) /\ (h1 = hs /\ b1 = bs <-> j1 = last)).
  { intros j1 h1 b1 H1.
    destruct (so_item _ _ _ _ _ _ Hok idx bucket j1 h1 b1 Hbk H1) as [_ Hv1].
    split; split.
    - intros [-> ->]. rewrite Hpos in Hv1. injection Hv1. lia.
    - intros ->. rewrite Hj in H1. injection H1 as -> ->. tauto.
    - intros [-> ->]. rewrite Hvs in Hv1. injection Hv1. lia.
    - intros ->. rewrite Hlast in H1. injection H1 as -> ->. tauto. }
  constructor.
  - eapply so_nh; eassumption.
  - rewrite length_insert. exact Hln.
  - subst pin'. case_bool_decide; [| rewrite length_insert]; exact Hlp.
  - intros h' b' idx'. unfold plc_upd. case_bool_decide; [discriminate |].
    apply (so_dom _ _ _ _ _ _ Hok).
  - intros h' b1 b2 idx'. unfold plc_upd.
    repeat case_bool_decide; try discriminate. eapply so_inj; eassumption.
  - intros idx' bucket' j' h' b'. rewrite Hvn, Hpin. unfold plc_upd.
    case_bool_decide as Ei.
    + subst idx'. intros [= <-]. rewrite Hnb.
      case_bool_decide as Elt; [| discriminate].
      case_bool_decide as Ej.
      * subst j'. intros [= <- <-].
        destruct (Hdist last hs bs Hlast) as [H1 _].
        rewrite bool_decide_eq_false_2 by (intros E; apply H1 in E; lia).
        rewrite bool_decide_eq_true_2 by (split; [lia | reflexivity]).
        split; [exact Hps | reflexivity].
      * intros Hj'. destruct (Hdist j' h' b' Hj') as [H1 H2].
        destruct (so_item _ _ _ _ _ _ Hok idx bucket j' h' b' Hbk Hj') as [Hp' Hv'].
        rewrite bool_decide_eq_false_2 by (intros E; apply H1 in E; lia).
        rewrite bool_decide_eq_false_2; [split; assumption |].
        intros [_ E]. apply (so_dom _ _ _ _ _ _ Hok) in Hp'.
        assert (h' = hs /\ b' = bs) as E' by (eapply placement_inj; [| | exact E]; lia).
        apply H2 in E'. lia.
    + intros Hb' Hj'.
      destruct (so_item _ _ _ _ _ _ Hok idx' bucket' j' h' b' Hb' Hj') as [Hp' Hv'].
      rewrite bool_decide_eq_false_2 by (intros [-> ->]; congruence).
      rewrite bool_decide_eq_false_2; [split; assumption |].
      intros [_ E]. pose proof (so_dom _ _ _ _ _ _ Hok _ _ _ Hp') as Hd.
      assert (h' = hs /\ b' = bs) as [-> ->] by (eapply placement_inj; [| | exact E]; lia).
      congruence.
  - intros h' b' idx'. unfold plc_upd. case_bool_decide as E; [discriminate |].
    intros Hp'.
    destruct (so_plc _ _ _ _ _ _ Hok h' b' idx' Hp') as (bucket' & j' & Hb' & Hv' & Hj').
    pose proof (so_dom _ _ _ _ _ _ Hok h' b' idx' Hp') as (Hh' & Hbb' & _).
    rewrite Hvn. case_bool_decide as Ei.
    + subst idx'. rewrite Hbk in Hb'. injection Hb' as <-.
      destruct (Hdist j' h' b' Hj') as [H1 H2].
      pose proof (lookup_lt_Some _ _ _ Hj') as Hj'lt.
      destruct (decide (j' = last)) as [El|El].
      * assert (h' = hs /\ b' = bs) as [-> ->] by (apply H2; exact El).
        assert (j <> last) as Hjl by (intros E'; apply E; apply H1; lia).
        exists nb, j. split; [reflexivity |]. rewrite Hpin, Hnb.
        rewrite bool_decide_eq_true_2 by (split; [exact Hjl | reflexivity]).
        rewrite bool_decide_eq_true_2 by (subst last; lia).
        rewrite bool_decide_eq_true_2 by reflexivity. split; reflexivity.
      * exists nb, j'. split; [reflexivity |]. rewrite Hpin, Hnb.
        rewrite bool_decide_eq_false_2.
        2:{ intros [_ E']. apply El. apply H2.
            eapply placement_inj; [| | exact E']; lia. }
        rewrite bool_decide_eq_true_2 by (subst last; lia).
        rewrite bool_decide_eq_false_2 by (intros E'; apply E; apply H1; exact E').
        split; assumption.
    + exists bucket', j'. rewrite Hpin.
      rewrite bool_decide_eq_false_2.
      2:{ intros [_ E'].
          assert (h' = hs /\ b' = bs) as [-> ->] by (eapply placement_inj; [| | exact E']; lia).
          congruence. }
      repeat split; assumption.
Qed.

End Store.

Lemma store_ok_ext N nh mr nodes pin plc plc' :
  (forall h b, plc h b = plc' h b) ->
  store_ok N nh mr nodes pin plc -> store_ok N nh mr nodes pin plc'.
Proof.
  intros Hext [H0 H1 H2 H3 H4 H5 H6]. constructor; try assumption.
  - intros h b idx. rewrite <- Hext. apply H3.
  - intros h b b' idx. rewrite <- !Hext. apply H4.
  - intros idx bucket j h b. rewrite <- Hext. apply H5.
  - intros h b idx. rewrite <- Hext. apply H6.
Qed.

Lemma store_ok_empty N nh mr (nodes : list (list Item)) pin :
  0 <= nh -> Z.of_nat (length nodes) = N -> Z.of_nat (length pin) = nh * mr ->
  (forall bucket, bucket ∈ nodes -> bucket = []) ->
  store_ok N nh mr nodes pin (fun _ _ => None).
Proof.
  intros Hnh Hn Hp He. constructor; try assumption; try discriminate.
  intros idx bucket j h b [_ Hb]%vget_Some Hj.
  apply list_elem_of_lookup_2 in Hb. apply He in Hb. subst. inversion Hj.
Qed.

(** Pushing the items [(h, b), (h, b + 1), ...] into the nodes [ns]. *)
Fixpoint push_all (nodes : list (list Item)) (pin : list Z) (mr h b : Z)
    (ns : list Z) : option (list (list Item) * list Z) :=
  match ns with
  | [] => Some (nodes, pin)
  | n :: ns' =>
      '(nodes, pin) ← bucket_push nodes pin (h * mr + b) n (mkItem h b);
      push_all nodes pin mr h (b + 1) ns'
  end.

Definition plc_add (plc : plc_t) (h b : Z) (ns : list Z) : plc_t :=
  fun h' b' =>
    if bool_decide (h' = h /\ b <= b' < b + Z.of_nat (length ns))
    then ns !! Z.to_nat (b' - b) else plc h' b'.

Lemma push_all_ok N nh mr : forall ns nodes pin plc h b,
  store_ok N nh mr nodes pin plc ->
  nh < 2 ^ 32 -> 0 <= h < nh -> 0 <= b -> b + Z.of_nat (length ns) <= mr ->
  NoDup ns -> (forall n, n ∈ ns -> 0 <= n < N) ->
  (forall b', b <= b' -> plc h b' = None) ->
  (forall b' n, n ∈ ns -> plc h b' <> Some n) ->
  exists nodes' pin',
    push_all nodes pin mr h b ns = Some (nodes', pin')
    /\ store_ok N nh mr nodes' pin' (plc_add plc h b ns).
Proof.
  induction ns as [|n ns IH]; intros nodes pin plc h b Hok Hnh Hh Hb Hlen Hnd Hr Hfree Hnew.
  - exists nodes, pin. split; [reflexivity |].
    eapply store_ok_ext; [| exact Hok]. intros h' b'. unfold plc_add. simpl.
    rewrite bool_decide_eq_false_2 by lia. reflexivity.
  - simpl in Hlen. apply NoDup_cons in Hnd as [Hn Hnd].
    destruct (bucket_push_ok N nh mr nodes pin plc h b n Hok Hnh) as (nodes1 & pin1 & Hpush & Hok1).
    + apply Hfree. lia.
    + intros b'. apply Hnew. left.
    + exact Hh.
    + lia.
    + apply Hr. left.
    + simpl. rewrite Hpush. simpl.
      destruct (IH nodes1 pin1 (plc_upd plc h b (Some n)) h (b + 1) Hok1 Hnh Hh) as (nodes2 & pin2 & Hp2 & Hok2).
      * lia.
      * lia.
      * exact Hnd.
      * intros n' Hn'. apply Hr. right. exact Hn'.
      * intros b' Hb'. unfold plc_upd. rewrite bool_decide_eq_false_2 by lia.
        apply Hfree. lia.
      * intros b' n' Hn'. unfold plc_upd. case_bool_decide.
        -- intros [= ->]. contradiction.
        -- apply Hnew. right. exact Hn'.
      * exists nodes2, pin2. split; [exact Hp2 |].
        eapply store_ok_ext; [| exact Hok2]. intros h' b'. unfold plc_add, plc_upd.
        simpl length.
        destruct (decide (h' = h /\ b' = b)) as [[-> ->]|Hne].
        -- rewrite bool_decide_eq_false_2 by lia.
           rewrite bool_decide_eq_true_2 by tauto.
           rewrite bool_decide_eq_true_2 by lia.
           rewrite Z.sub_diag. reflexivity.
        -- rewrite (bool_decide_eq_false_2 (h' = h /\ b' = b)) by exact Hne.
           destruct (decide (h' = h /\ b + 1 <= b' < b + 1 + Z.of_nat (length ns))) as [[-> Hb']|Hn'].
           ++ rewrite bool_decide_eq_true_2 by (split; [reflexivity | exact Hb']).
              rewrite bool_decide_eq_true_2 by lia.
              replace (Z.to_nat (b' - b)) with (Datatypes.S (Z.to_nat (b' - (b + 1)))) by lia.
              reflexivity.
           ++ rewrite bool_decide_eq_false_2 by exact Hn'.
              rewrite bool_decide_eq_false_2; [reflexivity |].
              intros [-> Hb']. apply Hn'. split; [reflexivity |].
              assert (b' <> b) by (intros ->; apply Hne; tauto). lia.
Qed.

(** Removing the items [(h, b), (h, b + 1), ...] from the nodes [ns]. *)
Fixpoint remove_all (nodes : list (list Item)) (pin : list Z) (mr h b : Z)
    (ns : list Z) : option (list (list Item) * list Z) :=
  match ns with
  | [] => Some (nodes, pin)
  | n :: ns' =>
      pos ← vget pin (h * mr + b);
      '(nodes, pin) ← bucket_swap_remove nodes pin mr n pos;
      remove_all nodes pin mr h (b + 1) ns'
  end.

Definition plc_del (plc : plc_t) (h b len : Z) : plc_t :=
  fun h' b' => if bool_decide (h' = h /\ b <= b' < b + len) then None else plc h' b'.

Lemma remove_all_ok N nh mr : forall ns nodes pin plc h b,
  store_ok N nh mr nodes pin plc ->
  (forall i n, ns !! i = Some n -> plc h (b + Z.of_nat i) = Some n) ->
  exists nodes' pin',
    remove_all nodes pin mr h b ns = Some (nodes', pin')
    /\ store_ok N nh mr nodes' pin' (plc_del plc h b (Z.of_nat (length ns))).
Proof.
  induction ns as [|n ns IH]; intros nodes pin plc h b Hok Hpl.
  - exists nodes, pin. split; [reflexivity |].
    eapply store_ok_ext; [| exact Hok]. intros h' b'. unfold plc_del. simpl.
    rewrite bool_decide_eq_false_2 by lia. reflexivity.
  - pose proof (Hpl 0%nat n eq_refl) as Hp0. rewrite Z.add_0_r in Hp0.
    destruct (so_plc _ _ _ _ _ _ Hok h b n Hp0) as (bucket & j & _ & Hv & _).
    destruct (bucket_swap_remove_ok N nh mr nodes pin plc h b n (Z.of_nat j) Hok Hp0 Hv)
      as (nodes1 & pin1 & Hrem & Hok1).
    simpl. rewrite Hv. simpl. rewrite Hrem. simpl.
    destruct (IH nodes1 pin1 (plc_upd plc h b None) h (b + 1) Hok1) as (nodes2 & pin2 & Hr2 & Hok2).
    + intros i n' Hi. unfold plc_upd. rewrite bool_decide_eq_false_2 by lia.
      replace (b + 1 + Z.of_nat i) with (b + Z.of_nat (Datatypes.S i)) by lia.
      apply Hpl. exact Hi.
    + exists nodes2, pin2. split; [exact Hr2 |].
      eapply store_ok_ext; [| exact Hok2]. intros h' b'. unfold plc_del, plc_upd.
      simpl length.
      destruct (decide (h' = h /\ b' = b)) as [[-> ->]|Hne].
      * rewrite (bool_decide_eq_true_2 (h = h /\ b <= b < _)) by lia.
        case_bool_decide; [reflexivity |].
        rewrite bool_decide_eq_true_2 by tauto. reflexivity.
      * rewrite (bool_decide_eq_false_2 (h' = h /\ b' = b)) by exact Hne.
        apply (f_equal (fun (c : bool) => if c then None else plc h' b')).
        apply bool_decide_ext. split.
        -- intros [-> Hb']. split; [reflexivity | lia].
        -- intros [-> Hb']. split; [reflexivity |].
           assert (b' <> b) by (intros ->; apply Hne; tauto). lia.
Qed.

Lemma zcount_filter_stdpp {A} (P : A -> Prop) `{forall a, Decision (P a)} l :
  zcount (fun a => bool_decide (P a)) l = Z.of_nat (length (filter P l)).
Proof.
  induction l as [|a l IH]; [reflexivity |].
  rewrite filter_cons. unfold zcount in *. simpl. rewrite IH.
  destruct (decide (P a)) as [Hp|Hp].
  - rewrite bool_decide_eq_true_2 by exact Hp. simpl. lia.
  - rewrite bool_decide_eq_false_2 by exact Hp. lia.
Qed.

(** The size of a bucket counts the active handles placed in its node. *)
Lemma store_bucket_size N nh mr nodes pin plc (act : list Z) (nd : Z -> list Z) idx bucket :
  store_ok N nh mr nodes pin plc ->
  NoDup act ->
  (forall h b, plc h b = if bool_decide (h ∈ act) then vget (nd h) b else None) ->
  vget nodes idx = Some bucket ->
  Z.of_nat (length bucket) = zcount (fun h => bool_decide (idx ∈ nd h)) act.
Proof.
  intros Hok Hnd Hplc Hbk.
  rewrite (zcount_filter_stdpp (fun h => idx ∈ nd h)).
  rewrite <- (length_map it_handle). f_equal. apply Permutation_length.
  apply NoDup_Permutation.
  - eapply store_bucket_handles_NoDup; eassumption.
  - apply NoDup_filter. exact Hnd.
  - intros h. rewrite list_elem_of_filter. split.
    + intros Hh. apply (list_elem_of_fmap (B:=Z)) in Hh as [[h' b] [-> Hin]]. simpl.
      apply list_elem_of_lookup in Hin as [j Hj].
      destruct (so_item _ _ _ _ _ _ Hok idx bucket j h' b Hbk Hj) as [Hp _].
      rewrite Hplc in Hp. case_bool_decide as Ha; [| discriminate].
      split; [| exact Ha].
      apply vget_Some in Hp as [_ Hp]. eapply list_elem_of_lookup_2. exact Hp.
    + intros [Hin Ha]. apply list_elem_of_lookup in Hin as [i Hi].
      assert (plc h (Z.of_nat i) = Some idx) as Hp.
      { rewrite Hplc. rewrite bool_decide_eq_true_2 by exact Ha.
        apply vget_Some. split; [lia |]. rewrite Nat2Z.id. exact Hi. }
      destruct (so_plc _ _ _ _ _ _ Hok _ _ _ Hp) as (bucket' & j & Hb' & _ & Hj).
      rewrite Hbk in Hb'. injection Hb' as <-.
      apply (list_elem_of_fmap (B:=Z)). exists (mkItem h (Z.of_nat i)).
      split; [reflexivity |]. eapply list_elem_of_lookup_2. exact Hj.
Qed.

(** * Tree skeletons *)

Lemma pow2_le_mono (a b : nat) : (a <= b)%nat -> 2 ^ Z.of_nat a <= 2 ^ Z.of_nat b.
Proof. intros H. apply Z.pow_le_mono_r; lia. Qed.

Lemma pow2_30 (k : nat) : (k <= 30)%nat -> 2 ^ Z.of_nat k <= 1073741824.
Proof. intros H. change 1073741824 with (2 ^ Z.of_nat 30). apply pow2_le_mono. exact H. Qed.

Lemma pow2_loop_spec : forall fuel (i : nat) m,
  m <= 2 ^ 30 -> (i <= 30)%nat -> (30 - i < fuel)%nat ->
  exists k : nat, (i <= k <= 30)%nat /\ m <= 2 ^ Z.of_nat k
                  /\ pow2_loop fuel (2 ^ Z.of_nat i) m = Some (2 ^ Z.of_nat k).
Proof.
  induction fuel as [|fuel IH]; intros i m Hm Hi Hf; [lia |].
  simpl. destruct (Z.ltb_spec (2 ^ Z.of_nat i) m) as [Hlt|Hge].
  - assert (i < 30)%nat as Hi'.
    { destruct (decide (i = 30)%nat) as [->|]; [| lia]. simpl in Hlt. lia. }
    rewrite Z.shiftl_mul_pow2 by lia.
    replace (2 ^ Z.of_nat i * 2 ^ 1) with (2 ^ Z.of_nat (Datatypes.S i))
      by (rewrite pow2_succ; lia).
    rewrite wrap32_small.
    2:{ pose proof (pow2_30 (Datatypes.S i) ltac:(lia)). pose proof (pow2_pos (Datatypes.S i)). lia. }
    destruct (IH (Datatypes.S i) m Hm ltac:(lia) ltac:(lia)) as (k & Hk & Hmk & Hl).
    exists k. split; [lia | split; assumption].
  - exists i. split; [lia | split; [lia | reflexivity]].
Qed.

Lemma logp_loop_spec : forall (k : nat) fuel acc,
  (k < fuel)%nat -> logp_loop fuel (2 ^ Z.of_nat k) acc = Some (acc + Z.of_nat k).
Proof.
  induction k as [|k IH]; intros fuel acc Hf; (destruct fuel as [|fuel]; [lia |]).
  - simpl. f_equal. lia.
  - cbn [logp_loop]. pose proof (pow2_pos k). rewrite pow2_succ.
    destruct (Z.ltb_spec 1 (2 * 2 ^ Z.of_nat k)); [| lia].
    rewrite shiftr1. replace (2 * 2 ^ Z.of_nat k / 2) with (2 ^ Z.of_nat k)
      by (apply Z.div_unique_exact; lia).
    rewrite IH by lia. f_equal. lia.
Qed.

(** The skeleton: the sizes fixed by [Init]. *)
Record skeleton (nh m : Z) (k : nat) (p mr : Z) (nodes : list (list Item))
    (pin : list Z) : Prop := mk_skeleton {
  sk_p : p = 2 ^ Z.of_nat k;
  sk_k : (k <= 30)%nat;
  sk_nh : 0 <= nh < 2 ^ 32;
  sk_m : 1 <= m <= 2 ^ Z.of_nat k;
  sk_nodes : Z.of_nat (length nodes) = 2 * 2 ^ Z.of_nat k;
  sk_pin : Z.of_nat (length pin) = nh * mr
}.

Record pts_shape (st : RangePointSegTree.t) (nh m : Z) (k : nat) : Prop := mk_pts_shape {
  ps_nh : RangePointSegTree.n_handles_ st = nh;
  ps_m : RangePointSegTree.m_ st = m;
  ps_mr : RangePointSegTree.max_refs_ st = Z.of_nat k + 1;
  ps_sk : skeleton nh m k (RangePointSegTree.p_ st) (Z.of_nat k + 1)
            (RangePointSegTree.nodes_ st) (RangePointSegTree.pos_in_node_ st);
  ps_len_ps : Z.of_nat (length (RangePointSegTree.placement_size_ st)) = nh;
  ps_len_roh : Z.of_nat (length (RangePointSegTree.rank_of_handle_ st)) = nh
}.

Record stab_shape (st : StabbingSegTree.t) (nh m : Z) (k : nat) : Prop := mk_stab_shape {
  ss_nh : StabbingSegTree.n_handles_ st = nh;
  ss_m : StabbingSegTree.m_ st = m;
  ss_mr : StabbingSegTree.max_refs_ st = 2 * Z.of_nat k + 4;
  ss_sk : skeleton nh m k (StabbingSegTree.p_ st) (2 * Z.of_nat k + 4)
            (StabbingSegTree.nodes_ st) (StabbingSegTree.pos_in_node_ st);
  ss_len_ps : Z.of_nat (length (StabbingSegTree.placement_size_ st)) = nh;
  ss_len_lo : Z.of_nat (length (StabbingSegTree.lo_rank_ st)) = nh;
  ss_len_hi : Z.of_nat (length (StabbingSegTree.hi_rank_ st)) = nh
}.

Lemma length_replicate_Z {A} n (x : A) : 0 <= n -> Z.of_nat (length (replicate (Z.to_nat n) x)) = n.
Proof. intros H. rewrite length_replicate. lia. Qed.

Lemma pts_Init_shape nh m :
  0 <= nh < 2 ^ 32 -> 1 <= m <= 2 ^ 30 ->
  exists st k, RangePointSegTree.Init nh m = Some st /\ pts_shape st nh m k.
Proof.
  intros Hnh Hm. unfold RangePointSegTree.Init.
  destruct (pow2_loop_spec word_fuel 0 m ltac:(lia) ltac:(lia) ltac:(unfold word_fuel; lia))
    as (k & Hk & Hmk & Hp).
  change (2 ^ Z.of_nat 0) with 1 in Hp. rewrite Hp. cbn [mbind option_bind].
  rewrite (logp_loop_spec k word_fuel 0) by (unfold word_fuel; lia).
  cbn [mbind option_bind]. rewrite Z.add_0_l.
  pose proof (pow2_30 k ltac:(lia)) as H30. pose proof (pow2_pos k) as Hpos.
  rewrite (wrap32_small (Z.of_nat k + 1)) by lia.
  rewrite (wrap32_small (2 * 2 ^ Z.of_nat k)) by lia.
  eexists _, k. split; [reflexivity |].
  constructor; simpl; try reflexivity.
  - constructor; try lia; try reflexivity.
    + apply length_replicate_Z. lia.
    + apply length_replicate_Z. nia.
  - apply length_replicate_Z. lia.
  - apply length_replicate_Z. lia.
Qed.

Lemma stab_Init_shape nh m :
  0 <= nh < 2 ^ 32 -> 1 <= m <= 2 ^ 30 ->
  exists st k, StabbingSegTree.Init nh m = Some st /\ stab_shape st nh m k.
Proof.
  intros Hnh Hm. unfold StabbingSegTree.Init.
  destruct (pow2_loop_spec word_fuel 0 m ltac:(lia) ltac:(lia) ltac:(unfold word_fuel; lia))
    as (k & Hk & Hmk & Hp).
  change (2 ^ Z.of_nat 0) with 1 in Hp. rewrite Hp. cbn [mbind option_bind].
  rewrite (logp_loop_spec k word_fuel 0) by (unfold word_fuel; lia).
  cbn [mbind option_bind]. rewrite Z.add_0_l.
  pose proof (pow2_30 k ltac:(lia)) as H30. pose proof (pow2_pos k) as Hpos.
  rewrite (wrap32_small (2 * Z.of_nat k + 4)) by lia.
  rewrite (wrap32_small (2 * 2 ^ Z.of_nat k)) by lia.
  eexists _, k. split; [reflexivity |].
  constructor; simpl; try reflexivity.
  - constructor; try lia; try reflexivity.
    + apply length_replicate_Z. lia.
    + apply length_replicate_Z. nia.
  - apply length_replicate_Z. lia.
  - apply length_replicate_Z. lia.
  - apply length_replicate_Z. lia.
Qed.

(** * The range-point tree represents a set of ranked handles *)

Definition pts_path (k : nat) (rk : Z -> Z) (h : Z) : list Z :=
  path_nodes word_fuel (rk h + 2 ^ Z.of_nat k).

Definition pts_plc (k : nat) (act : list Z) (rk : Z -> Z) : plc_t :=
  fun h b => if bool_decide (h ∈ act) then vget (pts_path k rk h) b else None.

Record pts_rep (st : RangePointSegTree.t) (nh m : Z) (k : nat) (act : list Z)
    (rk : Z -> Z) : Prop := mk_pts_rep {
  pr_shape : pts_shape st nh m k;
  pr_nodup : NoDup act;
  pr_act : forall h, h ∈ act -> 0 <= h < nh /\ 0 <= rk h < m;
  pr_store : store_ok (2 * 2 ^ Z.of_nat k) nh (Z.of_nat k + 1)
               (RangePointSegTree.nodes_ st) (RangePointSegTree.pos_in_node_ st)
               (pts_plc k act rk);
  pr_ps : forall h, 0 <= h < nh ->
            vget (RangePointSegTree.placement_size_ st) h
            = Some (if bool_decide (h ∈ act) then Z.of_nat k + 1 else 0);
  pr_roh : forall h, h ∈ act -> vget (RangePointSegTree.rank_of_handle_ st) h = Some (rk h)
}.

Lemma pts_path_length k rk h m :
  (k <= 30)%nat -> 0 <= rk h < m -> m <= 2 ^ Z.of_nat k ->
  length (pts_path k rk h) = Datatypes.S k.
Proof.
  intros Hk Hr Hm. apply path_nodes_length; [unfold word_fuel; lia |].
  rewrite pow2_succ'. lia.
Qed.

Lemma pts_path_range k rk h m c :
  (k <= 30)%nat -> 0 <= rk h < m -> m <= 2 ^ Z.of_nat k ->
  c ∈ pts_path k rk h -> 0 <= c < 2 * 2 ^ Z.of_nat k.
Proof. intros Hk Hr Hm Hc%path_nodes_bounds. lia. Qed.

Lemma pts_ResetActive_rep st nh m k rk :
  pts_shape st nh m k -> pts_rep (RangePointSegTree.ResetActive st) nh m k [] rk.
Proof.
  intros [H1 H2 H3 [Hp Hk Hnh Hm Hn Hpin] H5 H6].
  constructor; simpl.
  - constructor; simpl; try assumption.
    + constructor; try assumption. rewrite length_map. exact Hn.
    + rewrite length_map. exact H5.
    + rewrite length_map. exact H6.
  - constructor.
  - intros h Hh. inversion Hh.
  - apply (store_ok_ext _ _ _ _ _ (fun _ _ => None)).
    + intros h b. unfold pts_plc. rewrite bool_decide_eq_false_2; [reflexivity |].
      intros Hh. inversion Hh.
    + apply store_ok_empty.
      * lia.
      * rewrite length_map. exact Hn.
      * exact Hpin.
      * intros bucket Hb. apply list_elem_of_fmap in Hb as (? & -> & _). reflexivity.
  - intros h Hh. rewrite vget_map.
    destruct (vget_is_Some (RangePointSegTree.placement_size_ st) h ltac:(lia)) as [x ->].
    reflexivity.
  - intros h Hh. inversion Hh.
Qed.

Lemma pts_rep_perm st nh m k act act' rk :
  act ≡ₚ act' -> pts_rep st nh m k act rk -> pts_rep st nh m k act' rk.
Proof.
  intros Hp [H1 H2 H3 H4 H5 H6].
  assert (Hmem : forall h, h ∈ act <-> h ∈ act') by (intros h; rewrite Hp; reflexivity).
  constructor.
  - exact H1.
  - rewrite <- Hp. exact H2.
  - intros h Hh. apply H3. apply Hmem. exact Hh.
  - eapply store_ok_ext; [| exact H4]. intros h b. unfold pts_plc.
    rewrite (bool_decide_ext _ _ (Hmem h)). reflexivity.
  - intros h Hh. rewrite H5 by exact Hh. rewrite (bool_decide_ext _ _ (Hmem h)). reflexivity.
  - intros h Hh. apply H6. apply Hmem. exact Hh.
Qed.

Lemma pts_Insert_loop_eq : forall (f : nat) st h idx b,
  0 <= idx < 2 ^ Z.of_nat f -> 0 <= b -> b + Z.of_nat (Datatypes.S f) < 2 ^ 32 ->
  RangePointSegTree.Insert_loop (Datatypes.S f) st h idx b
  = '(nodes, pin) ← push_all (RangePointSegTree.nodes_ st) (RangePointSegTree.pos_in_node_ st)
                      (RangePointSegTree.max_refs_ st) h b (path_nodes (Datatypes.S f) idx);
    Some (RangePointSegTree.set_nodes st nodes pin,
          b + Z.of_nat (length (path_nodes (Datatypes.S f) idx))).
Proof.
  induction f as [|f IH]; intros st h idx b Hidx Hb Hlen.
  - simpl in Hidx. assert (idx = 0) as -> by lia. simpl.
    rewrite Z.add_0_r. destruct st; reflexivity.
  - rewrite pow2_succ in Hidx.
    remember (Datatypes.S f) as f' eqn:Ef.
    cbn [RangePointSegTree.Insert_loop path_nodes].
    destruct (Z.ltb_spec 0 idx) as [Hpos|Hz].
    2:{ simpl. rewrite Z.add_0_r. destruct st; reflexivity. }
    cbn [push_all]. unfold RangePointSegTree.AddToNode, RangePointSegTree.PlacementIndex.
    destruct (bucket_push _ _ _ _ _) as [[nodes1 pin1]|]; [| reflexivity].
    cbn [mbind option_bind]. rewrite wrap32_small by lia.
    rewrite IH.
    + cbn [RangePointSegTree.set_nodes RangePointSegTree.nodes_
           RangePointSegTree.pos_in_node_ RangePointSegTree.max_refs_].
      destruct (push_all _ _ _ _ _ _) as [[nodes2 pin2]|]; [| reflexivity].
      cbn [mbind option_bind]. unfold RangePointSegTree.set_nodes.
      cbn [RangePointSegTree.n_handles_ RangePointSegTree.m_ RangePointSegTree.p_
           RangePointSegTree.max_refs_ RangePointSegTree.placement_size_
           RangePointSegTree.rank_of_handle_ length].
      f_equal. f_equal. lia.
    + rewrite shiftr1. pose proof (half_bounds idx). lia.
    + lia.
    + lia.
Qed.

Lemma vget_insert {A} (l : list A) i x j :
  0 <= i < Z.of_nat (length l) ->
  vget (<[Z.to_nat i := x]> l) j = if bool_decide (j = i) then Some x else vget l j.
Proof. intros Hi. apply vget_vset. apply vset_is_Some. exact Hi. Qed.

Lemma vget_ge_None {A} (l : list A) i : Z.of_nat (length l) <= i -> vget l i = None.
Proof.
  intros H. unfold vget. destruct (Z.ltb_spec i 0); [reflexivity |].
  apply lookup_ge_None. lia.
Qed.

Lemma vget_neg_None {A} (l : list A) i : i < 0 -> vget l i = None.
Proof. intros H. unfold vget. destruct (Z.ltb_spec i 0); [reflexivity | lia]. Qed.

Lemma plc_add_spec (plc : plc_t) h ns h' b' :
  (forall b, plc h b = None) ->
  plc_add plc h 0 ns h' b' = if bool_decide (h' = h) then vget ns b' else plc h' b'.
Proof.
  intros Hfree. unfold plc_add.
  destruct (decide (h' = h)) as [->|Hne].
  - rewrite (bool_decide_eq_true_2 (h = h)) by reflexivity.
    destruct (decide (0 <= b' < 0 + Z.of_nat (length ns))) as [Hb|Hb].
    + rewrite bool_decide_eq_true_2 by (split; [reflexivity | exact Hb]).
      rewrite Z.sub_0_r. symmetry. unfold vget.
      destruct (Z.ltb_spec b' 0); [lia | reflexivity].
    + rewrite bool_decide_eq_false_2 by tauto. rewrite Hfree. symmetry.
      destruct (Z.lt_ge_cases b' 0); [apply vget_neg_None; lia | apply vget_ge_None; lia].
  - rewrite bool_decide_eq_false_2 by tauto.
    rewrite bool_decide_eq_false_2 by exact Hne. reflexivity.
Qed.

Lemma pts_Insert_rep st nh m k act rk h :
  pts_rep st nh m k act rk -> h ∉ act -> 0 <= h < nh -> 0 <= rk h < m ->
  exists st', RangePointSegTree.Insert st h (rk h) = Some st'
              /\ pts_rep st' nh m k (h :: act) rk.
Proof.
  intros [[H1 H2 H3 [Hp Hk Hnh Hm Hn Hpin] H5 H6] Hnd Hact Hst Hps Hroh] Hh Hhr Hrk.
  pose proof (pow2_30 k Hk) as H30. pose proof (pow2_pos k) as Hpos.
  unfold RangePointSegTree.Insert.
  rewrite (vset_is_Some (RangePointSegTree.rank_of_handle_ st)) by lia.
  cbn [mbind option_bind]. cbn [RangePointSegTree.p_].
  rewrite Hp. rewrite wrap32_small by lia.
  change word_fuel with (Datatypes.S 63).
  rewrite pts_Insert_loop_eq by (try lia; change (2 ^ Z.of_nat 63) with 9223372036854775808; lia).
  cbn [RangePointSegTree.nodes_ RangePointSegTree.pos_in_node_ RangePointSegTree.max_refs_].
  rewrite H3.
  destruct (push_all_ok (2 * 2 ^ Z.of_nat k) nh (Z.of_nat k + 1)
              (path_nodes (Datatypes.S 63) (rk h + 2 ^ Z.of_nat k))
              (RangePointSegTree.nodes_ st) (RangePointSegTree.pos_in_node_ st)
              (pts_plc k act rk) h 0 Hst) as (nodes' & pin' & Hpush & Hok').
  - lia.
  - exact Hhr.
  - lia.
  - change (path_nodes (Datatypes.S 63) (rk h + 2 ^ Z.of_nat k)) with (pts_path k rk h).
    rewrite (pts_path_length k rk h m) by lia. lia.
  - apply path_nodes_NoDup.
  - intros n Hn'. apply path_nodes_bounds in Hn'. lia.
  - intros b' _. unfold pts_plc. rewrite bool_decide_eq_false_2 by exact Hh. reflexivity.
  - intros b' n _. unfold pts_plc. rewrite bool_decide_eq_false_2 by exact Hh. discriminate.
  - rewrite Hpush. cbn [mbind option_bind]. cbn [RangePointSegTree.set_nodes
      RangePointSegTree.placement_size_ RangePointSegTree.n_handles_ RangePointSegTree.m_
      RangePointSegTree.p_ RangePointSegTree.max_refs_ RangePointSegTree.nodes_
      RangePointSegTree.pos_in_node_ RangePointSegTree.rank_of_handle_].
    rewrite (vset_is_Some (RangePointSegTree.placement_size_ st)) by lia.
    cbn [mbind option_bind].
    eexists. split; [reflexivity |].
    change (path_nodes (Datatypes.S 63) (rk h + 2 ^ Z.of_nat k)) with (pts_path k rk h) in *.
    rewrite (pts_path_length k rk h m) by lia.
    constructor; simpl.
    + constructor; simpl; try assumption; try reflexivity.
      * constructor; try assumption; try reflexivity.
        -- eapply so_len_nodes. exact Hok'.
        -- eapply so_len_pin. exact Hok'.
      * rewrite length_insert. exact H5.
      * rewrite length_insert. exact H6.
    + constructor; assumption.
    + intros h' [->|Hin]%elem_of_cons; [split; assumption | apply Hact; exact Hin].
    + eapply store_ok_ext; [| exact Hok']. intros h' b'.
      rewrite plc_add_spec.
      2:{ intros b. unfold pts_plc. rewrite bool_decide_eq_false_2 by exact Hh. reflexivity. }
      unfold pts_plc. destruct (decide (h' = h)) as [->|Hne].
      * rewrite bool_decide_eq_true_2 by reflexivity.
        rewrite bool_decide_eq_true_2 by left. reflexivity.
      * rewrite (bool_decide_eq_false_2 (h' = h)) by exact Hne.
        apply (f_equal (fun c : bool => if c then _ else _)).
        apply bool_decide_ext. rewrite elem_of_cons. tauto.
    + intros h' Hh'.
      rewrite vget_insert by lia.
      destruct (decide (h' = h)) as [->|Hne].
      * rewrite bool_decide_eq_true_2 by reflexivity.
        rewrite bool_decide_eq_true_2 by left. f_equal. lia.
      * rewrite (bool_decide_eq_false_2 (h' = h)) by exact Hne.
        rewrite Hps by exact Hh'. f_equal.
        apply (f_equal (fun c : bool => if c then _ else _)).
        apply bool_decide_ext. rewrite elem_of_cons. tauto.
    + intros h' Hh'.
      rewrite vget_insert by lia.
      destruct (decide (h' = h)) as [->|Hne].
      * rewrite bool_decide_eq_true_2 by reflexivity. reflexivity.
      * rewrite bool_decide_eq_false_2 by exact Hne.
        apply Hroh. apply elem_of_cons in Hh' as [->|Hin]; [congruence | exact Hin].
Qed.

(** The nodes [idx, idx >> 1, ...] visited by a loop of [n] rounds. *)
Fixpoint shifts (n : nat) (idx : Z) : list Z :=
  match n with
  | O => []
  | Datatypes.S n' => idx :: shifts n' (Z.shiftr idx 1)
  end.

Lemma shifts_path (k : nat) : forall fuel x,
  (k < fuel)%nat -> 2 ^ Z.of_nat k <= x < 2 ^ (Z.of_nat k + 1) ->
  shifts (Datatypes.S k) x = path_nodes fuel x.
Proof.
  induction k as [|k IH]; intros fuel x Hf Hx; (destruct fuel as [|fuel]; [lia |]).
  - simpl in Hx. assert (x = 1) as -> by lia. simpl. destruct fuel; reflexivity.
  - cbn [shifts path_nodes]. pose proof (pow2_pos (Datatypes.S k)).
    destruct (Z.ltb_spec 0 x); [| lia]. f_equal. apply IH; [lia |].
    rewrite shiftr1. rewrite pow2_succ' in Hx |- *. rewrite pow2_succ in Hx.
    pose proof (half_bounds x). lia.
Qed.

Lemma seqZ_cons_S b (n : nat) : seqZ b (Z.of_nat (Datatypes.S n)) = b :: seqZ (b + 1) (Z.of_nat n).
Proof.
  rewrite seqZ_cons by lia. f_equal. f_equal; lia.
Qed.

Lemma length_shifts n idx : length (shifts n idx) = n.
Proof. revert idx. induction n as [|n IH]; intros idx; simpl; [reflexivity | rewrite IH; reflexivity]. Qed.

Lemma pts_Erase_loop_eq h : forall (n : nat) st idx b,
  ofold (fun '(st, idx) i =>
           pos ← vget (RangePointSegTree.pos_in_node_ st)
                   (RangePointSegTree.PlacementIndex st h i);
           st ← RangePointSegTree.RemoveFromNode st idx pos;
           Some (st, Z.shiftr idx 1))
        (seqZ b (Z.of_nat n)) (st, idx)
  = '(nodes, pin) ← remove_all (RangePointSegTree.nodes_ st) (RangePointSegTree.pos_in_node_ st)
                      (RangePointSegTree.max_refs_ st) h b (shifts n idx);
    Some (RangePointSegTree.set_nodes st nodes pin, Z.shiftr idx (Z.of_nat n)).
Proof.
  induction n as [|n IH]; intros st idx b.
  - simpl. destruct st; reflexivity.
  - rewrite seqZ_cons_S. cbn [ofold shifts remove_all].
    unfold RangePointSegTree.PlacementIndex at 1.
    destruct (vget _ _) as [pos|]; [| reflexivity]. cbn [mbind option_bind].
    unfold RangePointSegTree.RemoveFromNode.
    destruct (bucket_swap_remove _ _ _ _ _) as [[nodes1 pin1]|]; [| reflexivity].
    cbn [mbind option_bind]. rewrite IH.
    cbn [RangePointSegTree.set_nodes RangePointSegTree.nodes_
         RangePointSegTree.pos_in_node_ RangePointSegTree.max_refs_].
    destruct (remove_all _ _ _ _ _ _) as [[nodes2 pin2]|]; [| reflexivity].
    cbn [mbind option_bind]. unfold RangePointSegTree.set_nodes.
    cbn [RangePointSegTree.n_handles_ RangePointSegTree.m_ RangePointSegTree.p_
         RangePointSegTree.max_refs_ RangePointSegTree.placement_size_
         RangePointSegTree.rank_of_handle_].
    f_equal. f_equal. rewrite Z.shiftr_shiftr by lia. f_equal. lia.
Qed.

Lemma pts_Erase_rep st nh m k act rk h :
  pts_rep st nh m k act rk -> h ∈ act ->
  exists st', RangePointSegTree.Erase st h = Some st'
              /\ pts_rep st' nh m k (filter (fun x => x <> h) act) rk.
Proof.
  intros [[H1 H2 H3 [Hp Hk Hnh Hm Hn Hpin] H5 H6] Hnd Hact Hst Hps Hroh] Hh.
  pose proof (pow2_30 k Hk) as H30. pose proof (pow2_pos k) as Hpos.
  destruct (Hact h Hh) as [Hhr Hrk].
  unfold RangePointSegTree.Erase.
  rewrite Hps by exact Hhr. rewrite bool_decide_eq_true_2 by exact Hh.
  cbn [mbind option_bind].
  destruct (Z.eqb_spec (Z.of_nat k + 1) 0) as [?|_]; [lia |].
  rewrite Hroh by exact Hh. cbn [mbind option_bind].
  rewrite Hp, wrap32_small by lia.
  unfold upto. replace (Z.of_nat k + 1) with (Z.of_nat (Datatypes.S k)) by lia.
  rewrite pts_Erase_loop_eq.
  rewrite (shifts_path k word_fuel) by (unfold word_fuel; rewrite ?pow2_succ'; lia).
  rewrite H3.
  destruct (remove_all_ok (2 * 2 ^ Z.of_nat k) nh (Z.of_nat k + 1)
              (path_nodes word_fuel (rk h + 2 ^ Z.of_nat k))
              (RangePointSegTree.nodes_ st) (RangePointSegTree.pos_in_node_ st)
              (pts_plc k act rk) h 0 Hst) as (nodes' & pin' & Hrem & Hok').
  - intros i n Hi. unfold pts_plc. rewrite bool_decide_eq_true_2 by exact Hh.
    apply vget_Some. split; [lia |]. rewrite Z.add_0_l, Nat2Z.id. exact Hi.
  - rewrite Hrem. cbn [mbind option_bind]. cbn [RangePointSegTree.set_nodes
      RangePointSegTree.placement_size_ RangePointSegTree.n_handles_ RangePointSegTree.m_
      RangePointSegTree.p_ RangePointSegTree.max_refs_ RangePointSegTree.nodes_
      RangePointSegTree.pos_in_node_ RangePointSegTree.rank_of_handle_].
    rewrite (vset_is_Some (RangePointSegTree.placement_size_ st)) by lia.
    cbn [mbind option_bind].
    rewrite (vset_is_Some (RangePointSegTree.rank_of_handle_ st)) by lia.
    cbn [mbind option_bind].
    eexists. split; [reflexivity |].
    change (path_nodes word_fuel (rk h + 2 ^ Z.of_nat k)) with (pts_path k rk h) in *.
    rewrite (pts_path_length k rk h m) in Hok' by lia.
    assert (Hmem : forall h', h' ∈ filter (fun x => x <> h) act <-> h' ∈ act /\ h' <> h).
    { intros h'. rewrite list_elem_of_filter. tauto. }
    constructor; simpl.
    + constructor; simpl; try assumption; try reflexivity.
      * constructor; try assumption; try reflexivity.
        -- eapply so_len_nodes. exact Hok'.
        -- eapply so_len_pin. exact Hok'.
      * rewrite length_insert. exact H5.
      * rewrite length_insert. exact H6.
    + apply NoDup_filter. exact Hnd.
    + intros h' Hh'. apply Hact. apply Hmem in Hh'. tauto.
    + eapply store_ok_ext; [| exact Hok']. intros h' b'.
      unfold plc_del, pts_plc. destruct (decide (h' = h)) as [->|Hne].
      * rewrite (bool_decide_eq_false_2 (h ∈ filter _ act)) by (rewrite Hmem; tauto).
        case_bool_decide as Hb; [reflexivity |].
        rewrite bool_decide_eq_true_2 by exact Hh.
        destruct (Z.lt_ge_cases b' 0); [apply vget_neg_None; lia |].
        apply vget_ge_None. rewrite (pts_path_length k rk h m) by lia. lia.
      * rewrite bool_decide_eq_false_2 by tauto.
        apply (f_equal (fun c : bool => if c then _ else _)).
        apply bool_decide_ext. rewrite Hmem. tauto.
    + intros h' Hh'.
      rewrite vget_insert by lia.
      destruct (decide (h' = h)) as [->|Hne].
      * rewrite bool_decide_eq_true_2 by reflexivity.
        rewrite bool_decide_eq_false_2 by (rewrite Hmem; tauto). reflexivity.
      * rewrite (bool_decide_eq_false_2 (h' = h)) by exact Hne.
        rewrite Hps by exact Hh'. f_equal.
        apply (f_equal (fun c : bool => if c then _ else _)).
        apply bool_decide_ext. rewrite Hmem. tauto.
    + intros h' Hh'. apply Hmem in Hh' as [Hin Hne].
      rewrite vget_insert by lia.
      rewrite bool_decide_eq_false_2 by exact Hne. apply Hroh. exact Hin.
Qed.

(** * Counting *)

Definition node_size (nodes : list (list Item)) (c : Z) : Z :=
  match vget nodes c with Some b => Z.of_nat (length b) | None => 0 end.

Lemma zsum_nonneg {A} (g : A -> Z) l : (forall a, a ∈ l -> 0 <= g a) -> 0 <= zsum g l.
Proof.
  induction l as [|a l IH]; intros H; simpl; [lia |].
  specialize (H a ltac:(left)) as Ha.
  assert (0 <= zsum g l) by (apply IH; intros b Hb; apply H; right; exact Hb). lia.
Qed.

Lemma node_size_nonneg nodes c : 0 <= node_size nodes c.
Proof. unfold node_size. destruct (vget nodes c); lia. Qed.

Lemma pts_CountRange_loop_eq : forall (f : nat) st L R total,
  0 < L -> R < 2 ^ Z.of_nat f -> Z.of_nat (length (RangePointSegTree.nodes_ st)) >= R ->
  0 <= total ->
  total + zsum (node_size (RangePointSegTree.nodes_ st)) (cover_nodes (Datatypes.S f) L R) < 2 ^ 64 ->
  RangePointSegTree.CountRange_loop (Datatypes.S f) st L R total
  = Some (total + zsum (node_size (RangePointSegTree.nodes_ st)) (cover_nodes (Datatypes.S f) L R)).
Proof.
  induction f as [|f IH]; intros st L R total HL HR Hlen Ht Hsum.
  - simpl in HR. cbn [RangePointSegTree.CountRange_loop cover_nodes].
    destruct (Z.ltb_spec L R); [lia |]. simpl. f_equal. lia.
  - rewrite pow2_succ in HR.
    remember (Datatypes.S f) as f' eqn:Ef.
    cbn [RangePointSegTree.CountRange_loop]. cbn [cover_nodes] in Hsum |- *.
    destruct (Z.ltb_spec L R) as [Hlt|Hge]; [| simpl; f_equal; lia].
    rewrite !zsum_app in Hsum |- *.
    set (nodes := RangePointSegTree.nodes_ st) in *.
    assert (Hsz : forall c, 0 <= c < R -> RangePointSegTree.bucket_size st c = Some (node_size nodes c)).
    { intros c Hc. unfold RangePointSegTree.bucket_size, node_size. fold nodes.
      destruct (vget_is_Some nodes c ltac:(lia)) as [bk ->]. reflexivity. }
    pose proof (node_size_nonneg nodes L) as HnL.
    pose proof (node_size_nonneg nodes (R - 1)) as HnR.
    set (L' := Z.shiftr (if odd L then L + 1 else L) 1) in *.
    set (R' := Z.shiftr (if odd R then R - 1 else R) 1) in *.
    assert (0 <= zsum (node_size nodes) (cover_nodes f' L' R')) as Hrest
      by (apply zsum_nonneg; intros; apply node_size_nonneg).
    assert (0 < L' /\ R' < 2 ^ Z.of_nat f /\ R' <= R) as (HL' & HR' & HRR).
    { subst L' R'. rewrite !shiftr1.
      pose proof (half_bounds (if odd L then L + 1 else L)) as HbL.
      pose proof (half_bounds (if odd R then R - 1 else R)) as HbR.
      pose proof (half_exact L) as HeL.
      destruct (odd L) eqn:EL, (odd R) eqn:ER; odd_cases; lia. }
    assert (Hstep : forall total', 0 <= total' ->
              total' + zsum (node_size nodes) (cover_nodes f' L' R') < 2 ^ 64 ->
              RangePointSegTree.CountRange_loop f' st L' R' total'
              = Some (total' + zsum (node_size nodes) (cover_nodes f' L' R'))).
    { intros total' Ht' Hs'. subst f'. apply IH; try assumption. fold nodes. lia. }
    destruct (odd L) eqn:EL, (odd R) eqn:ER;
      cbn [zsum fold_right] in Hsum |- *;
      rewrite ?Hsz by lia; cbn [mbind option_bind];
      rewrite ?(wrap64_small (total + node_size nodes L)) by lia;
      rewrite ?wrap64_small by lia;
      subst L' R'; rewrite Hstep by lia; f_equal; lia.
Qed.

(** The bucket sizes over a list of nodes count, for each active handle, the nodes
    of the list that hold it. *)
Lemma cover_sum_store N nh mr nodes pin plc (act : list Z) (nd : Z -> list Z) cover :
  store_ok N nh mr nodes pin plc -> NoDup act ->
  (forall h b, plc h b = if bool_decide (h ∈ act) then vget (nd h) b else None) ->
  (forall c, c ∈ cover -> 0 <= c < N) ->
  zsum (node_size nodes) cover = zsum (fun h => hits (nd h) cover) act.
Proof.
  intros Hok Hnd Hplc Hcov.
  rewrite (zsum_ext _ (fun c => zsum (fun h => if bool_decide (c ∈ nd h) then 1 else 0) act)).
  - rewrite zsum_swap. reflexivity.
  - intros c Hc. unfold node_size.
    pose proof (so_len_nodes _ _ _ _ _ _ Hok) as Hlen.
    destruct (vget_is_Some nodes c) as [bk Hbk]; [specialize (Hcov c Hc); lia |].
    rewrite Hbk. eapply store_bucket_size; eassumption.
Qed.

Lemma zsum_le_length {A} (g : A -> Z) l :
  (forall a, a ∈ l -> 0 <= g a <= 1) -> 0 <= zsum g l <= Z.of_nat (length l).
Proof.
  induction l as [|a l IH]; intros H; simpl; [lia |].
  specialize (H a ltac:(left)) as Ha.
  assert (0 <= zsum g l <= Z.of_nat (length l))
    by (apply IH; intros b Hb; apply H; right; exact Hb). lia.
Qed.

Lemma pts_act_length st nh m k act rk :
  pts_rep st nh m k act rk -> Z.of_nat (length act) <= nh.
Proof.
  intros Hrep. apply NoDup_range_length.
  - apply (so_nh _ _ _ _ _ _ (pr_store _ _ _ _ _ _ Hrep)).
  - apply (pr_nodup _ _ _ _ _ _ Hrep).
  - intros x Hx. apply (pr_act _ _ _ _ _ _ Hrep x Hx).
Qed.

Lemma pts_CountRange st nh m k act rk l r :
  pts_rep st nh m k act rk -> 0 <= l ->
  RangePointSegTree.CountRange st l r
  = Some (zcount (fun h => bool_decide (l <= rk h < r)) act).
Proof.
  intros Hrep Hl.
  pose proof (pr_shape _ _ _ _ _ _ Hrep) as Hsh.
  destruct Hsh as [Hnh Hm Hmr [Hp Hk Hnhr Hmm Hnodes Hpin] _ _].
  pose proof (pow2_30 k Hk) as H30. pose proof (pow2_pos k) as Hpos.
  pose proof (pts_act_length _ _ _ _ _ _ Hrep) as Hlen.
  unfold RangePointSegTree.CountRange. rewrite Hm, Hp.
  assert (Hzero : r <= l \/ Z.min r m <= Z.min l m ->
            zcount (fun h => bool_decide (l <= rk h < r)) act = 0).
  { intros Hc. apply zsum_zero. intros h Hh.
    pose proof (pr_act _ _ _ _ _ _ Hrep h Hh) as [_ Hr].
    rewrite bool_decide_eq_false_2 by lia. reflexivity. }
  destruct (Z.leb_spec r l) as [Hrl|Hrl]; cbn [orb].
  { rewrite Hzero by lia. reflexivity. }
  destruct (Z.eqb_spec m 0) as [Hm0|Hm0]; [lia |].
  destruct (Z.leb_spec (Z.min r m) (Z.min l m)) as [Hrl'|Hrl'].
  { rewrite Hzero by lia. reflexivity. }
  rewrite !wrap32_small by lia.
  set (L := Z.min l m + 2 ^ Z.of_nat k). set (R := Z.min r m + 2 ^ Z.of_nat k).
  assert (Hcov : forall c, c ∈ cover_nodes word_fuel L R -> 0 <= c < 2 * 2 ^ Z.of_nat k).
  { intros c Hc%cover_nodes_bounds; subst L R; lia. }
  assert (Hsum : zsum (node_size (RangePointSegTree.nodes_ st)) (cover_nodes word_fuel L R)
                 = zcount (fun h => bool_decide (l <= rk h < r)) act).
  { rewrite (cover_sum_store _ _ _ _ _ _ act (pts_path k rk) _
               (pr_store _ _ _ _ _ _ Hrep) (pr_nodup _ _ _ _ _ _ Hrep)
               ltac:(intros; reflexivity) Hcov).
    apply zsum_ext. intros h Hh.
    pose proof (pr_act _ _ _ _ _ _ Hrep h Hh) as [_ Hr].
    unfold pts_path. rewrite (cover_path_hits k); unfold word_fuel; subst L R;
      rewrite ?pow2_succ'; try lia.
    apply f_equal with (f := fun b : bool => if b then 1 else 0).
    apply bool_decide_ext. lia. }
  pose proof (zcount_bounds (fun h => bool_decide (l <= rk h < r)) act) as Hb.
  unfold word_fuel in *.
  rewrite pts_CountRange_loop_eq; rewrite ?Hsum; try (f_equal; lia); try lia.
Qed.

(** * The stabbing tree represents a set of handles with rank intervals *)

Definition stab_cover (k : nat) (lo hi : Z -> Z) (h : Z) : list Z :=
  cover_nodes word_fuel (lo h + 2 ^ Z.of_nat k) (hi h + 2 ^ Z.of_nat k).

Definition stab_plc (k : nat) (act : list Z) (lo hi : Z -> Z) : plc_t :=
  fun h b => if bool_decide (h ∈ act) then vget (stab_cover k lo hi h) b else None.

Record stab_rep (st : StabbingSegTree.t) (nh m : Z) (k : nat) (act : list Z)
    (lo hi : Z -> Z) : Prop := mk_stab_rep {
  sr_shape : stab_shape st nh m k;
  sr_nodup : NoDup act;
  sr_act : forall h, h ∈ act -> 0 <= h < nh /\ 0 <= lo h < hi h /\ hi h <= m;
  sr_store : store_ok (2 * 2 ^ Z.of_nat k) nh (2 * Z.of_nat k + 4)
               (StabbingSegTree.nodes_ st) (StabbingSegTree.pos_in_node_ st)
               (stab_plc k act lo hi);
  sr_ps : forall h, 0 <= h < nh ->
            vget (StabbingSegTree.placement_size_ st) h
            = Some (if bool_decide (h ∈ act)
                    then Z.of_nat (length (stab_cover k lo hi h)) else 0);
  sr_lo : forall h, h ∈ act -> vget (StabbingSegTree.lo_rank_ st) h = Some (lo h);
  sr_hi : forall h, h ∈ act -> vget (StabbingSegTree.hi_rank_ st) h = Some (hi h)
}.

Ltac stab_proj :=
  cbn [StabbingSegTree.set_nodes StabbingSegTree.set_ranks
       StabbingSegTree.n_handles_ StabbingSegTree.m_ StabbingSegTree.p_
       StabbingSegTree.max_refs_ StabbingSegTree.nodes_ StabbingSegTree.pos_in_node_
       StabbingSegTree.placement_size_ StabbingSegTree.lo_rank_ StabbingSegTree.hi_rank_].

Lemma stab_cover_eq k lo hi h :
  cover_nodes word_fuel (lo h + 2 ^ Z.of_nat k) (hi h + 2 ^ Z.of_nat k) = stab_cover k lo hi h.
Proof. unfold stab_cover. reflexivity. Qed.

Lemma hits_bounds path cover : 0 <= hits path cover <= Z.of_nat (length cover).
Proof. apply zcount_bounds. Qed.

Lemma stab_cover_facts k lo hi h m :
  (k <= 30)%nat -> 0 <= lo h < hi h -> hi h <= m -> m <= 2 ^ Z.of_nat k ->
  NoDup (stab_cover k lo hi h)
  /\ 1 <= Z.of_nat (length (stab_cover k lo hi h)) <= 2 * Z.of_nat k + 2
  /\ (forall c, c ∈ stab_cover k lo hi h -> 0 < c < 2 * 2 ^ Z.of_nat k).
Proof.
  intros Hk Hlo Hhi Hm. unfold stab_cover. pose proof (pow2_pos k) as Hpos.
  split; [| split].
  - apply (cover_nodes_NoDup k); [lia | lia | rewrite pow2_succ'; lia].
  - split; [| apply (cover_nodes_length k); [lia | lia | rewrite pow2_succ'; lia]].
    set (L := lo h + 2 ^ Z.of_nat k). set (R := hi h + 2 ^ Z.of_nat k).
    assert (Hh : hits (path_nodes word_fuel L) (cover_nodes word_fuel L R) = 1).
    { rewrite (cover_path_hits k word_fuel word_fuel L R L).
      - rewrite bool_decide_eq_true_2 by (subst L R; lia). reflexivity.
      - unfold word_fuel. lia.
      - unfold word_fuel. lia.
      - subst L. lia.
      - subst L R. lia.
      - subst R. rewrite pow2_succ'. lia.
      - subst L. rewrite pow2_succ'. lia. }
    pose proof (hits_bounds (path_nodes word_fuel L) (cover_nodes word_fuel L R)) as Hb.
    rewrite Hh in Hb. exact (proj2 Hb).
  - intros c Hc%cover_nodes_bounds; lia.
Qed.

Lemma stab_ResetActive_rep st nh m k lo hi :
  stab_shape st nh m k -> stab_rep (StabbingSegTree.ResetActive st) nh m k [] lo hi.
Proof.
  intros [H1 H2 H3 [Hp Hk Hnh Hm Hn Hpin] H5 H6 H7].
  constructor; unfold StabbingSegTree.ResetActive; stab_proj.
  - constructor; stab_proj; try assumption; rewrite ?length_map; try assumption.
    constructor; try assumption. rewrite length_map. exact Hn.
  - constructor.
  - intros h Hh. inversion Hh.
  - apply (store_ok_ext _ _ _ _ _ (fun _ _ => None)).
    + intros h b. unfold stab_plc. rewrite bool_decide_eq_false_2; [reflexivity |].
      intros Hh. inversion Hh.
    + apply store_ok_empty.
      * lia.
      * rewrite length_map. exact Hn.
      * exact Hpin.
      * intros bucket Hb. apply list_elem_of_fmap in Hb as (? & -> & _). reflexivity.
  - intros h Hh. rewrite vget_map.
    destruct (vget_is_Some (StabbingSegTree.placement_size_ st) h ltac:(lia)) as [x ->].
    reflexivity.
  - intros h Hh. inversion Hh.
  - intros h Hh. inversion Hh.
Qed.

Lemma stab_AddToNode_eq st h node b :
  vget (StabbingSegTree.placement_size_ st) h = Some b -> 0 <= b -> b + 1 < 2 ^ 32 ->
  StabbingSegTree.AddToNode st h node
  = '(nodes, pin) ← bucket_push (StabbingSegTree.nodes_ st) (StabbingSegTree.pos_in_node_ st)
                      (h * StabbingSegTree.max_refs_ st + b) node (mkItem h b);
    Some (StabbingSegTree.set_nodes st nodes pin
            (<[Z.to_nat h := b + 1]> (StabbingSegTree.placement_size_ st))).
Proof.
  intros Hb H0 H1. unfold StabbingSegTree.AddToNode, StabbingSegTree.PlacementIndex.
  rewrite Hb. cbn [mbind option_bind].
  destruct (bucket_push _ _ _ _ _) as [[n p]|]; [| reflexivity]. cbn [mbind option_bind].
  rewrite vset_is_Some by (eapply vget_lt; eassumption). cbn [mbind option_bind].
  rewrite wrap32_small by lia. reflexivity.
Qed.

Lemma set_nodes_id st :
  StabbingSegTree.set_nodes st (StabbingSegTree.nodes_ st) (StabbingSegTree.pos_in_node_ st)
    (StabbingSegTree.placement_size_ st) = st.
Proof. destruct st; reflexivity. Qed.

Lemma insert_same_vget {A} (l : list A) i x : vget l i = Some x -> <[Z.to_nat i := x]> l = l.
Proof. intros [_ H]%vget_Some. apply list_insert_id. exact H. Qed.


Lemma stab_Insert_loop_eq h : forall (f : nat) st l r b,
  0 < l -> r < 2 ^ Z.of_nat f ->
  vget (StabbingSegTree.placement_size_ st) h = Some b ->
  0 <= b -> b + 2 * Z.of_nat (Datatypes.S f) < 2 ^ 32 ->
  StabbingSegTree.Insert_loop (Datatypes.S f) st h l r
  = '(nodes, pin) ← push_all (StabbingSegTree.nodes_ st) (StabbingSegTree.pos_in_node_ st)
                      (StabbingSegTree.max_refs_ st) h b (cover_nodes (Datatypes.S f) l r);
    Some (StabbingSegTree.set_nodes st nodes pin
            (<[Z.to_nat h := b + Z.of_nat (length (cover_nodes (Datatypes.S f) l r))]>
               (StabbingSegTree.placement_size_ st))).
Proof.
  induction f as [|f IH]; intros st l r b Hl Hr Hps Hb Hlen.
  - simpl in Hr. cbn [StabbingSegTree.Insert_loop cover_nodes].
    destruct (Z.ltb_spec l r); [lia |]. cbn [push_all mbind option_bind length].
    rewrite Z.add_0_r, (insert_same_vget _ _ _ Hps), set_nodes_id. reflexivity.
  - rewrite pow2_succ in Hr.
    remember (Datatypes.S f) as f' eqn:Ef.
    cbn [StabbingSegTree.Insert_loop cover_nodes].
    destruct (Z.ltb_spec l r) as [Hlt|Hge].
    2:{ cbn [push_all mbind option_bind length].
        rewrite Z.add_0_r, (insert_same_vget _ _ _ Hps), set_nodes_id. reflexivity. }
    pose proof (vget_lt _ _ _ Hps) as Hh.
    assert (HL' : 0 < Z.shiftr (if odd l then l + 1 else l) 1
                  /\ Z.shiftr (if odd r then r - 1 else r) 1 < 2 ^ Z.of_nat f).
    { rewrite !shiftr1.
      pose proof (half_bounds (if odd l then l + 1 else l)) as HbL.
      pose proof (half_bounds (if odd r then r - 1 else r)) as HbR.
      pose proof (half_exact l) as HeL.
      destruct (odd l) eqn:EL, (odd r) eqn:ER; odd_cases; lia. }
    destruct HL' as [HL' HR'].
    destruct (odd l) eqn:EL, (odd r) eqn:ER; cbn [app push_all length].
    + rewrite (stab_AddToNode_eq st h l b Hps) by lia.
      destruct (bucket_push _ _ _ _ _) as [[n1 p1]|]; [| reflexivity].
      cbn [mbind option_bind].
      rewrite (stab_AddToNode_eq _ h (r - 1) (b + 1))
        by (stab_proj; try lia; rewrite vget_insert by lia;
            rewrite bool_decide_eq_true_2 by reflexivity; reflexivity).
      stab_proj.
      destruct (bucket_push _ _ _ _ _) as [[n2 p2]|]; [| reflexivity].
      cbn [mbind option_bind].
      rewrite (IH _ _ _ (b + 1 + 1)); subst f'; stab_proj; try lia.
      * destruct (push_all _ _ _ _ _ _) as [[n3 p3]|]; [| reflexivity].
        cbn [mbind option_bind]. stab_proj. rewrite !list_insert_insert_eq.
        f_equal. f_equal. f_equal. lia.
      * rewrite vget_insert by (rewrite length_insert; lia).
        rewrite bool_decide_eq_true_2 by reflexivity. reflexivity.
    + rewrite (stab_AddToNode_eq st h l b Hps) by lia.
      destruct (bucket_push _ _ _ _ _) as [[n1 p1]|]; [| reflexivity].
      cbn [mbind option_bind].
      rewrite (IH _ _ _ (b + 1)); subst f'; stab_proj; try lia.
      * destruct (push_all _ _ _ _ _ _) as [[n3 p3]|]; [| reflexivity].
        cbn [mbind option_bind]. stab_proj. rewrite !list_insert_insert_eq.
        f_equal. f_equal. f_equal. lia.
      * rewrite vget_insert by lia.
        rewrite bool_decide_eq_true_2 by reflexivity. reflexivity.
    + cbn [mbind option_bind].
      rewrite (stab_AddToNode_eq st h (r - 1) b Hps) by lia.
      destruct (bucket_push _ _ _ _ _) as [[n1 p1]|]; [| reflexivity].
      cbn [mbind option_bind].
      rewrite (IH _ _ _ (b + 1)); subst f'; stab_proj; try lia.
      * destruct (push_all _ _ _ _ _ _) as [[n3 p3]|]; [| reflexivity].
        cbn [mbind option_bind]. stab_proj. rewrite !list_insert_insert_eq.
        f_equal. f_equal. f_equal. lia.
      * rewrite vget_insert by lia.
        rewrite bool_decide_eq_true_2 by reflexivity. reflexivity.
    + cbn [mbind option_bind].
      rewrite (IH _ _ _ b); subst f'; stab_proj; try lia; try assumption.
      reflexivity.
Qed.

Lemma stab_RemoveFromNode_eq st node pos :
  StabbingSegTree.RemoveFromNode st node pos
  = '(nodes, pin) ← bucket_swap_remove (StabbingSegTree.nodes_ st)
                      (StabbingSegTree.pos_in_node_ st) (StabbingSegTree.max_refs_ st) node pos;
    Some (StabbingSegTree.set_nodes st nodes pin (StabbingSegTree.placement_size_ st)).
Proof. reflexivity. Qed.

Lemma stab_Erase_loop_eq h : forall (f : nat) st l r b,
  0 < l -> r < 2 ^ Z.of_nat f ->
  0 <= b -> b + 2 * Z.of_nat (Datatypes.S f) < 2 ^ 32 ->
  StabbingSegTree.Erase_loop (Datatypes.S f) st h l r b
  = '(nodes, pin) ← remove_all (StabbingSegTree.nodes_ st) (StabbingSegTree.pos_in_node_ st)
                      (StabbingSegTree.max_refs_ st) h b (cover_nodes (Datatypes.S f) l r);
    Some (StabbingSegTree.set_nodes st nodes pin (StabbingSegTree.placement_size_ st),
          b + Z.of_nat (length (cover_nodes (Datatypes.S f) l r))).
Proof.
  induction f as [|f IH]; intros st l r b Hl Hr Hb Hlen.
  - simpl in Hr. cbn [StabbingSegTree.Erase_loop cover_nodes].
    destruct (Z.ltb_spec l r); [lia |]. cbn [remove_all mbind option_bind length].
    rewrite Z.add_0_r, set_nodes_id. reflexivity.
  - rewrite pow2_succ in Hr.
    remember (Datatypes.S f) as f' eqn:Ef.
    cbn [StabbingSegTree.Erase_loop cover_nodes].
    destruct (Z.ltb_spec l r) as [Hlt|Hge].
    2:{ cbn [remove_all mbind option_bind length].
        rewrite Z.add_0_r, set_nodes_id. reflexivity. }
    assert (HL' : 0 < Z.shiftr (if odd l then l + 1 else l) 1
                  /\ Z.shiftr (if odd r then r - 1 else r) 1 < 2 ^ Z.of_nat f).
    { rewrite !shiftr1.
      pose proof (half_bounds (if odd l then l + 1 else l)) as HbL.
      pose proof (half_bounds (if odd r then r - 1 else r)) as HbR.
      pose proof (half_exact l) as HeL.
      destruct (odd l) eqn:EL, (odd r) eqn:ER; odd_cases; lia. }
    destruct HL' as [HL' HR'].
    unfold StabbingSegTree.PlacementIndex.
    destruct (odd l) eqn:EL, (odd r) eqn:ER; cbn [app remove_all length].
    + destruct (vget _ _) as [pos1|]; [| reflexivity]. cbn [mbind option_bind].
      rewrite stab_RemoveFromNode_eq.
      destruct (bucket_swap_remove _ _ _ _ _) as [[n1 p1]|]; [| reflexivity].
      cbn [mbind option_bind]. stab_proj. rewrite ?(wrap32_small (b + 1)) by lia; rewrite ?(wrap32_small (b + 1 + 1)) by lia.
      destruct (vget _ _) as [pos2|]; [| reflexivity]. cbn [mbind option_bind].
      rewrite stab_RemoveFromNode_eq. stab_proj.
      destruct (bucket_swap_remove _ _ _ _ _) as [[n2 p2]|]; [| reflexivity].
      cbn [mbind option_bind]. rewrite ?(wrap32_small (b + 1)) by lia; rewrite ?(wrap32_small (b + 1 + 1)) by lia.
      rewrite IH by (subst f'; lia). stab_proj.
      destruct (remove_all _ _ _ _ _ _) as [[n3 p3]|]; [| reflexivity].
      cbn [mbind option_bind]. stab_proj. f_equal. f_equal. lia.
    + destruct (vget _ _) as [pos1|]; [| reflexivity]. cbn [mbind option_bind].
      rewrite stab_RemoveFromNode_eq.
      destruct (bucket_swap_remove _ _ _ _ _) as [[n1 p1]|]; [| reflexivity].
      cbn [mbind option_bind]. stab_proj. rewrite ?(wrap32_small (b + 1)) by lia; rewrite ?(wrap32_small (b + 1 + 1)) by lia.
      rewrite IH by (subst f'; lia). stab_proj.
      destruct (remove_all _ _ _ _ _ _) as [[n3 p3]|]; [| reflexivity].
      cbn [mbind option_bind]. stab_proj. f_equal. f_equal. lia.
    + cbn [mbind option_bind].
      destruct (vget _ _) as [pos1|]; [| reflexivity]. cbn [mbind option_bind].
      rewrite stab_RemoveFromNode_eq.
      destruct (bucket_swap_remove _ _ _ _ _) as [[n1 p1]|]; [| reflexivity].
      cbn [mbind option_bind]. stab_proj. rewrite ?(wrap32_small (b + 1)) by lia; rewrite ?(wrap32_small (b + 1 + 1)) by lia.
      rewrite IH by (subst f'; lia). stab_proj.
      destruct (remove_all _ _ _ _ _ _) as [[n3 p3]|]; [| reflexivity].
      cbn [mbind option_bind]. stab_proj. f_equal. f_equal. lia.
    + cbn [mbind option_bind].
      rewrite IH by (subst f'; lia). reflexivity.
Qed.

Lemma stab_Count_loop_eq : forall (f : nat) st idx total,
  0 <= idx < 2 ^ Z.of_nat f -> idx < Z.of_nat (length (StabbingSegTree.nodes_ st)) ->
  0 <= total ->
  total + zsum (node_size (StabbingSegTree.nodes_ st)) (path_nodes (Datatypes.S f) idx) < 2 ^ 64 ->
  StabbingSegTree.Count_loop (Datatypes.S f) st idx total
  = Some (total + zsum (node_size (StabbingSegTree.nodes_ st)) (path_nodes (Datatypes.S f) idx)).
Proof.
  induction f as [|f IH]; intros st idx total Hidx Hlen Ht Hsum.
  - simpl in Hidx. cbn [StabbingSegTree.Count_loop path_nodes].
    destruct (Z.ltb_spec 0 idx); [lia |]. cbn [zsum fold_right]. f_equal. lia.
  - rewrite pow2_succ in Hidx.
    remember (Datatypes.S f) as f' eqn:Ef.
    cbn [StabbingSegTree.Count_loop]. cbn [path_nodes] in Hsum |- *.
    destruct (Z.ltb_spec 0 idx) as [Hpos|Hz]; [| cbn [zsum fold_right]; f_equal; lia].
    cbn [zsum fold_right] in Hsum |- *.
    set (nodes := StabbingSegTree.nodes_ st) in *.
    fold (zsum (node_size nodes) (path_nodes f' (Z.shiftr idx 1))) in Hsum |- *.
    unfold StabbingSegTree.bucket_size. fold nodes.
    pose proof (node_size_nonneg nodes idx) as Hn.
    assert (0 <= zsum (node_size nodes) (path_nodes f' (Z.shiftr idx 1))) as Hrest
      by (apply zsum_nonneg; intros; apply node_size_nonneg).
    assert (Hsz : node_size nodes idx = match vget nodes idx with
                                        | Some bk => Z.of_nat (length bk) | None => 0 end)
      by reflexivity.
    destruct (vget_is_Some nodes idx ltac:(lia)) as [bk Hbk].
    rewrite Hbk in Hsz |- *. cbn [mbind option_bind].
    rewrite <- Hsz. rewrite wrap64_small by lia.
    subst f'. pose proof (half_bounds idx) as Hhb. rewrite shiftr1 in *.
    rewrite IH; fold nodes; try lia. f_equal. lia.
Qed.

Lemma stab_Insert_loop_wf h st l r b :
  0 < l -> r < 2 ^ 63 ->
  vget (StabbingSegTree.placement_size_ st) h = Some b ->
  0 <= b -> b + 128 < 2 ^ 32 ->
  StabbingSegTree.Insert_loop word_fuel st h l r
  = '(nodes, pin) ← push_all (StabbingSegTree.nodes_ st) (StabbingSegTree.pos_in_node_ st)
                      (StabbingSegTree.max_refs_ st) h b (cover_nodes word_fuel l r);
    Some (StabbingSegTree.set_nodes st nodes pin
            (<[Z.to_nat h := b + Z.of_nat (length (cover_nodes word_fuel l r))]>
               (StabbingSegTree.placement_size_ st))).
Proof.
  intros Hl Hr Hps Hb Hlen. apply (stab_Insert_loop_eq h 63); try assumption; lia.
Qed.

Lemma stab_Erase_loop_wf h st l r b :
  0 < l -> r < 2 ^ 63 -> 0 <= b -> b + 128 < 2 ^ 32 ->
  StabbingSegTree.Erase_loop word_fuel st h l r b
  = '(nodes, pin) ← remove_all (StabbingSegTree.nodes_ st) (StabbingSegTree.pos_in_node_ st)
                      (StabbingSegTree.max_refs_ st) h b (cover_nodes word_fuel l r);
    Some (StabbingSegTree.set_nodes st nodes pin (StabbingSegTree.placement_size_ st),
          b + Z.of_nat (length (cover_nodes word_fuel l r))).
Proof.
  intros Hl Hr Hb Hlen. apply (stab_Erase_loop_eq h 63); try assumption; lia.
Qed.

Lemma stab_Count_loop_wf st idx :
  0 <= idx < 2 ^ 63 -> idx < Z.of_nat (length (StabbingSegTree.nodes_ st)) ->
  zsum (node_size (StabbingSegTree.nodes_ st)) (path_nodes word_fuel idx) < 2 ^ 64 ->
  StabbingSegTree.Count_loop word_fuel st idx 0
  = Some (zsum (node_size (StabbingSegTree.nodes_ st)) (path_nodes word_fuel idx)).
Proof.
  intros Hidx Hlen Hsum.
  apply (stab_Count_loop_eq 63 st idx 0); try assumption; lia.
Qed.

Lemma stab_Insert_rep st nh m k act lo hi h :
  stab_rep st nh m k act lo hi -> h ∉ act -> 0 <= h < nh ->
  0 <= lo h < hi h -> hi h <= m ->
  exists st', StabbingSegTree.Insert st h (lo h) (hi h) = Some st'
              /\ stab_rep st' nh m k (h :: act) lo hi.
Proof.
  intros [[H1 H2 H3 [Hp Hk Hnh Hm Hn Hpin] H5 H6 H7] Hnd Hact Hst Hps Hlo Hhi] Hh Hhr Hl Hu.
  pose proof (pow2_30 k Hk) as H30. pose proof (pow2_pos k) as Hpos.
  destruct (stab_cover_facts k lo hi h m Hk Hl Hu ltac:(lia)) as (Hcnd & Hclen & Hcr).
  unfold StabbingSegTree.Insert. rewrite H2.
  destruct (Z.leb_spec (hi h) (lo h)); [lia |].
  destruct (Z.eqb_spec m 0); [lia |]. cbn [orb].
  rewrite (Z.min_l (lo h) m), (Z.min_l (hi h) m) by lia.
  destruct (Z.leb_spec (hi h) (lo h)); [lia |].
  rewrite (vset_is_Some (StabbingSegTree.lo_rank_ st)) by lia.
  rewrite (vset_is_Some (StabbingSegTree.hi_rank_ st)) by lia.
  cbn [mbind option_bind]. stab_proj.
  rewrite Hp. rewrite !wrap32_small by lia.
  rewrite (stab_Insert_loop_wf h _ _ _ 0);
    [| lia | lia
     | stab_proj; rewrite Hps by lia; rewrite bool_decide_eq_false_2 by exact Hh; reflexivity
     | lia | lia].
  stab_proj. rewrite H3.
  rewrite (stab_cover_eq k lo hi h).
  destruct (push_all_ok (2 * 2 ^ Z.of_nat k) nh (2 * Z.of_nat k + 4)
              (stab_cover k lo hi h)
              (StabbingSegTree.nodes_ st) (StabbingSegTree.pos_in_node_ st)
              (stab_plc k act lo hi) h 0 Hst) as (nodes' & pin' & Hpush & Hok').
  - lia.
  - exact Hhr.
  - lia.
  - lia.
  - exact Hcnd.
  - intros c Hc'. apply Hcr in Hc'. lia.
  - intros b' _. unfold stab_plc. rewrite bool_decide_eq_false_2 by exact Hh. reflexivity.
  - intros b' c _. unfold stab_plc. rewrite bool_decide_eq_false_2 by exact Hh. discriminate.
  - rewrite Hpush. cbn [mbind option_bind].
    eexists. split; [reflexivity |].
    constructor; stab_proj.
    + constructor; stab_proj; try assumption; rewrite ?length_insert; try assumption.
      constructor; try assumption.
      * eapply so_len_nodes. exact Hok'.
      * eapply so_len_pin. exact Hok'.
    + constructor; assumption.
    + intros h' [->|Hin]%elem_of_cons; [repeat split; lia | apply Hact; exact Hin].
    + eapply store_ok_ext; [| exact Hok']. intros h' b'.
      rewrite plc_add_spec.
      2:{ intros b. unfold stab_plc. rewrite bool_decide_eq_false_2 by exact Hh. reflexivity. }
      unfold stab_plc. destruct (decide (h' = h)) as [->|Hne].
      * rewrite bool_decide_eq_true_2 by reflexivity.
        rewrite bool_decide_eq_true_2 by left. reflexivity.
      * rewrite (bool_decide_eq_false_2 (h' = h)) by exact Hne.
        apply (f_equal (fun c : bool => if c then _ else _)).
        apply bool_decide_ext. rewrite elem_of_cons. tauto.
    + intros h' Hh'.
      rewrite vget_insert by lia.
      destruct (decide (h' = h)) as [->|Hne].
      * rewrite bool_decide_eq_true_2 by reflexivity.
        rewrite bool_decide_eq_true_2 by left. f_equal.
      * rewrite (bool_decide_eq_false_2 (h' = h)) by exact Hne.
        rewrite Hps by exact Hh'. f_equal.
        apply (f_equal (fun c : bool => if c then _ else _)).
        apply bool_decide_ext. rewrite elem_of_cons. tauto.
    + intros h' Hh'.
      rewrite vget_insert by lia.
      destruct (decide (h' = h)) as [->|Hne].
      * rewrite bool_decide_eq_true_2 by reflexivity. reflexivity.
      * rewrite bool_decide_eq_false_2 by exact Hne.
        apply Hlo. apply elem_of_cons in Hh' as [->|Hin]; [congruence | exact Hin].
    + intros h' Hh'.
      rewrite vget_insert by lia.
      destruct (decide (h' = h)) as [->|Hne].
      * rewrite bool_decide_eq_true_2 by reflexivity. reflexivity.
      * rewrite bool_decide_eq_false_2 by exact Hne.
        apply Hhi. apply elem_of_cons in Hh' as [->|Hin]; [congruence | exact Hin].
Qed.

Lemma stab_Erase_rep st nh m k act lo hi h :
  stab_rep st nh m k act lo hi -> h ∈ act ->
  exists st', StabbingSegTree.Erase st h = Some st'
              /\ stab_rep st' nh m k (filter (fun x => x <> h) act) lo hi.
Proof.
  intros [[H1 H2 H3 [Hp Hk Hnh Hm Hn Hpin] H5 H6 H7] Hnd Hact Hst Hps Hlo Hhi] Hh.
  pose proof (pow2_30 k Hk) as H30. pose proof (pow2_pos k) as Hpos.
  destruct (Hact h Hh) as (Hhr & Hl & Hu).
  destruct (stab_cover_facts k lo hi h m Hk Hl Hu ltac:(lia)) as (Hcnd & Hclen & Hcr).
  unfold StabbingSegTree.Erase.
  rewrite Hps by exact Hhr. rewrite bool_decide_eq_true_2 by exact Hh.
  cbn [mbind option_bind].
  destruct (Z.eqb_spec (Z.of_nat (length (stab_cover k lo hi h))) 0) as [?|_]; [lia |].
  rewrite Hlo, Hhi by exact Hh. cbn [mbind option_bind].
  rewrite Hp, !wrap32_small by lia.
  rewrite stab_Erase_loop_wf by lia.
  rewrite H3. rewrite (stab_cover_eq k lo hi h).
  destruct (remove_all_ok (2 * 2 ^ Z.of_nat k) nh (2 * Z.of_nat k + 4)
              (stab_cover k lo hi h)
              (StabbingSegTree.nodes_ st) (StabbingSegTree.pos_in_node_ st)
              (stab_plc k act lo hi) h 0 Hst) as (nodes' & pin' & Hrem & Hok').
  - intros i c Hi. unfold stab_plc. rewrite bool_decide_eq_true_2 by exact Hh.
    apply vget_Some. split; [lia |]. rewrite Z.add_0_l, Nat2Z.id. exact Hi.
  - rewrite Hrem. cbn [mbind option_bind]. stab_proj.
    rewrite (vset_is_Some (StabbingSegTree.placement_size_ st)) by lia.
    rewrite (vset_is_Some (StabbingSegTree.lo_rank_ st)) by lia.
    rewrite (vset_is_Some (StabbingSegTree.hi_rank_ st)) by lia.
    cbn [mbind option_bind].
    eexists. split; [reflexivity |].
    assert (Hmem : forall h', h' ∈ filter (fun x => x <> h) act <-> h' ∈ act /\ h' <> h).
    { intros h'. rewrite list_elem_of_filter. tauto. }
    constructor; stab_proj.
    + constructor; stab_proj; try assumption; rewrite ?length_insert; try assumption.
      constructor; try assumption.
      * eapply so_len_nodes. exact Hok'.
      * eapply so_len_pin. exact Hok'.
    + apply NoDup_filter. exact Hnd.
    + intros h' Hh'. apply Hact. apply Hmem in Hh'. tauto.
    + eapply store_ok_ext; [| exact Hok']. intros h' b'.
      unfold plc_del, stab_plc. destruct (decide (h' = h)) as [->|Hne].
      * rewrite (bool_decide_eq_false_2 (h ∈ filter _ act)) by (rewrite Hmem; tauto).
        case_bool_decide as Hb; [reflexivity |].
        rewrite bool_decide_eq_true_2 by exact Hh.
        destruct (Z.lt_ge_cases b' 0); [apply vget_neg_None; lia |].
        apply vget_ge_None. lia.
      * rewrite bool_decide_eq_false_2 by tauto.
        apply (f_equal (fun c : bool => if c then _ else _)).
        apply bool_decide_ext. rewrite Hmem. tauto.
    + intros h' Hh'.
      rewrite vget_insert by lia.
      destruct (decide (h' = h)) as [->|Hne].
      * rewrite bool_decide_eq_true_2 by reflexivity.
        rewrite bool_decide_eq_false_2 by (rewrite Hmem; tauto). reflexivity.
      * rewrite (bool_decide_eq_false_2 (h' = h)) by exact Hne.
        rewrite Hps by exact Hh'. f_equal.
        apply (f_equal (fun c : bool => if c then _ else _)).
        apply bool_decide_ext. rewrite Hmem. tauto.
    + intros h' Hh'. apply Hmem in Hh' as [Hin Hne].
      rewrite vget_insert by lia.
      rewrite bool_decide_eq_false_2 by exact Hne. apply Hlo. exact Hin.
    + intros h' Hh'. apply Hmem in Hh' as [Hin Hne].
      rewrite vget_insert by lia.
      rewrite bool_decide_eq_false_2 by exact Hne. apply Hhi. exact Hin.
Qed.

Lemma stab_act_length st nh m k act lo hi :
  stab_rep st nh m k act lo hi -> Z.of_nat (length act) <= nh.
Proof.
  intros Hrep. apply NoDup_range_length.
  - apply (so_nh _ _ _ _ _ _ (sr_store _ _ _ _ _ _ _ Hrep)).
  - apply (sr_nodup _ _ _ _ _ _ _ Hrep).
  - intros x Hx. apply (sr_act _ _ _ _ _ _ _ Hrep x Hx).
Qed.

Lemma stab_Count st nh m k act lo hi q :
  stab_rep st nh m k act lo hi -> 0 <= q ->
  StabbingSegTree.Count st q
  = Some (zcount (fun h => bool_decide (lo h <= q < hi h)) act).
Proof.
  intros Hrep Hq.
  pose proof (sr_shape _ _ _ _ _ _ _ Hrep) as Hsh.
  destruct Hsh as [Hnh Hm Hmr [Hp Hk Hnhr Hmm Hnodes Hpin] _ _ _].
  pose proof (pow2_30 k Hk) as H30. pose proof (pow2_pos k) as Hpos.
  pose proof (stab_act_length _ _ _ _ _ _ _ Hrep) as Hlen.
  unfold StabbingSegTree.Count. rewrite Hm, Hp.
  destruct (Z.eqb_spec m 0) as [Hm0|Hm0]; [lia |]. cbn [orb].
  destruct (Z.leb_spec m q) as [Hmq|Hmq].
  { f_equal. symmetry. apply zsum_zero. intros h Hh.
    pose proof (sr_act _ _ _ _ _ _ _ Hrep h Hh) as (_ & _ & Hr).
    rewrite bool_decide_eq_false_2 by lia. reflexivity. }
  rewrite !wrap32_small by lia.
  set (x := q + 2 ^ Z.of_nat k).
  assert (Hpath : forall c, c ∈ path_nodes word_fuel x -> 0 <= c < 2 * 2 ^ Z.of_nat k).
  { intros c Hc%path_nodes_bounds; subst x; lia. }
  assert (Hsum : zsum (node_size (StabbingSegTree.nodes_ st)) (path_nodes word_fuel x)
                 = zcount (fun h => bool_decide (lo h <= q < hi h)) act).
  { rewrite (cover_sum_store _ _ _ _ _ _ act (stab_cover k lo hi) _
               (sr_store _ _ _ _ _ _ _ Hrep) (sr_nodup _ _ _ _ _ _ _ Hrep)
               ltac:(intros; reflexivity) Hpath).
    apply zsum_ext. intros h Hh.
    pose proof (sr_act _ _ _ _ _ _ _ Hrep h Hh) as (_ & Hl & Hu).
    destruct (stab_cover_facts k lo hi h m Hk Hl Hu ltac:(lia)) as (Hcnd & _ & _).
    rewrite hits_sym; [| exact Hcnd | apply path_nodes_NoDup].
    rewrite <- (stab_cover_eq k lo hi h).
    rewrite (cover_path_hits k); unfold word_fuel; subst x;
      rewrite ?pow2_succ'; try lia.
    apply f_equal with (f := fun b : bool => if b then 1 else 0).
    apply bool_decide_ext. lia. }
  pose proof (zcount_bounds (fun h => bool_decide (lo h <= q < hi h)) act) as Hb.
  rewrite stab_Count_loop_wf; rewrite ?Hsum; try reflexivity; subst x; try lia.
Qed.

(** * The active index represents a set of rectangles by their y-ranks *)

Record idx_rep (a : ActiveIndex2D.t) (nh m : Z) (act : list Z) (lo hi : Z -> Z)
    : Prop := mk_idx_rep {
  ir_n : ActiveIndex2D.n_ a = nh;
  ir_m : ActiveIndex2D.m_ a = m;
  ir_m_range : 1 <= m <= 2 ^ 30;
  ir_stab : exists k, stab_rep (ActiveIndex2D.stab_ a) nh m k act lo hi;
  ir_pts : exists k, pts_rep (ActiveIndex2D.pts_ a) nh m k act lo
}.

Lemma idx_Init_rep nh m lo hi :
  0 <= nh < 2 ^ 32 -> 1 <= m <= 2 ^ 30 ->
  exists a, ActiveIndex2D.Init nh m = Some a
            /\ idx_rep (ActiveIndex2D.ResetActive a) nh m [] lo hi.
Proof.
  intros Hnh Hm. unfold ActiveIndex2D.Init.
  destruct (stab_Init_shape nh m Hnh Hm) as (st & k1 & -> & Hs).
  destruct (pts_Init_shape nh m Hnh Hm) as (pt & k2 & -> & Hp).
  cbn [mbind option_bind]. eexists. split; [reflexivity |].
  constructor; cbn [ActiveIndex2D.ResetActive ActiveIndex2D.n_ ActiveIndex2D.m_
                    ActiveIndex2D.stab_ ActiveIndex2D.pts_]; try reflexivity; try assumption.
  - exists k1. apply stab_ResetActive_rep. exact Hs.
  - exists k2. apply pts_ResetActive_rep. exact Hp.
Qed.

Lemma idx_ResetActive_rep a nh m act lo hi lo' hi' :
  idx_rep a nh m act lo hi -> idx_rep (ActiveIndex2D.ResetActive a) nh m [] lo' hi'.
Proof.
  intros [Hn Hm Hr [k1 Hs] [k2 Hp]].
  constructor; cbn [ActiveIndex2D.ResetActive ActiveIndex2D.n_ ActiveIndex2D.m_
                    ActiveIndex2D.stab_ ActiveIndex2D.pts_]; try assumption.
  - exists k1. apply stab_ResetActive_rep. apply (sr_shape _ _ _ _ _ _ _ Hs).
  - exists k2. apply pts_ResetActive_rep. apply (pr_shape _ _ _ _ _ _ Hp).
Qed.

Lemma idx_Insert_rep a nh m act lo hi h :
  idx_rep a nh m act lo hi -> h ∉ act -> 0 <= h < nh ->
  0 <= lo h < hi h -> hi h <= m ->
  exists a', ActiveIndex2D.Insert a h (lo h) (hi h) = Some a'
             /\ idx_rep a' nh m (h :: act) lo hi.
Proof.
  intros [Hn Hm Hr [k1 Hs] [k2 Hp]] Hh Hhr Hl Hu.
  unfold ActiveIndex2D.Insert.
  destruct (stab_Insert_rep _ _ _ _ _ _ _ h Hs Hh Hhr Hl Hu) as (st' & -> & Hs').
  destruct (pts_Insert_rep _ _ _ _ _ _ h Hp Hh Hhr ltac:(lia)) as (pt' & -> & Hp').
  cbn [mbind option_bind]. eexists. split; [reflexivity |].
  constructor; cbn [ActiveIndex2D.n_ ActiveIndex2D.m_ ActiveIndex2D.stab_ ActiveIndex2D.pts_];
    try assumption; eauto.
Qed.

Lemma idx_Erase_rep a nh m act lo hi h :
  idx_rep a nh m act lo hi -> h ∈ act ->
  exists a', ActiveIndex2D.Erase a h = Some a'
             /\ idx_rep a' nh m (filter (fun x => x <> h) act) lo hi.
Proof.
  intros [Hn Hm Hr [k1 Hs] [k2 Hp]] Hh.
  unfold ActiveIndex2D.Erase.
  destruct (stab_Erase_rep _ _ _ _ _ _ _ h Hs Hh) as (st' & -> & Hs').
  destruct (pts_Erase_rep _ _ _ _ _ _ h Hp Hh) as (pt' & -> & Hp').
  cbn [mbind option_bind]. eexists. split; [reflexivity |].
  constructor; cbn [ActiveIndex2D.n_ ActiveIndex2D.m_ ActiveIndex2D.stab_ ActiveIndex2D.pts_];
    try assumption; eauto.
Qed.

Lemma idx_CountA a nh m act lo hi q :
  idx_rep a nh m act lo hi -> 0 <= q ->
  ActiveIndex2D.CountA a q = Some (zcount (fun h => bool_decide (lo h <= q < hi h)) act).
Proof.
  intros [Hn Hm Hr [k1 Hs] [k2 Hp]] Hq. unfold ActiveIndex2D.CountA.
  apply (stab_Count _ _ _ _ _ _ _ q Hs Hq).
Qed.

Lemma idx_CountB a nh m act lo hi q_lo q_hi :
  idx_rep a nh m act lo hi -> 0 <= q_lo < m ->
  ActiveIndex2D.CountB a q_lo q_hi
  = Some (zcount (fun h => bool_decide (q_lo < lo h < q_hi)) act).
Proof.
  intros [Hn Hm Hr [k1 Hs] [k2 Hp]] Hq. unfold ActiveIndex2D.CountB.
  rewrite Hm. destruct (Z.eqb_spec m 0); [lia |].
  unfold ActiveIndex2D.range_lo, ActiveIndex2D.range_hi. rewrite Hm.
  rewrite wrap32_small by lia.
  destruct (Z.leb_spec (q_lo + 1) m); [| lia].
  rewrite (pts_CountRange _ _ _ _ _ _ (q_lo + 1) (Z.min q_hi m) Hp) by lia.
  f_equal. apply zcount_ext. intros h Hh.
  pose proof (pr_act _ _ _ _ _ _ Hp h Hh) as [_ Hrk].
  apply bool_decide_ext. lia.
Qed.

(** * The y-domain: sorted distinct coordinates and their ranks *)

Lemma lower_bound_range Y v : 0 <= lower_bound Y v <= Z.of_nat (length Y).
Proof.
  induction Y as [|y Y IH]; simpl; [lia |].
  destruct (y <? v); lia.
Qed.

Lemma lower_bound_mem Y u :
  StronglySorted Z.lt Y -> u ∈ Y -> lower_bound Y u < Z.of_nat (length Y).
Proof.
  induction 1 as [|y Y Hs IH Hy]; intros Hu; [inversion Hu |].
  cbn [lower_bound length]. destruct (Z.ltb_spec y u) as [Hlt|Hge]; [| lia].
  apply elem_of_cons in Hu as [->|Hu]; [lia |]. specialize (IH Hu). lia.
Qed.

(** On the sorted domain the rank is an order embedding. *)
Lemma lower_bound_lt_iff Y u v :
  StronglySorted Z.lt Y -> u ∈ Y ->
  lower_bound Y u < lower_bound Y v <-> u < v.
Proof.
  induction 1 as [|y Y Hs IH Hy]; intros Hu; [inversion Hu |].
  cbn [lower_bound].
  pose proof (lower_bound_range Y u). pose proof (lower_bound_range Y v).
  apply elem_of_cons in Hu as [->|Hu].
  - rewrite Z.ltb_irrefl. destruct (Z.ltb_spec y v); lia.
  - rewrite Forall_forall in Hy. specialize (Hy u Hu). specialize (IH Hu).
    destruct (Z.ltb_spec y u); [| lia].
    destruct (Z.ltb_spec y v); lia.
Qed.

Lemma std_unique_head y t : exists t', std_unique (y :: t) = y :: t'.
Proof.
  revert y. induction t as [|z t IH]; intros y; [exists []; reflexivity |].
  cbn [std_unique]. destruct (Z.eqb_spec y z) as [->|Hne].
  - apply IH.
  - eexists. reflexivity.
Qed.

Lemma std_unique_elem l x : x ∈ std_unique l <-> x ∈ l.
Proof.
  induction l as [|y t IH]; [reflexivity |].
  destruct t as [|z t]; [reflexivity |].
  change (std_unique (y :: z :: t))
    with (if y =? z then std_unique (z :: t) else y :: std_unique (z :: t)).
  destruct (Z.eqb_spec y z) as [->|Hne].
  - rewrite IH. rewrite !elem_of_cons. tauto.
  - rewrite elem_of_cons, IH. rewrite !elem_of_cons. tauto.
Qed.

Lemma std_unique_length l : (length (std_unique l) <= length l)%nat.
Proof.
  induction l as [|y t IH]; [reflexivity |].
  destruct t as [|z t]; [reflexivity |].
  change (std_unique (y :: z :: t))
    with (if y =? z then std_unique (z :: t) else y :: std_unique (z :: t)).
  destruct (y =? z); simpl in *; lia.
Qed.

Lemma std_unique_sorted l :
  StronglySorted Z.le l -> StronglySorted Z.lt (std_unique l).
Proof.
  induction 1 as [|y t Hs IH Hy]; [constructor |].
  destruct t as [|z t]; [repeat constructor |].
  change (std_unique (y :: z :: t))
    with (if y =? z then std_unique (z :: t) else y :: std_unique (z :: t)).
  destruct (Z.eqb_spec y z) as [->|Hne]; [exact IH |].
  constructor; [exact IH |].
  apply Forall_forall. intros x Hx. rewrite std_unique_elem in Hx.
  rewrite Forall_forall in Hy.
  pose proof (Hy z ltac:(left)) as Hyz.
  apply elem_of_cons in Hx as [->|Hx]; [lia |].
  apply StronglySorted_inv in Hs as [_ Hz]. rewrite Forall_forall in Hz.
  specialize (Hz x Hx). lia.
Qed.

Lemma sort_unique_sorted ys : StronglySorted Z.lt (std_unique (std_sort Z.ltb ys)).
Proof.
  apply std_unique_sorted.
  apply (StronglySorted_mono (not_after Z.ltb)).
  - intros a b Hab. unfold not_after in Hab. apply Z.ltb_ge in Hab. exact Hab.
  - apply std_sort_sorted.
    + apply Z.ltb_irrefl.
    + intros a b c H1%Z.ltb_lt H2%Z.ltb_lt. apply Z.ltb_lt. lia.
    + intros a b c H1%Z.ltb_ge H2%Z.ltb_ge. apply Z.ltb_ge. lia.
Qed.

Lemma sort_unique_elem ys y : y ∈ std_unique (std_sort Z.ltb ys) <-> y ∈ ys.
Proof. rewrite std_unique_elem. rewrite (std_sort_perm Z.ltb ys). reflexivity. Qed.

Lemma sort_unique_length ys :
  (length (std_unique (std_sort Z.ltb ys)) <= length ys)%nat.
Proof.
  etransitivity; [apply std_unique_length |].
  rewrite (Permutation_length (std_sort_perm Z.ltb ys)). reflexivity.
Qed.

(** * Positions in a sorted list *)

Lemma sorted_split {A} (R : A -> A -> Prop) l1 a l2 :
  StronglySorted R (l1 ++ a :: l2) ->
  (forall b, b ∈ l1 -> R b a) /\ (forall b, b ∈ l2 -> R a b).
Proof.
  induction l1 as [|c l1 IH]; simpl; intros Hs.
  - apply StronglySorted_inv in Hs as [_ Hf]. rewrite Forall_forall in Hf.
    split; [intros b Hb; inversion Hb | exact Hf].
  - apply StronglySorted_inv in Hs as [Hs Hf]. rewrite Forall_forall in Hf.
    destruct (IH Hs) as [H1 H2]. split; [| exact H2].
    intros b [->|Hb]%elem_of_cons; [| apply H1; exact Hb].
    apply Hf. apply elem_of_app. right. left.
Qed.

(** * The events of a validated dataset *)

Definition rel_of (ds : Dataset) (sd : Side) : Relation :=
  match sd with SideR => R ds | SideS => S ds end.

Definition dummy_box : Box := mkBox (mkPoint 0 0) (mkPoint 0 0).

Definition box_at (r : Relation) (i : Z) : Box := default dummy_box (vget (boxes r) i).

Definition id_of (r : Relation) (i : Z) : Z := default 0 (RelationOps.GetId r i).

Definition start_ev (r : Relation) (sd : Side) (i : Z) : Event :=
  mkEvent (v0 (lo (box_at r i))) Start sd (id_of r i) i.

Definition end_ev (r : Relation) (sd : Side) (i : Z) : Event :=
  mkEvent (v0 (hi (box_at r i))) End sd (id_of r i) i.

Definition box_events (r : Relation) (sd : Side) (i : Z) : list Event :=
  [start_ev r sd i; end_ev r sd i].

Definition rel_events (r : Relation) (sd : Side) : list Event :=
  seqZ 0 (RelationOps.Size r) ≫= box_events r sd.

Lemma Validate_proper r b :
  RelationOps.Validate true r = true -> b ∈ boxes r ->
  v0 (lo b) < v0 (hi b) /\ v1 (lo b) < v1 (hi b).
Proof.
  unfold RelationOps.Validate. intros [Hb _]%andb_prop Hin.
  rewrite forallb_forall in Hb. specialize (Hb b).
  rewrite <- list_elem_of_In in Hb. specialize (Hb Hin).
  apply andb_prop in Hb as [_ Hb]. cbn [andb] in Hb.
  unfold BoxOps.IsEmpty in Hb. cbn [existsb axes coord] in Hb.
  destruct (Z.ltb_spec (v0 (lo b)) (v0 (hi b))); [| discriminate].
  destruct (Z.ltb_spec (v1 (lo b)) (v1 (hi b))); [| discriminate].
  split; assumption.
Qed.

Lemma Validate_GetId r i :
  RelationOps.Validate true r = true -> 0 <= i < RelationOps.Size r ->
  0 <= i < 2 ^ 32 -> is_Some (RelationOps.GetId r i).
Proof.
  unfold RelationOps.Validate, RelationOps.GetId, RelationOps.Size.
  intros [_ Hids]%andb_prop Hi Hi32.
  destruct (ids r) as [|x l] eqn:E; [eexists; reflexivity |].
  apply Nat.eqb_eq in Hids.
  destruct (vget_is_Some (x :: l) i) as [y Hy]; [lia |]. rewrite Hy. eexists. reflexivity.
Qed.

Lemma box_at_lookup r j b :
  boxes r !! j = Some b -> box_at r (Z.of_nat j) = b.
Proof.
  intros Hj. unfold box_at.
  assert (vget (boxes r) (Z.of_nat j) = Some b) as ->; [| reflexivity].
  apply vget_Some. split; [lia |]. rewrite Nat2Z.id. exact Hj.
Qed.

Lemma box_at_elem r i :
  0 <= i < RelationOps.Size r -> box_at r i ∈ boxes r.
Proof.
  intros Hi. unfold box_at, RelationOps.Size in *.
  destruct (vget_is_Some (boxes r) i Hi) as [b Hb]. rewrite Hb. simpl.
  apply vget_Some in Hb as [_ Hb]. eapply list_elem_of_lookup_2. exact Hb.
Qed.

Lemma AppendRelationEvents_loop_eq rel sd : forall bs i events,
  0 <= i ->
  (forall j b, bs !! j = Some b ->
     vget (boxes rel) (i + Z.of_nat j) = Some b /\ v0 (lo b) < v0 (hi b)) ->
  (forall j, i <= j < i + Z.of_nat (length bs) -> is_Some (RelationOps.GetId rel j)) ->
  AppendRelationEvents_loop rel sd 0 bs i events
  = Some (events ++ (seqZ i (Z.of_nat (length bs)) ≫= box_events rel sd)).
Proof.
  induction bs as [|b bs IH]; intros i events Hi Hbs Hid.
  - simpl. rewrite app_nil_r. reflexivity.
  - cbn [AppendRelationEvents_loop coord].
    destruct (Hbs 0%nat b eq_refl) as [Hb Hprop]. rewrite Z.add_0_r in Hb.
    destruct (Hid i) as [id Hgid]; [rewrite length_cons; lia |].
    rewrite Hgid. cbn [mbind option_bind].
    destruct (Z.ltb_spec (v0 (lo b)) (v0 (hi b))); [| lia]. cbn [negb].
    rewrite IH.
    + cbn [length]. rewrite seqZ_cons_S. rewrite bind_cons. rewrite <- app_assoc. f_equal. f_equal. f_equal.
      unfold box_events, start_ev, end_ev, box_at, id_of. rewrite Hb, Hgid. reflexivity.
    + lia.
    + intros j b' Hj. specialize (Hbs (Datatypes.S j) b' Hj).
      replace (i + 1 + Z.of_nat j) with (i + Z.of_nat (Datatypes.S j)) by lia. exact Hbs.
    + intros j Hj. apply Hid. rewrite length_cons. lia.
Qed.

Lemma AppendRelationEvents_eq rel sd events :
  RelationOps.Validate true rel = true -> RelationOps.Size rel < 2 ^ 32 ->
  AppendRelationEvents rel sd 0 events = Some (events ++ rel_events rel sd).
Proof.
  intros Hv Hsz. unfold AppendRelationEvents, rel_events, RelationOps.Size in *.
  apply AppendRelationEvents_loop_eq.
  - lia.
  - intros j b Hj. split.
    + apply vget_Some. split; [lia |]. rewrite Z.add_0_l, Nat2Z.id. exact Hj.
    + apply (Validate_proper rel b Hv). eapply list_elem_of_lookup_2. exact Hj.
  - intros j Hj. apply Validate_GetId; [exact Hv | unfold RelationOps.Size; lia | lia].
Qed.

Lemma elem_rel_events r sd e :
  e ∈ rel_events r sd <->
  exists i, 0 <= i < RelationOps.Size r /\ (e = start_ev r sd i \/ e = end_ev r sd i).
Proof.
  unfold rel_events. rewrite list_elem_of_bind. split.
  - intros (i & He & Hi). apply elem_of_seqZ in Hi. exists i. split; [lia |].
    unfold box_events in He. rewrite !elem_of_cons in He.
    destruct He as [He | [He | He]]; [tauto | tauto | inversion He].
  - intros (i & Hi & He). exists i. split; [| apply elem_of_seqZ; lia].
    unfold box_events. rewrite !elem_of_cons. tauto.
Qed.

Lemma NoDup_rel_events r sd : NoDup (rel_events r sd).
Proof.
  unfold rel_events. apply NoDup_bind.
  - intros i j e _ _ Hi Hj. unfold box_events in *. rewrite !elem_of_cons in Hi, Hj.
    destruct Hi as [-> | [-> | Hi]]; [| | inversion Hi];
      (destruct Hj as [Hj | [Hj | Hj]]; [| | inversion Hj]);
      unfold start_ev, end_ev in Hj; congruence.
  - intros i _. unfold box_events. apply NoDup_cons. split.
    + rewrite elem_of_cons. intros [Hc | Hc]; [discriminate | inversion Hc].
    + apply NoDup_singleton.
  - apply NoDup_seqZ.
Qed.

Section Built.
Variable ds : Dataset.
Hypothesis Hvalid : DatasetOps.Validate true ds = true.
Hypothesis Hsize : RelationOps.Size (R ds) + RelationOps.Size (S ds) <= 2 ^ 30.

Definition raw_events : list Event :=
  rel_events (R ds) SideR ++ rel_events (S ds) SideS.

Definition sweep_events : list Event := SortSweepEvents raw_events RBeforeS.

Lemma valid_rel sd : RelationOps.Validate true (rel_of ds sd) = true.
Proof using Hvalid.
  unfold DatasetOps.Validate in Hvalid.
  apply andb_prop in Hvalid as [[_ H1]%andb_prop H2]. destruct sd; assumption.
Qed.

Lemma size_rel sd : 0 <= RelationOps.Size (rel_of ds sd) <= 2 ^ 30.
Proof using Hsize.
  unfold RelationOps.Size in *. destruct sd; simpl; lia.
Qed.

Lemma proper_at sd i :
  0 <= i < RelationOps.Size (rel_of ds sd) ->
  v0 (lo (box_at (rel_of ds sd) i)) < v0 (hi (box_at (rel_of ds sd) i))
  /\ v1 (lo (box_at (rel_of ds sd) i)) < v1 (hi (box_at (rel_of ds sd) i)).
Proof using Hvalid.
  intros Hi. apply (Validate_proper (rel_of ds sd)); [apply valid_rel |].
  apply box_at_elem. exact Hi.
Qed.

Lemma BuildSweepEvents_eq : BuildSweepEvents ds 0 RBeforeS = Some sweep_events.
Proof using Hvalid Hsize.
  unfold BuildSweepEvents.
  pose proof (size_rel SideR) as HR. pose proof (size_rel SideS) as HS. simpl in HR, HS.
  rewrite (AppendRelationEvents_eq (R ds) SideR []) by (try apply (valid_rel SideR); lia).
  cbn [mbind option_bind app].
  rewrite (AppendRelationEvents_eq (S ds) SideS) by (try apply (valid_rel SideS); lia).
  reflexivity.
Qed.

Lemma elem_raw_events e :
  e ∈ raw_events <->
  exists sd i, 0 <= i < RelationOps.Size (rel_of ds sd)
               /\ (e = start_ev (rel_of ds sd) sd i \/ e = end_ev (rel_of ds sd) sd i).
Proof using Type.
  unfold raw_events. rewrite elem_of_app, !elem_rel_events. split.
  - intros [(i & Hi & He) | (i & Hi & He)]; [exists SideR | exists SideS]; exists i; tauto.
  - intros ([|] & i & Hi & He); [left | right]; exists i; tauto.
Qed.

Lemma NoDup_raw_events : NoDup raw_events.
Proof using Type.
  unfold raw_events. apply NoDup_app. split; [apply NoDup_rel_events |].
  split; [| apply NoDup_rel_events].
  intros e (i & _ & Hi)%elem_rel_events (j & _ & Hj)%elem_rel_events.
  unfold start_ev, end_ev in *. destruct Hi as [-> | ->], Hj as [Hj | Hj]; discriminate.
Qed.

Lemma sweep_events_perm : sweep_events ≡ₚ raw_events.
Proof using Type. apply SortSweepEvents_perm. Qed.

Lemma elem_sweep_events e :
  e ∈ sweep_events <->
  exists sd i, 0 <= i < RelationOps.Size (rel_of ds sd)
               /\ (e = start_ev (rel_of ds sd) sd i \/ e = end_ev (rel_of ds sd) sd i).
Proof using Type. rewrite sweep_events_perm. apply elem_raw_events. Qed.

Lemma NoDup_sweep_events : NoDup sweep_events.
Proof using Type. rewrite sweep_events_perm. apply NoDup_raw_events. Qed.

Lemma sweep_events_length :
  Z.of_nat (length sweep_events)
  = 2 * (RelationOps.Size (R ds) + RelationOps.Size (S ds)).
Proof using Type.
  rewrite (Permutation_length sweep_events_perm). unfold raw_events.
  rewrite length_app.
  assert (Hl : forall r sd, Z.of_nat (length (rel_events r sd)) = 2 * RelationOps.Size r).
  { intros r sd. unfold rel_events, RelationOps.Size.
    generalize 0 at 1. induction (length (boxes r)) as [|n IH]; intros b; [reflexivity |].
    rewrite seqZ_cons_S, bind_cons, length_app, Nat2Z.inj_add, IH. simpl. lia. }
  rewrite Nat2Z.inj_add, !Hl. lia.
Qed.

(** ** Order facts read off the comparator *)

Lemma EventLess_false_x tb a b : EventLess tb a b = false -> ev_x b <= ev_x a.
Proof.
  unfold EventLess. destruct (Z.ltb_spec (ev_x a) (ev_x b)); [discriminate | lia].
Qed.

Lemma EventLess_false_end_start tb a b :
  ev_kind a = End -> ev_kind b = Start -> EventLess tb a b = false -> ev_x b < ev_x a.
Proof.
  unfold EventLess. intros -> ->.
  destruct (Z.ltb_spec (ev_x a) (ev_x b)); [discriminate |].
  destruct (Z.ltb_spec (ev_x b) (ev_x a)); [lia |]. simpl. discriminate.
Qed.

#[local] Instance Side_eq_dec : EqDecision Side.
Proof. solve_decision. Defined.

#[local] Instance EventKind_eq_dec : EqDecision EventKind.
Proof. solve_decision. Defined.

#[local] Instance Event_eq_dec : EqDecision Event.
Proof. solve_decision. Defined.

Definition other_side (sd : Side) : Side :=
  match sd with SideR => SideS | SideS => SideR end.

(** The rectangles whose START (END) event lies in the processed prefix. *)
Definition started (pre : list Event) (sd : Side) (i : Z) : bool :=
  bool_decide (start_ev (rel_of ds sd) sd i ∈ pre).

Definition ended (pre : list Event) (sd : Side) (i : Z) : bool :=
  bool_decide (end_ev (rel_of ds sd) sd i ∈ pre).

Definition active (pre : list Event) (sd : Side) (i : Z) : bool :=
  started pre sd i && negb (ended pre sd i).

Section Prefix.
Variables (pre suf : list Event) (e : Event).
Hypothesis Hsplit : sweep_events = pre ++ e :: suf.

Lemma prefix_before a : a ∈ pre -> EventLess RBeforeS e a = false.
Proof using Hsplit.
  intros Ha. pose proof (SortSweepEvents_sorted raw_events RBeforeS) as Hs.
  fold sweep_events in Hs. rewrite Hsplit in Hs.
  apply sorted_split in Hs as [H1 _]. apply (H1 a Ha).
Qed.

Lemma suffix_after b : b ∈ suf -> EventLess RBeforeS b e = false.
Proof using Hsplit.
  intros Hb. pose proof (SortSweepEvents_sorted raw_events RBeforeS) as Hs.
  fold sweep_events in Hs. rewrite Hsplit in Hs.
  apply sorted_split in Hs as [_ H2]. apply (H2 b Hb).
Qed.

Lemma current_not_in_prefix : e ∉ pre.
Proof using Hsplit.
  pose proof NoDup_sweep_events as Hnd. rewrite Hsplit in Hnd.
  apply NoDup_app in Hnd as (_ & Hd & _). intros Hin. apply (Hd e Hin). left.
Qed.

Lemma current_not_in_suffix : e ∉ suf.
Proof using Hsplit.
  pose proof NoDup_sweep_events as Hnd. rewrite Hsplit in Hnd.
  apply NoDup_app in Hnd as (_ & _ & Hd). apply NoDup_cons in Hd as [Hd _]. exact Hd.
Qed.

Lemma event_position a :
  a ∈ sweep_events -> a ∈ pre \/ a = e \/ a ∈ suf.
Proof using Hsplit.
  rewrite Hsplit, elem_of_app, elem_of_cons. tauto.
Qed.

(** At the END event of a rectangle its START event has been processed. *)
Lemma end_after_start sd i :
  0 <= i < RelationOps.Size (rel_of ds sd) -> e = end_ev (rel_of ds sd) sd i ->
  active pre sd i = true.
Proof using Hsplit Hvalid.
  intros Hi He. unfold active, started, ended.
  rewrite (bool_decide_eq_false_2 (end_ev _ _ _ ∈ pre))
    by (rewrite <- He; apply current_not_in_prefix).
  rewrite andb_true_r. apply bool_decide_eq_true_2.
  destruct (event_position (start_ev (rel_of ds sd) sd i)) as [H | [H | H]].
  - apply elem_sweep_events. exists sd, i. tauto.
  - exact H.
  - rewrite He in H. discriminate.
  - apply suffix_after in H. apply EventLess_false_x in H. rewrite He in H.
    simpl in H. pose proof (proper_at sd i Hi). lia.
Qed.

(** At a START event: an active rectangle of either side overlaps in x. *)
Lemma start_active_overlap sd i sd' j :
  e = start_ev (rel_of ds sd) sd i ->
  0 <= j < RelationOps.Size (rel_of ds sd') ->
  active pre sd' j = true ->
  v0 (lo (box_at (rel_of ds sd') j)) <= v0 (lo (box_at (rel_of ds sd) i))
  /\ v0 (lo (box_at (rel_of ds sd) i)) < v0 (hi (box_at (rel_of ds sd') j)).
Proof using Hsplit Hvalid.
  intros He Hj Hact. unfold active, started, ended in Hact.
  apply andb_prop in Hact as [Hs Hn]. apply bool_decide_eq_true_1 in Hs.
  apply negb_true_iff, bool_decide_eq_false_1 in Hn. split.
  - apply prefix_before in Hs. apply EventLess_false_x in Hs. rewrite He in Hs. exact Hs.
  - destruct (event_position (end_ev (rel_of ds sd') sd' j)) as [H | [H | H]].
    + apply elem_sweep_events. exists sd', j. tauto.
    + contradiction.
    + rewrite He in H. discriminate.
    + apply suffix_after in H. apply EventLess_false_end_start in H;
        [| reflexivity | rewrite He; reflexivity].
      rewrite He in H. exact H.
Qed.

(** At a START event: a rectangle that has ended lies to the left. *)
Lemma start_ended_disjoint sd i sd' j :
  e = start_ev (rel_of ds sd) sd i ->
  ended pre sd' j = true ->
  v0 (hi (box_at (rel_of ds sd') j)) <= v0 (lo (box_at (rel_of ds sd) i)).
Proof using Hsplit.
  intros He Hend. unfold ended in Hend. apply bool_decide_eq_true_1 in Hend.
  apply prefix_before in Hend. apply EventLess_false_x in Hend. rewrite He in Hend.
  exact Hend.
Qed.

Lemma start_not_started sd i :
  e = start_ev (rel_of ds sd) sd i -> started pre sd i = false.
Proof using Hsplit.
  intros He. unfold started. apply bool_decide_eq_false_2. rewrite <- He.
  apply current_not_in_prefix.
Qed.

End Prefix.

Lemma started_snoc pre e sd i :
  started (pre ++ [e]) sd i
  = started pre sd i || bool_decide (e = start_ev (rel_of ds sd) sd i).
Proof using Type.
  unfold started. apply eq_true_iff_eq.
  rewrite orb_true_iff, !bool_decide_eq_true, elem_of_app, list_elem_of_singleton.
  intuition congruence.
Qed.

Lemma ended_snoc pre e sd i :
  ended (pre ++ [e]) sd i
  = ended pre sd i || bool_decide (e = end_ev (rel_of ds sd) sd i).
Proof using Type.
  unfold ended. apply eq_true_iff_eq.
  rewrite orb_true_iff, !bool_decide_eq_true, elem_of_app, list_elem_of_singleton.
  intuition congruence.
Qed.

(** ** The y-ranks *)

Definition y_dom : list Z :=
  std_unique (std_sort Z.ltb
    (map (fun b => v1 (lo b)) (boxes (R ds)) ++ map (fun b => v1 (lo b)) (boxes (S ds)))).

Definition m_dom : Z := Z.of_nat (length y_dom).

Definition lo_rank (sd : Side) (i : Z) : Z :=
  Ours2DContext.lb_rank y_dom (v1 (lo (box_at (rel_of ds sd) i))).

Definition hi_rank (sd : Side) (i : Z) : Z :=
  Ours2DContext.lb_rank y_dom (v1 (hi (box_at (rel_of ds sd) i))).

Lemma y_dom_sorted : StronglySorted Z.lt y_dom.
Proof using Type. apply sort_unique_sorted. Qed.

Lemma m_dom_le : 0 <= m_dom <= 2 ^ 30.
Proof using Hsize.
  unfold m_dom, y_dom. split; [lia |].
  pose proof (sort_unique_length
    (map (fun b => v1 (lo b)) (boxes (R ds)) ++ map (fun b => v1 (lo b)) (boxes (S ds)))) as H.
  rewrite length_app, !length_map in H. unfold RelationOps.Size in Hsize. lia.
Qed.

Lemma ylo_in_dom sd i :
  0 <= i < RelationOps.Size (rel_of ds sd) ->
  v1 (lo (box_at (rel_of ds sd) i)) ∈ y_dom.
Proof using Type.
  intros Hi. apply box_at_elem in Hi. unfold y_dom. apply sort_unique_elem.
  apply elem_of_app.
  destruct sd; [left | right];
    apply (list_elem_of_fmap_2 (fun b => v1 (lo b))); exact Hi.
Qed.

Lemma lb_rank_eq v : Ours2DContext.lb_rank y_dom v = lower_bound y_dom v.
Proof using Hsize.
  unfold Ours2DContext.lb_rank. apply wrap32_small.
  pose proof (lower_bound_range y_dom v). pose proof m_dom_le. unfold m_dom in *. lia.
Qed.

Lemma lo_rank_lt_iff sd i v :
  0 <= i < RelationOps.Size (rel_of ds sd) ->
  lo_rank sd i < Ours2DContext.lb_rank y_dom v <-> v1 (lo (box_at (rel_of ds sd) i)) < v.
Proof using Hsize.
  intros Hi. unfold lo_rank. rewrite !lb_rank_eq.
  apply lower_bound_lt_iff; [apply y_dom_sorted | apply ylo_in_dom; exact Hi].
Qed.

Lemma rank_range sd i :
  0 <= i < RelationOps.Size (rel_of ds sd) ->
  0 <= lo_rank sd i < hi_rank sd i /\ hi_rank sd i <= m_dom /\ lo_rank sd i < m_dom.
Proof using Hsize Hvalid.
  intros Hi. pose proof (proper_at sd i Hi) as [_ Hy].
  pose proof (proj2 (lo_rank_lt_iff sd i _ Hi) Hy) as Hlt. fold (hi_rank sd i) in Hlt.
  unfold lo_rank, hi_rank in *. rewrite !lb_rank_eq in *.
  pose proof (lower_bound_range y_dom (v1 (lo (box_at (rel_of ds sd) i)))).
  pose proof (lower_bound_range y_dom (v1 (hi (box_at (rel_of ds sd) i)))).
  unfold m_dom. lia.
Qed.

(** The rank tests of the two patterns decide the overlap in y. *)
Lemma pattern_overlap sd i sd' j :
  0 <= i < RelationOps.Size (rel_of ds sd) ->
  0 <= j < RelationOps.Size (rel_of ds sd') ->
  let a := box_at (rel_of ds sd) i in
  let b := box_at (rel_of ds sd') j in
  (lo_rank sd' j <= lo_rank sd i < hi_rank sd' j <-> v1 (lo b) <= v1 (lo a) < v1 (hi b))
  /\ (lo_rank sd i < lo_rank sd' j < hi_rank sd i <-> v1 (lo a) < v1 (lo b) < v1 (hi a)).
Proof using Hsize.
  intros Hi Hj a b. subst a b.
  pose proof (lo_rank_lt_iff sd i (v1 (lo (box_at (rel_of ds sd') j))) Hi) as H1.
  pose proof (lo_rank_lt_iff sd i (v1 (hi (box_at (rel_of ds sd') j))) Hi) as H2.
  pose proof (lo_rank_lt_iff sd' j (v1 (hi (box_at (rel_of ds sd) i))) Hj) as H3.
  fold (lo_rank sd' j) in H1. fold (hi_rank sd' j) in H2. fold (hi_rank sd i) in H3.
  lia.
Qed.

(** ** The START ids *)

Definition is_start (e : Event) : bool := EventKind_eqb (ev_kind e) Start.

Definition count_start (evs : list Event) : Z := zcount is_start evs.

Lemma start_ids_spec : forall evs i sep sids sep',
  Ours2DContext.start_ids evs i sep = (sids, sep') ->
  length sids = length evs
  /\ Z.of_nat (length sep') = Z.of_nat (length sep) + count_start evs
  /\ forall j e, evs !! j = Some e -> ev_kind e = Start ->
       sids !! j = Some (to_i32 (Z.of_nat (length sep) + count_start (take j evs))).
Proof using Type.
  induction evs as [|e evs IH]; intros i sep sids sep' Heq.
  - simpl in Heq. injection Heq as <- <-. repeat split.
    + unfold count_start, zcount. simpl. lia.
    + intros j e Hj. inversion Hj.
  - cbn [Ours2DContext.start_ids] in Heq. unfold count_start in *.
    destruct (ev_kind e) eqn:Ek.
    + destruct (Ours2DContext.start_ids evs (i + 1) sep) as [sids1 sep1] eqn:Hrec.
      injection Heq as <- <-. destruct (IH _ _ _ _ Hrec) as (H1 & H2 & H3).
      assert (Hz : forall l, zcount is_start (e :: l) = zcount is_start l).
      { intros l. unfold zcount. cbn [zsum fold_right]. unfold is_start at 1.
        rewrite Ek. reflexivity. }
      repeat split.
      * simpl. rewrite H1. reflexivity.
      * rewrite Hz. exact H2.
      * intros [|j] e' Hj Hk; simpl in Hj.
        -- injection Hj as <-. congruence.
        -- cbn [take lookup list_lookup]. rewrite Hz. apply (H3 j e' Hj Hk).
    + destruct (Ours2DContext.start_ids evs (i + 1) (sep ++ [i])) as [sids1 sep1] eqn:Hrec.
      injection Heq as <- <-. destruct (IH _ _ _ _ Hrec) as (H1 & H2 & H3).
      assert (Hz : forall l, zcount is_start (e :: l) = 1 + zcount is_start l).
      { intros l. unfold zcount. cbn [zsum fold_right]. unfold is_start at 1.
        rewrite Ek. reflexivity. }
      rewrite length_app in H2, H3. cbn [length] in H2, H3.
      repeat split.
      * simpl. rewrite H1. reflexivity.
      * rewrite Hz. lia.
      * intros [|j] e' Hj Hk; simpl in Hj.
        -- cbn [take lookup list_lookup]. unfold zcount. cbn [zsum fold_right].
           rewrite Z.add_0_r. reflexivity.
        -- cbn [take]. rewrite Hz. etransitivity; [apply (H3 j e' Hj Hk) |].
           f_equal. f_equal. lia.
Qed.

Lemma count_start_take evs j e :
  evs !! j = Some e -> ev_kind e = Start ->
  0 <= count_start (take j evs) < count_start evs.
Proof using Type.
  intros Hj Hk. unfold count_start.
  pose proof (take_drop_middle evs j e Hj) as Hm.
  assert (zcount is_start evs
          = zcount is_start (take j evs) + (1 + zcount is_start (drop (Datatypes.S j) evs)))
    as ->.
  { rewrite <- Hm at 1. rewrite zcount_app. f_equal. unfold zcount. cbn [zsum fold_right].
    unfold is_start at 1. rewrite Hk. reflexivity. }
  pose proof (zcount_bounds is_start (take j evs)).
  pose proof (zcount_bounds is_start (drop (Datatypes.S j) evs)). lia.
Qed.

Lemma count_start_le evs : 0 <= count_start evs <= Z.of_nat (length evs).
Proof using Type. apply zcount_bounds. Qed.

(** ** What [Build] leaves in the context *)

Record ctx_ok (ctx : Ours2DContext.t) : Prop := mk_ctx_ok {
  co_ds : Ours2DContext.ds_ ctx = Some ds;
  co_built : Ours2DContext.built_ ctx = true;
  co_events : Ours2DContext.events_ ctx = sweep_events;
  co_sids : Ours2DContext.start_ids sweep_events 0 []
            = (Ours2DContext.start_id_of_event_ ctx, Ours2DContext.start_event_pos_ ctx);
  co_ylo_r : Ours2DContext.ylo_rank_r_ ctx
             = map (fun b => Ours2DContext.lb_rank y_dom (v1 (lo b))) (boxes (R ds));
  co_yhi_r : Ours2DContext.yhi_lb_rank_r_ ctx
             = map (fun b => Ours2DContext.lb_rank y_dom (v1 (hi b))) (boxes (R ds));
  co_ylo_s : Ours2DContext.ylo_rank_s_ ctx
             = map (fun b => Ours2DContext.lb_rank y_dom (v1 (lo b))) (boxes (S ds));
  co_yhi_s : Ours2DContext.yhi_lb_rank_s_ ctx
             = map (fun b => Ours2DContext.lb_rank y_dom (v1 (hi b))) (boxes (S ds));
  co_m : 1 <= m_dom;
  co_ar : exists act, idx_rep (Ours2DContext.active_r_ ctx) (RelationOps.Size (R ds)) m_dom
                        act (lo_rank SideR) (hi_rank SideR);
  co_as : exists act, idx_rep (Ours2DContext.active_s_ ctx) (RelationOps.Size (S ds)) m_dom
                        act (lo_rank SideS) (hi_rank SideS)
}.

Lemma y_dom_empty_iff :
  length y_dom = 0%nat <-> RelationOps.Size (R ds) + RelationOps.Size (S ds) = 0.
Proof using Type.
  unfold y_dom, RelationOps.Size.
  destruct (boxes (R ds)) as [|b bs] eqn:ER.
  - destruct (boxes (S ds)) as [|b' bs'] eqn:ES; [simpl; split; [lia | reflexivity] |].
    split; [| simpl; lia]. intros Hl. apply nil_length_inv in Hl.
    assert (v1 (lo b') ∈ @nil Z) as Hin; [| inversion Hin].
    rewrite <- Hl. apply sort_unique_elem. simpl. left.
  - split; [| simpl; lia]. intros Hl. apply nil_length_inv in Hl.
    assert (v1 (lo b) ∈ @nil Z) as Hin; [| inversion Hin].
    rewrite <- Hl. apply sort_unique_elem. simpl. left.
Qed.

Lemma Build_cases c :
  (RelationOps.Size (R ds) + RelationOps.Size (S ds) = 0
   /\ Ours2DContext.Build c ds = Fail "Ours2DContext: empty y-domain")
  \/ (1 <= RelationOps.Size (R ds) + RelationOps.Size (S ds)
      /\ exists ctx, Ours2DContext.Build c ds = Done ctx /\ ctx_ok ctx).
Proof using Hvalid Hsize.
  pose proof (size_rel SideR) as HR. pose proof (size_rel SideS) as HS. simpl in HR, HS.
  unfold Ours2DContext.Build.
  destruct (Z.ltb_spec u32_max (RelationOps.Size (R ds))) as [Hc|_];
    [unfold u32_max in Hc; lia |].
  destruct (Z.ltb_spec u32_max (RelationOps.Size (S ds))) as [Hc|_];
    [unfold u32_max in Hc; lia |].
  cbn [orb]. rewrite BuildSweepEvents_eq.
  cbn [lift_opt mbind outcome_mbind outcome_bind].
  destruct (Ours2DContext.start_ids sweep_events 0 []) as [sids sep] eqn:Hsids.
  fold y_dom.
  destruct (Nat.eqb_spec (length y_dom) 0) as [Hl|Hl].
  - left. split; [apply y_dom_empty_iff; exact Hl | reflexivity].
  - right. assert (1 <= RelationOps.Size (R ds) + RelationOps.Size (S ds)) as Hn.
    { pose proof y_dom_empty_iff as Hy.
      destruct (Z.eq_dec (RelationOps.Size (R ds) + RelationOps.Size (S ds)) 0) as [Hz|Hz];
        [apply Hy in Hz; contradiction | lia]. }
    split; [exact Hn |].
    pose proof m_dom_le as Hm. fold m_dom.
    assert (1 <= m_dom) as Hm1 by (unfold m_dom; lia).
    rewrite !wrap32_small by lia.
    destruct (idx_Init_rep (RelationOps.Size (R ds)) m_dom (lo_rank SideR) (hi_rank SideR))
      as (ar & -> & Har); [lia | lia |].
    destruct (idx_Init_rep (RelationOps.Size (S ds)) m_dom (lo_rank SideS) (hi_rank SideS))
      as (as_ & -> & Has); [lia | lia |].
    cbn [lift_opt mbind outcome_mbind outcome_bind].
    eexists. split; [reflexivity |].
    constructor; cbn; try reflexivity; try assumption; eauto.
Qed.

(** ** The pairs joined by the processed prefix *)

Definition n_of (sd : Side) : Z := RelationOps.Size (rel_of ds sd).

Definition isect (sd : Side) (i j : Z) : bool :=
  IntersectsHalfOpen (box_at (rel_of ds sd) i) (box_at (rel_of ds (other_side sd)) j).

Definition joined (pre : list Event) (sd : Side) (i j : Z) : Z :=
  if started pre sd i && started pre (other_side sd) j && isect sd i j then 1 else 0.

Definition pairs_count (pre : list Event) (sd : Side) : Z :=
  zsum (fun i => zsum (fun j => joined pre sd i j) (seqZ 0 (n_of (other_side sd))))
       (seqZ 0 (n_of sd)).

Lemma Intersects_proper a b :
  v0 (lo a) < v0 (hi a) -> v1 (lo a) < v1 (hi a) ->
  v0 (lo b) < v0 (hi b) -> v1 (lo b) < v1 (hi b) ->
  BoxOps.Intersects a b
  = (v0 (lo a) <? v0 (hi b)) && (v0 (lo b) <? v0 (hi a))
    && ((v1 (lo a) <? v1 (hi b)) && (v1 (lo b) <? v1 (hi a))).
Proof using Type.
  intros H1 H2 H3 H4. unfold BoxOps.Intersects, BoxOps.IsEmpty.
  cbn [existsb forallb axes coord].
  destruct (Z.ltb_spec (v0 (lo a)) (v0 (hi a))); [| lia].
  destruct (Z.ltb_spec (v1 (lo a)) (v1 (hi a))); [| lia].
  destruct (Z.ltb_spec (v0 (lo b)) (v0 (hi b))); [| lia].
  destruct (Z.ltb_spec (v1 (lo b)) (v1 (hi b))); [| lia].
  cbn [negb orb]. rewrite andb_true_r. reflexivity.
Qed.

Lemma Intersects_sym a b : BoxOps.Intersects a b = BoxOps.Intersects b a.
Proof using Type.
  unfold BoxOps.Intersects. rewrite (orb_comm (BoxOps.IsEmpty b)).
  destruct (BoxOps.IsEmpty a || BoxOps.IsEmpty b); [reflexivity |].
  cbn [forallb axes]. rewrite !andb_true_r.
  rewrite (andb_comm (coord (lo b) 0 <? coord (hi a) 0)).
  rewrite (andb_comm (coord (lo b) 1 <? coord (hi a) 1)). reflexivity.
Qed.

Lemma other_side_invol sd : other_side (other_side sd) = sd.
Proof using Type. destruct sd; reflexivity. Qed.

Lemma pairs_count_sym pre sd : pairs_count pre (other_side sd) = pairs_count pre sd.
Proof using Type.
  unfold pairs_count. rewrite other_side_invol. rewrite zsum_swap.
  apply zsum_ext. intros i _. apply zsum_ext. intros j _.
  unfold joined, isect, IntersectsHalfOpen. rewrite other_side_invol.
  rewrite (Intersects_sym (box_at (rel_of ds (other_side sd)) j)).
  rewrite (andb_comm (started pre (other_side sd) j)). reflexivity.
Qed.

Lemma zsum_add {A} (g h : A -> Z) l :
  zsum (fun a => g a + h a) l = zsum g l + zsum h l.
Proof using Type. induction l as [|a l IH]; simpl; [reflexivity | rewrite IH; lia]. Qed.

Lemma zsum_pick (x : Z) (c : Z) l :
  NoDup l -> x ∈ l -> zsum (fun y => if bool_decide (y = x) then c else 0) l = c.
Proof using Type.
  induction 1 as [|a l Ha Hl IH]; intros Hx; [inversion Hx |].
  cbn [zsum fold_right]. fold (zsum (fun y => if bool_decide (y = x) then c else 0) l).
  apply elem_of_cons in Hx as [->|Hx].
  - rewrite bool_decide_eq_true_2 by reflexivity.
    rewrite zsum_zero; [lia |]. intros b Hb.
    rewrite bool_decide_eq_false_2; [reflexivity |]. intros ->. contradiction.
  - rewrite bool_decide_eq_false_2 by (intros ->; contradiction).
    rewrite IH by exact Hx. lia.
Qed.

Lemma start_ev_inj sd i sd' j :
  start_ev (rel_of ds sd) sd i = start_ev (rel_of ds sd') sd' j <-> sd = sd' /\ i = j.
Proof using Type.
  split; [| intros [-> ->]; reflexivity].
  unfold start_ev. intros H. injection H as _ Hs _ Hi. split; assumption.
Qed.

Lemma pairs_count_start pre sd i :
  0 <= i < n_of sd -> started pre sd i = false ->
  pairs_count (pre ++ [start_ev (rel_of ds sd) sd i]) sd
  = pairs_count pre sd
    + zsum (fun j => if started pre (other_side sd) j && isect sd i j then 1 else 0)
           (seqZ 0 (n_of (other_side sd))).
Proof using Type.
  intros Hi Hns. unfold pairs_count.
  set (c := zsum (fun j => if started pre (other_side sd) j && isect sd i j then 1 else 0)
                 (seqZ 0 (n_of (other_side sd)))).
  rewrite <- (zsum_pick i c (seqZ 0 (n_of sd)))
    by (try apply NoDup_seqZ; apply elem_of_seqZ; lia).
  rewrite <- zsum_add. apply zsum_ext. intros i' _.
  destruct (decide (i' = i)) as [->|Hne].
  - rewrite bool_decide_eq_true_2 by reflexivity.
    rewrite (zsum_zero (fun j => joined pre sd i j)).
    2:{ intros j _. unfold joined. rewrite Hns. reflexivity. }
    rewrite Z.add_0_l. subst c. apply zsum_ext. intros j _.
    unfold joined. rewrite !started_snoc.
    rewrite (bool_decide_eq_true_2 (start_ev _ sd i = _)) by reflexivity.
    rewrite orb_true_r.
    rewrite (bool_decide_eq_false_2 (start_ev _ sd i = start_ev _ (other_side sd) j)).
    2:{ rewrite start_ev_inj. destruct sd; intros [? _]; discriminate. }
    rewrite orb_false_r. reflexivity.
  - rewrite bool_decide_eq_false_2 by exact Hne. rewrite Z.add_0_r.
    apply zsum_ext. intros j _. unfold joined. rewrite !started_snoc.
    rewrite (bool_decide_eq_false_2 (start_ev _ sd i = start_ev _ sd i')).
    2:{ rewrite start_ev_inj. intros [_ ?]. congruence. }
    rewrite (bool_decide_eq_false_2 (start_ev _ sd i = start_ev _ (other_side sd) j)).
    2:{ rewrite start_ev_inj. destruct sd; intros [? _]; discriminate. }
    rewrite !orb_false_r. reflexivity.
Qed.

Lemma pairs_count_end pre e sd :
  ev_kind e = End -> pairs_count (pre ++ [e]) sd = pairs_count pre sd.
Proof using Type.
  intros Hk. unfold pairs_count. apply zsum_ext. intros i _. apply zsum_ext. intros j _.
  unfold joined. rewrite !started_snoc.
  rewrite !bool_decide_eq_false_2 by (intros ->; discriminate).
  rewrite !orb_false_r. reflexivity.
Qed.

(** ** The weight of a START event *)

Lemma zcount_filter_and {A} (P Q : A -> bool) l :
  zcount P (filter (fun a => Q a = true) l) = zcount (fun a => Q a && P a) l.
Proof using Type.
  induction l as [|a l IH]; [reflexivity |].
  rewrite filter_cons. unfold zcount in *. destruct (decide (Q a = true)) as [Hq|Hq].
  - cbn [zsum fold_right]. rewrite Hq. cbn [andb]. f_equal. exact IH.
  - cbn [zsum fold_right]. apply not_true_is_false in Hq. rewrite Hq. cbn [andb].
    rewrite Z.add_0_l. exact IH.
Qed.

Lemma zcount_act_range (P : Z -> bool) act n :
  NoDup act -> (forall j, j ∈ act -> 0 <= j < n) ->
  zcount P act = zcount (fun j => bool_decide (j ∈ act) && P j) (seqZ 0 n).
Proof using Type.
  intros Hnd Hr.
  rewrite <- (zcount_filter_and P (fun j => bool_decide (j ∈ act))).
  apply zcount_perm. apply NoDup_Permutation.
  - exact Hnd.
  - apply NoDup_filter, NoDup_seqZ.
  - intros j. rewrite list_elem_of_filter, elem_of_seqZ, bool_decide_eq_true. split.
    + intros Hj. split; [exact Hj |]. specialize (Hr j Hj). lia.
    + tauto.
Qed.

Lemma zcount_or_disjoint {A} (P Q : A -> bool) l :
  (forall a, a ∈ l -> P a = true -> Q a = false) ->
  zcount P l + zcount Q l = zcount (fun a => P a || Q a) l.
Proof using Type.
  intros Hd. unfold zcount. rewrite <- zsum_add. apply zsum_ext. intros a Ha.
  specialize (Hd a Ha). destruct (P a); [rewrite Hd by reflexivity; reflexivity |].
  destruct (Q a); reflexivity.
Qed.

Lemma start_weight pre suf sd i act :
  sweep_events = pre ++ start_ev (rel_of ds sd) sd i :: suf ->
  0 <= i < n_of sd ->
  NoDup act ->
  (forall j, j ∈ act <-> 0 <= j < n_of (other_side sd) /\ active pre (other_side sd) j = true) ->
  zcount (fun j => bool_decide (lo_rank (other_side sd) j <= lo_rank sd i
                                < hi_rank (other_side sd) j)) act
  + zcount (fun j => bool_decide (lo_rank sd i < lo_rank (other_side sd) j
                                  < hi_rank sd i)) act
  = zsum (fun j => if started pre (other_side sd) j && isect sd i j then 1 else 0)
         (seqZ 0 (n_of (other_side sd))).
Proof using Hvalid Hsize.
  intros Hsplit Hi Hnd Hact.
  rewrite zcount_or_disjoint.
  2:{ intros j _ H1%bool_decide_eq_true_1. apply bool_decide_eq_false_2. lia. }
  rewrite (zcount_act_range _ act (n_of (other_side sd)) Hnd)
    by (intros j Hj; apply Hact in Hj; tauto).
  apply zsum_ext. intros j Hj. apply elem_of_seqZ in Hj.
  assert (0 <= j < n_of (other_side sd)) as Hj' by lia. clear Hj.
  apply (f_equal (fun c : bool => if c then 1 else 0)).
  pose proof (proper_at sd i Hi) as [Hpx Hpy].
  pose proof (proper_at (other_side sd) j Hj') as [Hqx Hqy].
  destruct (pattern_overlap sd i (other_side sd) j Hi Hj') as [HA HB].
  unfold isect, IntersectsHalfOpen.
  rewrite (Intersects_proper _ _ Hpx Hpy Hqx Hqy).
  destruct (active pre (other_side sd) j) eqn:Ea.
  - rewrite (bool_decide_eq_true_2 (j ∈ act)) by (apply Hact; tauto).
    destruct (start_active_overlap pre suf _ Hsplit sd i (other_side sd) j eq_refl Hj' Ea)
      as [Hx1 Hx2].
    unfold active in Ea. apply andb_prop in Ea as [-> _]. cbn [andb].
    apply eq_true_iff_eq.
    rewrite orb_true_iff, !andb_true_iff, !bool_decide_eq_true, !Z.ltb_lt. lia.
  - rewrite (bool_decide_eq_false_2 (j ∈ act)) by (rewrite Hact, Ea; intros [_ ?]; discriminate).
    cbn [andb]. symmetry. unfold active in Ea.
    destruct (started pre (other_side sd) j); [| reflexivity].
    cbn [andb] in Ea |- *. apply negb_false_iff in Ea.
    pose proof (start_ended_disjoint pre suf _ Hsplit sd i (other_side sd) j eq_refl Ea) as Hd.
    destruct (Z.ltb_spec (v0 (lo (box_at (rel_of ds sd) i)))
                (v0 (hi (box_at (rel_of ds (other_side sd)) j)))); [lia | reflexivity].
Qed.

(** ** The oracle counts all pairs *)

Lemma boxes_as_map r : boxes r = map (box_at r) (seqZ 0 (RelationOps.Size r)).
Proof using Type.
  unfold RelationOps.Size. apply list_eq. intros k. rewrite list_lookup_fmap.
  destruct (boxes r !! k) as [b|] eqn:Hk.
  - rewrite lookup_seqZ_lt by (apply lookup_lt_Some in Hk; lia).
    simpl. rewrite Z.add_0_l. rewrite (box_at_lookup r k b Hk). reflexivity.
  - rewrite lookup_seqZ_ge by (apply lookup_ge_None in Hk; lia). reflexivity.
Qed.

Lemma zsum_map {A B} (f : A -> B) (g : B -> Z) l : zsum g (map f l) = zsum (fun a => g (f a)) l.
Proof using Type. induction l as [|a l IH]; simpl; [reflexivity | rewrite IH; reflexivity]. Qed.

Lemma zcount_cons {A} (P : A -> bool) a l :
  zcount P (a :: l) = (if P a then 1 else 0) + zcount P l.
Proof using Type. reflexivity. Qed.

Lemma zsum_cons {A} (g : A -> Z) a l : zsum g (a :: l) = g a + zsum g l.
Proof using Type. reflexivity. Qed.

Lemma count_inner_fold (P : Box -> bool) : forall l c,
  0 <= c -> c + Z.of_nat (length l) < 2 ^ 64 ->
  fold_left (fun count sb => if P sb then wrap64 (count + 1) else count) l c
  = c + zcount P l.
Proof using Type.
  induction l as [|b l IH]; intros c Hc Hb.
  - unfold zcount. simpl. lia.
  - cbn [fold_left length] in *. rewrite zcount_cons.
    pose proof (zcount_bounds P l).
    destruct (P b); cbv iota.
    + rewrite wrap64_small by lia. rewrite IH by lia. lia.
    + rewrite IH by lia. lia.
Qed.

Lemma count_outer_fold (s : list Box) : forall l c,
  0 <= c -> c + Z.of_nat (length l) * Z.of_nat (length s) < 2 ^ 64 ->
  fold_left
    (fun count rb =>
       fold_left (fun count sb => if IntersectsHalfOpen rb sb then wrap64 (count + 1)
                                  else count) s count) l c
  = c + zsum (fun rb => zcount (IntersectsHalfOpen rb) s) l.
Proof using Type.
  induction l as [|b l IH]; intros c Hc Hb.
  - simpl. lia.
  - cbn [fold_left length] in *. rewrite zsum_cons.
    pose proof (zcount_bounds (IntersectsHalfOpen b) s).
    rewrite (count_inner_fold (IntersectsHalfOpen b)) by nia.
    rewrite IH by nia. lia.
Qed.

Lemma pairs_count_all :
  pairs_count sweep_events SideR = CountNaive (R ds) (S ds).
Proof using Hsize.
  pose proof (size_rel SideR) as HR. pose proof (size_rel SideS) as HS.
  unfold RelationOps.Size in *. simpl in HR, HS.
  unfold CountNaive. rewrite count_outer_fold.
  2: lia.
  2:{ assert (Z.of_nat (length (boxes (R ds))) * Z.of_nat (length (boxes (S ds)))
              <= 2 ^ 30 * 2 ^ 30) by nia.
      change (2 ^ 30 * 2 ^ 30) with (2 ^ 60) in *. lia. }
  rewrite Z.add_0_l. unfold pairs_count, n_of. simpl.
  rewrite (boxes_as_map (R ds)) at 1. rewrite zsum_map.
  apply zsum_ext. intros i Hi. apply elem_of_seqZ in Hi.
  rewrite (boxes_as_map (S ds)) at 1. unfold zcount. rewrite zsum_map.
  apply zsum_ext. intros j Hj. apply elem_of_seqZ in Hj.
  unfold joined, isect, started. simpl.
  rewrite !bool_decide_eq_true_2; [reflexivity | |].
  - apply elem_sweep_events. exists SideS, j. simpl. split; [lia | tauto].
  - apply elem_sweep_events. exists SideR, i. simpl. split; [lia | tauto].
Qed.

(** ** The active indices along the sweep *)

Definition tree_of (ar as_ : ActiveIndex2D.t) (sd : Side) : ActiveIndex2D.t :=
  match sd with SideR => ar | SideS => as_ end.

Definition actives_ok (pre : list Event) (ar as_ : ActiveIndex2D.t) : Prop :=
  forall sd, exists act,
    idx_rep (tree_of ar as_ sd) (n_of sd) m_dom act (lo_rank sd) (hi_rank sd)
    /\ forall i, i ∈ act <-> 0 <= i < n_of sd /\ active pre sd i = true.

Lemma end_ev_inj sd i sd' j :
  end_ev (rel_of ds sd) sd i = end_ev (rel_of ds sd') sd' j <-> sd = sd' /\ i = j.
Proof using Type.
  split; [| intros [-> ->]; reflexivity].
  unfold end_ev. intros H. injection H as _ Hs _ Hi. split; assumption.
Qed.

Lemma active_after_end pre sd i sd' j :
  active (pre ++ [end_ev (rel_of ds sd) sd i]) sd' j
  = active pre sd' j && negb (bool_decide (sd = sd' /\ i = j)).
Proof using Type.
  unfold active. rewrite started_snoc, ended_snoc.
  rewrite (bool_decide_eq_false_2 (end_ev _ _ _ = start_ev _ _ _)) by discriminate.
  rewrite orb_false_r.
  rewrite (bool_decide_ext _ _ (end_ev_inj sd i sd' j)).
  rewrite negb_orb, andb_assoc. reflexivity.
Qed.

Lemma active_after_start pre sd i sd' j :
  ended pre sd i = false ->
  active (pre ++ [start_ev (rel_of ds sd) sd i]) sd' j
  = active pre sd' j || bool_decide (sd = sd' /\ i = j).
Proof using Type.
  intros Hne. unfold active. rewrite started_snoc, ended_snoc.
  rewrite (bool_decide_eq_false_2 (start_ev _ _ _ = end_ev _ _ _)) by discriminate.
  rewrite orb_false_r.
  rewrite (bool_decide_ext _ _ (start_ev_inj sd i sd' j)).
  destruct (bool_decide_reflect (sd = sd' /\ i = j)) as [[<- <-]|Hd].
  - rewrite Hne. rewrite !orb_true_r. reflexivity.
  - rewrite !orb_false_r. reflexivity.
Qed.

Lemma sweep_erase_ok pre suf sd i ar as_ :
  sweep_events = pre ++ end_ev (rel_of ds sd) sd i :: suf ->
  0 <= i < n_of sd ->
  actives_ok pre ar as_ ->
  exists ar' as',
    sweep_erase (end_ev (rel_of ds sd) sd i) ar as_ = Some (ar', as')
    /\ actives_ok (pre ++ [end_ev (rel_of ds sd) sd i]) ar' as'.
Proof using Hvalid Hsize.
  intros Hsplit Hi Hok.
  pose proof (end_after_start pre suf _ Hsplit sd i Hi eq_refl) as Hact.
  pose proof (size_rel sd) as Hsz. fold (n_of sd) in Hsz.
  destruct (Hok sd) as (act & Hrep & Hmem).
  destruct (idx_Erase_rep _ _ _ _ _ _ i Hrep) as (a' & Her & Hrep');
    [apply Hmem; tauto |].
  assert (Hnew : forall sd' (t' : ActiveIndex2D.t),
            (sd' = sd -> t' = a') ->
            (sd' <> sd -> t' = tree_of ar as_ sd') ->
            exists act', idx_rep t' (n_of sd') m_dom act' (lo_rank sd') (hi_rank sd')
              /\ forall j, j ∈ act' <->
                   0 <= j < n_of sd' /\ active (pre ++ [end_ev (rel_of ds sd) sd i]) sd' j = true).
  { intros sd' t' H1 H2. destruct (decide (sd' = sd)) as [->|Hne].
    - rewrite (H1 eq_refl). exists (filter (fun x => x <> i) act). split; [exact Hrep' |].
      intros j. rewrite list_elem_of_filter, Hmem, active_after_end.
      rewrite andb_true_iff, negb_true_iff, bool_decide_eq_false. intuition congruence.
    - rewrite (H2 Hne). destruct (Hok sd') as (act' & Hr' & Hm'). exists act'.
      split; [exact Hr' |]. intros j. rewrite Hm', active_after_end.
      rewrite andb_true_iff, negb_true_iff, bool_decide_eq_false. intuition congruence. }
  unfold sweep_erase. cbn [ev_side ev_index end_ev].
  rewrite wrap32_small by lia.
  destruct sd; cbn [tree_of] in Her; rewrite Her; cbn [mbind option_bind].
  - exists a', as_. split; [reflexivity |]. intros sd'. apply Hnew.
    + intros ->. reflexivity.
    + destruct sd'; [congruence | reflexivity].
  - exists ar, a'. split; [reflexivity |]. intros sd'. apply Hnew.
    + intros ->. reflexivity.
    + destruct sd'; [reflexivity | congruence].
Qed.

Lemma sweep_insert_ok pre suf sd i ar as_ :
  sweep_events = pre ++ start_ev (rel_of ds sd) sd i :: suf ->
  0 <= i < n_of sd ->
  actives_ok pre ar as_ ->
  exists ar' as',
    sweep_insert (start_ev (rel_of ds sd) sd i) (lo_rank sd i) (hi_rank sd i) ar as_
    = Some (ar', as')
    /\ actives_ok (pre ++ [start_ev (rel_of ds sd) sd i]) ar' as'.
Proof using Hvalid Hsize.
  intros Hsplit Hi Hok.
  pose proof (start_not_started pre suf _ Hsplit sd i eq_refl) as Hns.
  assert (ended pre sd i = false) as Hne.
  { destruct (ended pre sd i) eqn:Ee; [| reflexivity].
    pose proof (start_ended_disjoint pre suf _ Hsplit sd i sd i eq_refl Ee).
    pose proof (proper_at sd i Hi). lia. }
  pose proof (size_rel sd) as Hsz. fold (n_of sd) in Hsz.
  pose proof (rank_range sd i Hi) as (Hr1 & Hr2 & Hr3).
  destruct (Hok sd) as (act & Hrep & Hmem).
  destruct (idx_Insert_rep _ _ _ _ _ _ i Hrep) as (a' & Hins & Hrep'); try lia.
  { rewrite Hmem. unfold active. rewrite Hns. intros [_ ?]. discriminate. }
  assert (Hnew : forall sd' (t' : ActiveIndex2D.t),
            (sd' = sd -> t' = a') ->
            (sd' <> sd -> t' = tree_of ar as_ sd') ->
            exists act', idx_rep t' (n_of sd') m_dom act' (lo_rank sd') (hi_rank sd')
              /\ forall j, j ∈ act' <->
                   0 <= j < n_of sd'
                   /\ active (pre ++ [start_ev (rel_of ds sd) sd i]) sd' j = true).
  { intros sd' t' H1 H2. destruct (decide (sd' = sd)) as [->|Hd].
    - rewrite (H1 eq_refl). exists (i :: act). split; [exact Hrep' |].
      intros j. rewrite elem_of_cons, Hmem, (active_after_start _ _ _ _ _ Hne).
      rewrite orb_true_iff, bool_decide_eq_true. intuition (subst; lia || congruence).
    - rewrite (H2 Hd). destruct (Hok sd') as (act' & Hr' & Hm'). exists act'.
      split; [exact Hr' |]. intros j. rewrite Hm', (active_after_start _ _ _ _ _ Hne).
      rewrite orb_true_iff, bool_decide_eq_true. intuition congruence. }
  unfold sweep_insert. cbn [ev_side ev_index start_ev].
  rewrite wrap32_small by lia.
  destruct sd; cbn [tree_of] in Hins; rewrite Hins; cbn [mbind option_bind].
  - exists a', as_. split; [reflexivity |]. intros sd'. apply Hnew.
    + intros ->. reflexivity.
    + destruct sd'; [congruence | reflexivity].
  - exists ar, a'. split; [reflexivity |]. intros sd'. apply Hnew.
    + intros ->. reflexivity.
    + destruct sd'; [reflexivity | congruence].
Qed.

Lemma vget_map_boxes (f : Box -> Z) r i :
  0 <= i < RelationOps.Size r -> vget (map f (boxes r)) i = Some (f (box_at r i)).
Proof using Type.
  intros Hi. rewrite vget_map. unfold box_at, RelationOps.Size in *.
  destruct (vget_is_Some (boxes r) i Hi) as [b ->]. reflexivity.
Qed.

Lemma query_ranks_ok ctx sd i :
  ctx_ok ctx -> 0 <= i < n_of sd ->
  Ours2DContext.query_ranks ctx (start_ev (rel_of ds sd) sd i)
  = Some (lo_rank sd i, hi_rank sd i).
Proof using Type.
  intros Hctx Hi. unfold Ours2DContext.query_ranks. cbn [ev_side ev_index start_ev].
  destruct sd.
  - rewrite (co_ylo_r _ Hctx), (co_yhi_r _ Hctx).
    rewrite !vget_map_boxes by exact Hi. reflexivity.
  - rewrite (co_ylo_s _ Hctx), (co_yhi_s _ Hctx).
    rewrite !vget_map_boxes by exact Hi. reflexivity.
Qed.

Lemma sweep_other_tree sd i ar as_ :
  sweep_other (start_ev (rel_of ds sd) sd i) ar as_ = tree_of ar as_ (other_side sd).
Proof using Type. destruct sd; reflexivity. Qed.

(** The two counts of a START event add up to the pairs it joins. *)
Lemma sweep_query_ok pre suf sd i ar as_ :
  sweep_events = pre ++ start_ev (rel_of ds sd) sd i :: suf ->
  0 <= i < n_of sd ->
  actives_ok pre ar as_ ->
  exists wa wb,
    ActiveIndex2D.CountA (sweep_other (start_ev (rel_of ds sd) sd i) ar as_) (lo_rank sd i)
    = Some wa
    /\ ActiveIndex2D.CountB (sweep_other (start_ev (rel_of ds sd) sd i) ar as_)
         (lo_rank sd i) (hi_rank sd i) = Some wb
    /\ 0 <= wa /\ 0 <= wb
    /\ wa + wb
       = zsum (fun j => if started pre (other_side sd) j && isect sd i j then 1 else 0)
              (seqZ 0 (n_of (other_side sd))).
Proof using Hvalid Hsize.
  intros Hsplit Hi Hok. rewrite sweep_other_tree.
  destruct (Hok (other_side sd)) as (act & Hrep & Hmem).
  pose proof (rank_range sd i Hi) as (Hr1 & Hr2 & Hr3).
  eexists _, _. split; [| split].
  - apply (idx_CountA _ _ _ _ _ _ (lo_rank sd i) Hrep). lia.
  - apply (idx_CountB _ _ _ _ _ _ (lo_rank sd i) (hi_rank sd i) Hrep). lia.
  - split; [apply zcount_bounds |]. split; [apply zcount_bounds |].
    apply (start_weight pre suf sd i act Hsplit Hi); [| exact Hmem].
    destruct Hrep as [_ _ _ _ [k Hp]]. apply (pr_nodup _ _ _ _ _ _ Hp).
Qed.

Lemma zsum_bound {A} (g : A -> Z) c l :
  0 <= c -> (forall a, a ∈ l -> 0 <= g a <= c) -> 0 <= zsum g l <= c * Z.of_nat (length l).
Proof using Type.
  intros Hc. induction l as [|a l IH]; intros H; [simpl; lia |].
  rewrite zsum_cons. cbn [length].
  specialize (H a ltac:(left)) as Ha.
  assert (0 <= zsum g l <= c * Z.of_nat (length l))
    by (apply IH; intros b Hb; apply H; right; exact Hb). nia.
Qed.

Lemma new_pairs_bound pre sd i :
  0 <= zsum (fun j => if started pre (other_side sd) j && isect sd i j then 1 else 0)
            (seqZ 0 (n_of (other_side sd))) <= 2 ^ 30.
Proof using Hsize.
  pose proof (size_rel (other_side sd)) as Hs. fold (n_of (other_side sd)) in Hs.
  pose proof (zsum_bound
    (fun j => if started pre (other_side sd) j && isect sd i j then 1 else 0) 1
    (seqZ 0 (n_of (other_side sd))) ltac:(lia)) as Hb.
  rewrite length_seqZ in Hb.
  assert (forall a : Z, a ∈ seqZ 0 (n_of (other_side sd)) ->
            0 <= (if started pre (other_side sd) a && isect sd i a then 1 else 0) <= 1) as Hg.
  { intros a _. destruct (_ && _); lia. }
  specialize (Hb Hg). lia.
Qed.

Lemma pairs_count_bound pre sd : 0 <= pairs_count pre sd <= 2 ^ 60.
Proof using Hsize.
  pose proof (size_rel sd) as Hs1. fold (n_of sd) in Hs1.
  pose proof (size_rel (other_side sd)) as Hs2. fold (n_of (other_side sd)) in Hs2.
  unfold pairs_count.
  pose proof (zsum_bound
    (fun i => zsum (fun j => joined pre sd i j) (seqZ 0 (n_of (other_side sd))))
    (2 ^ 30) (seqZ 0 (n_of sd)) ltac:(lia)) as Hb.
  rewrite length_seqZ in Hb.
  assert (forall a : Z, a ∈ seqZ 0 (n_of sd) ->
            0 <= zsum (fun j => joined pre sd a j) (seqZ 0 (n_of (other_side sd)))
            <= 2 ^ 30) as Hg.
  { intros a _.
    pose proof (zsum_bound (fun j => joined pre sd a j) 1
                  (seqZ 0 (n_of (other_side sd))) ltac:(lia)) as Hi.
    rewrite length_seqZ in Hi.
    assert (forall j : Z, j ∈ seqZ 0 (n_of (other_side sd)) -> 0 <= joined pre sd a j <= 1)
      as Hj by (intros j _; unfold joined; destruct (_ && _); lia).
    specialize (Hi Hj). lia. }
  specialize (Hb Hg).
  assert (2 ^ 30 * Z.of_nat (Z.to_nat (n_of sd)) <= 2 ^ 30 * 2 ^ 30) by nia.
  change (2 ^ 30 * 2 ^ 30) with (2 ^ 60) in *. lia.
Qed.

(** ** The first sweep of the two-pass driver *)

Record count_inv (pre : list Event) (st : OursSamplingBaseline.count_state) : Prop :=
  mk_count_inv {
  ci_act : actives_ok pre (OursSamplingBaseline.cs_ar st) (OursSamplingBaseline.cs_as st);
  ci_wa : Z.of_nat (length (OursSamplingBaseline.cs_w_a st)) = count_start sweep_events;
  ci_wb : Z.of_nat (length (OursSamplingBaseline.cs_w_b st)) = count_start sweep_events;
  ci_wt : Z.of_nat (length (OursSamplingBaseline.cs_w_total st)) = count_start sweep_events;
  ci_W : OursSamplingBaseline.cs_W st = pairs_count pre SideR
}.

Lemma pairs_count_side pre sd : pairs_count pre sd = pairs_count pre SideR.
Proof using Type. destruct sd; [reflexivity | apply (pairs_count_sym pre SideR)]. Qed.

Lemma start_id_ok ctx pre e suf :
  ctx_ok ctx -> sweep_events = pre ++ e :: suf -> ev_kind e = Start ->
  exists sid, vget (Ours2DContext.start_id_of_event_ ctx) (Z.of_nat (length pre)) = Some sid
              /\ wrap32 sid = sid /\ 0 <= sid < count_start sweep_events.
Proof using Hsize.
  intros Hctx Hsplit Hk.
  destruct (start_ids_spec _ _ _ _ _ (co_sids _ Hctx)) as (_ & _ & Hs).
  assert (sweep_events !! length pre = Some e) as Hl
    by (rewrite Hsplit; apply list_lookup_middle; reflexivity).
  specialize (Hs _ _ Hl Hk). cbn [length] in Hs. rewrite Z.add_0_l in Hs.
  pose proof (count_start_take _ _ _ Hl Hk) as Hc.
  pose proof (count_start_le sweep_events) as Hle.
  rewrite sweep_events_length in Hle.
  set (c := count_start (take (length pre) sweep_events)) in *.
  assert (0 <= c < 2 ^ 31) as Hc31.
  { change (2 ^ 31) with (2 * 2 ^ 30). lia. }
  assert (to_i32 c = c) as Hi32.
  { unfold to_i32. rewrite wrap32_small by (change (2 ^ 32) with (2 * 2 ^ 31); lia).
    unfold i32_max. destruct (Z.leb_spec c 2147483647); [reflexivity |].
    change (2 ^ 31) with 2147483648 in Hc31. lia. }
  exists c. split; [| split].
  - apply vget_Some. split; [lia |]. rewrite Nat2Z.id, Hs, Hi32. reflexivity.
  - apply wrap32_small. change (2 ^ 32) with (2 * 2 ^ 31). lia.
  - lia.
Qed.

Lemma Count_step_ok ctx pre e suf st :
  ctx_ok ctx -> sweep_events = pre ++ e :: suf -> count_inv pre st ->
  exists st', OursSamplingBaseline.Count_step ctx st (Z.of_nat (length pre), e) = Some st'
              /\ count_inv (pre ++ [e]) st'.
Proof using Hvalid Hsize.
  intros Hctx Hsplit [Hact Hwa Hwb Hwt HW].
  assert (e ∈ sweep_events) as He by (rewrite Hsplit, elem_of_app, elem_of_cons; tauto).
  apply elem_sweep_events in He as (sd & i & Hi & [-> | ->]); fold (n_of sd) in Hi.
  - (* START *)
    destruct (start_id_ok ctx pre _ suf Hctx Hsplit eq_refl) as (sid & Hsid & Hw32 & Hsr).
    destruct (sweep_query_ok pre suf sd i _ _ Hsplit Hi Hact)
      as (wa & wb & HA & HB & Hwa0 & Hwb0 & Hsum).
    destruct (sweep_insert_ok pre suf sd i _ _ Hsplit Hi Hact) as (ar' & as' & Hins & Hact').
    pose proof (new_pairs_bound pre sd i) as Hnb. rewrite <- Hsum in Hnb.
    pose proof (pairs_count_bound pre SideR) as Hpb.
    unfold OursSamplingBaseline.Count_step. cbn [ev_kind start_ev].
    change (mkEvent (v0 (lo (box_at (rel_of ds sd) i))) Start sd (id_of (rel_of ds sd) i) i)
      with (start_ev (rel_of ds sd) sd i).
    rewrite Hsid. cbn [mbind option_bind]. rewrite Hw32.
    rewrite (query_ranks_ok ctx sd i Hctx Hi). cbn [mbind option_bind].
    rewrite HA, HB. cbn [mbind option_bind].
    rewrite (vset_is_Some (OursSamplingBaseline.cs_w_a st)) by lia.
    rewrite (vset_is_Some (OursSamplingBaseline.cs_w_b st)) by lia.
    rewrite (vset_is_Some (OursSamplingBaseline.cs_w_total st)) by lia.
    cbn [mbind option_bind]. rewrite Hins. cbn [mbind option_bind].
    eexists. split; [reflexivity |].
    constructor; cbn [OursSamplingBaseline.cs_ar OursSamplingBaseline.cs_as
        OursSamplingBaseline.cs_w_a OursSamplingBaseline.cs_w_b
        OursSamplingBaseline.cs_w_total OursSamplingBaseline.cs_W];
      rewrite ?length_insert; try assumption.
    rewrite HW.
    rewrite (wrap64_small (wa + wb)) by (change (2 ^ 64) with (2 ^ 34 * 2 ^ 30); lia).
    rewrite wrap64_small
      by (change (2 ^ 64) with (2 ^ 4 * 2 ^ 60); change (2 ^ 60) with (2 ^ 30 * 2 ^ 30) in *; lia).
    rewrite <- (pairs_count_side (pre ++ _) sd).
    rewrite (pairs_count_start pre sd i Hi (start_not_started pre suf _ Hsplit sd i eq_refl)).
    rewrite (pairs_count_side pre sd), Hsum. reflexivity.
  - (* END *)
    destruct (sweep_erase_ok pre suf sd i _ _ Hsplit Hi Hact) as (ar' & as' & Her & Hact').
    unfold OursSamplingBaseline.Count_step. cbn [ev_kind end_ev].
    change (mkEvent (v0 (hi (box_at (rel_of ds sd) i))) End sd (id_of (rel_of ds sd) i) i)
      with (end_ev (rel_of ds sd) sd i).
    rewrite Her. cbn [mbind option_bind].
    eexists. split; [reflexivity |].
    constructor; cbn [OursSamplingBaseline.cs_ar OursSamplingBaseline.cs_as
        OursSamplingBaseline.cs_w_a OursSamplingBaseline.cs_w_b
        OursSamplingBaseline.cs_w_total OursSamplingBaseline.cs_W]; try assumption.
    rewrite HW. symmetry. apply pairs_count_end. reflexivity.
Qed.

Lemma Count_fold ctx : ctx_ok ctx -> forall suf pre st,
  sweep_events = pre ++ suf -> count_inv pre st ->
  exists st',
    ofold (OursSamplingBaseline.Count_step ctx)
      (zip (seqZ (Z.of_nat (length pre)) (Z.of_nat (length suf))) suf) st = Some st'
    /\ count_inv sweep_events st'.
Proof using Hvalid Hsize.
  intros Hctx. induction suf as [|e suf IH]; intros pre st Hsplit Hinv.
  - exists st. split; [reflexivity |]. rewrite Hsplit, app_nil_r. exact Hinv.
  - cbn [length]. rewrite seqZ_cons_S. cbn [zip zip_with ofold].
    destruct (Count_step_ok ctx pre e suf st Hctx Hsplit Hinv) as (st1 & -> & Hinv1).
    cbn [mbind option_bind].
    specialize (IH (pre ++ [e]) st1).
    rewrite length_app in IH. cbn [length] in IH.
    replace (Z.of_nat (length pre + 1)) with (Z.of_nat (length pre) + 1) in IH by lia.
    apply IH; [| exact Hinv1]. rewrite <- app_assoc. exact Hsplit.
Qed.

Lemma ctx_ok_ResetActive ctx ar as_ :
  ctx_ok ctx ->
  (exists act, idx_rep ar (n_of SideR) m_dom act (lo_rank SideR) (hi_rank SideR)) ->
  (exists act, idx_rep as_ (n_of SideS) m_dom act (lo_rank SideS) (hi_rank SideS)) ->
  ctx_ok (Ours2DContext.ResetActive (Ours2DContext.set_active ctx ar as_)).
Proof using Type.
  intros [H1 H2 H3 H4 H5 H6 H7 H8 H9 _ _] [a1 Ha1] [a2 Ha2].
  constructor; cbn; try assumption.
  - exists []. eapply idx_ResetActive_rep. exact Ha1.
  - exists []. eapply idx_ResetActive_rep. exact Ha2.
Qed.

Lemma ctx_ok_ResetActive' ctx : ctx_ok ctx -> ctx_ok (Ours2DContext.ResetActive ctx).
Proof using Type.
  intros Hctx. pose proof (co_ar _ Hctx) as Har. pose proof (co_as _ Hctx) as Has.
  apply (ctx_ok_ResetActive ctx _ _ Hctx Har Has).
Qed.

Lemma actives_ok_nil ctx :
  ctx_ok ctx ->
  actives_ok [] (Ours2DContext.active_r_ (Ours2DContext.ResetActive ctx))
                (Ours2DContext.active_s_ (Ours2DContext.ResetActive ctx)).
Proof using Type.
  intros Hctx sd. exists []. split.
  - destruct (co_ar _ Hctx) as [a1 Ha1]. destruct (co_as _ Hctx) as [a2 Ha2].
    destruct sd; cbn; eapply idx_ResetActive_rep; eassumption.
  - intros i. split; [intros Hi; inversion Hi |].
    intros [_ Ha]. unfold active, started in Ha.
    rewrite bool_decide_eq_false_2 in Ha by (intros Hin; inversion Hin). discriminate.
Qed.

Lemma pairs_count_nil sd : pairs_count [] sd = 0.
Proof using Type.
  unfold pairs_count. apply zsum_zero. intros i _. apply zsum_zero. intros j _.
  unfold joined, started.
  rewrite (bool_decide_eq_false_2 (_ ∈ [])) by (intros Hin; inversion Hin). reflexivity.
Qed.

Lemma num_start_events_ok ctx :
  ctx_ok ctx -> Ours2DContext.num_start_events ctx = count_start sweep_events.
Proof using Type.
  intros Hctx. destruct (start_ids_spec _ _ _ _ _ (co_sids _ Hctx)) as (_ & Hl & _).
  unfold Ours2DContext.num_start_events. rewrite Hl. simpl. lia.
Qed.

(** The state of the two-pass driver between calls. *)
Record sampling_ok (b : OursSamplingBaseline.t) : Prop := mk_sampling_ok {
  sk_built : OursSamplingBaseline.built_ b = true;
  sk_ctx : ctx_ok (OursSamplingBaseline.ctx_ b);
  sk_wt : Z.of_nat (length (OursSamplingBaseline.w_total_ b)) = count_start sweep_events;
  sk_wa : Z.of_nat (length (OursSamplingBaseline.w_a_ b)) = count_start sweep_events;
  sk_wb : Z.of_nat (length (OursSamplingBaseline.w_b_ b)) = count_start sweep_events
}.

Lemma Sampling_Build_cases b0 cfg :
  (RelationOps.Size (R ds) + RelationOps.Size (S ds) = 0
   /\ OursSamplingBaseline.Build b0 ds cfg = Fail "Ours2DContext: empty y-domain")
  \/ (1 <= RelationOps.Size (R ds) + RelationOps.Size (S ds)
      /\ exists b, OursSamplingBaseline.Build b0 ds cfg = Done b /\ sampling_ok b
                   /\ OursSamplingBaseline.weights_valid_ b = false).
Proof using Hvalid Hsize.
  unfold OursSamplingBaseline.Build.
  destruct (Build_cases (OursSamplingBaseline.ctx_ (OursSamplingBaseline.Reset b0)))
    as [[Hz ->] | [Hn (ctx & -> & Hctx)]].
  - left. split; [exact Hz | reflexivity].
  - right. split; [exact Hn |]. cbn [mbind outcome_mbind outcome_bind].
    eexists. split; [reflexivity |]. split; [| reflexivity].
    pose proof (num_start_events_ok ctx Hctx) as Hnum.
    pose proof (count_start_le sweep_events) as Hle.
    constructor; cbn; try assumption; try reflexivity;
      rewrite length_replicate, Hnum; lia.
Qed.

Section CountFloats.
Context `{FloatOps}.

(** The count of the two-pass driver is the oracle's. *)
Lemma Sampling_Count_ok b cfg :
  sampling_ok b ->
  exists b',
    OursSamplingBaseline.Count b cfg
    = Done (MakeExactCount (CountNaive (R ds) (S ds)), b')
    /\ sampling_ok b'
    /\ OursSamplingBaseline.W_ b' = CountNaive (R ds) (S ds)
    /\ OursSamplingBaseline.weights_valid_ b' = true.
Proof using Hvalid Hsize.
  intros [Hb Hctx Hwt Hwa Hwb].
  unfold OursSamplingBaseline.Count.
  rewrite Hb, (co_built _ Hctx), (co_ds _ Hctx). cbn [negb orb].
  rewrite bool_decide_eq_true_2 by (eexists; reflexivity). cbn [negb].
  pose proof (ctx_ok_ResetActive' _ Hctx) as Hctx'.
  set (ctx' := Ours2DContext.ResetActive (OursSamplingBaseline.ctx_ b)) in *.
  rewrite (co_events _ Hctx'). unfold with_pos, upto.
  destruct (Count_fold ctx' Hctx' sweep_events []
              (OursSamplingBaseline.mkCountState
                 (Ours2DContext.active_r_ ctx') (Ours2DContext.active_s_ ctx')
                 (map (fun _ => 0) (OursSamplingBaseline.w_a_ b))
                 (map (fun _ => 0) (OursSamplingBaseline.w_b_ b))
                 (map (fun _ => 0) (OursSamplingBaseline.w_total_ b)) 0))
    as (st' & Hfold & Hinv).
  - reflexivity.
  - constructor; cbn [OursSamplingBaseline.cs_ar OursSamplingBaseline.cs_as
        OursSamplingBaseline.cs_w_a OursSamplingBaseline.cs_w_b
        OursSamplingBaseline.cs_w_total OursSamplingBaseline.cs_W];
      rewrite ?length_map; try assumption.
    + apply actives_ok_nil. exact Hctx.
    + symmetry. apply pairs_count_nil.
  - cbn [length] in Hfold. change (Z.of_nat 0) with 0 in Hfold. rewrite Hfold.
    cbn [lift_opt mbind outcome_mbind outcome_bind].
    destruct Hinv as [Hact Hla Hlb Hlt HW]. rewrite pairs_count_all in HW.
    rewrite HW. eexists. split; [reflexivity |].
    split; [| split; reflexivity].
    constructor; cbn [OursSamplingBaseline.built_ OursSamplingBaseline.ctx_
        OursSamplingBaseline.w_total_ OursSamplingBaseline.w_a_ OursSamplingBaseline.w_b_];
      try assumption; try reflexivity.
    apply ctx_ok_ResetActive; [exact Hctx' | |].
    + destruct (Hact SideR) as (act & Hr & _). exists act. exact Hr.
    + destruct (Hact SideS) as (act & Hr & _). exists act. exact Hr.
Qed.

End CountFloats.

(** ** The first sweep of the adaptive driver without a budget *)

Section AdaptiveFloats.
Context `{FloatOps}.

(** The part of the adaptive sweep state that the two-pass driver has too. *)
Definition two_pass_part (st : OursAdaptiveBaseline.count_state)
    : OursSamplingBaseline.count_state :=
  OursSamplingBaseline.mkCountState
    (OursAdaptiveBaseline.cs_ar st) (OursAdaptiveBaseline.cs_as st)
    (OursAdaptiveBaseline.cs_w_a st) (OursAdaptiveBaseline.cs_w_b st)
    (OursAdaptiveBaseline.cs_w_total st) (OursAdaptiveBaseline.cs_W st).

(** The cache and the prefetch structures, which a sweep without budget
    leaves alone. *)
Definition cache_part (st : OursAdaptiveBaseline.count_state) :=
  (OursAdaptiveBaseline.cs_cached st, OursAdaptiveBaseline.cs_cache_off st,
   OursAdaptiveBaseline.cs_cache_len st, OursAdaptiveBaseline.cs_cache_partners st,
   OursAdaptiveBaseline.cs_prefetch_keep st, OursAdaptiveBaseline.cs_prefetch_partners st,
   OursAdaptiveBaseline.cs_heap st, OursAdaptiveBaseline.cs_mem_full st).

Lemma Adaptive_Count_step_ok cfg ctx w_small seed0 pre e suf st :
  ctx_ok ctx -> sweep_events = pre ++ e :: suf ->
  count_inv pre (two_pass_part st) ->
  OursAdaptiveBaseline.cs_mem_full st = 0 ->
  exists st',
    OursAdaptiveBaseline.Count_step cfg ctx 0 w_small (count_start sweep_events) seed0 false
      st (Z.of_nat (length pre), e) = Done st'
    /\ OursSamplingBaseline.Count_step ctx (two_pass_part st) (Z.of_nat (length pre), e)
       = Some (two_pass_part st')
    /\ cache_part st' = cache_part st.
Proof using Hvalid Hsize.
  intros Hctx Hsplit Hinv Hmem. pose proof Hinv as [Hact Hwa Hwb Hwt HW].
  cbn [two_pass_part OursSamplingBaseline.cs_ar OursSamplingBaseline.cs_as
       OursSamplingBaseline.cs_w_a OursSamplingBaseline.cs_w_b
       OursSamplingBaseline.cs_w_total OursSamplingBaseline.cs_W] in Hact, Hwa, Hwb, Hwt, HW.
  assert (e ∈ sweep_events) as He by (rewrite Hsplit, elem_of_app, elem_of_cons; tauto).
  apply elem_sweep_events in He as (sd & i & Hi & [-> | ->]); fold (n_of sd) in Hi.
  - (* START *)
    destruct (start_id_ok ctx pre _ suf Hctx Hsplit eq_refl) as (sid & Hsid & Hw32 & Hsr).
    destruct (sweep_query_ok pre suf sd i _ _ Hsplit Hi Hact)
      as (wa & wb & HA & HB & Hwa0 & Hwb0 & Hsum).
    destruct (sweep_insert_ok pre suf sd i _ _ Hsplit Hi Hact) as (ar' & as' & Hins & Hact').
    pose proof (new_pairs_bound pre sd i) as Hnb. rewrite <- Hsum in Hnb.
    pose proof (pairs_count_bound pre SideR) as Hpb.
    pose proof (count_start_le sweep_events) as Hcs. rewrite sweep_events_length in Hcs.
    assert (wrap64 (wa + wb) = wa + wb) as Hw64
      by (apply wrap64_small; change (2 ^ 64) with (2 ^ 34 * 2 ^ 30); lia).
    assert (OursAdaptiveBaseline.cs_W st + (wa + wb) < 2 ^ 64) as Hno.
    { change (2 ^ 64) with (2 ^ 4 * 2 ^ 60). change (2 ^ 60) with (2 ^ 30 * 2 ^ 30) in *. lia. }
    unfold OursAdaptiveBaseline.Count_step, OursSamplingBaseline.Count_step.
    cbn [ev_kind start_ev two_pass_part OursSamplingBaseline.cs_ar OursSamplingBaseline.cs_as
         OursSamplingBaseline.cs_w_a OursSamplingBaseline.cs_w_b
         OursSamplingBaseline.cs_w_total OursSamplingBaseline.cs_W].
    change (mkEvent (v0 (lo (box_at (rel_of ds sd) i))) Start sd (id_of (rel_of ds sd) i) i)
      with (start_ev (rel_of ds sd) sd i).
    rewrite Hsid. cbn [lift_opt mbind option_bind outcome_mbind outcome_bind]. rewrite Hw32.
    rewrite (wrap32_small (count_start sweep_events))
      by (change (2 ^ 32) with (4 * 2 ^ 30); lia).
    destruct (Z.leb_spec (count_start sweep_events) sid); [lia |].
    rewrite (query_ranks_ok ctx sd i Hctx Hi).
    cbn [lift_opt mbind option_bind outcome_mbind outcome_bind].
    rewrite HA, HB. cbn [lift_opt mbind option_bind outcome_mbind outcome_bind].
    rewrite Hw64.
    rewrite (vset_is_Some (OursAdaptiveBaseline.cs_w_a st)) by lia.
    rewrite (vset_is_Some (OursAdaptiveBaseline.cs_w_b st)) by lia.
    rewrite (vset_is_Some (OursAdaptiveBaseline.cs_w_total st)) by lia.
    cbn [lift_opt mbind option_bind outcome_mbind outcome_bind].
    rewrite Hins. cbn [mbind option_bind].
    rewrite (wrap64_small (OursAdaptiveBaseline.cs_W st + (wa + wb))) by lia.
    assert (HWnew : (if 0 <? wa + wb
                     then if u64_max - (wa + wb) <? OursAdaptiveBaseline.cs_W st
                          then Fail "OursAdaptiveBaseline::Count: |J| overflowed u64"
                          else Done (OursAdaptiveBaseline.cs_W st + (wa + wb))
                     else Done (OursAdaptiveBaseline.cs_W st))
                    = Done (OursAdaptiveBaseline.cs_W st + (wa + wb))).
    { destruct (Z.ltb_spec 0 (wa + wb)).
      - unfold u64_max.
        destruct (Z.ltb_spec (18446744073709551615 - (wa + wb)) (OursAdaptiveBaseline.cs_W st));
          [| reflexivity].
        change (2 ^ 64) with 18446744073709551616 in Hno. lia.
      - f_equal. lia. }
    rewrite HWnew. cbn [mbind outcome_mbind outcome_bind].
    cbn [OursAdaptiveBaseline.set_weights OursAdaptiveBaseline.cs_mem_full].
    rewrite Hmem, Z.add_0_l, Hw64.
    assert (Hcfc : (0 <? w_small) && (0 <? wa + wb) && (wa + wb <=? w_small)
                   && (wa + wb <=? 0) = false).
    { destruct (Z.ltb_spec 0 (wa + wb)), (Z.leb_spec (wa + wb) 0); try lia;
        rewrite ?andb_false_r; reflexivity. }
    rewrite Hcfc. cbn [andb mbind outcome_mbind outcome_bind].
    cbn [OursAdaptiveBaseline.set_weights OursAdaptiveBaseline.cs_ar
         OursAdaptiveBaseline.cs_as].
    rewrite Hins. cbn [lift_opt mbind outcome_mbind outcome_bind].
    eexists. split; [reflexivity |]. split; reflexivity.
  - (* END *)
    destruct (sweep_erase_ok pre suf sd i _ _ Hsplit Hi Hact) as (ar' & as' & Her & Hact').
    unfold OursAdaptiveBaseline.Count_step, OursSamplingBaseline.Count_step.
    cbn [ev_kind end_ev two_pass_part OursSamplingBaseline.cs_ar OursSamplingBaseline.cs_as
         OursSamplingBaseline.cs_w_a OursSamplingBaseline.cs_w_b
         OursSamplingBaseline.cs_w_total OursSamplingBaseline.cs_W].
    change (mkEvent (v0 (hi (box_at (rel_of ds sd) i))) End sd (id_of (rel_of ds sd) i) i)
      with (end_ev (rel_of ds sd) sd i).
    rewrite Her. cbn [lift_opt mbind option_bind outcome_mbind outcome_bind].
    eexists. split; [reflexivity |]. split; reflexivity.
Qed.

Lemma Adaptive_Count_fold cfg ctx w_small seed0 : ctx_ok ctx -> forall suf pre st,
  sweep_events = pre ++ suf ->
  count_inv pre (two_pass_part st) ->
  OursAdaptiveBaseline.cs_mem_full st = 0 ->
  exists st',
    outfold (OursAdaptiveBaseline.Count_step cfg ctx 0 w_small (count_start sweep_events)
               seed0 false)
      (zip (seqZ (Z.of_nat (length pre)) (Z.of_nat (length suf))) suf) st = Done st'
    /\ ofold (OursSamplingBaseline.Count_step ctx)
         (zip (seqZ (Z.of_nat (length pre)) (Z.of_nat (length suf))) suf) (two_pass_part st)
       = Some (two_pass_part st')
    /\ cache_part st' = cache_part st
    /\ count_inv sweep_events (two_pass_part st').
Proof using Hvalid Hsize.
  intros Hctx. induction suf as [|e suf IH]; intros pre st Hsplit Hinv Hmem.
  - exists st. split; [reflexivity |]. split; [reflexivity |]. split; [reflexivity |].
    rewrite Hsplit, app_nil_r. exact Hinv.
  - cbn [length]. rewrite seqZ_cons_S. cbn [zip zip_with ofold outfold].
    destruct (Adaptive_Count_step_ok cfg ctx w_small seed0 pre e suf st Hctx Hsplit Hinv Hmem)
      as (st1 & -> & HS & Hcache).
    destruct (Count_step_ok ctx pre e suf _ Hctx Hsplit Hinv) as (s1 & Hs1 & Hinv1).
    rewrite HS in Hs1 |- *. injection Hs1 as <-.
    cbn [mbind option_bind outcome_mbind outcome_bind].
    assert (OursAdaptiveBaseline.cs_mem_full st1 = 0) as Hmem1.
    { unfold cache_part in Hcache. injection Hcache as _ _ _ _ _ _ _ Hm. congruence. }
    specialize (IH (pre ++ [e]) st1).
    rewrite length_app in IH. cbn [length] in IH.
    replace (Z.of_nat (length pre + 1)) with (Z.of_nat (length pre) + 1) in IH by lia.
    destruct IH as (st' & Hf & Hfs & Hc' & Hinv'); [| exact Hinv1 | exact Hmem1 |].
    { rewrite <- app_assoc. exact Hsplit. }
    exists st'. split; [exact Hf |]. split; [exact Hfs |]. split; [congruence | exact Hinv'].
Qed.

Lemma zeros_eq {A B} (l1 : list A) (l2 : list B) :
  length l1 = length l2 -> map (fun _ => 0) l1 = map (fun _ => 0) l2.
Proof using Type.
  revert l2. induction l1 as [|a l1 IH]; intros [|b l2] Hl; simpl in *; try discriminate.
  - reflexivity.
  - f_equal. apply IH. lia.
Qed.

(** The state of the adaptive driver between calls. *)
Record adaptive_ok (b : OursAdaptiveBaseline.t) : Prop := mk_adaptive_ok {
  ak_built : OursAdaptiveBaseline.built_ b = true;
  ak_ctx : ctx_ok (OursAdaptiveBaseline.ctx_ b);
  ak_wt : Z.of_nat (length (OursAdaptiveBaseline.w_total_ b)) = count_start sweep_events;
  ak_wa : Z.of_nat (length (OursAdaptiveBaseline.w_a_ b)) = count_start sweep_events;
  ak_wb : Z.of_nat (length (OursAdaptiveBaseline.w_b_ b)) = count_start sweep_events
}.

(** Without a budget the adaptive count is the count of the two-pass driver:
    the same value, the same weights, nothing cached, nothing prefetched,
    and the generator is not advanced. *)
Lemma Adaptive_Count_ok b bS cfg g :
  adaptive_ok b -> sampling_ok bS ->
  OursAdaptiveBaseline.ctx_ b = OursSamplingBaseline.ctx_ bS ->
  ExtraU64Or cfg "budget" (run_j_star cfg) = 0 ->
  exists b' bS',
    OursAdaptiveBaseline.Count b cfg g
    = Done (MakeExactCount (CountNaive (R ds) (S ds)), b', g)
    /\ OursSamplingBaseline.Count bS cfg
       = Done (MakeExactCount (CountNaive (R ds) (S ds)), bS')
    /\ OursAdaptiveBaseline.W_ b' = CountNaive (R ds) (S ds)
    /\ OursSamplingBaseline.W_ bS' = CountNaive (R ds) (S ds)
    /\ OursAdaptiveBaseline.w_total_ b' = OursSamplingBaseline.w_total_ bS'
    /\ OursAdaptiveBaseline.w_a_ b' = OursSamplingBaseline.w_a_ bS'
    /\ OursAdaptiveBaseline.w_b_ b' = OursSamplingBaseline.w_b_ bS'
    /\ OursAdaptiveBaseline.cache_partners_ b' = []
    /\ OursAdaptiveBaseline.budget_used_ b' = 0
    /\ OursAdaptiveBaseline.cached_ b' = map (fun _ => 0) (OursAdaptiveBaseline.cached_ b)
    /\ OursAdaptiveBaseline.prefetch_partners_ b'
       = map (fun _ => []) (OursAdaptiveBaseline.prefetch_partners_ b).
Proof using Hvalid Hsize.
  intros [Hb Hctx Hwt Hwa Hwb] [HbS HctxS HwtS HwaS HwbS] Hceq Hbud.
  unfold OursAdaptiveBaseline.Count, OursSamplingBaseline.Count.
  rewrite Hb, HbS, <- Hceq, (co_built _ Hctx), (co_ds _ Hctx). cbn [negb orb].
  rewrite bool_decide_eq_true_2 by (eexists; reflexivity). cbn [negb].
  rewrite Hbud, Hwt. cbn [Z.ltb Z.compare andb].
  pose proof (ctx_ok_ResetActive' _ Hctx) as Hctx'.
  set (ctx' := Ours2DContext.ResetActive (OursAdaptiveBaseline.ctx_ b)) in *.
  rewrite (co_events _ Hctx'). unfold with_pos, upto.
  rewrite (zeros_eq (OursSamplingBaseline.w_a_ bS) (OursAdaptiveBaseline.w_a_ b)) by lia.
  rewrite (zeros_eq (OursSamplingBaseline.w_b_ bS) (OursAdaptiveBaseline.w_b_ b)) by lia.
  rewrite (zeros_eq (OursSamplingBaseline.w_total_ bS) (OursAdaptiveBaseline.w_total_ b)) by lia.
  match goal with
  | |- context [outfold _ _ ?s0] =>
      destruct (Adaptive_Count_fold cfg ctx' (ExtraU64Or cfg "w_small" 0) 0 Hctx'
                  sweep_events [] s0) as (st' & Hf & Hfs & Hcache & Hinv)
  end.
  - reflexivity.
  - constructor; cbn [two_pass_part OursAdaptiveBaseline.cs_ar OursAdaptiveBaseline.cs_as
        OursAdaptiveBaseline.cs_w_a OursAdaptiveBaseline.cs_w_b
        OursAdaptiveBaseline.cs_w_total OursAdaptiveBaseline.cs_W
        OursSamplingBaseline.cs_ar OursSamplingBaseline.cs_as
        OursSamplingBaseline.cs_w_a OursSamplingBaseline.cs_w_b
        OursSamplingBaseline.cs_w_total OursSamplingBaseline.cs_W];
      rewrite ?length_map; try assumption.
    + apply actives_ok_nil. exact Hctx.
    + symmetry. apply pairs_count_nil.
  - reflexivity.
  - cbn [length] in Hf, Hfs. change (Z.of_nat 0) with 0 in Hf, Hfs.
    rewrite Hf. unfold two_pass_part at 1 in Hfs.
    cbn [OursAdaptiveBaseline.cs_ar OursAdaptiveBaseline.cs_as
        OursAdaptiveBaseline.cs_w_a OursAdaptiveBaseline.cs_w_b
        OursAdaptiveBaseline.cs_w_total OursAdaptiveBaseline.cs_W] in Hfs.
    rewrite Hfs. cbn [lift_opt mbind outcome_mbind outcome_bind].
    destruct Hinv as [_ _ _ _ HW]. rewrite pairs_count_all in HW.
    cbn [two_pass_part OursSamplingBaseline.cs_W OursSamplingBaseline.cs_w_a
         OursSamplingBaseline.cs_w_b OursSamplingBaseline.cs_w_total] in HW |- *.
    rewrite HW.
    unfold cache_part in Hcache.
    cbn [OursAdaptiveBaseline.cs_cached OursAdaptiveBaseline.cs_cache_off
         OursAdaptiveBaseline.cs_cache_len OursAdaptiveBaseline.cs_cache_partners
         OursAdaptiveBaseline.cs_prefetch_keep OursAdaptiveBaseline.cs_prefetch_partners
         OursAdaptiveBaseline.cs_heap OursAdaptiveBaseline.cs_mem_full] in Hcache.
    injection Hcache as Hc1 Hc2 Hc3 Hc4 Hc5 Hc6 Hc7 Hc8.
    eexists _, _. split; [reflexivity |]. split; [reflexivity |].
    cbn [OursAdaptiveBaseline.W_ OursAdaptiveBaseline.w_total_ OursAdaptiveBaseline.w_a_
         OursAdaptiveBaseline.w_b_ OursAdaptiveBaseline.cache_partners_
         OursAdaptiveBaseline.budget_used_ OursAdaptiveBaseline.cached_
         OursAdaptiveBaseline.prefetch_partners_ OursSamplingBaseline.W_
         OursSamplingBaseline.w_total_ OursSamplingBaseline.w_a_ OursSamplingBaseline.w_b_].
    rewrite Hc1, Hc4, Hc6, Hc7, Hc8. repeat split; reflexivity.
Qed.

End AdaptiveFloats.

End Built.

(** * Concrete inputs *)

Definition bx (a b c d : Z) : Box := mkBox (mkPoint a b) (mkPoint c d).

(** Three rectangles per relation; four pairs intersect. *)
Definition ds_small : Dataset :=
  mkDataset true
    (mkRelation [bx 0 0 10 10; bx 5 5 15 15; bx 20 20 30 30] [])
    (mkRelation [bx 2 2 8 8; bx 10 10 25 25; bx 30 0 40 10] []).

Definition ctx_clear : Ours2DContext.t :=
  Ours2DContext.mk None false [] [] [] [] [] [] [] []
    ActiveIndex2D.Clear ActiveIndex2D.Clear.

Definition sampling_fresh : OursSamplingBaseline.t :=
  OursSamplingBaseline.mk false ctx_clear [] [] [] 0 false.

Definition cfg_t8 : Config := mkConfig 8 0 (fun _ => None).

Definition done_or {A} (d : A) (o : outcome A) : A :=
  match o with Done a => a | _ => d end.

Definition sampling_built : OursSamplingBaseline.t :=
  done_or sampling_fresh (OursSamplingBaseline.Build sampling_fresh ds_small cfg_t8).

(** * The exact count of the two-pass driver *)

(** C1: on a validated dataset (proper half-open rectangles) of at most 2^30
    rectangles, [Count] of the two-pass driver succeeds after [Build] and the
    value it returns is the count of the brute-force oracle [CountNaive];
    the generator handed to [Count] is returned untouched, so the value is
    the same for every seed. *)
Theorem count_equals_oracle `{FloatOps} (ds : Dataset) (b0 b : OursSamplingBaseline.t)
    (cfg0 cfg : Config) (g : Rng) :
  DatasetOps.Validate true ds = true ->
  RelationOps.Size (R ds) + RelationOps.Size (S ds) <= 2 ^ 30 ->
  OursSamplingBaseline.Build b0 ds cfg0 = Done b ->
  exists b',
    Count b cfg g = Done (MakeExactCount (CountNaive (R ds) (S ds)), b', g)
    /\ value (MakeExactCount (CountNaive (R ds) (S ds))) = f_of_Z (CountNaive (R ds) (S ds)).
Proof.
  intros Hv Hs Hb.
  destruct (Sampling_Build_cases ds Hv Hs b0 cfg0) as [[_ Hf] | [_ (b1 & Hb1 & Hok & _)]].
  - rewrite Hf in Hb. discriminate.
  - rewrite Hb1 in Hb. injection Hb as <-.
    destruct (Sampling_Count_ok ds Hv Hs b1 cfg Hok) as (b' & Hc & _).
    exists b'. split; [| reflexivity].
    cbn [Count OursSampling_IBaseline]. rewrite Hc. reflexivity.
Qed.

Lemma count_equals_oracle_witness :
  exists b',
    Count sampling_built cfg_t8 (RngOps.Seed 42)
    = Done (MakeExactCount (H:=QFloat) 4, b', RngOps.Seed 42).
Proof.
  destruct (count_equals_oracle (H:=QFloat) ds_small sampling_fresh sampling_built
              cfg_t8 cfg_t8 (RngOps.Seed 42)) as (b' & Hc & _).
  - reflexivity.
  - vm_compute. discriminate.
  - vm_compute. reflexivity.
  - exists b'. exact Hc.
Defined.

(** * Half-open boundaries *)

Lemma IsProper_lt b :
  BoxOps.IsProper b = true <-> v0 (lo b) < v0 (hi b) /\ v1 (lo b) < v1 (hi b).
Proof.
  unfold BoxOps.IsProper, BoxOps.IsEmpty. cbn [existsb axes coord].
  destruct (Z.ltb_spec (v0 (lo b)) (v0 (hi b))), (Z.ltb_spec (v1 (lo b)) (v1 (hi b)));
    cbn; split; try discriminate; try reflexivity; lia.
Qed.

Lemma Validate_single (r s : Box) :
  BoxOps.IsProper r = true -> BoxOps.IsProper s = true ->
  DatasetOps.Validate true (mkDataset true (mkRelation [r] []) (mkRelation [s] [])) = true.
Proof.
  intros Hr Hs.
  assert (Hv : forall b, BoxOps.IsProper b = true ->
            BoxOps.IsValid b && negb (true && BoxOps.IsEmpty b) = true).
  { intros b Hb. pose proof (proj1 (IsProper_lt b) Hb) as [H0 H1].
    unfold BoxOps.IsProper in Hb. apply negb_true_iff in Hb. rewrite Hb.
    unfold BoxOps.IsValid. cbn [forallb axes coord].
    destruct (Z.ltb_spec (v0 (hi b)) (v0 (lo b))); [lia |].
    destruct (Z.ltb_spec (v1 (hi b)) (v1 (lo b))); [lia |]. reflexivity. }
  unfold DatasetOps.Validate, RelationOps.Validate. cbn [half_open R S boxes ids forallb].
  rewrite (Hv r Hr), (Hv s Hs). reflexivity.
Qed.

Definition ds_touching : Dataset :=
  mkDataset true (mkRelation [bx 0 0 1 1] []) (mkRelation [bx 1 0 2 1] []).

Definition touching_built : OursSamplingBaseline.t :=
  done_or sampling_fresh (OursSamplingBaseline.Build sampling_fresh ds_touching cfg_t8).

(** C5: two proper rectangles intersect exactly when, on each of the two
    axes, the low end of each lies strictly below the high end of the
    other; a rectangle that ends on an axis where another starts does not
    intersect it, in either order, and for a dataset that holds only such a
    pair [Count] returns 0. *)
Theorem touching_is_not_intersecting `{FloatOps} :
  (forall a b, BoxOps.IsProper a = true -> BoxOps.IsProper b = true ->
     (IntersectsHalfOpen a b = true <->
      forall axis, (axis < 2)%nat ->
        coord (lo a) axis < coord (hi b) axis /\ coord (lo b) axis < coord (hi a) axis))
  /\ (forall a b axis, (axis < 2)%nat -> coord (hi a) axis = coord (lo b) axis ->
        IntersectsHalfOpen a b = false /\ IntersectsHalfOpen b a = false)
  /\ (forall r s axis b0 cfg0 b cfg g,
        BoxOps.IsProper r = true -> BoxOps.IsProper s = true ->
        (axis < 2)%nat ->
        coord (hi r) axis = coord (lo s) axis \/ coord (hi s) axis = coord (lo r) axis ->
        OursSamplingBaseline.Build b0
          (mkDataset true (mkRelation [r] []) (mkRelation [s] [])) cfg0 = Done b ->
        exists b', Count b cfg g = Done (MakeExactCount 0, b', g)).
Proof.
  assert (Htouch : forall a b axis, (axis < 2)%nat ->
            coord (hi a) axis = coord (lo b) axis ->
            IntersectsHalfOpen a b = false /\ IntersectsHalfOpen b a = false).
  { intros a b axis Hax Heq.
    assert (BoxOps.Intersects a b = false) as Hab.
    { unfold BoxOps.Intersects. destruct (BoxOps.IsEmpty a || BoxOps.IsEmpty b); [reflexivity |].
      cbn [forallb axes].
      destruct axis as [|[|axis]]; [| | lia]; cbn [coord] in *.
      - destruct (Z.ltb_spec (v0 (lo b)) (v0 (hi a))); [lia |].
        rewrite andb_false_r. reflexivity.
      - destruct (Z.ltb_spec (v1 (lo b)) (v1 (hi a))); [lia |].
        rewrite !andb_false_r. reflexivity. }
    unfold IntersectsHalfOpen. split; [exact Hab |]. rewrite Intersects_sym. exact Hab. }
  split; [| split].
  - intros a b Ha Hb. apply IsProper_lt in Ha as [Ha0 Ha1]. apply IsProper_lt in Hb as [Hb0 Hb1].
    unfold IntersectsHalfOpen. rewrite (Intersects_proper a b Ha0 Ha1 Hb0 Hb1).
    rewrite !andb_true_iff, !Z.ltb_lt. split.
    + intros [[H1 H2] [H3 H4]] [|[|axis]] Hax; cbn [coord]; lia.
    + intros Hall. pose proof (Hall 0%nat ltac:(lia)) as H0.
      pose proof (Hall 1%nat ltac:(lia)) as H1. cbn [coord] in *. lia.
  - exact Htouch.
  - intros r s axis b0 cfg0 b cfg g Hr Hs Hax Heq Hb.
    set (ds := mkDataset true (mkRelation [r] []) (mkRelation [s] [])) in *.
    assert (CountNaive (R ds) (S ds) = 0) as H0.
    { unfold CountNaive. cbn [ds R S boxes fold_left].
      destruct Heq as [Heq | Heq].
      - rewrite (proj1 (Htouch r s axis Hax Heq)). reflexivity.
      - rewrite (proj2 (Htouch s r axis Hax Heq)). reflexivity. }
    assert (RelationOps.Size (R ds) + RelationOps.Size (S ds) <= 2 ^ 30) as Hsz
      by (unfold ds, RelationOps.Size; cbn; lia).
    destruct (Sampling_Build_cases ds (Validate_single r s Hr Hs) Hsz b0 cfg0)
      as [[_ Hf] | [_ (b1 & Hb1 & Hok & _)]].
    + rewrite Hf in Hb. discriminate.
    + rewrite Hb1 in Hb. injection Hb as <-.
      destruct (Sampling_Count_ok ds (Validate_single r s Hr Hs) Hsz b1 cfg Hok)
        as (b' & Hc & _).
      exists b'. cbn [Count OursSampling_IBaseline]. rewrite Hc, H0. reflexivity.
Qed.

Lemma touching_is_not_intersecting_witness :
  exists b',
    Count touching_built cfg_t8 (RngOps.Seed 7)
    = Done (MakeExactCount (H:=QFloat) 0, b', RngOps.Seed 7).
Proof.
  apply (proj2 (proj2 (touching_is_not_intersecting (H:=QFloat)))
           (bx 0 0 1 1) (bx 1 0 2 1) 0%nat sampling_fresh cfg_t8).
  - reflexivity.
  - reflexivity.
  - lia.
  - left. reflexivity.
  - vm_compute. reflexivity.
Defined.

(** * Build *)

Definition ds_empty : Dataset := mkDataset true (mkRelation [] []) (mkRelation [] []).

(** A dataset without rectangles passes validation, and [Build] fails on it. *)
Lemma build_fails_on_empty_dataset :
  DatasetOps.Validate true ds_empty = true
  /\ RelationOps.Size (R ds_empty) + RelationOps.Size (S ds_empty) <= u32_max
  /\ Ours2DContext.Build ctx_clear ds_empty = Fail "Ours2DContext: empty y-domain"
  /\ OursSamplingBaseline.Build sampling_fresh ds_empty cfg_t8
     = Fail "Ours2DContext: empty y-domain".
Proof. repeat split; vm_compute; congruence. Qed.

(** C7: [Build] succeeds on every validated dataset that holds at least one
    and at most 2^30 rectangles, whatever the context held before; on a
    validated dataset without rectangles it fails with the message of the
    empty y-domain. *)
Theorem build_succeeds_on_nonempty (ds : Dataset) (c : Ours2DContext.t)
    (b0 : OursSamplingBaseline.t) (cfg : Config) :
  DatasetOps.Validate true ds = true ->
  RelationOps.Size (R ds) + RelationOps.Size (S ds) <= 2 ^ 30 ->
  (1 <= RelationOps.Size (R ds) + RelationOps.Size (S ds) ->
     (exists ctx, Ours2DContext.Build c ds = Done ctx
                  /\ Ours2DContext.built_ ctx = true
                  /\ Ours2DContext.ds_ ctx = Some ds)
     /\ (exists b, OursSamplingBaseline.Build b0 ds cfg = Done b
                   /\ OursSamplingBaseline.built_ b = true))
  /\ (RelationOps.Size (R ds) + RelationOps.Size (S ds) = 0 ->
        Ours2DContext.Build c ds = Fail "Ours2DContext: empty y-domain").
Proof.
  intros Hv Hs. split.
  - intros Hn. split.
    + destruct (Build_cases ds Hv Hs c) as [[Hz _] | [_ (ctx & Hb & Hok)]]; [lia |].
      exists ctx. split; [exact Hb |]. split.
      * apply (co_built ds _ Hok).
      * apply (co_ds ds _ Hok).
    + destruct (Sampling_Build_cases ds Hv Hs b0 cfg) as [[Hz _] | [_ (b & Hb & Hok & _)]];
        [lia |].
      exists b. split; [exact Hb |]. apply (sk_built ds _ Hok).
  - intros Hz. destruct (Build_cases ds Hv Hs c) as [[_ Hf] | [Hn _]]; [exact Hf | lia].
Qed.

Lemma build_succeeds_on_nonempty_witness :
  exists ctx, Ours2DContext.Build ctx_clear ds_small = Done ctx
              /\ Ours2DContext.built_ ctx = true
              /\ Ours2DContext.ds_ ctx = Some ds_small.
Proof.
  refine (proj1 (proj1 (build_succeeds_on_nonempty ds_small ctx_clear sampling_fresh cfg_t8
                         _ _) _)).
  - reflexivity.
  - vm_compute. discriminate.
  - vm_compute. discriminate.
Defined.

(** * Degenerate sampling requests *)

Lemma Ctx_Build_inv c ds ctx :
  Ours2DContext.Build c ds = Done ctx ->
  Ours2DContext.built_ ctx = true /\ Ours2DContext.ds_ ctx = Some ds.
Proof.
  unfold Ours2DContext.Build.
  destruct (_ || _); [discriminate |].
  destruct (BuildSweepEvents ds 0 RBeforeS) as [evs|]; [| discriminate].
  cbn [lift_opt mbind outcome_mbind outcome_bind].
  destruct (Ours2DContext.start_ids evs 0 []) as [sids sep].
  destruct (Nat.eqb _ 0); [discriminate |].
  destruct (ActiveIndex2D.Init (wrap32 (RelationOps.Size (R ds))) _) as [ar|];
    cbn [lift_opt mbind outcome_mbind outcome_bind]; [| discriminate].
  destruct (ActiveIndex2D.Init (wrap32 (RelationOps.Size (S ds))) _) as [as_|];
    cbn [lift_opt mbind outcome_mbind outcome_bind]; [| discriminate].
  intros [= <-]. split; reflexivity.
Qed.

Lemma Sampling_Build_inv b0 ds cfg b :
  OursSamplingBaseline.Build b0 ds cfg = Done b ->
  OursSamplingBaseline.built_ b = true
  /\ Ours2DContext.built_ (OursSamplingBaseline.ctx_ b) = true
  /\ Ours2DContext.ds_ (OursSamplingBaseline.ctx_ b) = Some ds.
Proof.
  unfold OursSamplingBaseline.Build.
  destruct (Ours2DContext.Build _ ds) as [ctx| |] eqn:Hc; try discriminate.
  cbn [mbind outcome_mbind outcome_bind]. intros [= <-].
  destruct (Ctx_Build_inv _ _ _ Hc) as [H1 H2].
  cbn. split; [reflexivity | split; assumption].
Qed.

Definition cfg_t0 : Config := mkConfig 0 0 (fun _ => None).

(** C8: after [Build], whatever the dataset, [Sample] with [t = 0] returns
    the empty sample set and leaves the driver and the generator as they
    were; on a validated dataset of at most 2^30 rectangles whose join is
    empty, [Count] returns 0 and [Sample] with [0 < t] returns the empty
    sample set as well; both happen on the dataset of one touching pair. *)
Theorem degenerate_requests_succeed `{FloatOps} :
  (forall ds b0 cfg0 b cfg g,
     OursSamplingBaseline.Build b0 ds cfg0 = Done b -> run_t cfg = 0 ->
     Sample b cfg g = Done (mkSampleSet [] 0 false true, b, g))
  /\ (forall ds b0 cfg0 b cfg g,
        DatasetOps.Validate true ds = true ->
        RelationOps.Size (R ds) + RelationOps.Size (S ds) <= 2 ^ 30 ->
        OursSamplingBaseline.Build b0 ds cfg0 = Done b ->
        CountNaive (R ds) (S ds) = 0 ->
        0 < run_t cfg <= u32_max ->
        (exists b', Count b cfg g = Done (MakeExactCount 0, b', g))
        /\ (exists b', Sample b cfg g = Done (mkSampleSet [] 0 false true, b', g)))
  /\ (exists b', Sample touching_built cfg_t0 (RngOps.Seed 7)
                 = Done (mkSampleSet [] 0 false true, b', RngOps.Seed 7))
  /\ (exists b', Sample touching_built cfg_t8 (RngOps.Seed 7)
                 = Done (mkSampleSet [] 0 false true, b', RngOps.Seed 7)).
Proof.
  assert (Hzero : forall ds b0 cfg0 b cfg g,
            OursSamplingBaseline.Build b0 ds cfg0 = Done b -> run_t cfg = 0 ->
            Sample b cfg g = Done (mkSampleSet [] 0 false true, b, g)).
  { intros ds b0 cfg0 b cfg g Hb Ht.
    destruct (Sampling_Build_inv _ _ _ _ Hb) as (H1 & H2 & H3).
    cbn [Sample OursSampling_IBaseline]. unfold OursSamplingBaseline.Sample.
    rewrite H3, H1, H2, Ht. reflexivity. }
  assert (Hempty : forall ds b0 cfg0 b cfg g,
            DatasetOps.Validate true ds = true ->
            RelationOps.Size (R ds) + RelationOps.Size (S ds) <= 2 ^ 30 ->
            OursSamplingBaseline.Build b0 ds cfg0 = Done b ->
            CountNaive (R ds) (S ds) = 0 ->
            0 < run_t cfg <= u32_max ->
            (exists b', Count b cfg g = Done (MakeExactCount 0, b', g))
            /\ (exists b', Sample b cfg g = Done (mkSampleSet [] 0 false true, b', g))).
  { intros ds b0 cfg0 b cfg g Hv Hs Hb H0 Ht.
    destruct (Sampling_Build_inv _ _ _ _ Hb) as (H1 & H2 & H3).
    destruct (Sampling_Build_cases ds Hv Hs b0 cfg0) as [[_ Hf] | [_ (b1 & Hb1 & Hok & Hwv)]].
    { rewrite Hf in Hb. discriminate. }
    rewrite Hb1 in Hb. injection Hb as <-.
    destruct (Sampling_Count_ok ds Hv Hs b1 cfg Hok) as (b' & Hc & Hok' & HW & _).
    rewrite H0 in Hc, HW. split.
    - exists b'. cbn [Count OursSampling_IBaseline]. rewrite Hc. reflexivity.
    - exists b'. cbn [Sample OursSampling_IBaseline]. unfold OursSamplingBaseline.Sample.
      rewrite H3, H1, H2. cbn [negb orb].
      destruct (Z.ltb_spec u32_max (run_t cfg)); [lia |].
      rewrite wrap32_small by (unfold u32_max in *; lia).
      destruct (Z.eqb_spec (run_t cfg) 0); [lia |].
      rewrite Hwv, Hc. cbn [mbind outcome_mbind outcome_bind].
      rewrite HW. reflexivity. }
  split; [exact Hzero |]. split; [exact Hempty |]. split.
  - exists touching_built. apply (Hzero ds_touching sampling_fresh cfg_t8);
      [vm_compute; reflexivity | reflexivity].
  - apply (Hempty ds_touching sampling_fresh cfg_t8 touching_built cfg_t8).
    + reflexivity.
    + vm_compute. discriminate.
    + vm_compute. reflexivity.
    + reflexivity.
    + vm_compute. split; [reflexivity | discriminate].
Qed.

(** * The runner protocol *)

(** What a run reports, without the object it leaves behind. *)
Definition run_report `{FloatOps} {B} (o : outcome (RunReport * B)) : outcome RunReport :=
  match o with Done (r, _) => Done r | Fail e => Fail e | Undef => Undef end.

(** The pairs and the count of a run. *)
Definition run_output `{FloatOps} {B} (o : outcome (RunReport * B))
    : outcome (list PairId * CountResult) :=
  match o with
  | Done (r, _) => Done (pairs (rr_samples r), rr_count r)
  | Fail e => Fail e
  | Undef => Undef
  end.

Lemma run_protocol_seeds `{FloatOps} {B} `{IBaseline B} (b : B) ds cfg seed seed' :
  DeriveSeed seed 1 = DeriveSeed seed' 1 ->
  DeriveSeed seed 2 = DeriveSeed seed' 2 ->
  run_output (run_protocol b ds cfg seed) = run_output (run_protocol b ds cfg seed').
Proof.
  intros Hs1 Hs2. unfold run_protocol. rewrite Hs1, Hs2.
  destruct (Build (Reset b) ds cfg) as [b1| |]; try reflexivity.
  cbn [mbind outcome_mbind outcome_bind].
  destruct (Count b1 cfg _) as [[[c b2] g2]| |]; try reflexivity.
  cbn [mbind outcome_mbind outcome_bind].
  destruct (Sample b2 cfg _) as [[[s b3] g3]| |]; try reflexivity.
  cbn [mbind outcome_mbind outcome_bind].
  destruct (SampleSetOps.Validate s) as [u| |]; reflexivity.
Qed.

(** * The adaptive driver without a budget *)

Lemma Sampling_Build_ctx ds b0 cfg b :
  DatasetOps.Validate true ds = true ->
  RelationOps.Size (R ds) + RelationOps.Size (S ds) <= 2 ^ 30 ->
  OursSamplingBaseline.Build b0 ds cfg = Done b ->
  sampling_ok ds b
  /\ forall c, Ours2DContext.Build (Ours2DContext.Reset c) ds
               = Done (OursSamplingBaseline.ctx_ b).
Proof.
  intros Hv Hs Hb.
  destruct (Sampling_Build_cases ds Hv Hs b0 cfg) as [[_ Hf] | [_ (b1 & Hb1 & Hok & _)]].
  { rewrite Hf in Hb. discriminate. }
  rewrite Hb1 in Hb. injection Hb as <-. split; [exact Hok |].
  intros c. unfold OursSamplingBaseline.Build in Hb1.
  cbn [OursSamplingBaseline.Reset OursSamplingBaseline.ctx_] in Hb1.
  change (Ours2DContext.Reset c) with (Ours2DContext.Reset (OursSamplingBaseline.ctx_ b0)).
  destruct (Ours2DContext.Build _ ds) as [ctx| |]; try discriminate.
  cbn [mbind outcome_mbind outcome_bind] in Hb1. injection Hb1 as <-. reflexivity.
Qed.

Lemma Adaptive_Build_ctx `{FloatOps} ds a0 cfg b :
  DatasetOps.Validate true ds = true ->
  RelationOps.Size (R ds) + RelationOps.Size (S ds) <= 2 ^ 30 ->
  OursAdaptiveBaseline.Build a0 ds cfg = Done b ->
  adaptive_ok ds b
  /\ (forall c, Ours2DContext.Build (Ours2DContext.Reset c) ds
                = Done (OursAdaptiveBaseline.ctx_ b))
  /\ OursAdaptiveBaseline.cache_partners_ b = []
  /\ OursAdaptiveBaseline.weights_valid_ b = false.
Proof.
  intros Hv Hs Hb. unfold OursAdaptiveBaseline.Build in Hb.
  cbn [OursAdaptiveBaseline.Reset OursAdaptiveBaseline.ctx_] in Hb.
  destruct (Build_cases ds Hv Hs (Ours2DContext.Reset (OursAdaptiveBaseline.ctx_ a0)))
    as [[_ Hf] | [_ (ctx & Hc & Hctx)]].
  { rewrite Hf in Hb. discriminate. }
  rewrite Hc in Hb. cbn [mbind outcome_mbind outcome_bind] in Hb.
  destruct (ofold _ _ _) as [[ss si]|]; [| discriminate].
  cbn [lift_opt mbind outcome_mbind outcome_bind] in Hb. injection Hb as <-.
  pose proof (num_start_events_ok ds ctx Hctx) as Hnum.
  pose proof (count_start_le (sweep_events ds)) as Hle.
  split; [| split; [| split; reflexivity]].
  - constructor; cbn; try assumption; try reflexivity;
      rewrite length_replicate, Hnum; lia.
  - intros c. cbn. exact Hc.
Qed.

Definition adaptive_fresh `{FloatOps} : OursAdaptiveBaseline.t :=
  OursAdaptiveBaseline.mk false ctx_clear [] [] [] [] [] 0 false [] [] [] [] [] [] false 0 0 0.

Definition adaptive_built `{FloatOps} : OursAdaptiveBaseline.t :=
  done_or adaptive_fresh (OursAdaptiveBaseline.Build adaptive_fresh ds_small cfg_t8).

Definition pairs_of `{FloatOps} {B} (o : outcome (RunReport * B)) : option (list (Z * Z)) :=
  match o with
  | Done (r, _) => Some (map (fun p => (pr p, ps p)) (pairs (rr_samples r)))
  | _ => None
  end.

(** With budget 0, seed 42 and [t = 8] the two drivers return different
    vectors of pairs on the dataset [ds_small]. *)
Lemma adaptive_budget_zero_pairs_differ :
  ExtraU64Or cfg_t8 "budget" (run_j_star cfg_t8) = 0
  /\ pairs_of (RunSamplingOnce (H:=QFloat) sampling_fresh ds_small cfg_t8 42)
     = Some [(0, 0); (1, 0); (1, 1); (0, 0); (1, 1); (1, 1); (2, 1); (2, 1)]
  /\ pairs_of (RunAdaptiveOnce (H:=QFloat) adaptive_fresh ds_small cfg_t8 42)
     = Some [(1, 0); (1, 1); (1, 1); (1, 0); (0, 0); (1, 0); (2, 1); (0, 0)]
  /\ pairs_of (RunSamplingOnce (H:=QFloat) sampling_fresh ds_small cfg_t8 42)
     <> pairs_of (RunAdaptiveOnce (H:=QFloat) adaptive_fresh ds_small cfg_t8 42).
Proof.
  split; [reflexivity |]. split; [vm_compute; reflexivity |].
  split; [vm_compute; reflexivity |]. vm_compute. discriminate.
Qed.

(** C3: without a budget the first pass of the adaptive driver coincides
    with the first pass of the two-pass driver on a validated dataset of at
    most 2^30 rectangles: both return the oracle's count, the weight vectors
    are equal, nothing is cached or prefetched, no budget is used and the
    generator is returned untouched.  (Nothing is claimed about the pairs
    drawn by the second pass.) *)
Theorem adaptive_budget_zero_count `{FloatOps} (ds : Dataset)
    (bS0 bS : OursSamplingBaseline.t) (bA0 bA : OursAdaptiveBaseline.t)
    (cfgS cfgA cfg : Config) (g : Rng) :
  DatasetOps.Validate true ds = true ->
  RelationOps.Size (R ds) + RelationOps.Size (S ds) <= 2 ^ 30 ->
  OursSamplingBaseline.Build bS0 ds cfgS = Done bS ->
  OursAdaptiveBaseline.Build bA0 ds cfgA = Done bA ->
  ExtraU64Or cfg "budget" (run_j_star cfg) = 0 ->
  exists bA' bS',
    OursAdaptiveBaseline.Count bA cfg g
    = Done (MakeExactCount (CountNaive (R ds) (S ds)), bA', g)
    /\ OursSamplingBaseline.Count bS cfg
       = Done (MakeExactCount (CountNaive (R ds) (S ds)), bS')
    /\ OursAdaptiveBaseline.W_ bA' = OursSamplingBaseline.W_ bS'
    /\ OursAdaptiveBaseline.w_total_ bA' = OursSamplingBaseline.w_total_ bS'
    /\ OursAdaptiveBaseline.w_a_ bA' = OursSamplingBaseline.w_a_ bS'
    /\ OursAdaptiveBaseline.w_b_ bA' = OursSamplingBaseline.w_b_ bS'
    /\ OursAdaptiveBaseline.cache_partners_ bA' = []
    /\ OursAdaptiveBaseline.budget_used_ bA' = 0
    /\ (forall x, x ∈ OursAdaptiveBaseline.cached_ bA' -> x = 0)
    /\ (forall p, p ∈ OursAdaptiveBaseline.prefetch_partners_ bA' -> p = []).
Proof.
  intros Hv Hs HbS HbA Hbud.
  destruct (Sampling_Build_ctx ds bS0 cfgS bS Hv Hs HbS) as [HokS HcS].
  destruct (Adaptive_Build_ctx ds bA0 cfgA bA Hv Hs HbA) as (HokA & HcA & _).
  assert (OursAdaptiveBaseline.ctx_ bA = OursSamplingBaseline.ctx_ bS) as Hceq.
  { specialize (HcS ctx_clear). specialize (HcA ctx_clear). congruence. }
  destruct (Adaptive_Count_ok ds Hv Hs bA bS cfg g HokA HokS Hceq Hbud)
    as (bA' & bS' & H1 & H2 & H3 & H3' & H4 & H5 & H6 & H7 & H8 & H9 & H10).
  exists bA', bS'. repeat split; try assumption.
  - congruence.
  - intros x Hx. rewrite H9 in Hx. apply list_elem_of_fmap in Hx as (? & -> & _). reflexivity.
  - intros p Hp. rewrite H10 in Hp. apply list_elem_of_fmap in Hp as (? & -> & _). reflexivity.
Qed.

Lemma adaptive_budget_zero_count_witness :
  exists bA' bS',
    OursAdaptiveBaseline.Count (H:=QFloat) adaptive_built cfg_t8 (RngOps.Seed 42)
    = Done (MakeExactCount 4, bA', RngOps.Seed 42)
    /\ OursSamplingBaseline.Count sampling_built cfg_t8 = Done (MakeExactCount 4, bS')
    /\ OursAdaptiveBaseline.w_total_ bA' = OursSamplingBaseline.w_total_ bS'
    /\ OursAdaptiveBaseline.cache_partners_ bA' = [].
Proof.
  destruct (adaptive_budget_zero_count (H:=QFloat) ds_small sampling_fresh sampling_built
              adaptive_fresh adaptive_built cfg_t8 cfg_t8 cfg_t8 (RngOps.Seed 42))
    as (bA' & bS' & H1 & H2 & _ & H4 & _ & _ & H7 & _).
  - reflexivity.
  - vm_compute. discriminate.
  - vm_compute. reflexivity.
  - vm_compute. reflexivity.
  - reflexivity.
  - exists bA', bS'. repeat split; assumption.
Defined.

(** * The running total of the first pass *)

Section Overflow.
Context `{FloatOps}.

Lemma full_cache_W budget_B other q_ylo q_yhi w sid st st' :
  OursAdaptiveBaseline.full_cache budget_B other q_ylo q_yhi w sid st = Done st' ->
  OursAdaptiveBaseline.cs_W st' = OursAdaptiveBaseline.cs_W st.
Proof.
  unfold OursAdaptiveBaseline.full_cache.
  destruct (vset (OursAdaptiveBaseline.cs_cached st) sid 1) as [c1|];
    cbn [lift_opt mbind outcome_mbind outcome_bind]; [| discriminate].
  destruct (vset (OursAdaptiveBaseline.cs_cache_off st) sid _) as [c2|];
    cbn [lift_opt mbind outcome_mbind outcome_bind]; [| discriminate].
  destruct (ActiveIndex2D.ReportA other q_ylo []) as [t1|];
    cbn [lift_opt mbind outcome_mbind outcome_bind]; [| discriminate].
  destruct (ActiveIndex2D.ReportB other q_ylo q_yhi []) as [t2|];
    cbn [lift_opt mbind outcome_mbind outcome_bind]; [| discriminate].
  destruct (vset (OursAdaptiveBaseline.cs_cache_len st) sid _) as [c3|];
    cbn [lift_opt mbind outcome_mbind outcome_bind]; [| discriminate].
  destruct (negb _); [discriminate |].
  destruct (OursAdaptiveBaseline.shrink_heap _ _ _ _ _) as [[[hp kp] pp]|];
    cbn [lift_opt mbind outcome_mbind outcome_bind]; [| discriminate].
  intros [= <-]. reflexivity.
Qed.

Lemma prefetch_W cfg budget_B E i seed other q_ylo q_yhi wa wb w sid st st' :
  OursAdaptiveBaseline.prefetch cfg budget_B E i seed other q_ylo q_yhi wa wb w sid st
  = Done st' ->
  OursAdaptiveBaseline.cs_W st' = OursAdaptiveBaseline.cs_W st.
Proof.
  unfold OursAdaptiveBaseline.prefetch.
  destruct (0 <? _); [| intros [= <-]; reflexivity].
  destruct (OursAdaptiveBaseline.prefetch_offer _ _ _ _ _ _ _ _ _ _ _) as [[[hp kp] pp]|];
    cbn [lift_opt mbind outcome_mbind outcome_bind]; [| discriminate].
  destruct (vget kp sid) as [s_keep|];
    cbn [lift_opt mbind outcome_mbind outcome_bind]; [| discriminate].
  destruct (0 <? s_keep).
  - destruct (OursAdaptiveBaseline.prefetch_samples _ _ _ _ _ _ _ _) as [dst| |];
      cbn [lift_opt mbind outcome_mbind outcome_bind]; try discriminate.
    destruct (vset pp sid dst) as [pp'|];
      cbn [lift_opt mbind outcome_mbind outcome_bind]; [| discriminate].
    intros [= <-]. reflexivity.
  - cbn [mbind outcome_mbind outcome_bind]. intros [= <-]. reflexivity.
Qed.

(** A step of the adaptive sweep that succeeds adds without wrapping. *)
Lemma Adaptive_Count_step_W cfg ctx budget_B w_small E seed ep st pe st' :
  OursAdaptiveBaseline.Count_step cfg ctx budget_B w_small E seed ep st pe = Done st' ->
  0 <= OursAdaptiveBaseline.cs_W st <= u64_max ->
  OursAdaptiveBaseline.cs_W st <= OursAdaptiveBaseline.cs_W st' <= u64_max.
Proof.
  unfold OursAdaptiveBaseline.Count_step. destruct pe as [pos ev].
  destruct (ev_kind ev).
  - destruct (sweep_erase ev _ _) as [[ar as_]|];
      cbn [lift_opt mbind outcome_mbind outcome_bind]; [| discriminate].
    intros [= <-] HW. cbn. lia.
  - destruct (vget _ pos) as [sid|];
      cbn [lift_opt mbind outcome_mbind outcome_bind]; [| discriminate].
    destruct (wrap32 E <=? wrap32 sid); [discriminate |].
    destruct (Ours2DContext.query_ranks ctx ev) as [[q_ylo q_yhi]|];
      cbn [lift_opt mbind outcome_mbind outcome_bind]; [| discriminate].
    destruct (ActiveIndex2D.CountA _ q_ylo) as [wa|];
      cbn [lift_opt mbind outcome_mbind outcome_bind]; [| discriminate].
    destruct (ActiveIndex2D.CountB _ q_ylo q_yhi) as [wb|];
      cbn [lift_opt mbind outcome_mbind outcome_bind]; [| discriminate].
    destruct (vset (OursAdaptiveBaseline.cs_w_a st) _ wa) as [w_a|];
      cbn [lift_opt mbind outcome_mbind outcome_bind]; [| discriminate].
    destruct (vset (OursAdaptiveBaseline.cs_w_b st) _ wb) as [w_b|];
      cbn [lift_opt mbind outcome_mbind outcome_bind]; [| discriminate].
    destruct (vset (OursAdaptiveBaseline.cs_w_total st) _ _) as [w_t|];
      cbn [lift_opt mbind outcome_mbind outcome_bind]; [| discriminate].
    pose proof (wrap64_range (wa + wb)) as Hw.
    set (w := wrap64 (wa + wb)) in *.
    intros Hstep HW.
    assert (exists W, OursAdaptiveBaseline.cs_W st <= W <= u64_max
              /\ exists st2, OursAdaptiveBaseline.cs_W st2 = W
                   /\ (st3 ← (if (0 <? w_small) && (0 <? w) && (w <=? w_small)
                                 && (wrap64 (OursAdaptiveBaseline.cs_mem_full st2 + w)
                                     <=? budget_B)
                              then OursAdaptiveBaseline.full_cache budget_B
                                     (sweep_other ev (OursAdaptiveBaseline.cs_ar st)
                                        (OursAdaptiveBaseline.cs_as st)) q_ylo q_yhi w
                                     (wrap32 sid) st2
                              else if ep && (0 <? w)
                              then OursAdaptiveBaseline.prefetch cfg budget_B E
                                     (wrap32 (wrap32 sid + 1)) seed
                                     (sweep_other ev (OursAdaptiveBaseline.cs_ar st)
                                        (OursAdaptiveBaseline.cs_as st)) q_ylo q_yhi wa wb w
                                     (wrap32 sid) st2
                              else Done st2);
                       '(ar, as_) ← lift_opt (sweep_insert ev q_ylo q_yhi
                                      (OursAdaptiveBaseline.cs_ar st3)
                                      (OursAdaptiveBaseline.cs_as st3));
                       Done (OursAdaptiveBaseline.set_actives st3 ar as_)) = Done st')
      as (W & HWr & st2 & HW2 & Hrest).
    { destruct (Z.ltb_spec 0 w).
      - destruct (Z.ltb_spec (u64_max - w) (OursAdaptiveBaseline.cs_W st));
          [discriminate |].
        cbn [mbind outcome_mbind outcome_bind] in Hstep.
        eexists. split; [| eexists; split; [reflexivity | exact Hstep]].
        cbn [OursAdaptiveBaseline.set_weights OursAdaptiveBaseline.cs_W]. lia.
      - cbn [mbind outcome_mbind outcome_bind] in Hstep.
        eexists. split; [| eexists; split; [reflexivity | exact Hstep]].
        cbn [OursAdaptiveBaseline.set_weights OursAdaptiveBaseline.cs_W]. lia. }
    assert (exists st3, OursAdaptiveBaseline.cs_W st3 = W
              /\ ('(ar, as_) ← lift_opt (sweep_insert ev q_ylo q_yhi
                                (OursAdaptiveBaseline.cs_ar st3)
                                (OursAdaptiveBaseline.cs_as st3));
                  Done (OursAdaptiveBaseline.set_actives st3 ar as_)) = Done st')
      as (st3 & HW3 & Hins).
    { destruct (_ && _ && _ && _).
      - destruct (OursAdaptiveBaseline.full_cache _ _ _ _ _ _ _) as [st3| |] eqn:Hfc;
          try discriminate.
        exists st3. split; [| exact Hrest]. rewrite (full_cache_W _ _ _ _ _ _ _ _ Hfc). exact HW2.
      - destruct (ep && _).
        + destruct (OursAdaptiveBaseline.prefetch _ _ _ _ _ _ _ _ _ _ _ _ _) as [st3| |] eqn:Hpf;
            try discriminate.
          exists st3. split; [| exact Hrest].
          rewrite (prefetch_W _ _ _ _ _ _ _ _ _ _ _ _ _ _ Hpf). exact HW2.
        + exists st2. split; [exact HW2 | exact Hrest]. }
    destruct (sweep_insert ev q_ylo q_yhi _ _) as [[ar as_]|];
      cbn [lift_opt mbind outcome_mbind outcome_bind] in Hins; [| discriminate].
    injection Hins as <-. cbn [OursAdaptiveBaseline.set_actives OursAdaptiveBaseline.cs_W].
    rewrite HW3. exact HWr.
Qed.

(** The only failure of the two-pass count is the missing [Build]. *)
Lemma Sampling_Count_Fail b cfg msg :
  OursSamplingBaseline.Count b cfg = Fail msg ->
  msg = "OursSamplingBaseline::Count: call Build() first"%string.
Proof.
  unfold OursSamplingBaseline.Count.
  destruct (_ || _); [intros [= <-]; reflexivity |].
  destruct (ofold _ _ _) as [st|]; cbn [lift_opt mbind outcome_mbind outcome_bind];
    discriminate.
Qed.

End Overflow.

(** * The slot plan is a counting sort of the slots *)

(** The slots of one pattern: an item holds the event of a slot and whether
    the slot has the pattern. *)
Definition mine_count (items : list (Z * bool)) (e : Z) : Z :=
  zcount (fun it => snd it && (fst it =? e)) items.

Definition incr_side (c : list Z) (it : Z * bool) : option (list Z) :=
  if snd it then vincr c (fst it) else Some c.

Definition fill1 (st : list Z * list Z) (j eid : Z) : option (list Z * list Z) :=
  let '(s, c) := st in
  c0 ← vget c eid;
  s ← vset s c0 j;
  c ← vset c eid (wrap32 (c0 + 1));
  Some (s, c).

Definition fill_side (st : list Z * list Z) (it : Z * (Z * bool))
    : option (list Z * list Z) :=
  if snd (snd it) then fill1 st (fst it) (fst (snd it)) else Some st.

(** The sum of the first [e] counts. *)
Definition psum (cnt : list Z) (e : nat) : Z := zsum (fun x => x) (take e cnt).

Lemma mine_count_nil e : mine_count [] e = 0.
Proof. reflexivity. Qed.

Lemma mine_count_cons it items e :
  mine_count (it :: items) e
  = (if snd it && (fst it =? e) then 1 else 0) + mine_count items e.
Proof. reflexivity. Qed.

Lemma mine_count_app l1 l2 e : mine_count (l1 ++ l2) e = mine_count l1 e + mine_count l2 e.
Proof. apply zcount_app. Qed.

Lemma mine_count_bounds items e : 0 <= mine_count items e <= Z.of_nat (length items).
Proof. apply zcount_bounds. Qed.

Lemma incr_side_spec : forall items c0 c,
  ofold incr_side items c0 = Some c ->
  length c = length c0
  /\ (forall it, it ∈ items -> snd it = true -> 0 <= fst it < Z.of_nat (length c0))
  /\ (forall e v, vget c0 e = Some v -> 0 <= v ->
        v + Z.of_nat (length items) < 2 ^ 32 ->
        vget c e = Some (v + mine_count items e)).
Proof.
  induction items as [|[eid mine] items IH]; intros c0 c Hf.
  - injection Hf as <-. split; [reflexivity |]. split.
    + intros it Hit. inversion Hit.
    + intros e v Hv _ _. rewrite mine_count_nil, Z.add_0_r. exact Hv.
  - cbn [ofold] in Hf.
    destruct (incr_side c0 (eid, mine)) as [c0'|] eqn:Hstep;
      cbn [mbind option_bind] in Hf; [| discriminate].
    unfold incr_side in Hstep. cbn [snd fst] in Hstep.
    destruct mine.
    + unfold vincr in Hstep.
      destruct (vget c0 eid) as [c1|] eqn:Hc1; cbn [mbind option_bind] in Hstep;
        [| discriminate].
      rename Hstep into Hs.
      destruct (IH _ _ Hf) as (Hl & Hr & Hv).
      pose proof (vset_length _ _ _ _ Hs) as Hl'.
      pose proof (vget_lt _ _ _ Hc1) as Hlt.
      split; [congruence |]. split.
      * intros it [->|Hit]%elem_of_cons Hm; [exact Hlt |].
        rewrite <- Hl'. apply Hr; assumption.
      * intros e v Hve Hv0 Hb. cbn [length] in Hb. rewrite mine_count_cons. cbn [snd fst andb].
        destruct (Z.eqb_spec eid e) as [->|Hne].
        -- rewrite Hc1 in Hve. injection Hve as ->.
           rewrite (Hv e (wrap32 (v + 1))).
           ++ rewrite wrap32_small by lia. f_equal. lia.
           ++ eapply vget_vset_eq. exact Hs.
           ++ rewrite wrap32_small by lia. lia.
           ++ rewrite wrap32_small by lia. lia.
        -- rewrite (Hv e v); [f_equal; lia | | lia | lia].
           rewrite (vget_vset_ne _ _ _ _ _ Hs Hne). exact Hve.
    + injection Hstep as <-.
      destruct (IH _ _ Hf) as (Hl & Hr & Hv). split; [exact Hl |]. split.
      * intros it [->|Hit]%elem_of_cons Hm; [discriminate |]. apply Hr; assumption.
      * intros e v Hve Hv0 Hb. cbn [length] in Hb. rewrite mine_count_cons. cbn [snd andb].
        rewrite Z.add_0_l. apply Hv; [exact Hve | lia | lia].
Qed.

Lemma psum_0 cnt : psum cnt 0 = 0.
Proof. reflexivity. Qed.

Lemma psum_cons c cnt e : psum (c :: cnt) (Datatypes.S e) = c + psum cnt e.
Proof. reflexivity. Qed.

Lemma psum_S cnt e c :
  cnt !! e = Some c -> psum cnt (Datatypes.S e) = psum cnt e + c.
Proof.
  intros Hc. unfold psum. rewrite (take_S_r _ _ _ Hc), zsum_app. simpl. lia.
Qed.

Lemma psum_mono cnt e1 e2 :
  (forall x, x ∈ cnt -> 0 <= x) -> (e1 <= e2)%nat -> psum cnt e1 <= psum cnt e2.
Proof.
  intros Hpos Hle. unfold psum.
  replace e2 with (e1 + (e2 - e1))%nat by lia.
  rewrite <- (take_drop e1 (take (e1 + (e2 - e1)) cnt)).
  rewrite take_take, Nat.min_l by lia. rewrite zsum_app.
  assert (0 <= zsum (fun x => x) (drop e1 (take (e1 + (e2 - e1)) cnt))); [| lia].
  apply zsum_nonneg. intros a Ha. apply Hpos.
  apply list_elem_of_lookup in Ha as [i Hi]. rewrite lookup_drop in Hi.
  apply lookup_take_Some in Hi as [Hi _]. eapply list_elem_of_lookup_2. exact Hi.
Qed.

Lemma prefix_sums_spec : forall cnt acc,
  (forall x, x ∈ cnt -> 0 <= x) -> 0 <= acc ->
  acc + zsum (fun x => x) cnt < 2 ^ 32 ->
  prefix_sums acc cnt
  = map (fun e => acc + psum cnt e) (seq 0 (Datatypes.S (length cnt))).
Proof.
  induction cnt as [|c cnt IH]; intros acc Hpos Hacc Hb.
  - simpl. rewrite psum_0, Z.add_0_r. reflexivity.
  - cbn [prefix_sums length]. rewrite zsum_cons in Hb.
    assert (0 <= c) as Hc by (apply Hpos; left).
    assert (0 <= zsum (fun x => x) cnt) as Hz
      by (apply zsum_nonneg; intros a Ha; apply Hpos; right; exact Ha).
    rewrite wrap32_small by lia.
    rewrite IH; [| intros x Hx; apply Hpos; right; exact Hx | lia | lia].
    change (seq 0 (Datatypes.S (Datatypes.S (length cnt))))
      with (0%nat :: seq 1 (Datatypes.S (length cnt))).
    rewrite <- seq_shift.
    cbn [map]. rewrite psum_0, Z.add_0_r. f_equal.
    rewrite map_map. apply map_ext. intros e. rewrite psum_cons. lia.
Qed.

(** The slot numbers of the items of the pattern, counted from [b]. *)
Fixpoint slots_of (b : Z) (items : list (Z * bool)) : list Z :=
  match items with
  | [] => []
  | (_, mine) :: rest =>
      if mine then b :: slots_of (b + 1) rest else slots_of (b + 1) rest
  end.

Lemma elem_slots_of : forall items b j,
  j ∈ slots_of b items <->
  exists n eid, items !! n = Some (eid, true) /\ j = b + Z.of_nat n.
Proof.
  induction items as [|[eid mine] items IH]; intros b j; cbn [slots_of].
  - split; [intros H; inversion H | intros (n & e & H & _); inversion H].
  - assert (Hrec : j ∈ slots_of (b + 1) items <->
              exists n e, ((eid, mine) :: items) !! Datatypes.S n = Some (e, true)
                          /\ j = b + Z.of_nat (Datatypes.S n)).
    { rewrite IH. split; intros (n & e & Hn & ->); exists n, e; (split; [exact Hn | lia]). }
    destruct mine.
    + rewrite elem_of_cons, Hrec. split.
      * intros [-> | (n & e & Hn & ->)].
        -- exists 0%nat, eid. split; [reflexivity | lia].
        -- exists (Datatypes.S n), e. split; [exact Hn | reflexivity].
      * intros ([|n] & e & Hn & ->).
        -- left. lia.
        -- right. exists n, e. split; [exact Hn | reflexivity].
    + rewrite Hrec. split.
      * intros (n & e & Hn & ->). exists (Datatypes.S n), e. split; [exact Hn | reflexivity].
      * intros ([|n] & e & Hn & ->).
        -- simpl in Hn. discriminate.
        -- exists n, e. split; [exact Hn | reflexivity].
Qed.

Lemma NoDup_slots_of : forall items b, NoDup (slots_of b items).
Proof.
  induction items as [|[eid mine] items IH]; intros b; cbn [slots_of]; [constructor |].
  destruct mine; [| apply IH]. constructor; [| apply IH].
  rewrite elem_slots_of. intros (n & e & _ & Hb). lia.
Qed.

Lemma length_slots_of : forall items b,
  Z.of_nat (length (slots_of b items)) = zcount snd items.
Proof.
  induction items as [|[eid mine] items IH]; intros b; cbn [slots_of]; [reflexivity |].
  rewrite zcount_cons. cbn [snd]. destruct mine.
  - cbn [length]. rewrite Nat2Z.inj_succ, IH. lia.
  - rewrite IH. lia.
Qed.

(** The slots of a pattern and the slots of the other pattern are all slots. *)
Lemma slots_of_split : forall (eids : list Z) (fl : list bool) b,
  length eids = length fl ->
  slots_of b (zip eids fl) ++ slots_of b (zip eids (map negb fl))
  ≡ₚ seqZ b (Z.of_nat (length eids)).
Proof.
  induction eids as [|e eids IH]; intros [|f fl] b Hl; simpl in Hl; try discriminate.
  - reflexivity.
  - cbn [zip zip_with map slots_of length]. rewrite seqZ_cons_S.
    specialize (IH fl (b + 1) ltac:(lia)).
    destruct f; cbn [negb].
    + cbn [app]. rewrite IH. reflexivity.
    + rewrite <- Permutation_middle. rewrite IH. reflexivity.
Qed.

Section OneSide.
Variable items : list (Z * bool).
Variable cnt : list Z.
Hypothesis Hlen : Z.of_nat (length items) < 2 ^ 32.
Hypothesis Hcnt : forall e c, cnt !! e = Some c -> c = mine_count items (Z.of_nat e).
Hypothesis Hrange :
  forall it, it ∈ items -> snd it = true -> 0 <= fst it < Z.of_nat (length cnt).

(** The position that the fill writes for slot [n] of event [eid]. *)
Definition target (n : nat) (eid : Z) : Z :=
  psum cnt (Z.to_nat eid) + mine_count (take n items) eid.

Definition total_count : Z := psum cnt (length cnt).

Lemma cnt_nonneg x : x ∈ cnt -> 0 <= x.
Proof using Hcnt.
  intros Hx. apply list_elem_of_lookup in Hx as [e He].
  rewrite (Hcnt e x He). apply mine_count_bounds.
Qed.

Lemma mine_count_take_lt n eid :
  items !! n = Some (eid, true) ->
  mine_count (take n items) eid < mine_count items eid.
Proof using Type.
  intros Hn. rewrite <- (take_drop_middle items n _ Hn) at 2.
  rewrite mine_count_app, mine_count_cons. cbn [snd fst andb]. rewrite Z.eqb_refl.
  pose proof (mine_count_bounds (drop (Datatypes.S n) items) eid). lia.
Qed.

Lemma mine_count_take_mono n1 n2 eid :
  (n1 < n2)%nat -> items !! n1 = Some (eid, true) ->
  mine_count (take n1 items) eid < mine_count (take n2 items) eid.
Proof using Type.
  intros Hlt Hn.
  assert (take n2 items !! n1 = Some (eid, true)) as Hn'
    by (rewrite lookup_take_lt by lia; exact Hn).
  rewrite <- (take_drop_middle (take n2 items) n1 _ Hn').
  rewrite take_take, Nat.min_l by lia.
  rewrite mine_count_app, mine_count_cons. cbn [snd fst andb]. rewrite Z.eqb_refl.
  pose proof (mine_count_bounds (drop (Datatypes.S n1) (take n2 items)) eid). lia.
Qed.

Lemma target_range n eid :
  items !! n = Some (eid, true) ->
  psum cnt (Z.to_nat eid) <= target n eid < psum cnt (Datatypes.S (Z.to_nat eid))
  /\ psum cnt (Datatypes.S (Z.to_nat eid)) <= total_count.
Proof using Hcnt Hrange.
  intros Hn. pose proof (Hrange _ (list_elem_of_lookup_2 _ _ _ Hn) eq_refl) as Hr.
  cbn [fst] in Hr.
  destruct (lookup_lt_is_Some_2 cnt (Z.to_nat eid)) as [c Hc]; [lia |].
  rewrite (psum_S cnt _ c Hc). pose proof (Hcnt _ _ Hc) as Hce.
  rewrite Z2Nat.id in Hce by lia.
  pose proof (mine_count_take_lt n eid Hn).
  pose proof (mine_count_bounds (take n items) eid).
  unfold target. split; [lia |].
  rewrite <- (psum_S cnt _ c Hc). unfold total_count.
  apply psum_mono; [apply cnt_nonneg | lia].
Qed.

Lemma target_inj n1 n2 e1 e2 :
  (n1 < n2)%nat ->
  items !! n1 = Some (e1, true) -> items !! n2 = Some (e2, true) ->
  target n1 e1 <> target n2 e2.
Proof using Hcnt Hrange.
  intros Hlt H1 H2.
  pose proof (target_range n1 e1 H1) as [R1 _].
  pose proof (target_range n2 e2 H2) as [R2 _].
  pose proof (Hrange _ (list_elem_of_lookup_2 _ _ _ H1) eq_refl) as Hr1.
  pose proof (Hrange _ (list_elem_of_lookup_2 _ _ _ H2) eq_refl) as Hr2.
  cbn [fst] in Hr1, Hr2.
  destruct (Z.lt_trichotomy e1 e2) as [Hc | [-> | Hc]].
  - pose proof (psum_mono cnt (Datatypes.S (Z.to_nat e1)) (Z.to_nat e2) cnt_nonneg
                  ltac:(lia)). lia.
  - pose proof (mine_count_take_mono n1 n2 e2 Hlt H1). unfold target. lia.
  - pose proof (psum_mono cnt (Datatypes.S (Z.to_nat e2)) (Z.to_nat e1) cnt_nonneg
                  ltac:(lia)). lia.
Qed.

(** The counts add up to the number of slots of the pattern. *)
Lemma total_count_eq : total_count = zcount snd items.
Proof using Hcnt Hrange.
  unfold total_count. unfold psum. rewrite firstn_all.
  assert (cnt = map (fun e => mine_count items e) (seqZ 0 (Z.of_nat (length cnt)))) as Hc.
  { apply list_eq. intros e. rewrite list_lookup_fmap.
    destruct (cnt !! e) as [c|] eqn:He.
    - rewrite lookup_seqZ_lt by (apply lookup_lt_Some in He; lia).
      simpl. rewrite Z.add_0_l. f_equal. apply (Hcnt e c He).
    - rewrite lookup_seqZ_ge by (apply lookup_ge_None in He; lia). reflexivity. }
  rewrite Hc at 1. rewrite zsum_map. unfold mine_count, zcount.
  rewrite zsum_swap. apply zsum_ext. intros [eid mine] Hit. cbn [snd fst].
  destruct mine; cbn [andb].
  - pose proof (Hrange _ Hit eq_refl) as Hr. cbn [fst] in Hr.
    rewrite (zsum_ext _ (fun y => if bool_decide (y = eid) then 1 else 0)).
    + apply zsum_pick; [apply NoDup_seqZ | apply elem_of_seqZ; lia].
    + intros e _. destruct (Z.eqb_spec eid e) as [->|Hne].
      * rewrite bool_decide_eq_true_2 by reflexivity. reflexivity.
      * rewrite bool_decide_eq_false_2 by congruence. reflexivity.
  - apply zsum_zero. intros; reflexivity.
Qed.

Lemma total_count_le : 0 <= total_count <= Z.of_nat (length items).
Proof using Hcnt Hrange. rewrite total_count_eq. apply zcount_bounds. Qed.

Lemma fill_side_inv : forall rest done s c,
  items = done ++ rest ->
  Z.of_nat (length s) = total_count ->
  (forall e, (e < length cnt)%nat ->
     c !! e = Some (psum cnt e + mine_count done (Z.of_nat e))) ->
  (forall n eid, done !! n = Some (eid, true) -> vget s (target n eid) = Some (Z.of_nat n)) ->
  exists s' c',
    ofold fill_side (zip (seqZ (Z.of_nat (length done)) (Z.of_nat (length rest))) rest) (s, c)
    = Some (s', c')
    /\ Z.of_nat (length s') = total_count
    /\ forall n eid, items !! n = Some (eid, true) ->
         vget s' (target n eid) = Some (Z.of_nat n).
Proof using Hlen Hcnt Hrange.
  induction rest as [|[eid mine] rest IH]; intros done s c Hit Hs Hc Hdone.
  - exists s, c. split; [reflexivity |]. split; [exact Hs |].
    rewrite Hit, app_nil_r. exact Hdone.
  - cbn [length]. rewrite seqZ_cons_S. cbn [zip_with ofold].
    assert (Hit' : items = (done ++ [(eid, mine)]) ++ rest)
      by (rewrite <- app_assoc; exact Hit).
    assert (Hk : items !! length done = Some (eid, mine))
      by (rewrite Hit; apply list_lookup_middle; reflexivity).
    assert (Htake : take (length done) items = done)
      by (rewrite Hit, take_app_length; reflexivity).
    specialize (IH (done ++ [(eid, mine)])).
    rewrite length_app in IH. cbn [length] in IH.
    replace (Z.of_nat (length done + 1)) with (Z.of_nat (length done) + 1) in IH by lia.
    destruct mine.
    + pose proof (Hrange _ (list_elem_of_lookup_2 _ _ _ Hk) eq_refl) as Hr. cbn [fst] in Hr.
      pose proof (target_range _ _ Hk) as [Rt Rl]. unfold target in Rt. rewrite Htake in Rt.
      pose proof total_count_le as Htl.
      pose proof (psum_mono cnt 0 (Z.to_nat eid) cnt_nonneg ltac:(lia)) as Hp0.
      rewrite psum_0 in Hp0.
      change (fill_side (s, c) (Z.of_nat (length done), (eid, true)))
        with (fill1 (s, c) (Z.of_nat (length done)) eid).
      unfold fill1.
      assert (vget c eid = Some (psum cnt (Z.to_nat eid) + mine_count done eid)) as Hc0.
      { apply vget_Some. split; [lia |]. rewrite Hc by lia. rewrite Z2Nat.id by lia.
        reflexivity. }
      rewrite Hc0. cbn [mbind option_bind].
      set (c0 := psum cnt (Z.to_nat eid) + mine_count done eid) in *.
      rewrite (vset_is_Some s) by lia. cbn [mbind option_bind].
      rewrite (vset_is_Some c) by (apply vget_lt in Hc0; exact Hc0).
      cbn [mbind option_bind].
      rewrite wrap32_small by lia.
      apply IH; [exact Hit' | rewrite length_insert; exact Hs | |].
      * intros e He. rewrite mine_count_app, mine_count_cons, mine_count_nil.
        cbn [snd fst andb]. destruct (decide (e = Z.to_nat eid)) as [->|Hne].
        -- rewrite list_lookup_insert_eq by (apply vget_lt in Hc0; lia).
           rewrite Z2Nat.id by lia. rewrite Z.eqb_refl. f_equal. subst c0. lia.
        -- rewrite list_lookup_insert_ne by congruence. rewrite Hc by exact He.
           destruct (Z.eqb_spec eid (Z.of_nat e)); [lia |]. f_equal. lia.
      * intros n eid' Hn.
        destruct (decide (n = length done)) as [->|Hne].
        -- rewrite list_lookup_middle in Hn by reflexivity. injection Hn as <-.
           unfold target. rewrite Htake. fold c0.
           rewrite vget_insert by lia. rewrite bool_decide_eq_true_2 by reflexivity.
           reflexivity.
        -- assert (n < length done)%nat as Hlt.
           { apply lookup_lt_Some in Hn. rewrite length_app in Hn. cbn [length] in Hn. lia. }
           rewrite lookup_app_l in Hn by exact Hlt.
           assert (items !! n = Some (eid', true)) as Hn'
             by (rewrite Hit, lookup_app_l by exact Hlt; exact Hn).
           pose proof (target_inj n (length done) eid' eid Hlt Hn' Hk) as Hinj.
           unfold target at 2 in Hinj. rewrite Htake in Hinj. fold c0 in Hinj.
           rewrite vget_insert by lia. rewrite bool_decide_eq_false_2 by exact Hinj.
           apply Hdone. exact Hn.
    + change (fill_side (s, c) (Z.of_nat (length done), (eid, false))) with (Some (s, c)).
      cbn [mbind option_bind].
      apply IH; [exact Hit' | exact Hs | |].
      * intros e He. rewrite mine_count_app, mine_count_cons, mine_count_nil.
        cbn [snd andb]. rewrite Hc by exact He. f_equal. lia.
      * intros n eid' Hn.
        destruct (decide (n = length done)) as [->|Hne].
        -- rewrite list_lookup_middle in Hn by reflexivity. discriminate.
        -- assert (n < length done)%nat as Hlt.
           { apply lookup_lt_Some in Hn. rewrite length_app in Hn. cbn [length] in Hn. lia. }
           rewrite lookup_app_l in Hn by exact Hlt. apply Hdone. exact Hn.
Qed.

(** The fill writes a permutation of the slots of the pattern. *)
Lemma fill_side_perm s' :
  Z.of_nat (length s') = total_count ->
  (forall n eid, items !! n = Some (eid, true) -> vget s' (target n eid) = Some (Z.of_nat n)) ->
  s' ≡ₚ slots_of 0 items.
Proof using Hcnt Hrange.
  intros Hs Hget.
  set (P := fun j : Z => target (Z.to_nat j) (fst (default (0, false) (items !! Z.to_nat j)))).
  set (M := slots_of 0 items).
  assert (HM : forall j, j ∈ M ->
            0 <= j /\ items !! Z.to_nat j
                      = Some (fst (default (0, false) (items !! Z.to_nat j)), true)).
  { intros j (n & e & Hn & ->)%elem_slots_of. rewrite Z.add_0_l, Nat2Z.id.
    split; [lia |]. rewrite Hn. reflexivity. }
  assert (HP : forall j, j ∈ M -> vget s' (P j) = Some j).
  { intros j Hj. destruct (HM j Hj) as [Hj0 Hit]. unfold P.
    rewrite (Hget _ _ Hit). f_equal. lia. }
  assert (HT : map P M ≡ₚ seqZ 0 total_count).
  { apply submseteq_length_Permutation.
    - apply NoDup_submseteq.
      + apply NoDup_fmap_2_strong; [| apply NoDup_slots_of].
        intros j1 j2 H1 H2 Heq.
        destruct (HM j1 H1) as [Hj1 Hi1]. destruct (HM j2 H2) as [Hj2 Hi2].
        destruct (Z.lt_trichotomy j1 j2) as [Hlt | [-> | Hlt]]; [| reflexivity |]; exfalso.
        * apply (target_inj (Z.to_nat j1) (Z.to_nat j2) _ _ ltac:(lia) Hi1 Hi2). exact Heq.
        * apply (target_inj (Z.to_nat j2) (Z.to_nat j1) _ _ ltac:(lia) Hi2 Hi1).
          symmetry. exact Heq.
      + intros q (j & -> & Hj)%list_elem_of_fmap. destruct (HM j Hj) as [Hj0 Hit].
        pose proof (target_range _ _ Hit) as [Rt Rl].
        pose proof (psum_mono cnt 0 (Z.to_nat (fst (default (0, false) (items !! Z.to_nat j))))
                      cnt_nonneg ltac:(lia)) as Hp0.
        rewrite psum_0 in Hp0. apply elem_of_seqZ. unfold P. lia.
    - rewrite length_seqZ, length_map.
      pose proof (length_slots_of items 0) as Hl. fold M in Hl.
      rewrite <- total_count_eq in Hl. lia. }
  assert (Hs' : s' = map (fun q => default 0 (vget s' q)) (seqZ 0 total_count)).
  { apply list_eq. intros k. rewrite list_lookup_fmap.
    destruct (s' !! k) as [x|] eqn:Hk.
    - rewrite lookup_seqZ_lt by (apply lookup_lt_Some in Hk; lia).
      simpl. rewrite Z.add_0_l. unfold vget.
      destruct (Z.ltb_spec (Z.of_nat k) 0); [lia |]. rewrite Nat2Z.id, Hk. reflexivity.
    - rewrite lookup_seqZ_ge by (apply lookup_ge_None in Hk; lia). reflexivity. }
  rewrite Hs'. rewrite <- HT. rewrite map_map.
  rewrite (map_ext_in _ (fun x => x)).
  - rewrite map_id. reflexivity.
  - intros j Hj. apply list_elem_of_In in Hj. rewrite (HP j Hj). reflexivity.
Qed.

End OneSide.

Definition is_pattern_a (p : Z) : bool := p =? 0.

Section PlanFloats.
Context `{FloatOps}.

Lemma plan_assign_spec alias w_a w_b : forall js eids0 pats0 ca0 cb0 g0 eids pats ca cb g,
  ofold (plan_assign alias w_a w_b) js (eids0, pats0, ca0, cb0, g0)
  = Some (eids, pats, ca, cb, g) ->
  exists ne np,
    eids = eids0 ++ ne /\ pats = pats0 ++ np
    /\ length ne = length js /\ length np = length js
    /\ ofold incr_side (zip ne (map is_pattern_a np)) ca0 = Some ca
    /\ ofold incr_side (zip ne (map (fun p => negb (is_pattern_a p)) np)) cb0 = Some cb.
Proof.
  induction js as [|j js IH]; intros eids0 pats0 ca0 cb0 g0 eids pats ca cb g Hf.
  - injection Hf as <- <- <- <- <-. exists [], []. rewrite !app_nil_r.
    repeat split; reflexivity.
  - cbn [ofold] in Hf.
    destruct (plan_assign alias w_a w_b (eids0, pats0, ca0, cb0, g0) j)
      as [[[[[eids1 pats1] ca1] cb1] g1]|] eqn:Hstep;
      cbn [mbind option_bind] in Hf; [| discriminate].
    destruct (IH _ _ _ _ _ _ _ _ _ _ Hf) as (ne & np & -> & -> & Hl1 & Hl2 & Ha & Hb).
    unfold plan_assign in Hstep.
    destruct (AliasTable.Sample alias g0) as [[i g2]|]; cbn [mbind option_bind] in Hstep;
      [| discriminate].
    destruct (vget w_a (wrap32 i)) as [wa|]; cbn [mbind option_bind] in Hstep;
      [| discriminate].
    destruct (vget w_b (wrap32 i)) as [wb|]; cbn [mbind option_bind] in Hstep;
      [| discriminate].
    destruct (draw_pattern wa wb g2) as [[pat g3]|]; cbn [mbind option_bind] in Hstep;
      [| discriminate].
    destruct (pat =? 0) eqn:Hpat.
    + destruct (vincr ca0 (wrap32 i)) as [ca2|] eqn:Hinc; cbn [mbind option_bind] in Hstep;
        [| discriminate].
      injection Hstep as <- <- <- <- <-.
      exists (wrap32 i :: ne), (pat :: np). rewrite <- !app_assoc.
      split; [reflexivity |]. split; [reflexivity |].
      split; [simpl; lia |]. split; [simpl; lia |].
      assert (Hp : is_pattern_a pat = true) by exact Hpat.
      cbn [map zip_with ofold]. rewrite Hp. cbn [negb].
      change (incr_side ca0 (wrap32 i, true)) with (vincr ca0 (wrap32 i)).
      change (incr_side cb0 (wrap32 i, false)) with (Some cb0).
      rewrite Hinc. cbn [mbind option_bind]. split; assumption.
    + destruct (vincr cb0 (wrap32 i)) as [cb2|] eqn:Hinc; cbn [mbind option_bind] in Hstep;
        [| discriminate].
      injection Hstep as <- <- <- <- <-.
      exists (wrap32 i :: ne), (pat :: np). rewrite <- !app_assoc.
      split; [reflexivity |]. split; [reflexivity |].
      split; [simpl; lia |]. split; [simpl; lia |].
      assert (Hp : is_pattern_a pat = false) by exact Hpat.
      cbn [map zip_with ofold]. rewrite Hp. cbn [negb].
      change (incr_side ca0 (wrap32 i, false)) with (Some ca0).
      change (incr_side cb0 (wrap32 i, true)) with (vincr cb0 (wrap32 i)).
      rewrite Hinc. cbn [mbind option_bind]. split; assumption.
Qed.

Lemma plan_fill_a sa sb ca cb j eid pat :
  (pat =? 0) = true ->
  plan_fill (sa, sb, ca, cb) (j, (eid, pat))
  = st ← fill1 (sa, ca) j eid; Some (fst st, sb, snd st, cb).
Proof.
  intros Hp. unfold plan_fill, fill1. rewrite Hp.
  destruct (vget ca eid) as [c0|]; cbn [mbind option_bind]; [| reflexivity].
  destruct (vset sa c0 j) as [sa2|]; cbn [mbind option_bind]; [| reflexivity].
  destruct (vset ca eid (wrap32 (c0 + 1))) as [ca2|]; reflexivity.
Qed.

Lemma plan_fill_b sa sb ca cb j eid pat :
  (pat =? 0) = false ->
  plan_fill (sa, sb, ca, cb) (j, (eid, pat))
  = st ← fill1 (sb, cb) j eid; Some (sa, fst st, ca, snd st).
Proof.
  intros Hp. unfold plan_fill, fill1. rewrite Hp.
  destruct (vget cb eid) as [c0|]; cbn [mbind option_bind]; [| reflexivity].
  destruct (vset sb c0 j) as [sb2|]; cbn [mbind option_bind]; [| reflexivity].
  destruct (vset cb eid (wrap32 (c0 + 1))) as [cb2|]; reflexivity.
Qed.

Lemma plan_fill_split : forall js eids pats sa sb ca cb sa' sb' ca' cb',
  ofold plan_fill (zip js (zip eids pats)) (sa, sb, ca, cb) = Some (sa', sb', ca', cb')
  <-> ofold fill_side (zip js (zip eids (map is_pattern_a pats))) (sa, ca) = Some (sa', ca')
      /\ ofold fill_side (zip js (zip eids (map (fun p => negb (is_pattern_a p)) pats)))
           (sb, cb) = Some (sb', cb').
Proof.
  induction js as [|j js IH]; intros eids pats sa sb ca cb sa' sb' ca' cb'.
  - cbn [zip_with ofold]. split; [intros [= <- <- <- <-]; split; reflexivity |].
    intros [[= <- <-] [= <- <-]]. reflexivity.
  - destruct eids as [|eid eids].
    { cbn [zip_with ofold]. split; [intros [= <- <- <- <-]; split; reflexivity |].
      intros [[= <- <-] [= <- <-]]. reflexivity. }
    destruct pats as [|pat pats].
    { cbn [zip_with map ofold]. split; [intros [= <- <- <- <-]; split; reflexivity |].
      intros [[= <- <-] [= <- <-]]. reflexivity. }
    cbn [zip_with map ofold].
    destruct (pat =? 0) eqn:Hpat.
    + assert (Hp : is_pattern_a pat = true) by exact Hpat.
      rewrite Hp, (plan_fill_a _ _ _ _ _ _ _ Hpat). cbn [negb].
      change (fill_side (sa, ca) (j, (eid, true))) with (fill1 (sa, ca) j eid).
      change (fill_side (sb, cb) (j, (eid, false))) with (Some (sb, cb)).
      destruct (fill1 (sa, ca) j eid) as [[sa1 ca1]|]; cbn [mbind option_bind fst snd];
        [apply IH |].
      split; [intros ?; discriminate | intros [? _]; discriminate].
    + assert (Hp : is_pattern_a pat = false) by exact Hpat.
      rewrite Hp, (plan_fill_b _ _ _ _ _ _ _ Hpat). cbn [negb].
      change (fill_side (sa, ca) (j, (eid, false))) with (Some (sa, ca)).
      change (fill_side (sb, cb) (j, (eid, true))) with (fill1 (sb, cb) j eid).
      destruct (fill1 (sb, cb) j eid) as [[sb1 cb1]|]; cbn [mbind option_bind fst snd];
        [apply IH |].
      split; [intros ?; discriminate | intros [_ ?]; discriminate].
Qed.

End PlanFloats.

Lemma lookup_psum_seq cnt (e : nat) :
  (e <= length cnt)%nat ->
  map (fun e => 0 + psum cnt e) (seq 0 (Datatypes.S (length cnt))) !! e = Some (psum cnt e).
Proof.
  intros He. change (map ?f ?l) with (f <$> l). rewrite list_lookup_fmap.
  rewrite lookup_seq_lt by lia. reflexivity.
Qed.

(** One pattern of the plan: counts, offsets and the filled slots.  The fill
    never reads or writes out of range. *)
Lemma one_side_plan (E : nat) t items cnt :
  Z.of_nat (length items) = t -> t < 2 ^ 32 ->
  ofold incr_side items (replicate E 0) = Some cnt ->
  length cnt = E
  /\ (forall x, x ∈ cnt -> 0 <= x)
  /\ (forall e, (e <= E)%nat -> prefix_sums 0 cnt !! e = Some (psum cnt e))
  /\ length (prefix_sums 0 cnt) = Datatypes.S E
  /\ vget (prefix_sums 0 cnt) (Z.of_nat E) = Some (zcount snd items)
  /\ exists s' c',
       ofold fill_side (zip (seqZ 0 t) items)
         (replicate (Z.to_nat (zcount snd items)) 0, prefix_sums 0 cnt) = Some (s', c')
       /\ s' ≡ₚ slots_of 0 items.
Proof.
  intros Hlen Ht Hinc.
  destruct (incr_side_spec _ _ _ Hinc) as (Hl & Hrange & Hget).
  rewrite length_replicate in Hl, Hrange.
  assert (Hcnt : forall e c, cnt !! e = Some c -> c = mine_count items (Z.of_nat e)).
  { intros e c He. pose proof (lookup_lt_Some _ _ _ He) as Hlt.
    assert (Hv : vget (replicate E 0) (Z.of_nat e) = Some 0) by (apply vget_replicate; lia).
    specialize (Hget (Z.of_nat e) 0 Hv ltac:(lia) ltac:(lia)).
    apply vget_Some in Hget as [_ Hget]. rewrite Nat2Z.id in Hget.
    rewrite He in Hget. injection Hget as ->. lia. }
  assert (Hrange' : forall it, it ∈ items -> snd it = true ->
                      0 <= fst it < Z.of_nat (length cnt)) by (rewrite Hl; exact Hrange).
  assert (Hlen' : Z.of_nat (length items) < 2 ^ 32) by lia.
  pose proof (cnt_nonneg items cnt Hcnt) as Hpos.
  pose proof (total_count_eq items cnt Hcnt Hrange') as Htc.
  pose proof (total_count_le items cnt Hcnt Hrange') as Htl.
  assert (Hsum : zsum (fun x => x) cnt = total_count cnt).
  { unfold total_count, psum. rewrite firstn_all. reflexivity. }
  assert (Hps : prefix_sums 0 cnt
                = map (fun e => 0 + psum cnt e) (seq 0 (Datatypes.S (length cnt)))).
  { apply prefix_sums_spec; [exact Hpos | lia | lia]. }
  assert (Hlk : forall e, (e <= E)%nat -> prefix_sums 0 cnt !! e = Some (psum cnt e)).
  { intros e He. rewrite Hps. apply lookup_psum_seq. lia. }
  split; [exact Hl |]. split; [exact Hpos |]. split; [exact Hlk |].
  split; [rewrite Hps, length_map, length_seq, Hl; reflexivity |].
  split.
  { apply vget_Some. split; [lia |]. rewrite Nat2Z.id, (Hlk E) by lia.
    rewrite <- Htc. unfold total_count. rewrite Hl. reflexivity. }
  destruct (fill_side_inv items cnt Hlen' Hcnt Hrange' items []
              (replicate (Z.to_nat (zcount snd items)) 0) (prefix_sums 0 cnt))
    as (s' & c' & Hfill & Hs' & Hget').
  - reflexivity.
  - rewrite length_replicate. lia.
  - intros e He. rewrite mine_count_nil, Z.add_0_r. apply Hlk. lia.
  - intros n eid Hn. rewrite lookup_nil in Hn. discriminate.
  - exists s', c'. split.
    + cbn [length] in Hfill. rewrite Hlen in Hfill. exact Hfill.
    + apply (fill_side_perm items cnt Hcnt Hrange' s' Hs' Hget').
Qed.

(** ** Slot conservation *)

(** What the plan of [t] slots over [E] events conserves: both offset
    arrays have [E + 1] entries, start at 0 and never decrease, their last
    entries are the lengths of the two slot lists, the lengths add up to
    [t], and the two slot lists together hold every slot [0 .. t-1] once. *)
Record slot_conservation (t : Z) (E : nat) (plan : SlotPlan2D) : Prop := {
  sc_len_a : length (offset_a plan) = Datatypes.S E;
  sc_len_b : length (offset_b plan) = Datatypes.S E;
  sc_zero_a : offset_a plan !! 0%nat = Some 0;
  sc_zero_b : offset_b plan !! 0%nat = Some 0;
  sc_mono_a : forall e1 e2 x y, (e1 <= e2)%nat ->
    offset_a plan !! e1 = Some x -> offset_a plan !! e2 = Some y -> x <= y;
  sc_mono_b : forall e1 e2 x y, (e1 <= e2)%nat ->
    offset_b plan !! e1 = Some x -> offset_b plan !! e2 = Some y -> x <= y;
  sc_last_a : offset_a plan !! E = Some (Z.of_nat (length (slots_a plan)));
  sc_last_b : offset_b plan !! E = Some (Z.of_nat (length (slots_b plan)));
  sc_total : Z.of_nat (length (slots_a plan)) + Z.of_nat (length (slots_b plan)) = t;
  sc_once : slots_a plan ++ slots_b plan ≡ₚ seqZ 0 t
}.

Section PlanConservation.
Context `{FloatOps}.

(** Once the alias table is built and every slot has drawn its event and
    its pattern, the two bucketing passes return a plan, and the plan
    conserves the slots. *)
Lemma plan_of_assign t g w_total w_a w_b alias eids pats ca cb g1 :
  0 <= t < 2 ^ 32 ->
  length w_total <> 0%nat ->
  AliasTable.BuildFromU64 w_total = Done alias ->
  ofold (plan_assign alias w_a w_b) (upto t)
    ([], [], replicate (length w_total) 0, replicate (length w_total) 0, g)
  = Some (eids, pats, ca, cb, g1) ->
  exists plan,
    BuildSlotPlan2D t g w_total w_a w_b = Done (plan, g1)
    /\ slot_conservation t (length w_total) plan.
Proof.
  intros Ht HE Halias Hassign.
  set (E := length w_total) in *.
  destruct (plan_assign_spec _ _ _ _ _ _ _ _ _ _ _ _ _ _ Hassign)
    as (ne & np & He & Hp & Hle & Hlp & Hia & Hib).
  cbn [app] in He, Hp. subst ne np.
  unfold upto in Hle, Hlp. rewrite length_seqZ in Hle, Hlp.
  set (ia := zip eids (map is_pattern_a pats)) in *.
  set (ib := zip eids (map (fun p => negb (is_pattern_a p)) pats)) in *.
  assert (Hla : Z.of_nat (length ia) = t).
  { unfold ia. rewrite length_zip_with, length_map. lia. }
  assert (Hlb : Z.of_nat (length ib) = t).
  { unfold ib. rewrite length_zip_with, length_map. lia. }
  destruct (one_side_plan E t ia ca Hla ltac:(lia) Hia)
    as (Hca & Hposa & Hlka & Hloa & Htota & sa & ca' & Hfa & Hpa).
  destruct (one_side_plan E t ib cb Hlb ltac:(lia) Hib)
    as (Hcb & Hposb & Hlkb & Hlob & Htotb & sb & cb' & Hfb & Hpb).
  assert (Hfill : ofold plan_fill (zip (upto t) (zip eids pats))
                    (replicate (Z.to_nat (zcount snd ia)) 0,
                     replicate (Z.to_nat (zcount snd ib)) 0,
                     prefix_sums 0 ca, prefix_sums 0 cb)
                  = Some (sa, sb, ca', cb')).
  { apply plan_fill_split. split; [exact Hfa | exact Hfb]. }
  assert (Hall : sa ++ sb ≡ₚ seqZ 0 t).
  { rewrite Hpa, Hpb. unfold ia, ib. rewrite <- (map_map is_pattern_a negb).
    rewrite slots_of_split by (rewrite length_map; lia).
    replace (Z.of_nat (length eids)) with t by lia. reflexivity. }
  assert (Hsa : Z.of_nat (length sa) = zcount snd ia).
  { rewrite Hpa. apply length_slots_of. }
  assert (Hsb : Z.of_nat (length sb) = zcount snd ib).
  { rewrite Hpb. apply length_slots_of. }
  exists (mkSlotPlan2D (prefix_sums 0 ca) (prefix_sums 0 cb) sa sb). split.
  - unfold BuildSlotPlan2D. fold E.
    destruct (Nat.eqb_spec E 0) as [He0|_]; [contradiction |].
    rewrite Halias. cbn [mbind outcome_mbind outcome_bind].
    rewrite Hassign. cbn [lift_opt mbind outcome_mbind outcome_bind].
    rewrite Htota, Htotb. cbn [lift_opt mbind outcome_mbind outcome_bind].
    rewrite Hfill. reflexivity.
  - constructor; cbn [offset_a offset_b slots_a slots_b].
    + exact Hloa.
    + exact Hlob.
    + rewrite Hlka by lia. rewrite psum_0. reflexivity.
    + rewrite Hlkb by lia. rewrite psum_0. reflexivity.
    + intros e1 e2 x y Hle12 H1 H2.
      pose proof (lookup_lt_Some _ _ _ H2) as Hlt. rewrite Hloa in Hlt.
      rewrite Hlka in H1, H2 by lia. injection H1 as <-. injection H2 as <-.
      apply psum_mono; assumption.
    + intros e1 e2 x y Hle12 H1 H2.
      pose proof (lookup_lt_Some _ _ _ H2) as Hlt. rewrite Hlob in Hlt.
      rewrite Hlkb in H1, H2 by lia. injection H1 as <-. injection H2 as <-.
      apply psum_mono; assumption.
    + apply vget_Some in Htota as [_ Htota]. rewrite Nat2Z.id in Htota.
      rewrite Htota, Hsa. reflexivity.
    + apply vget_Some in Htotb as [_ Htotb]. rewrite Nat2Z.id in Htotb.
      rewrite Htotb, Hsb. reflexivity.
    + apply Permutation_length in Hall. rewrite length_app, length_seqZ in Hall. lia.
    + exact Hall.
Qed.

End PlanConservation.

(** C6: the slot plan conserves the slots.  For every request of [t]
    slots ([t] is a [u32]) and all weight vectors, a plan returned by
    [BuildSlotPlan2D] has offset arrays of [E + 1] entries that start at 0,
    never decrease and end at the lengths of [slots_a] and [slots_b]; the
    two lengths add up to [t]; and [slots_a] followed by [slots_b] is a
    rearrangement of the output positions [0 .. t-1], so every position is in
    exactly one slot list, once.  The builder returns a plan whenever the
    alias table is built and every slot draws its event and pattern: the two
    bucketing passes never read or write out of range. *)
Theorem slot_plan_conservation `{FloatOps} (t : Z) (g : Rng) (w_total w_a w_b : list Z) :
  0 <= t < 2 ^ 32 ->
  (forall plan g',
     BuildSlotPlan2D t g w_total w_a w_b = Done (plan, g') ->
     slot_conservation t (length w_total) plan)
  /\ (forall alias st,
        length w_total <> 0%nat ->
        AliasTable.BuildFromU64 w_total = Done alias ->
        ofold (plan_assign alias w_a w_b) (upto t)
          ([], [], replicate (length w_total) 0, replicate (length w_total) 0, g)
        = Some st ->
        exists plan, BuildSlotPlan2D t g w_total w_a w_b = Done (plan, snd st)).
Proof.
  intros Ht. split.
  - intros plan g' Hb.
    assert (HE : length w_total <> 0%nat).
    { intros HE. unfold BuildSlotPlan2D in Hb. rewrite HE in Hb. discriminate. }
    destruct (AliasTable.BuildFromU64 w_total) as [alias| |] eqn:Halias;
      [| unfold BuildSlotPlan2D in Hb; rewrite Halias in Hb;
         destruct (Nat.eqb (length w_total) 0); discriminate ..].
    destruct (ofold (plan_assign alias w_a w_b) (upto t)
                ([], [], replicate (length w_total) 0, replicate (length w_total) 0, g))
      as [[[[[eids pats] ca] cb] g1]|] eqn:Hassign.
    + destruct (plan_of_assign t g w_total w_a w_b alias eids pats ca cb g1
                  Ht HE Halias Hassign) as (plan' & Hb' & Hc).
      rewrite Hb in Hb'. injection Hb' as -> _. exact Hc.
    + unfold BuildSlotPlan2D in Hb. rewrite Halias in Hb.
      destruct (Nat.eqb (length w_total) 0); [discriminate |].
      cbn [mbind outcome_mbind outcome_bind] in Hb. rewrite Hassign in Hb. discriminate.
  - intros alias [[[[eids pats] ca] cb] g1] HE Halias Hassign.
    destruct (plan_of_assign t g w_total w_a w_b alias eids pats ca cb g1
                Ht HE Halias Hassign) as (plan & Hb & _).
    exists plan. exact Hb.
Qed.

Lemma slot_plan_conservation_witness :
  exists g',
    BuildSlotPlan2D (H:=QFloat) 8 (RngOps.Seed 7) [2; 0; 3; 1] [1; 0; 0; 1] [1; 0; 3; 0]
    = Done (mkSlotPlan2D [0; 1; 1; 1; 1] [0; 1; 1; 7; 7] [3] [4; 0; 1; 2; 5; 6; 7], g')
    /\ slot_conservation 8 4
         (mkSlotPlan2D [0; 1; 1; 1; 1] [0; 1; 1; 7; 7] [3] [4; 0; 1; 2; 5; 6; 7]).
Proof.
  eexists. split.
  - vm_compute. reflexivity.
  - eapply (proj1 (slot_plan_conservation (H:=QFloat) 8 (RngOps.Seed 7)
                     [2; 0; 3; 1] [1; 0; 0; 1] [1; 0; 3; 0] ltac:(lia))).
    vm_compute. reflexivity.
Defined.

(** * The generator: bounded draws and seed derivation (core/rng.h) *)

Lemma NextU64_range g : 0 <= fst (RngOps.NextU64 g) < 2 ^ 64.
Proof. unfold RngOps.NextU64. cbn [fst]. apply wrap64_range. Qed.

Lemma high_word_lt x bound :
  0 <= x < 2 ^ 64 -> 0 < bound -> 0 <= Z.shiftr (x * bound) 64 < bound.
Proof.
  intros Hx Hb. rewrite Z.shiftr_div_pow2 by lia. split.
  - apply Z.div_pos; nia.
  - apply Z.div_lt_upper_bound; nia.
Qed.

Lemma UniformU64_loop_range : forall fuel bound threshold g x g',
  0 < bound ->
  RngOps.UniformU64_loop fuel bound threshold g = Some (x, g') ->
  0 <= x < bound.
Proof.
  induction fuel as [|fuel IH]; intros bound threshold g x g' Hb Hu; [discriminate |].
  cbn [RngOps.UniformU64_loop] in Hu.
  pose proof (NextU64_range g) as Hr.
  destruct (RngOps.NextU64 g) as [r g1]. cbn [fst] in Hr.
  destruct (threshold <=? wrap64 (r * bound)).
  - injection Hu as <- <-. apply high_word_lt; assumption.
  - apply (IH _ _ _ _ _ Hb Hu).
Qed.

Lemma UniformU64_range bound g x g' :
  0 < bound -> RngOps.UniformU64 bound g = Some (x, g') -> 0 <= x < bound.
Proof.
  intros Hb. unfold RngOps.UniformU64.
  destruct (Z.eqb_spec bound 0); [lia |].
  apply UniformU64_loop_range. exact Hb.
Qed.

Lemma UniformU32_range bound g x g' :
  0 < bound <= u32_max -> RngOps.UniformU32 bound g = Some (x, g') -> 0 <= x < bound.
Proof.
  intros Hb. unfold RngOps.UniformU32.
  destruct (RngOps.UniformU64 bound g) as [[y g1]|] eqn:Hu; [| discriminate].
  cbn [mbind option_bind]. intros [= <- <-].
  pose proof (UniformU64_range bound g y g1 ltac:(lia) Hu) as Hy.
  rewrite wrap32_small by (unfold u32_max in Hb; lia). exact Hy.
Qed.

Lemma pow2_threshold k : 0 <= k < 64 -> wrap64 (- 2 ^ k) mod 2 ^ k = 0.
Proof.
  intros Hk. unfold wrap64.
  assert (Hsplit : 2 ^ 64 = 2 ^ (64 - k) * 2 ^ k).
  { rewrite <- Z.pow_add_r by lia. f_equal. lia. }
  assert (Hp : 0 < 2 ^ k) by (apply Z.pow_pos_nonneg; lia).
  assert (Hq : 1 <= 2 ^ (64 - k)) by (assert (0 < 2 ^ (64 - k)) by (apply Z.pow_pos_nonneg; lia); lia).
  replace (- 2 ^ k) with (2 ^ 64 - 2 ^ k + (-1) * 2 ^ 64) by lia.
  assert (Hle : 2 ^ k <= 2 ^ 64) by (apply Z.pow_le_mono_r; lia).
  rewrite Z_mod_plus_full. rewrite (Z.mod_small (2 ^ 64 - 2 ^ k) (2 ^ 64)) by lia.
  rewrite Hsplit. replace (2 ^ (64 - k) * 2 ^ k - 2 ^ k) with ((2 ^ (64 - k) - 1) * 2 ^ k) by lia.
  apply Z.mod_mul. lia.
Qed.

Lemma high_word_pow2 r k :
  0 <= k < 64 -> Z.shiftr (r * 2 ^ k) 64 = Z.shiftr r (64 - k).
Proof.
  intros Hk. rewrite !Z.shiftr_div_pow2 by lia.
  assert (Hsplit : 2 ^ 64 = 2 ^ (64 - k) * 2 ^ k).
  { rewrite <- Z.pow_add_r by lia. f_equal. lia. }
  rewrite Hsplit. apply Z.div_mul_cancel_r.
  - assert (0 < 2 ^ (64 - k)) by (apply Z.pow_pos_nonneg; lia). lia.
  - assert (0 < 2 ^ k) by (apply Z.pow_pos_nonneg; lia). lia.
Qed.

(** X1: a bounded draw stays below its bound.  Whenever [UniformU64]
    returns for a bound of at least 1 the value is in [0, bound), whatever
    the state of the generator; for the bound 0 it returns 0 and leaves the
    generator untouched; [UniformU32] with a bound that fits [u32] stays
    below its bound as well; and for a bound [2^k] no draw is rejected: the
    value is the top [k] bits of the next 64-bit word. *)
Theorem uniform_draw_in_bounds :
  (forall bound g x g',
     RngOps.UniformU64 bound g = Some (x, g') -> 0 < bound -> 0 <= x < bound)
  /\ (forall g, RngOps.UniformU64 0 g = Some (0, g))
  /\ (forall bound g x g',
        RngOps.UniformU32 bound g = Some (x, g') -> 0 < bound <= u32_max -> 0 <= x < bound)
  /\ (forall k g, 0 <= k < 64 ->
        RngOps.UniformU64 (2 ^ k) g
        = Some (Z.shiftr (fst (RngOps.NextU64 g)) (64 - k), snd (RngOps.NextU64 g))).
Proof.
  split; [| split; [| split]].
  - intros bound g x g' Hu Hpos. apply (UniformU64_range _ _ _ _ Hpos Hu).
  - intros g. reflexivity.
  - intros bound g x g' Hu Hr. apply (UniformU32_range _ _ _ _ Hr Hu).
  - intros k g Hk. unfold RngOps.UniformU64.
    assert (Hp : 0 < 2 ^ k) by (apply Z.pow_pos_nonneg; lia).
    destruct (Z.eqb_spec (2 ^ k) 0); [lia |].
    rewrite (pow2_threshold k Hk).
    unfold word_fuel. cbn [RngOps.UniformU64_loop].
    destruct (RngOps.NextU64 g) as [r g1]. cbn [fst snd].
    pose proof (wrap64_range (r * 2 ^ k)) as Hw.
    destruct (Z.leb_spec 0 (wrap64 (r * 2 ^ k))); [| lia].
    rewrite (high_word_pow2 r k Hk). reflexivity.
Qed.

(** ** Seed derivation is injective *)

Lemma testbit_high x n : 0 <= x < 2 ^ 64 -> 64 <= n -> Z.testbit x n = false.
Proof.
  intros Hx Hn. destruct (Z.eq_dec x 0) as [->|Hne]; [apply Z.bits_0 |].
  apply Z.bits_above_log2; [lia |].
  assert (Z.log2 x < 64); [| lia]. apply Z.log2_lt_pow2; lia.
Qed.

Lemma lxor_range a b : 0 <= a < 2 ^ 64 -> 0 <= b < 2 ^ 64 -> 0 <= Z.lxor a b < 2 ^ 64.
Proof.
  intros Ha Hb.
  assert (H0 : 0 <= Z.lxor a b) by (apply Z.lxor_nonneg; lia).
  split; [exact H0 |].
  destruct (Z.eq_dec (Z.lxor a b) 0) as [->|Hne]; [lia |].
  apply Z.log2_lt_pow2; [lia |].
  pose proof (Z.log2_lxor a b ltac:(lia) ltac:(lia)) as Hl.
  assert (Z.log2 a < 64).
  { destruct (Z.eq_dec a 0) as [->|?]; [cbn; lia | apply Z.log2_lt_pow2; lia]. }
  assert (Z.log2 b < 64).
  { destruct (Z.eq_dec b 0) as [->|?]; [cbn; lia | apply Z.log2_lt_pow2; lia]. }
  lia.
Qed.

Lemma shiftr_range a k : 0 <= k -> 0 <= a < 2 ^ 64 -> 0 <= Z.shiftr a k < 2 ^ 64.
Proof.
  intros Hk Ha. rewrite Z.shiftr_div_pow2 by lia. split.
  - apply Z.div_pos; lia.
  - apply Z.div_lt_upper_bound; [lia |]. assert (1 <= 2 ^ k) by lia. nia.
Qed.

Lemma lxor_shiftr_inj k a b :
  0 < k -> 0 <= a < 2 ^ 64 -> 0 <= b < 2 ^ 64 ->
  Z.lxor a (Z.shiftr a k) = Z.lxor b (Z.shiftr b k) -> a = b.
Proof.
  intros Hk Ha Hb Heq.
  assert (Hind : forall m : nat, forall n, 64 - Z.of_nat m <= n -> 0 <= n ->
                   Z.testbit a n = Z.testbit b n).
  { induction m as [|m IH]; intros n Hn1 Hn0.
    - rewrite !testbit_high by lia. reflexivity.
    - pose proof (f_equal (fun z => Z.testbit z n) Heq) as Hbit. cbn beta in Hbit.
      rewrite !Z.lxor_spec, !Z.shiftr_spec in Hbit by lia.
      rewrite (IH (n + k)) in Hbit by lia.
      destruct (Z.testbit a n), (Z.testbit b n), (Z.testbit b (n + k));
        cbn in Hbit; congruence. }
  apply Z.bits_inj'. intros n Hn. apply (Hind 64%nat); lia.
Qed.

Lemma mul_odd_inj c cinv a b :
  wrap64 (c * cinv) = 1 -> 0 <= a < 2 ^ 64 -> 0 <= b < 2 ^ 64 ->
  wrap64 (a * c) = wrap64 (b * c) -> a = b.
Proof.
  unfold wrap64. intros Hc Ha Hb Heq.
  assert (Hrec : forall x, 0 <= x < 2 ^ 64 -> ((x * c) mod 2 ^ 64 * cinv) mod 2 ^ 64 = x).
  { intros x Hx. rewrite Z.mul_mod_idemp_l by lia.
    rewrite <- Z.mul_assoc, <- Z.mul_mod_idemp_r, Hc by lia.
    rewrite Z.mul_1_r. apply Z.mod_small. exact Hx. }
  rewrite <- (Hrec a Ha), <- (Hrec b Hb), Heq. reflexivity.
Qed.

Lemma add_wrap_inj c a b :
  0 <= a < 2 ^ 64 -> 0 <= b < 2 ^ 64 -> wrap64 (a + c) = wrap64 (b + c) -> a = b.
Proof.
  unfold wrap64. intros Ha Hb Heq.
  assert (Hrec : forall x, 0 <= x < 2 ^ 64 -> ((x + c) mod 2 ^ 64 - c) mod 2 ^ 64 = x).
  { intros x Hx. rewrite Zminus_mod_idemp_l. replace (x + c - c) with x by lia.
    apply Z.mod_small. exact Hx. }
  rewrite <- (Hrec a Ha), <- (Hrec b Hb), Heq. reflexivity.
Qed.

Lemma splitmix_mix_inj a b :
  0 <= a < 2 ^ 64 -> 0 <= b < 2 ^ 64 -> splitmix_mix a = splitmix_mix b -> a = b.
Proof.
  intros Ha Hb. unfold splitmix_mix. intros Heq.
  apply lxor_shiftr_inj in Heq; [| lia | apply wrap64_range ..].
  apply (mul_odd_inj _ 0x319642b2d24d8ec3) in Heq;
    [| reflexivity | apply lxor_range; [apply wrap64_range | apply shiftr_range;
                                          [lia | apply wrap64_range]] ..].
  apply lxor_shiftr_inj in Heq; [| lia | apply wrap64_range ..].
  apply (mul_odd_inj _ 0x96de1b173f119089) in Heq;
    [| reflexivity | apply lxor_range; [assumption | apply shiftr_range; [lia | assumption]] ..].
  apply lxor_shiftr_inj in Heq; [exact Heq | lia | assumption ..].
Qed.

Lemma HashSeed_inj a b :
  0 <= a < 2 ^ 64 -> 0 <= b < 2 ^ 64 -> HashSeed a = HashSeed b -> a = b.
Proof.
  intros Ha Hb. unfold HashSeed. intros Heq.
  apply splitmix_mix_inj in Heq; [| apply wrap64_range ..].
  apply (add_wrap_inj _ _ _ Ha Hb Heq).
Qed.

Lemma lxor_cancel_l m x y : Z.lxor m x = Z.lxor m y -> x = y.
Proof.
  intros Heq. apply (f_equal (Z.lxor m)) in Heq.
  rewrite <- !Z.lxor_assoc, Z.lxor_nilpotent, !Z.lxor_0_l in Heq. exact Heq.
Qed.

Lemma lxor_cancel_r m x y : Z.lxor x m = Z.lxor y m -> x = y.
Proof. rewrite !(Z.lxor_comm _ m). apply lxor_cancel_l. Qed.

(** X2: seed derivation never merges streams.  On [u64] values [HashSeed]
    is injective, and [DeriveSeed] is injective in the salt for a fixed
    master seed and in the master seed for a fixed salt; so the seeds of the
    count phase and of the sample phase, [DeriveSeed seed 1] and
    [DeriveSeed seed 2], differ for every seed. *)
Theorem derive_seed_injective (master salt master' salt' : Z) :
  0 <= master < 2 ^ 64 -> 0 <= salt < 2 ^ 64 ->
  0 <= master' < 2 ^ 64 -> 0 <= salt' < 2 ^ 64 ->
  (HashSeed master = HashSeed master' -> master = master')
  /\ (DeriveSeed master salt = DeriveSeed master salt' -> salt = salt')
  /\ (DeriveSeed master salt = DeriveSeed master' salt -> master = master')
  /\ DeriveSeed master 1 <> DeriveSeed master 2.
Proof.
  intros Hm Hs Hm' Hs'.
  assert (Hinj : forall m s s', 0 <= m < 2 ^ 64 -> 0 <= s < 2 ^ 64 -> 0 <= s' < 2 ^ 64 ->
            DeriveSeed m s = DeriveSeed m s' -> s = s').
  { intros m s s' Hmr Hsr Hsr'. unfold DeriveSeed. intros Heq.
    apply HashSeed_inj in Heq; [| apply lxor_range; [assumption | apply wrap64_range] ..].
    apply lxor_cancel_l in Heq. apply (add_wrap_inj _ _ _ Hsr Hsr' Heq). }
  split; [apply HashSeed_inj; assumption |].
  split; [apply Hinj; assumption |].
  split.
  - unfold DeriveSeed. intros Heq.
    apply HashSeed_inj in Heq; [| apply lxor_range; [assumption | apply wrap64_range] ..].
    apply lxor_cancel_r in Heq. exact Heq.
  - intros Heq. apply Hinj in Heq; lia.
Qed.

Lemma derive_seed_injective_witness :
  DeriveSeed 42 1 <> DeriveSeed 42 2.
Proof.
  apply (derive_seed_injective 42 1 42 2); lia.
Defined.

(** * Half-open boxes: membership, containment, bounding boxes *)

Lemma IsEmpty_false b :
  BoxOps.IsEmpty b = false <-> v0 (lo b) < v0 (hi b) /\ v1 (lo b) < v1 (hi b).
Proof.
  unfold BoxOps.IsEmpty. cbn [existsb axes coord].
  destruct (Z.ltb_spec (v0 (lo b)) (v0 (hi b))), (Z.ltb_spec (v1 (lo b)) (v1 (hi b)));
    cbn; split; try discriminate; try reflexivity; lia.
Qed.

Lemma Intersects_true a b :
  BoxOps.Intersects a b = true
  <-> (v0 (lo a) < v0 (hi a) /\ v1 (lo a) < v1 (hi a))
      /\ (v0 (lo b) < v0 (hi b) /\ v1 (lo b) < v1 (hi b))
      /\ v0 (lo a) < v0 (hi b) /\ v0 (lo b) < v0 (hi a)
      /\ v1 (lo a) < v1 (hi b) /\ v1 (lo b) < v1 (hi a).
Proof.
  unfold BoxOps.Intersects.
  destruct (BoxOps.IsEmpty a) eqn:Ha; cbn [orb].
  { split; [discriminate |]. intros (Hp & _). apply IsEmpty_false in Hp. congruence. }
  destruct (BoxOps.IsEmpty b) eqn:Hb.
  { split; [discriminate |]. intros (_ & Hp & _). apply IsEmpty_false in Hp. congruence. }
  apply IsEmpty_false in Ha. apply IsEmpty_false in Hb.
  cbn [forallb axes coord].
  destruct (Z.ltb_spec (v0 (lo a)) (v0 (hi b))), (Z.ltb_spec (v0 (lo b)) (v0 (hi a))),
           (Z.ltb_spec (v1 (lo a)) (v1 (hi b))), (Z.ltb_spec (v1 (lo b)) (v1 (hi a)));
    cbn; split; try discriminate; try lia; intros; repeat split; lia.
Qed.

Lemma Contains_true b p :
  BoxQueries.Contains b p = true
  <-> v0 (lo b) <= v0 p < v0 (hi b) /\ v1 (lo b) <= v1 p < v1 (hi b).
Proof.
  unfold BoxQueries.Contains.
  destruct (BoxOps.IsEmpty b) eqn:Hb.
  { split; [discriminate |]. intros [H0 H1].
    assert (BoxOps.IsEmpty b = false) by (apply IsEmpty_false; lia). congruence. }
  cbn [forallb axes coord].
  destruct (Z.ltb_spec (v0 p) (v0 (lo b))), (Z.ltb_spec (v0 p) (v0 (hi b))),
           (Z.ltb_spec (v1 p) (v1 (lo b))), (Z.ltb_spec (v1 p) (v1 (hi b)));
    cbn; split; try discriminate; try lia; intros; reflexivity.
Qed.

Lemma ContainsBox_true outer inner :
  BoxQueries.ContainsBox outer inner = true
  <-> BoxOps.IsEmpty inner = true
      \/ (BoxOps.IsEmpty inner = false /\ BoxOps.IsEmpty outer = false
          /\ v0 (lo outer) <= v0 (lo inner) /\ v0 (hi inner) <= v0 (hi outer)
          /\ v1 (lo outer) <= v1 (lo inner) /\ v1 (hi inner) <= v1 (hi outer)).
Proof.
  unfold BoxQueries.ContainsBox.
  destruct (BoxOps.IsEmpty inner) eqn:Hi; [split; [left; reflexivity | reflexivity] |].
  destruct (BoxOps.IsEmpty outer) eqn:Ho.
  { split; [discriminate |]. intros [? | (_ & ? & _)]; discriminate. }
  cbn [forallb axes coord].
  destruct (Z.ltb_spec (v0 (lo inner)) (v0 (lo outer))),
           (Z.ltb_spec (v0 (hi outer)) (v0 (hi inner))),
           (Z.ltb_spec (v1 (lo inner)) (v1 (lo outer))),
           (Z.ltb_spec (v1 (hi outer)) (v1 (hi inner)));
    cbn; split; try discriminate;
    try (intros [? | (_ & _ & ? & ? & ? & ?)]; [discriminate | lia]);
    intros _; right; repeat split; lia.
Qed.

(** X3: the half-open intersection test is the existence of a common
    point.  Two boxes intersect exactly when some point is contained in
    both, so the test is symmetric, and an empty box (some [lo >= hi])
    intersects nothing, itself included. *)
Theorem intersects_iff_common_point (a b : Box) :
  (BoxOps.Intersects a b = true
   <-> exists p, BoxQueries.Contains a p = true /\ BoxQueries.Contains b p = true)
  /\ BoxOps.Intersects a b = BoxOps.Intersects b a
  /\ (BoxOps.IsEmpty a = true -> BoxOps.Intersects a b = false)
  /\ (BoxOps.Intersects a a = BoxOps.IsProper a).
Proof.
  split; [| split; [| split]].
  - rewrite Intersects_true. split.
    + intros (Ha & Hb & H1 & H2 & H3 & H4).
      exists (mkPoint (Z.max (v0 (lo a)) (v0 (lo b))) (Z.max (v1 (lo a)) (v1 (lo b)))).
      rewrite !Contains_true. cbn [v0 v1]. lia.
    + intros (p & Hpa & Hpb). rewrite Contains_true in Hpa, Hpb. lia.
  - destruct (BoxOps.Intersects a b) eqn:Hab; symmetry.
    + apply Intersects_true. apply Intersects_true in Hab. lia.
    + destruct (BoxOps.Intersects b a) eqn:Hba; [| reflexivity].
      apply Intersects_true in Hba.
      assert (BoxOps.Intersects a b = true) by (apply Intersects_true; lia). congruence.
  - intros He. unfold BoxOps.Intersects. rewrite He. reflexivity.
  - unfold BoxOps.IsProper. destruct (BoxOps.IsEmpty a) eqn:He.
    + unfold BoxOps.Intersects. rewrite He. reflexivity.
    + cbn [negb]. apply Intersects_true. apply IsEmpty_false in He. lia.
Qed.

(** X4: [ContainsBox] is a preorder that every membership and intersection
    test respects: it is reflexive and transitive, a point of the inner box
    is a point of the outer box, and whatever the inner box intersects the
    outer box intersects too. *)
Theorem contains_box_is_monotone (a b c : Box) (p : Point) :
  BoxQueries.ContainsBox a a = true
  /\ (BoxQueries.ContainsBox a b = true -> BoxQueries.ContainsBox b c = true ->
      BoxQueries.ContainsBox a c = true)
  /\ (BoxQueries.ContainsBox a b = true -> BoxQueries.Contains b p = true ->
      BoxQueries.Contains a p = true)
  /\ (BoxQueries.ContainsBox a b = true -> BoxOps.Intersects b c = true ->
      BoxOps.Intersects a c = true).
Proof.
  split; [| split; [| split]].
  - apply ContainsBox_true. destruct (BoxOps.IsEmpty a) eqn:He; [left; reflexivity |].
    right. repeat split; try reflexivity; lia.
  - rewrite !ContainsBox_true.
    intros [Hb | (Hb & Ha & Hab)] [Hc | (Hc & Hb' & Hbc)]; try (left; assumption);
      try congruence.
    right. repeat split; try assumption; lia.
  - rewrite ContainsBox_true, !Contains_true.
    intros [Hb | (Hb & Ha & Hab)] Hp.
    + assert (BoxOps.IsEmpty b = false) by (apply IsEmpty_false; lia). congruence.
    + lia.
  - rewrite ContainsBox_true, !Intersects_true.
    intros [Hb | (Hb & Ha & Hab)] Hi.
    + assert (BoxOps.IsEmpty b = false) by (apply IsEmpty_false; lia). congruence.
    + apply IsEmpty_false in Ha. lia.
Qed.

(** X5: [ExpandToIncludeBox] returns the least box containing both: the
    expanded box contains the box it started from and the box added, and
    every box that contains two non-empty boxes contains the expansion of one
    by the other. *)
Theorem expand_is_least_upper_bound (a b c : Box) :
  BoxQueries.ContainsBox (BoxQueries.ExpandToIncludeBox a b) a = true
  /\ BoxQueries.ContainsBox (BoxQueries.ExpandToIncludeBox a b) b = true
  /\ (BoxOps.IsEmpty a = false -> BoxOps.IsEmpty b = false ->
      BoxQueries.ContainsBox c a = true -> BoxQueries.ContainsBox c b = true ->
      BoxQueries.ContainsBox c (BoxQueries.ExpandToIncludeBox a b) = true).
Proof.
  assert (Hexp : forall x y,
            let e := BoxQueries.ExpandToIncludeBox x y in
            v0 (lo e) = Z.min (v0 (lo x)) (v0 (lo y))
            /\ v1 (lo e) = Z.min (v1 (lo x)) (v1 (lo y))
            /\ v0 (hi e) = Z.max (v0 (hi x)) (v0 (hi y))
            /\ v1 (hi e) = Z.max (v1 (hi x)) (v1 (hi y))).
  { intros x y. unfold BoxQueries.ExpandToIncludeBox. cbn [lo hi v0 v1 coord].
    destruct (Z.ltb_spec (v0 (lo y)) (v0 (lo x))), (Z.ltb_spec (v1 (lo y)) (v1 (lo x))),
             (Z.ltb_spec (v0 (hi x)) (v0 (hi y))), (Z.ltb_spec (v1 (hi x)) (v1 (hi y))); lia. }
  destruct (Hexp a b) as (E1 & E2 & E3 & E4).
  split; [| split].
  - apply ContainsBox_true. destruct (BoxOps.IsEmpty a) eqn:Ha; [left; reflexivity |].
    right. apply IsEmpty_false in Ha.
    split; [reflexivity |]. split; [apply IsEmpty_false; lia | lia].
  - apply ContainsBox_true. destruct (BoxOps.IsEmpty b) eqn:Hb; [left; reflexivity |].
    right. apply IsEmpty_false in Hb.
    split; [reflexivity |]. split; [apply IsEmpty_false; lia | lia].
  - intros Ha Hb. rewrite !ContainsBox_true.
    intros [? | (_ & Hc & Hca)] [? | (_ & _ & Hcb)]; try congruence.
    right. apply IsEmpty_false in Ha.
    split; [apply IsEmpty_false; lia |]. split; [exact Hc | lia].
Qed.

(** * Editing a relation keeps the ids of its objects *)

(** What [Validate] asks of the ids: none, or one for every box. *)
Definition ids_ok (r : Relation) : Prop :=
  ids r = [] \/ length (ids r) = length (boxes r).

Lemma vget_app_l {A} (l1 l2 : list A) i :
  0 <= i < Z.of_nat (length l1) -> vget (l1 ++ l2) i = vget l1 i.
Proof.
  intros Hi. unfold vget. destruct (Z.ltb_spec i 0); [lia |].
  apply lookup_app_l. lia.
Qed.

Lemma vget_app_len {A} (l1 l2 : list A) x :
  vget (l1 ++ x :: l2) (Z.of_nat (length l1)) = Some x.
Proof.
  unfold vget. destruct (Z.ltb_spec (Z.of_nat (length l1)) 0); [lia |].
  rewrite Nat2Z.id. apply list_lookup_middle. reflexivity.
Qed.

Lemma length_sequential_ids n : length (RelationEdit.sequential_ids n) = n.
Proof.
  unfold RelationEdit.sequential_ids, upto. rewrite length_map, length_seqZ. lia.
Qed.

Lemma vget_sequential_ids n i :
  0 <= i < Z.of_nat n -> vget (RelationEdit.sequential_ids n) i = Some (wrap32 i).
Proof.
  intros Hi. unfold RelationEdit.sequential_ids, upto. rewrite vget_map.
  unfold vget. destruct (Z.ltb_spec i 0); [lia |].
  rewrite lookup_seqZ_lt by lia. cbn. f_equal. f_equal. lia.
Qed.

Lemma GetId_implicit r i : ids r = [] -> RelationOps.GetId r i = Some (wrap32 i).
Proof. intros H. unfold RelationOps.GetId. rewrite H. reflexivity. Qed.

Lemma GetId_explicit r i : ids r <> [] -> RelationOps.GetId r i = vget (ids r) i.
Proof. intros H. unfold RelationOps.GetId. destruct (ids r); [congruence | reflexivity]. Qed.

Lemma length_zero_iff {A} (l : list A) : Nat.eqb (length l) 0 = true <-> l = [].
Proof. destruct l; cbn; split; congruence. Qed.

(** X6: adding an object and materialising the ids never changes the id of
    an object already stored.  For a relation whose ids are absent or
    complete, after [Add(b, id)] every old position has the box and the id it
    had, the new position holds [b] with the id given (or its position, when
    none is given), and the ids are again absent or complete; [EnsureIds]
    leaves every box and every id as it was. *)
Theorem add_keeps_ids (r : Relation) (b : Box) (id : option Z) :
  ids_ok r ->
  let r' := RelationEdit.Add r b id in
  boxes r' = boxes r ++ [b]
  /\ ids_ok r'
  /\ (forall i, 0 <= i < RelationOps.Size r ->
        RelationOps.GetId r' i = RelationOps.GetId r i)
  /\ RelationOps.GetId r' (RelationOps.Size r)
     = Some (match id with Some x => x | None => wrap32 (RelationOps.Size r) end)
  /\ boxes (RelationEdit.EnsureIds r) = boxes r
  /\ ids_ok (RelationEdit.EnsureIds r)
  /\ (forall i, 0 <= i < RelationOps.Size r ->
        RelationOps.GetId (RelationEdit.EnsureIds r) i = RelationOps.GetId r i).
Proof.
  intros Hok r'. unfold RelationOps.Size.
  assert (Hadd : boxes r' = boxes r ++ [b]).
  { unfold r', RelationEdit.Add. destruct id; [reflexivity |].
    destruct (negb _); reflexivity. }
  split; [exact Hadd |].
  destruct (ids r) as [|x0 xs] eqn:Hids.
  - (* implicit ids *)
    assert (Hr : ids r = []) by exact Hids.
    destruct id as [x|].
    + assert (Hi' : ids r' = RelationEdit.sequential_ids (length (boxes r)) ++ [x]).
      { unfold r', RelationEdit.Add. rewrite Hids. cbn [length Nat.eqb andb ids].
        rewrite length_app. cbn [length].
        destruct (Z.ltb_spec 1 (Z.of_nat (length (boxes r) + 1))) as [Hlt|Hge].
        - replace (length (boxes r) + 1 - 1)%nat with (length (boxes r)) by lia. reflexivity.
        - assert (length (boxes r) = 0%nat) as -> by lia. reflexivity. }
      assert (Hne : ids r' <> []) by (rewrite Hi'; intros E; apply app_eq_nil in E as [_ E]; discriminate).
      split; [| split; [| split]].
      * right. rewrite Hi', Hadd, !length_app, length_sequential_ids. reflexivity.
      * intros i Hi. rewrite (GetId_explicit r' i Hne), Hi', (GetId_implicit r i Hr).
        rewrite vget_app_l by (rewrite length_sequential_ids; lia).
        apply vget_sequential_ids. lia.
      * rewrite (GetId_explicit r' _ Hne), Hi'.
        rewrite <- (length_sequential_ids (length (boxes r))) at 2.
        apply vget_app_len.
      * unfold RelationEdit.EnsureIds. rewrite Hids. cbn [boxes ids].
        split; [reflexivity |]. split.
        { right. apply length_sequential_ids. }
        intros i Hi. rewrite (GetId_implicit r i Hr).
        destruct (boxes r) as [|b0 bs] eqn:Hb; [cbn in Hi; lia |].
        rewrite GetId_explicit.
        { cbn [ids]. apply vget_sequential_ids. exact Hi. }
        cbn [ids]. intros E. apply (f_equal length) in E.
        rewrite length_sequential_ids in E. discriminate.
    + assert (Hi' : ids r' = []).
      { unfold r', RelationEdit.Add. rewrite Hids. reflexivity. }
      split; [| split; [| split]].
      * left. exact Hi'.
      * intros i Hi. rewrite (GetId_implicit r' i Hi'), (GetId_implicit r i Hr). reflexivity.
      * rewrite (GetId_implicit r' _ Hi'). reflexivity.
      * unfold RelationEdit.EnsureIds. rewrite Hids. cbn [boxes ids].
        split; [reflexivity |]. split.
        { right. apply length_sequential_ids. }
        intros i Hi. rewrite (GetId_implicit r i Hr).
        destruct (boxes r) as [|b0 bs] eqn:Hb; [cbn in Hi; lia |].
        rewrite GetId_explicit.
        { cbn [ids]. apply vget_sequential_ids. exact Hi. }
        cbn [ids]. intros E. apply (f_equal length) in E.
        rewrite length_sequential_ids in E. discriminate.
  - (* explicit ids *)
    assert (Hr : ids r <> []) by (rewrite Hids; discriminate).
    assert (Hlen : length (ids r) = length (boxes r)).
    { destruct Hok as [E | E]; [rewrite Hids in E; discriminate | exact E]. }
    assert (Hi' : ids r' = ids r ++ [match id with
                                      | Some x => x
                                      | None => wrap32 (Z.of_nat (length (boxes r)))
                                      end]).
    { unfold r', RelationEdit.Add. rewrite Hids. cbn [length Nat.eqb andb negb ids].
      destruct id; [reflexivity |]. cbn [ids]. rewrite length_app. cbn [length].
      do 3 f_equal. lia. }
    assert (Hne : ids r' <> []) by (rewrite Hi'; intros E; apply app_eq_nil in E as [_ E]; discriminate).
    split; [| split; [| split]].
    + right. rewrite Hi', Hadd, !length_app, Hlen. reflexivity.
    + intros i Hi. rewrite (GetId_explicit r' i Hne), Hi', (GetId_explicit r i Hr).
      apply vget_app_l. lia.
    + rewrite (GetId_explicit r' _ Hne), Hi', <- Hlen.
      rewrite vget_app_len. destruct id; [reflexivity |]. rewrite Hlen. reflexivity.
    + assert (HE : RelationEdit.EnsureIds r = r)
        by (unfold RelationEdit.EnsureIds; rewrite Hids; reflexivity).
      rewrite HE. split; [reflexivity |]. split; [right; exact Hlen |]. reflexivity.
Qed.

Lemma add_keeps_ids_witness :
  RelationOps.GetId
    (RelationEdit.Add (RelationEdit.Add (mkRelation [] []) (bx 0 0 1 1) None)
       (bx 0 0 2 2) (Some 7)) 0 = Some 0
  /\ RelationOps.GetId
       (RelationEdit.Add (RelationEdit.Add (mkRelation [] []) (bx 0 0 1 1) None)
          (bx 0 0 2 2) (Some 7)) 1 = Some 7.
Proof.
  pose proof (add_keeps_ids (RelationEdit.Add (mkRelation [] []) (bx 0 0 1 1) None)
                (bx 0 0 2 2) (Some 7)) as H.
  cbv zeta in H. destruct H as (_ & _ & Hold & Hnew & _).
  - left. reflexivity.
  - split.
    + rewrite (Hold 0) by (unfold RelationOps.Size; cbn; lia). reflexivity.
    + exact Hnew.
Defined.

(** * Removing the empty boxes *)

(** The elements of [l] whose flag is set. *)
Definition pick {A} (flags : list bool) (l : list A) : list A :=
  map snd (List.filter fst (zip flags l)).

Definition nonempty_flags (bs : list Box) : list bool :=
  map (fun b => negb (BoxOps.IsEmpty b)) bs.

Lemma pick_nil_r {A} flags : pick flags (@nil A) = [].
Proof. unfold pick. destruct flags; reflexivity. Qed.

Lemma pick_snoc {A} (flags : list bool) (l : list A) (f : bool) (x : A) :
  length flags = length l ->
  pick (flags ++ [f]) (l ++ [x]) = pick flags l ++ (if f then [x] else []).
Proof.
  intros Hl. unfold pick. rewrite zip_with_app by exact Hl.
  rewrite List.filter_app, map_app. cbn [zip_with List.filter fst].
  destruct f; reflexivity.
Qed.

Lemma pick_take_S {A} (flags : list bool) (l : list A) (i : nat) (f : bool) (x : A) :
  flags !! i = Some f -> l !! i = Some x ->
  pick (take (Datatypes.S i) flags) (take (Datatypes.S i) l)
  = pick (take i flags) (take i l) ++ (if f then [x] else []).
Proof.
  intros Hf Hx. rewrite (take_S_r _ _ _ Hf), (take_S_r _ _ _ Hx).
  apply pick_snoc. rewrite !length_take.
  apply lookup_lt_Some in Hf. apply lookup_lt_Some in Hx. lia.
Qed.

Lemma pick_flags_filter bs :
  pick (nonempty_flags bs) bs = List.filter (fun b => negb (BoxOps.IsEmpty b)) bs.
Proof.
  unfold pick, nonempty_flags. induction bs as [|b bs IH]; [reflexivity |].
  cbn [map zip_with List.filter fst]. destruct (negb (BoxOps.IsEmpty b)); cbn [map snd];
    rewrite IH; reflexivity.
Qed.

Lemma length_pick_le {A} flags (l : list A) : (length (pick flags l) <= length l)%nat.
Proof.
  unfold pick. rewrite length_map.
  etransitivity; [apply List.filter_length_le |]. rewrite length_zip_with. lia.
Qed.

(** One vector under one round of the compaction. *)
Lemma compact_keep {A} (v v0 : list A) flags i w x :
  length v = length v0 -> drop i v = drop i v0 ->
  take w v = pick (take i flags) (take i v0) -> (w <= i)%nat ->
  v0 !! i = Some x -> flags !! i = Some true ->
  let v' := if decide (w = i) then v else <[w := x]> v in
  length v' = length v0
  /\ drop (Datatypes.S i) v' = drop (Datatypes.S i) v0
  /\ take (Datatypes.S w) v' = pick (take (Datatypes.S i) flags) (take (Datatypes.S i) v0).
Proof.
  intros Hlen Hdrop Htake Hw Hx Hf v'.
  assert (Hvi : v !! i = Some x).
  { pose proof (lookup_drop v i 0) as H1. rewrite Hdrop, lookup_drop in H1.
    rewrite !Nat.add_0_r in H1. rewrite <- H1. exact Hx. }
  assert (Hi : (i < length v)%nat) by (apply lookup_lt_Some in Hvi; exact Hvi).
  rewrite (pick_take_S _ _ _ _ _ Hf Hx), <- Htake.
  assert (Hd : drop (Datatypes.S i) v = drop (Datatypes.S i) v0).
  { replace (Datatypes.S i) with (i + 1)%nat by lia.
    rewrite <- !drop_drop, Hdrop. reflexivity. }
  unfold v'. destruct (decide (w = i)) as [->|Hne].
  - split; [exact Hlen |]. split; [exact Hd |]. apply take_S_r. exact Hvi.
  - split; [rewrite length_insert; exact Hlen |]. split.
    + rewrite drop_insert_lt by lia. exact Hd.
    + rewrite (take_S_r _ _ x) by (apply list_lookup_insert_eq; lia).
      rewrite take_insert_ge by lia. reflexivity.
Qed.

Lemma compact_skip {A} (v v0 : list A) flags i w x :
  drop i v = drop i v0 ->
  take w v = pick (take i flags) (take i v0) ->
  v0 !! i = Some x -> flags !! i = Some false ->
  drop (Datatypes.S i) v = drop (Datatypes.S i) v0
  /\ take w v = pick (take (Datatypes.S i) flags) (take (Datatypes.S i) v0).
Proof.
  intros Hdrop Htake Hx Hf. split.
  - replace (Datatypes.S i) with (i + 1)%nat by lia.
    rewrite <- !drop_drop, Hdrop. reflexivity.
  - rewrite (pick_take_S _ _ _ _ _ Hf Hx), app_nil_r. exact Htake.
Qed.

Lemma vget_of_drop {A} (v v0 : list A) i x :
  drop i v = drop i v0 -> v0 !! i = Some x -> vget v (Z.of_nat i) = Some x.
Proof.
  intros Hdrop Hx. apply vget_Some. split; [lia |]. rewrite Nat2Z.id.
  pose proof (lookup_drop v i 0) as H1. rewrite Hdrop, lookup_drop in H1.
  rewrite !Nat.add_0_r in H1. rewrite <- H1. exact Hx.
Qed.

Lemma compact_step_eq has_ids bs ids_ w i :
  RelationEdit.compact_step has_ids (bs, ids_, w) i
  = (b ← vget bs i;
     if negb (BoxOps.IsEmpty b) then
       st ← (if negb (w =? i) then
               bs' ← vset bs w b;
               ids' ← (if has_ids then x ← vget ids_ i; vset ids_ w x else Some ids_);
               Some (bs', ids')
             else Some (bs, ids_));
       Some (st.1, st.2, w + 1)
     else Some (bs, ids_, w)).
Proof.
  unfold RelationEdit.compact_step. destruct (vget bs i) as [b|]; [| reflexivity].
  cbn [mbind option_bind]. destruct (negb (BoxOps.IsEmpty b)); [| reflexivity].
  destruct (negb (w =? i)); [| reflexivity].
  destruct (vset bs w b) as [bs'|]; [| reflexivity]. cbn [mbind option_bind].
  destruct has_ids; [| reflexivity].
  destruct (vget ids_ i) as [x|]; [| reflexivity]. cbn [mbind option_bind].
  destruct (vset ids_ w x); reflexivity.
Qed.

Definition ids_inv (bs0 : list Box) (is0 : list Z) (has_ids : bool) (i w : nat)
    (ids_ : list Z) : Prop :=
  if has_ids
  then length ids_ = length is0 /\ drop i ids_ = drop i is0
       /\ take w ids_ = pick (take i (nonempty_flags bs0)) (take i is0)
  else ids_ = is0.

Lemma compact_loop bs0 is0 has_ids :
  (has_ids = true -> length is0 = length bs0) ->
  forall k i bs ids_ w,
  (i + k = length bs0)%nat ->
  length bs = length bs0 -> drop i bs = drop i bs0 ->
  take w bs = pick (take i (nonempty_flags bs0)) (take i bs0) -> (w <= i)%nat ->
  ids_inv bs0 is0 has_ids i w ids_ ->
  exists bs' ids' w',
    ofold (RelationEdit.compact_step has_ids) (seqZ (Z.of_nat i) (Z.of_nat k))
      (bs, ids_, Z.of_nat w) = Some (bs', ids', Z.of_nat w')
    /\ (w' <= length bs0)%nat
    /\ take w' bs' = pick (nonempty_flags bs0) bs0
    /\ ids_inv bs0 is0 has_ids (length bs0) w' ids'.
Proof.
  intros Hids.
  induction k as [|k IH]; intros i bs ids_ w Hik Hlen Hdrop Htake Hw Hinv.
  - assert (i = length bs0) by lia. subst i.
    exists bs, ids_, w. split; [reflexivity |]. split; [exact Hw |].
    split; [| exact Hinv].
    rewrite Htake. rewrite !firstn_all2; [reflexivity | lia |].
    unfold nonempty_flags. rewrite length_map. lia.
  - rewrite seqZ_cons_S. cbn [ofold].
    destruct (lookup_lt_is_Some_2 bs0 i ltac:(lia)) as [b Hb].
    assert (Hfl : nonempty_flags bs0 !! i = Some (negb (BoxOps.IsEmpty b))).
    { unfold nonempty_flags. change (map ?f ?l) with (f <$> l).
      rewrite list_lookup_fmap, Hb. reflexivity. }
    rewrite compact_step_eq.
    rewrite (vget_of_drop _ _ _ _ Hdrop Hb). cbn [mbind option_bind].
    replace (Z.of_nat i + 1) with (Z.of_nat (Datatypes.S i)) by lia.
    destruct (BoxOps.IsEmpty b) eqn:He; cbn [negb] in Hfl |- *.
    + destruct (compact_skip _ _ _ _ _ _ Hdrop Htake Hb Hfl) as [Hd' Ht'].
      apply (IH (Datatypes.S i) bs ids_ w); try assumption; try lia.
      unfold ids_inv in *. destruct has_ids; [| exact Hinv].
      destruct Hinv as (Hl & Hdi & Hti). specialize (Hids eq_refl).
      destruct (lookup_lt_is_Some_2 is0 i ltac:(lia)) as [x Hx].
      destruct (compact_skip _ _ _ _ _ _ Hdi Hti Hx Hfl) as [Hdi' Hti'].
      split; [exact Hl |]. split; assumption.
    + destruct (compact_keep _ _ _ _ _ _ Hlen Hdrop Htake Hw Hb Hfl) as (Hl' & Hd' & Ht').
      destruct (Z.eqb_spec (Z.of_nat w) (Z.of_nat i)) as [Heq|Hne]; cbn [negb].
      * assert (w = i) by lia. subst w.
        destruct (decide (i = i)) as [_|?]; [| congruence].
        cbn [mbind option_bind fst snd].
        replace (Z.of_nat i + 1) with (Z.of_nat (Datatypes.S i)) by lia.
        apply (IH (Datatypes.S i) bs ids_ (Datatypes.S i)); try assumption; try lia.
        unfold ids_inv in *. destruct has_ids; [| exact Hinv].
        destruct Hinv as (Hl & Hdi & Hti). specialize (Hids eq_refl).
        destruct (lookup_lt_is_Some_2 is0 i ltac:(lia)) as [x Hx].
        destruct (compact_keep _ _ _ _ _ _ Hl Hdi Hti Hw Hx Hfl) as (Hli & Hdi' & Hti').
        destruct (decide (i = i)) as [_|?]; [| congruence].
        split; [exact Hli |]. split; assumption.
      * destruct (decide (w = i)) as [?|_]; [lia |].
        rewrite (vset_is_Some bs) by lia. cbn [mbind option_bind].
        rewrite Nat2Z.id.
        destruct has_ids.
        -- unfold ids_inv in Hinv.
           destruct Hinv as (Hl & Hdi & Hti). specialize (Hids eq_refl).
           destruct (lookup_lt_is_Some_2 is0 i ltac:(lia)) as [x Hx].
           destruct (compact_keep _ _ _ _ _ _ Hl Hdi Hti Hw Hx Hfl) as (Hli & Hdi' & Hti').
           destruct (decide (w = i)) as [?|_]; [lia |].
           rewrite (vget_of_drop _ _ _ _ Hdi Hx). cbn [mbind option_bind].
           rewrite (vset_is_Some ids_) by lia. cbn [mbind option_bind fst snd].
           rewrite Nat2Z.id.
           replace (Z.of_nat w + 1) with (Z.of_nat (Datatypes.S w)) by lia.
           apply (IH (Datatypes.S i)); try assumption; try lia.
           unfold ids_inv. split; [exact Hli |]. split; assumption.
        -- cbn [mbind option_bind fst snd].
           replace (Z.of_nat w + 1) with (Z.of_nat (Datatypes.S w)) by lia.
           apply (IH (Datatypes.S i)); try assumption; try lia.
Qed.

Lemma length_pick_same {A B} flags : forall (l1 : list A) (l2 : list B),
  length l1 = length l2 -> length (pick flags l1) = length (pick flags l2).
Proof.
  unfold pick. induction flags as [|f flags IH]; intros [|x l1] [|y l2] Hl;
    try discriminate; try reflexivity.
  cbn [zip_with List.filter fst]. injection Hl as Hl.
  destruct f; cbn [map length]; rewrite (IH l1 l2 Hl); reflexivity.
Qed.

Lemma fold_left_filter {A B} (f : A -> B -> A) (p : B -> bool) l : forall a,
  (forall x a, p x = false -> f a x = a) ->
  fold_left f (List.filter p l) a = fold_left f l a.
Proof.
  induction l as [|x l IH]; intros a Hp; [reflexivity |].
  cbn [List.filter fold_left]. destruct (p x) eqn:Hx.
  - cbn [fold_left]. apply IH. exact Hp.
  - rewrite (Hp x a Hx). apply IH. exact Hp.
Qed.

Lemma oracle_inner_empty_l rb bs : forall count,
  BoxOps.IsEmpty rb = true ->
  fold_left (fun count sb => if IntersectsHalfOpen rb sb then wrap64 (count + 1) else count)
    bs count = count.
Proof.
  induction bs as [|sb bs IH]; intros count He; [reflexivity |].
  assert (Hno : IntersectsHalfOpen rb sb = false).
  { unfold IntersectsHalfOpen, BoxOps.Intersects. rewrite He. reflexivity. }
  cbn [fold_left]. rewrite Hno. apply IH. exact He.
Qed.

(** The positions of the boxes that are kept, in their order. *)
Definition kept_positions (r : Relation) : list Z :=
  pick (nonempty_flags (boxes r)) (upto (Z.of_nat (length (boxes r)))).

(** [pick] reads the same positions from every vector. *)
Lemma pick_lookup_aligned {A} : forall (flags : list bool) (l : list A) s k i,
  length flags = length l ->
  pick flags (seqZ s (Z.of_nat (length l))) !! k = Some i ->
  s <= i /\ pick flags l !! k = l !! Z.to_nat (i - s).
Proof.
  unfold pick. induction flags as [|f flags IH]; intros [|x l] s k i Hl Hk;
    try discriminate.
  injection Hl as Hl. cbn [length] in Hk.
    rewrite Nat2Z.inj_succ, seqZ_cons in Hk by lia.
    replace (Z.pred (Z.succ (Z.of_nat (length l)))) with (Z.of_nat (length l)) in Hk by lia.
    cbn [zip_with List.filter fst] in Hk |- *. destruct f; cbn [map snd] in Hk |- *.
    + destruct k as [|k].
      * cbn in Hk. injection Hk as <-. split; [lia |].
        replace (s - s) with 0 by lia. reflexivity.
      * rewrite lookup_cons in Hk. destruct (IH l (Z.succ s) k i Hl Hk) as [Hs Hp].
        split; [lia |]. rewrite lookup_cons. rewrite Hp.
        replace (Z.to_nat (i - s)) with (Datatypes.S (Z.to_nat (i - Z.succ s))) by lia.
        reflexivity.
    + destruct (IH l (Z.succ s) k i Hl Hk) as [Hs Hp]. split; [lia |]. rewrite Hp.
      replace (Z.to_nat (i - s)) with (Datatypes.S (Z.to_nat (i - Z.succ s))) by lia.
      reflexivity.
Qed.

Lemma pick_kept (r : Relation) {A} (l : list A) k i :
  length l = length (boxes r) ->
  vget (kept_positions r) k = Some i ->
  0 <= i /\ vget (pick (nonempty_flags (boxes r)) l) k = vget l i.
Proof.
  intros Hl [Hk Hi]%vget_Some. unfold kept_positions, upto in Hi. rewrite <- Hl in Hi.
  destruct (pick_lookup_aligned (nonempty_flags (boxes r)) l 0 (Z.to_nat k) i) as [H0 Hp].
  - unfold nonempty_flags. rewrite length_map. symmetry. exact Hl.
  - exact Hi.
  - split; [exact H0 |]. unfold vget.
    destruct (Z.ltb_spec k 0); [lia |]. destruct (Z.ltb_spec i 0); [lia |].
    rewrite Hp, Z.sub_0_r. reflexivity.
Qed.

(** X7: [RemoveEmptyBoxes] keeps exactly the non-empty boxes, in order.  On
    a relation whose ids are absent or complete the in-place compaction
    never reads or writes out of range and leaves the boxes that are not
    empty.  When ids are stored, the box kept at position [k], which stood at
    position [i], keeps its id: [GetId(k)] after is [GetId(i)] before.  When
    no ids are stored none appear, so the id of that box, which is its
    position, changes from [i] to [k].  The result passes the validation
    that requires proper boxes whenever the relation passed the one that
    does not, and the brute-force join count is not changed on either
    side. *)
Theorem remove_empty_boxes_spec (r : Relation) :
  ids_ok r ->
  exists r',
    RelationEdit.RemoveEmptyBoxes r = Some r'
    /\ boxes r' = List.filter (fun b => negb (BoxOps.IsEmpty b)) (boxes r)
    /\ ids r' = pick (nonempty_flags (boxes r)) (ids r)
    /\ length (kept_positions r) = length (boxes r')
    /\ (forall k i, vget (kept_positions r) k = Some i ->
          vget (boxes r') k = vget (boxes r) i
          /\ RelationOps.GetId r i
             = (if decide (ids r = []) then Some (wrap32 i) else vget (ids r) i)
          /\ RelationOps.GetId r' k
             = (if decide (ids r = []) then Some (wrap32 k) else vget (ids r) i))
    /\ ids_ok r'
    /\ (RelationOps.Validate false r = true -> RelationOps.Validate true r' = true)
    /\ (forall s, CountNaive r' s = CountNaive r s /\ CountNaive s r' = CountNaive s r).
Proof.
  intros Hok.
  assert (Hspec : exists r',
            RelationEdit.RemoveEmptyBoxes r = Some r'
            /\ boxes r' = List.filter (fun b => negb (BoxOps.IsEmpty b)) (boxes r)
            /\ ids r' = pick (nonempty_flags (boxes r)) (ids r)).
  { unfold RelationEdit.RemoveEmptyBoxes.
    destruct (Nat.eqb (length (boxes r)) 0) eqn:Hn.
    - apply length_zero_iff in Hn. exists r. split; [reflexivity |].
      rewrite Hn. split; [reflexivity |].
      destruct Hok as [-> | Hl]; [rewrite pick_nil_r; reflexivity |].
      rewrite Hn in Hl. destruct (ids r); [| discriminate]. reflexivity.
    - set (has_ids := negb (Nat.eqb (length (ids r)) 0)).
      assert (Hh : has_ids = true -> length (ids r) = length (boxes r)).
      { unfold has_ids. intros Hh. destruct Hok as [E | E]; [| exact E].
        rewrite E in Hh. discriminate. }
      destruct (compact_loop (boxes r) (ids r) has_ids Hh (length (boxes r)) 0
                  (boxes r) (ids r) 0) as (bs' & ids' & w' & Hf & Hw' & Hbs & Hinv).
      + lia.
      + reflexivity.
      + reflexivity.
      + reflexivity.
      + lia.
      + unfold ids_inv. destruct has_ids; [| reflexivity].
        split; [reflexivity |]. split; reflexivity.
      + unfold upto. change (Z.of_nat 0) with 0 in Hf. rewrite Hf.
        cbn [mbind option_bind]. eexists. split; [reflexivity |].
        cbn [boxes ids]. rewrite Nat2Z.id.
        split; [rewrite Hbs; apply pick_flags_filter |].
        unfold ids_inv in Hinv. destruct has_ids eqn:Hhas.
        * destruct Hinv as (Hl & _ & Ht). specialize (Hh eq_refl).
          unfold RelationEdit.resize.
          replace (w' - length ids')%nat with 0%nat by lia.
          cbn [replicate]. rewrite app_nil_r, Ht.
          rewrite !firstn_all2; [reflexivity | lia |].
          unfold nonempty_flags. rewrite length_map. lia.
        * subst ids'. unfold has_ids in Hhas.
          apply negb_false_iff, length_zero_iff in Hhas. rewrite Hhas.
          rewrite pick_nil_r. reflexivity. }
  destruct Hspec as (r' & Hr & Hb & Hi). exists r'.
  split; [exact Hr |]. split; [exact Hb |]. split; [exact Hi |].
  assert (Hok' : ids_ok r').
  { destruct Hok as [E | E].
    - left. rewrite Hi, E. apply pick_nil_r.
    - right. rewrite Hi, Hb, <- pick_flags_filter. apply length_pick_same. exact E. }
  assert (Hkl : length (kept_positions r) = length (boxes r')).
  { rewrite Hb, <- pick_flags_filter. unfold kept_positions. apply length_pick_same.
    unfold upto. rewrite length_seqZ. lia. }
  split; [exact Hkl |]. split.
  { intros k i Hk.
    destruct (pick_kept r (boxes r) k i eq_refl Hk) as [Hi0 Hbx].
    rewrite pick_flags_filter, <- Hb in Hbx. split; [exact Hbx |].
    destruct (decide (ids r = [])) as [E | E].
    - split; [apply GetId_implicit; exact E |]. apply GetId_implicit.
      rewrite Hi, E. apply pick_nil_r.
    - split; [apply GetId_explicit; exact E |].
      destruct Hok as [E' | E']; [contradiction |].
      destruct (pick_kept r (ids r) k i E' Hk) as [_ Hid]. rewrite <- Hi in Hid.
      assert (Hlen' : length (ids r') = length (boxes r')).
      { rewrite Hi, Hb, <- pick_flags_filter. apply length_pick_same. exact E'. }
      pose proof (vget_lt _ _ _ Hk) as Hkr. rewrite Hkl, <- Hlen' in Hkr.
      rewrite GetId_explicit; [exact Hid |].
      intros Hnil. rewrite Hnil in Hkr. cbn [length] in Hkr. lia. }
  split; [exact Hok' |]. split.
  - unfold RelationOps.Validate. intros Hv.
    apply andb_true_iff in Hv as [Hv _]. apply andb_true_iff. split.
    + rewrite Hb. apply forallb_forall. intros b Hin.
      apply List.filter_In in Hin as [Hin Hne].
      rewrite forallb_forall in Hv. specialize (Hv b Hin).
      apply andb_true_iff in Hv as [Hv _]. rewrite Hv.
      apply negb_true_iff in Hne. rewrite Hne. reflexivity.
    + destruct (ids r') as [|x xs] eqn:E; [reflexivity |].
      destruct Hok' as [E' | E']; [rewrite E in E'; discriminate |].
      rewrite E in E'. rewrite E'. apply Nat.eqb_refl.
  - intros s. unfold CountNaive. rewrite Hb. split.
    + apply fold_left_filter. intros rb count He.
      apply negb_false_iff in He. apply oracle_inner_empty_l. exact He.
    + generalize 0. induction (boxes s) as [|sb bs IH]; intros count; [reflexivity |].
      cbn [fold_left]. rewrite IH. f_equal.
      apply fold_left_filter. intros rb c He. apply negb_false_iff in He.
      unfold IntersectsHalfOpen, BoxOps.Intersects. rewrite He, orb_true_r. reflexivity.
Qed.

Lemma remove_empty_boxes_spec_witness :
  RelationEdit.RemoveEmptyBoxes
    (mkRelation [bx 0 0 1 1; bx 2 2 2 3; bx 4 4 5 5] [10; 11; 12])
  = Some (mkRelation [bx 0 0 1 1; bx 4 4 5 5] [10; 12])
  /\ exists r',
       RelationEdit.RemoveEmptyBoxes (mkRelation [bx 0 0 0 1; bx 0 0 1 1] []) = Some r'
       /\ vget (boxes r') 0 = Some (bx 0 0 1 1)
       /\ RelationOps.GetId (mkRelation [bx 0 0 0 1; bx 0 0 1 1] []) 1 = Some 1
       /\ RelationOps.GetId r' 0 = Some 0.
Proof.
  split.
  - destruct (remove_empty_boxes_spec
                (mkRelation [bx 0 0 1 1; bx 2 2 2 3; bx 4 4 5 5] [10; 11; 12]))
      as (r' & Hr & Hb & Hi & _).
    + right. reflexivity.
    + rewrite Hr. f_equal. destruct r' as [bs xs]. cbn [boxes ids] in Hb, Hi.
      rewrite Hb, Hi. reflexivity.
  - destruct (remove_empty_boxes_spec (mkRelation [bx 0 0 0 1; bx 0 0 1 1] []))
      as (r' & Hr & _ & _ & _ & Hpos & _).
    + left. reflexivity.
    + exists r'. split; [exact Hr |].
      destruct (Hpos 0 1 eq_refl) as (Hbx & Hbefore & Hafter).
      split; [exact Hbx |]. split; [exact Hbefore | exact Hafter].
Defined.

(** * Collecting the join by brute force *)

(** The first [cap] elements when [0 < cap], everything otherwise. *)
Definition lim {A} (cap : Z) (l : list A) : list A :=
  if 0 <? cap then take (Z.to_nat cap) l else l.

Definition capped {A} (cap : Z) (l : list A) : bool :=
  (0 <? cap) && (cap <=? Z.of_nat (length l)).

Definition inner_pairs (rb : Box) (rid : Z) (s : Relation) (items : list (Z * Box))
    : list PairId :=
  flat_map (fun jsb => if IntersectsHalfOpen rb (snd jsb)
                       then [mkPairId rid (id_of s (fst jsb))] else []) items.

Definition outer_pairs (r s : Relation) (items : list (Z * Box)) : list PairId :=
  flat_map (fun irb => inner_pairs (snd irb) (id_of r (fst irb)) s (with_pos (boxes s)))
    items.

(** All pairs of the join, in the order of [(i, j)]. *)
Definition all_pairs (r s : Relation) : list PairId := outer_pairs r s (with_pos (boxes r)).

Lemma GetId_ok r i :
  ids_ok r -> 0 <= i < RelationOps.Size r -> RelationOps.GetId r i = Some (id_of r i).
Proof.
  unfold RelationOps.Size. intros Hok Hi. unfold id_of.
  destruct (ids r) as [|x xs] eqn:E.
  - rewrite (GetId_implicit r i E). reflexivity.
  - assert (Hne : ids r <> []) by (rewrite E; discriminate).
    rewrite (GetId_explicit r i Hne).
    destruct Hok as [E' | E']; [congruence |].
    destruct (vget_is_Some (ids r) i) as [y Hy]; [lia |]. rewrite Hy. reflexivity.
Qed.

Lemma with_pos_range {A} (l : list A) j x :
  (j, x) ∈ with_pos l -> 0 <= j < Z.of_nat (length l) /\ l !! Z.to_nat j = Some x.
Proof.
  unfold with_pos, upto. intros Hin.
  apply list_elem_of_lookup in Hin as [k Hk].
  rewrite lookup_zip_with in Hk.
  destruct (seqZ 0 (Z.of_nat (length l)) !! k) as [j'|] eqn:Hj; [| discriminate].
  cbn [mbind option_bind] in Hk.
  destruct (l !! k) as [x'|] eqn:Hx; [| discriminate].
  cbn [mbind option_bind] in Hk. injection Hk as <- <-.
  apply lookup_seqZ in Hj as [-> Hlt]. split; [lia |].
  rewrite Z.add_0_l, Nat2Z.id. exact Hx.
Qed.

Lemma capped_app {A} cap (X Y : list A) :
  capped cap X = true -> lim cap (X ++ Y) = lim cap X /\ capped cap (X ++ Y) = true.
Proof.
  unfold capped, lim. intros [Hc Hl]%andb_true_iff. rewrite Hc.
  apply Z.leb_le in Hl. apply Z.ltb_lt in Hc. split.
  - rewrite take_app_le by lia. reflexivity.
  - cbn [andb]. apply Z.leb_le. rewrite length_app. lia.
Qed.

Lemma not_capped_lim {A} cap (X : list A) : capped cap X = false -> lim cap X = X.
Proof.
  unfold capped, lim. destruct (Z.ltb_spec 0 cap); [| reflexivity].
  cbn [andb]. intros Hl%Z.leb_gt. apply take_ge. lia.
Qed.

Lemma not_capped_snoc {A} cap (X : list A) x :
  capped cap X = false -> lim cap (X ++ [x]) = X ++ [x].
Proof.
  unfold capped, lim. destruct (Z.ltb_spec 0 cap); [| reflexivity].
  cbn [andb]. intros Hl%Z.leb_gt. apply take_ge. rewrite length_app. cbn [length]. lia.
Qed.

Lemma collect_inner_eq rb rid s cap out stop j sb :
  collect_inner rb rid s cap (out, stop) (j, sb)
  = if stop then Some (out, stop)
    else if IntersectsHalfOpen rb sb then
           sid ← RelationOps.GetId s j;
           Some (out ++ [mkPairId rid sid], capped cap (out ++ [mkPairId rid sid]))
         else Some (out, stop).
Proof. reflexivity. Qed.

Lemma collect_outer_eq r s cap out stop i rb :
  collect_outer r s cap (out, stop) (i, rb)
  = if stop then Some (out, stop)
    else rid ← RelationOps.GetId r i;
         ofold (collect_inner rb rid s cap) (with_pos (boxes s)) (out, stop).
Proof. reflexivity. Qed.

Lemma collect_inner_fold rb rid s cap : forall items X,
  ids_ok s ->
  (forall j sb, (j, sb) ∈ items -> 0 <= j < RelationOps.Size s) ->
  ofold (collect_inner rb rid s cap) items (lim cap X, capped cap X)
  = Some (lim cap (X ++ inner_pairs rb rid s items),
          capped cap (X ++ inner_pairs rb rid s items)).
Proof.
  induction items as [|[j sb] items IH]; intros X Hok Hr.
  - cbn [ofold inner_pairs flat_map]. rewrite app_nil_r. reflexivity.
  - assert (Hr' : forall j sb, (j, sb) ∈ items -> 0 <= j < RelationOps.Size s)
      by (intros j' sb' Hin; apply (Hr j' sb'); right; exact Hin).
    cbn [ofold inner_pairs flat_map fst snd]. fold (inner_pairs rb rid s items).
    rewrite collect_inner_eq.
    pose proof (IH X Hok Hr') as IHX.
    destruct (capped cap X) eqn:Hc.
    + cbn [mbind option_bind]. rewrite IHX.
      destruct (capped_app cap X
                  ((if IntersectsHalfOpen rb sb then [mkPairId rid (id_of s j)] else [])
                   ++ inner_pairs rb rid s items) Hc) as [E1 E2].
      destruct (capped_app cap X (inner_pairs rb rid s items) Hc) as [E3 E4].
      rewrite E1, E2, E3, E4. reflexivity.
    + destruct (IntersectsHalfOpen rb sb).
      * rewrite (GetId_ok s j Hok) by (apply (Hr j sb); left).
        cbn [mbind option_bind]. rewrite (not_capped_lim cap X Hc).
        rewrite <- (not_capped_snoc cap X (mkPairId rid (id_of s j)) Hc) at 1.
        rewrite (IH _ Hok Hr'). rewrite <- !app_assoc. reflexivity.
      * cbn [mbind option_bind app]. exact IHX.
Qed.

Lemma collect_outer_fold r s cap : forall items X,
  ids_ok r -> ids_ok s ->
  (forall i rb, (i, rb) ∈ items -> 0 <= i < RelationOps.Size r) ->
  ofold (collect_outer r s cap) items (lim cap X, capped cap X)
  = Some (lim cap (X ++ outer_pairs r s items), capped cap (X ++ outer_pairs r s items)).
Proof.
  induction items as [|[i rb] items IH]; intros X Hokr Hoks Hr.
  - cbn [ofold outer_pairs flat_map]. rewrite app_nil_r. reflexivity.
  - assert (Hr' : forall i rb, (i, rb) ∈ items -> 0 <= i < RelationOps.Size r)
      by (intros i' rb' Hin; apply (Hr i' rb'); right; exact Hin).
    cbn [ofold outer_pairs flat_map fst snd]. fold (outer_pairs r s items).
    rewrite collect_outer_eq.
    pose proof (IH X Hokr Hoks Hr') as IHX.
    assert (Hin : ofold (collect_inner rb (id_of r i) s cap) (with_pos (boxes s))
                    (lim cap X, capped cap X)
                  = Some (lim cap (X ++ inner_pairs rb (id_of r i) s (with_pos (boxes s))),
                          capped cap (X ++ inner_pairs rb (id_of r i) s (with_pos (boxes s))))).
    { apply (collect_inner_fold rb (id_of r i) s cap (with_pos (boxes s)) X Hoks).
      intros j sb Hjs. apply with_pos_range in Hjs as [Hj _].
      unfold RelationOps.Size. exact Hj. }
    destruct (capped cap X) eqn:Hc.
    + cbn [mbind option_bind]. rewrite IHX.
      destruct (capped_app cap X
                  (inner_pairs rb (id_of r i) s (with_pos (boxes s))
                   ++ outer_pairs r s items) Hc) as [E1 E2].
      destruct (capped_app cap X (outer_pairs r s items) Hc) as [E3 E4].
      rewrite E1, E2, E3, E4. reflexivity.
    + rewrite (GetId_ok r i Hokr) by (apply (Hr i rb); left).
      cbn [mbind option_bind]. rewrite Hin.
      cbn [mbind option_bind]. rewrite (IH _ Hokr Hoks Hr').
      rewrite <- !app_assoc. reflexivity.
Qed.

Lemma CollectNaivePairs_eq r s cap :
  ids_ok r -> ids_ok s -> CollectNaivePairs r s cap = Some (lim cap (all_pairs r s)).
Proof.
  intros Hokr Hoks. unfold CollectNaivePairs.
  assert (Hinit : ([] : list PairId, false) = (lim cap [], capped cap (@nil PairId))).
  { unfold lim, capped. cbn [length]. rewrite take_nil.
    destruct (Z.ltb_spec 0 cap); [| reflexivity].
    destruct (Z.leb_spec cap (Z.of_nat 0)); [lia | reflexivity]. }
  rewrite Hinit. rewrite (collect_outer_fold r s cap (with_pos (boxes r)) [] Hokr Hoks).
  - reflexivity.
  - intros i rb Hin. apply with_pos_range in Hin as [Hi _].
    unfold RelationOps.Size. exact Hi.
Qed.

Lemma length_inner_pairs rb rid s : forall (js : list Z) (bs : list Box),
  length js = length bs ->
  Z.of_nat (length (inner_pairs rb rid s (zip js bs))) = zcount (IntersectsHalfOpen rb) bs.
Proof.
  induction js as [|j js IH]; intros [|sb bs] Hl; try discriminate; [reflexivity |].
  cbn [zip_with inner_pairs flat_map fst snd]. fold (inner_pairs rb rid s (zip js bs)).
  rewrite length_app, Nat2Z.inj_add, (IH bs) by (cbn in Hl; lia).
  rewrite zcount_cons. destruct (IntersectsHalfOpen rb sb); reflexivity.
Qed.

Lemma length_outer_pairs r s : forall (is_ : list Z) (bs : list Box),
  length is_ = length bs ->
  Z.of_nat (length (outer_pairs r s (zip is_ bs)))
  = zsum (fun rb => zcount (IntersectsHalfOpen rb) (boxes s)) bs.
Proof.
  induction is_ as [|i is_ IH]; intros [|rb bs] Hl; try discriminate; [reflexivity |].
  cbn [zip_with outer_pairs flat_map fst snd]. fold (outer_pairs r s (zip is_ bs)).
  rewrite length_app, Nat2Z.inj_add, (IH bs) by (cbn in Hl; lia).
  rewrite zsum_cons. f_equal. unfold with_pos, upto.
  apply length_inner_pairs. rewrite length_seqZ. lia.
Qed.

Lemma elem_inner_pairs rb rid s items p :
  p ∈ inner_pairs rb rid s items
  <-> exists j sb, (j, sb) ∈ items /\ IntersectsHalfOpen rb sb = true
                   /\ p = mkPairId rid (id_of s j).
Proof.
  unfold inner_pairs. rewrite list_elem_of_In, in_flat_map. split.
  - intros ([j sb] & Hin & Hp). cbn [fst snd] in Hp.
    destruct (IntersectsHalfOpen rb sb) eqn:Hi; [| destruct Hp].
    destruct Hp as [<- | []]. exists j, sb.
    rewrite list_elem_of_In. split; [exact Hin |]. split; [exact Hi | reflexivity].
  - intros (j & sb & Hin & Hi & ->). exists (j, sb).
    rewrite <- list_elem_of_In. split; [exact Hin |]. cbn [fst snd]. rewrite Hi. left.
    reflexivity.
Qed.

(** X8: [CollectNaivePairs] returns the join, and a cap cuts it.  On
    relations whose ids are absent or complete the call never reads out of
    range; without a cap it returns every pair [(GetId(i), GetId(j))] of
    intersecting boxes, in the order of [(i, j)] and as many as [CountNaive]
    counts; with [0 < cap] it returns the first [cap] of them (all, when
    there are fewer). *)
Theorem collect_naive_pairs_spec (r s : Relation) :
  ids_ok r -> ids_ok s ->
  RelationOps.Size r * RelationOps.Size s < 2 ^ 64 ->
  exists all,
    CollectNaivePairs r s 0 = Some all
    /\ Z.of_nat (length all) = CountNaive r s
    /\ (forall cap, 0 < cap -> CollectNaivePairs r s cap = Some (take (Z.to_nat cap) all))
    /\ (forall p, p ∈ all <->
          exists i j rb sb,
            boxes r !! i = Some rb /\ boxes s !! j = Some sb
            /\ BoxOps.Intersects rb sb = true
            /\ RelationOps.GetId r (Z.of_nat i) = Some (pr p)
            /\ RelationOps.GetId s (Z.of_nat j) = Some (ps p)).
Proof.
  intros Hokr Hoks Hsz. exists (all_pairs r s).
  split; [apply (CollectNaivePairs_eq r s 0 Hokr Hoks) |]. split; [| split].
  - unfold all_pairs, with_pos, upto.
    rewrite length_outer_pairs by (rewrite length_seqZ; lia).
    unfold CountNaive. rewrite count_outer_fold; [lia | lia |].
    unfold RelationOps.Size in Hsz. lia.
  - intros cap Hcap. rewrite (CollectNaivePairs_eq r s cap Hokr Hoks).
    unfold lim. destruct (Z.ltb_spec 0 cap); [reflexivity | lia].
  - intros p. unfold all_pairs, outer_pairs.
    rewrite list_elem_of_In, in_flat_map. split.
    + intros ([i rb] & Hin & Hp). cbn [fst snd] in Hp.
      rewrite <- list_elem_of_In in Hin. rewrite <- list_elem_of_In in Hp.
      apply with_pos_range in Hin as [Hi Hrb].
      apply elem_inner_pairs in Hp as (j & sb & Hjs & Hint & ->).
      apply with_pos_range in Hjs as [Hj Hsb].
      exists (Z.to_nat i), (Z.to_nat j), rb, sb.
      split; [exact Hrb |]. split; [exact Hsb |]. split; [exact Hint |].
      rewrite !Z2Nat.id by lia. cbn [pr ps].
      split; apply GetId_ok; unfold RelationOps.Size; try assumption; lia.
    + intros (i & j & rb & sb & Hrb & Hsb & Hint & Hri & Hsj).
      pose proof (lookup_lt_Some _ _ _ Hrb) as Hil.
      pose proof (lookup_lt_Some _ _ _ Hsb) as Hjl.
      exists (Z.of_nat i, rb). split.
      * rewrite <- list_elem_of_In. unfold with_pos, upto.
        apply list_elem_of_lookup. exists i. rewrite lookup_zip_with.
        rewrite lookup_seqZ_lt by lia. cbn [mbind option_bind]. rewrite Hrb.
        cbn [mbind option_bind]. reflexivity.
      * cbn [fst snd]. rewrite <- list_elem_of_In. apply elem_inner_pairs.
        exists (Z.of_nat j), sb. split; [| split; [exact Hint |]].
        -- unfold with_pos, upto.
           apply list_elem_of_lookup. exists j. rewrite lookup_zip_with.
           rewrite lookup_seqZ_lt by lia. cbn [mbind option_bind]. rewrite Hsb.
           cbn [mbind option_bind]. reflexivity.
        -- rewrite (GetId_ok r (Z.of_nat i) Hokr) in Hri by (unfold RelationOps.Size; lia).
           rewrite (GetId_ok s (Z.of_nat j) Hoks) in Hsj by (unfold RelationOps.Size; lia).
           injection Hri as Hri. injection Hsj as Hsj.
           destruct p as [a b]. cbn [pr ps] in Hri, Hsj. subst. reflexivity.
Qed.

Lemma collect_naive_pairs_spec_witness :
  CollectNaivePairs (R ds_small) (S ds_small) 0
  = Some [mkPairId 0 0; mkPairId 1 0; mkPairId 1 1; mkPairId 2 1]
  /\ CollectNaivePairs (R ds_small) (S ds_small) 3
     = Some [mkPairId 0 0; mkPairId 1 0; mkPairId 1 1].
Proof.
  destruct (collect_naive_pairs_spec (R ds_small) (S ds_small))
    as (all & Hall & _ & Hcap & _).
  - left. reflexivity.
  - left. reflexivity.
  - vm_compute. reflexivity.
  - assert (E : all = [mkPairId 0 0; mkPairId 1 0; mkPairId 1 1; mkPairId 2 1]).
    { vm_compute in Hall. injection Hall as <-. reflexivity. }
    split.
    + rewrite Hall, E. reflexivity.
    + rewrite (Hcap 3) by lia. rewrite E. reflexivity.
Defined.

(** * The active index as a set of ranked intervals *)

(** The representation depends on the ranks of the active handles only. *)
Lemma pts_rep_ext st nh m k act rk rk' :
  (forall h, h ∈ act -> rk h = rk' h) ->
  pts_rep st nh m k act rk -> pts_rep st nh m k act rk'.
Proof.
  intros Hext [H1 H2 H3 H4 H5 H6]. constructor; try assumption.
  - intros h Hh. rewrite <- (Hext h Hh). apply H3. exact Hh.
  - eapply store_ok_ext; [| exact H4]. intros h b. unfold pts_plc.
    destruct (bool_decide_reflect (h ∈ act)) as [Hh|Hh]; [| reflexivity].
    unfold pts_path. rewrite (Hext h Hh). reflexivity.
  - intros h Hh. rewrite <- (Hext h Hh). apply H6. exact Hh.
Qed.

Lemma stab_rep_ext st nh m k act lo hi lo' hi' :
  (forall h, h ∈ act -> lo h = lo' h /\ hi h = hi' h) ->
  stab_rep st nh m k act lo hi -> stab_rep st nh m k act lo' hi'.
Proof.
  intros Hext [H1 H2 H3 H4 H5 H6 H7].
  assert (Hcov : forall h, h ∈ act -> stab_cover k lo hi h = stab_cover k lo' hi' h).
  { intros h Hh. destruct (Hext h Hh) as [E1 E2]. unfold stab_cover. rewrite E1, E2.
    reflexivity. }
  constructor; try assumption.
  - intros h Hh. destruct (Hext h Hh) as [<- <-]. apply H3. exact Hh.
  - eapply store_ok_ext; [| exact H4]. intros h b. unfold stab_plc.
    destruct (bool_decide_reflect (h ∈ act)) as [Hh|Hh]; [| reflexivity].
    rewrite (Hcov h Hh). reflexivity.
  - intros h Hh. rewrite (H5 h Hh).
    destruct (bool_decide_reflect (h ∈ act)) as [Ha|Ha]; [| reflexivity].
    rewrite (Hcov h Ha). reflexivity.
  - intros h Hh. destruct (Hext h Hh) as [<- _]. apply H6. exact Hh.
  - intros h Hh. destruct (Hext h Hh) as [_ <-]. apply H7. exact Hh.
Qed.

Lemma idx_rep_ext a nh m act lo hi lo' hi' :
  (forall h, h ∈ act -> lo h = lo' h /\ hi h = hi' h) ->
  idx_rep a nh m act lo hi -> idx_rep a nh m act lo' hi'.
Proof.
  intros Hext [Hn Hm Hr [k1 Hs] [k2 Hp]]. constructor; try assumption.
  - exists k1. apply (stab_rep_ext _ _ _ _ _ lo hi); assumption.
  - exists k2. apply (pts_rep_ext _ _ _ _ _ lo); [| assumption].
    intros h Hh. apply (Hext h Hh).
Qed.

Lemma map_const_replicate {A B} (x : B) (y : A) n :
  map (fun _ => x) (replicate n y) = replicate n x.
Proof. induction n as [|n IH]; [reflexivity |]. cbn. rewrite IH. reflexivity. Qed.

Lemma Init_ResetActive nh m a :
  ActiveIndex2D.Init nh m = Some a -> ActiveIndex2D.ResetActive a = a.
Proof.
  unfold ActiveIndex2D.Init, StabbingSegTree.Init, RangePointSegTree.Init.
  destruct (pow2_loop word_fuel 1 m) as [p|]; [| discriminate]. cbn [mbind option_bind].
  destruct (logp_loop word_fuel p 0) as [logp|]; [| discriminate]. cbn [mbind option_bind].
  intros [= <-]. unfold ActiveIndex2D.ResetActive, StabbingSegTree.ResetActive,
    RangePointSegTree.ResetActive.
  cbn [ActiveIndex2D.n_ ActiveIndex2D.m_ ActiveIndex2D.stab_ ActiveIndex2D.pts_
       StabbingSegTree.n_handles_ StabbingSegTree.m_ StabbingSegTree.p_
       StabbingSegTree.max_refs_ StabbingSegTree.nodes_ StabbingSegTree.pos_in_node_
       StabbingSegTree.placement_size_ StabbingSegTree.lo_rank_ StabbingSegTree.hi_rank_
       RangePointSegTree.n_handles_ RangePointSegTree.m_ RangePointSegTree.p_
       RangePointSegTree.max_refs_ RangePointSegTree.nodes_ RangePointSegTree.pos_in_node_
       RangePointSegTree.placement_size_ RangePointSegTree.rank_of_handle_].
  rewrite !map_const_replicate. reflexivity.
Qed.

(** ** The abstract content: handles with their rank intervals *)

Definition entry : Type := Z * Z * Z.
Definition e_handle (e : entry) : Z := fst (fst e).
Definition e_lo (e : entry) : Z := snd (fst e).
Definition e_hi (e : entry) : Z := snd e.

Definition handles (items : list entry) : list Z := map e_handle items.

Fixpoint rank_lo (items : list entry) (h : Z) : Z :=
  match items with
  | [] => 0
  | e :: rest => if h =? e_handle e then e_lo e else rank_lo rest h
  end.

Fixpoint rank_hi (items : list entry) (h : Z) : Z :=
  match items with
  | [] => 0
  | e :: rest => if h =? e_handle e then e_hi e else rank_hi rest h
  end.

Definition without (h : Z) (items : list entry) : list entry :=
  List.filter (fun e => negb (e_handle e =? h)) items.

(** The states of an index of [nh] handles over [m] ranks that the
    operations reach from [Init], with the entries they hold.  The side
    conditions are the assertions of [Insert]. *)
Inductive idx_reach (nh m : Z) : list entry -> ActiveIndex2D.t -> Prop :=
| reach_init a :
    ActiveIndex2D.Init nh m = Some a -> idx_reach nh m [] a
| reach_reset items a :
    idx_reach nh m items a -> idx_reach nh m [] (ActiveIndex2D.ResetActive a)
| reach_insert items a h l u a' :
    idx_reach nh m items a ->
    h ∉ handles items -> 0 <= h < nh -> 0 <= l < u -> u <= m ->
    ActiveIndex2D.Insert a h l u = Some a' ->
    idx_reach nh m ((h, l, u) :: items) a'
| reach_erase items a h a' :
    idx_reach nh m items a -> 0 <= h < nh ->
    ActiveIndex2D.Erase a h = Some a' ->
    idx_reach nh m (without h items) a'.

Lemma rank_agree_cons h l u items x :
  x ∈ handles items -> h ∉ handles items ->
  rank_lo items x = rank_lo ((h, l, u) :: items) x
  /\ rank_hi items x = rank_hi ((h, l, u) :: items) x.
Proof.
  intros Hx Hh. cbn [rank_lo rank_hi e_handle e_lo e_hi fst snd].
  destruct (Z.eqb_spec x h) as [->|Hne]; [contradiction | split; reflexivity].
Qed.

Lemma handles_without h items :
  handles (without h items) = filter (fun x => x <> h) (handles items).
Proof.
  unfold handles, without. induction items as [|e items IH]; [reflexivity |].
  cbn [List.filter map]. rewrite filter_cons.
  destruct (Z.eqb_spec (e_handle e) h) as [E|E]; cbn [negb].
  - rewrite decide_False by (intros Hc; apply Hc; exact E). exact IH.
  - rewrite decide_True by exact E. cbn [map]. rewrite IH. reflexivity.
Qed.

Lemma rank_agree_without h items x :
  x ∈ handles (without h items) ->
  rank_lo items x = rank_lo (without h items) x
  /\ rank_hi items x = rank_hi (without h items) x.
Proof.
  rewrite handles_without. intros [Hne _]%list_elem_of_filter.
  unfold without. induction items as [|e items IH]; [split; reflexivity |].
  cbn [List.filter rank_lo rank_hi].
  destruct (Z.eqb_spec (e_handle e) h) as [E|E]; cbn [negb].
  - destruct (Z.eqb_spec x (e_handle e)) as [E'|E']; [congruence | exact IH].
  - cbn [rank_lo rank_hi]. destruct (Z.eqb_spec x (e_handle e)); [split; reflexivity | exact IH].
Qed.

Lemma without_absent h items : h ∉ handles items -> without h items = items.
Proof.
  unfold without, handles. induction items as [|e items IH]; intros Hh; [reflexivity |].
  cbn [List.filter map] in *. apply not_elem_of_cons in Hh as [Hne Hh].
  destruct (Z.eqb_spec (e_handle e) h) as [E|E]; [congruence |].
  cbn [negb]. rewrite (IH Hh). reflexivity.
Qed.

(** [Erase] of a handle that is not active changes nothing. *)
Lemma idx_Erase_absent a nh m act lo hi h :
  idx_rep a nh m act lo hi -> h ∉ act -> 0 <= h < nh ->
  ActiveIndex2D.Erase a h = Some a.
Proof.
  intros [Hn Hm Hr [k1 Hs] [k2 Hp]] Hh Hhr. unfold ActiveIndex2D.Erase.
  unfold StabbingSegTree.Erase. rewrite (sr_ps _ _ _ _ _ _ _ Hs h Hhr).
  rewrite bool_decide_eq_false_2 by exact Hh. cbn [mbind option_bind Z.eqb].
  unfold RangePointSegTree.Erase. rewrite (pr_ps _ _ _ _ _ _ Hp h Hhr).
  rewrite bool_decide_eq_false_2 by exact Hh. cbn [mbind option_bind Z.eqb].
  destruct a; reflexivity.
Qed.

Lemma idx_reach_rep nh m items a :
  0 <= nh < 2 ^ 32 -> 1 <= m <= 2 ^ 30 ->
  idx_reach nh m items a ->
  NoDup (handles items)
  /\ idx_rep a nh m (handles items) (rank_lo items) (rank_hi items).
Proof.
  intros Hnh Hm Hreach. induction Hreach as
    [a Hinit | items a Hreach [IHn IH] | items a h l u a' Hreach [IHn IH] Hh Hhr Hl Hu Hins
     | items a h a' Hreach [IHn IH] Hhr Her].
  - split; [constructor |].
    destruct (idx_Init_rep nh m (rank_lo []) (rank_hi []) Hnh Hm) as (a0 & Ha0 & Hrep).
    rewrite Hinit in Ha0. injection Ha0 as <-.
    rewrite (Init_ResetActive nh m a Hinit) in Hrep. exact Hrep.
  - split; [constructor |]. eapply idx_ResetActive_rep. exact IH.
  - split.
    + cbn [handles map e_handle fst]. apply NoDup_cons. split; assumption.
    + assert (Hext : idx_rep a nh m (handles items) (rank_lo ((h, l, u) :: items))
                       (rank_hi ((h, l, u) :: items))).
      { eapply idx_rep_ext; [| exact IH]. intros x Hx.
        apply rank_agree_cons; assumption. }
      assert (El : rank_lo ((h, l, u) :: items) h = l)
        by (cbn [rank_lo e_handle e_lo fst snd]; rewrite Z.eqb_refl; reflexivity).
      assert (Eu : rank_hi ((h, l, u) :: items) h = u)
        by (cbn [rank_hi e_handle e_hi fst snd]; rewrite Z.eqb_refl; reflexivity).
      destruct (idx_Insert_rep _ _ _ _ _ _ h Hext Hh Hhr) as (a1 & Ha1 & Hrep);
        [rewrite El, Eu; lia | rewrite Eu; lia |].
      rewrite El, Eu, Hins in Ha1. injection Ha1 as <-. exact Hrep.
  - destruct (decide (h ∈ handles items)) as [Hin|Hout].
    + destruct (idx_Erase_rep _ _ _ _ _ _ h IH Hin) as (a1 & Ha1 & Hrep).
      rewrite Her in Ha1. injection Ha1 as <-.
      rewrite <- handles_without in Hrep. split.
      * rewrite handles_without. apply NoDup_filter. exact IHn.
      * eapply idx_rep_ext; [| exact Hrep]. intros x Hx.
        apply rank_agree_without. exact Hx.
    + rewrite (idx_Erase_absent _ _ _ _ _ _ h IH Hout Hhr) in Her. injection Her as <-.
      rewrite (without_absent h items Hout). split; assumption.
Qed.

Lemma zcount_entries (P : Z -> Z -> bool) items :
  NoDup (handles items) ->
  zcount (fun h => P (rank_lo items h) (rank_hi items h)) (handles items)
  = zcount (fun e => P (e_lo e) (e_hi e)) items.
Proof.
  induction items as [|e items IH]; intros Hnd; [reflexivity |].
  cbn [handles map] in Hnd |- *. apply NoDup_cons in Hnd as [Hne Hnd].
  rewrite !zcount_cons. cbn [rank_lo rank_hi]. rewrite Z.eqb_refl. f_equal.
  rewrite <- (IH Hnd). apply zcount_ext. intros x Hx.
  destruct (Z.eqb_spec x (e_handle e)) as [->|_]; [contradiction | reflexivity].
Qed.

(** ** The B-pattern bounds on every [u32] query

    [range_lo] adds 1 to the lower rank on [u32]: below 2^32 - 1 the sum is
    exact (and is cut at [m]); at 2^32 - 1 it wraps to 0. *)
Lemma idx_range_lo a nh m act lo hi q_lo :
  idx_rep a nh m act lo hi -> 0 <= q_lo <= u32_max ->
  ActiveIndex2D.range_lo a q_lo
  = (if q_lo =? u32_max then 0 else Z.min (q_lo + 1) m).
Proof.
  intros [Hn Hm Hr _ _] Hq. unfold ActiveIndex2D.range_lo. rewrite Hm.
  unfold u32_max in *. destruct (Z.eqb_spec q_lo 4294967295) as [-> | Hne].
  - change (wrap32 (4294967295 + 1)) with 0. destruct (Z.leb_spec 0 m); [reflexivity | lia].
  - rewrite wrap32_small by lia. destruct (Z.leb_spec (q_lo + 1) m); lia.
Qed.

(** The lower ranks a B-pattern query with lower rank [q_lo] selects. *)
Definition above (q_lo : Z) (l : Z) : Prop :=
  if q_lo =? u32_max then True else q_lo < l.

#[global] Instance above_dec q_lo l : Decision (above q_lo l).
Proof. unfold above. destruct (q_lo =? u32_max); apply _. Defined.

Lemma above_below q_lo l : 0 <= q_lo < u32_max -> above q_lo l <-> q_lo < l.
Proof. intros Hq. unfold above. destruct (Z.eqb_spec q_lo u32_max); [lia | reflexivity]. Qed.

Lemma above_wrap l : above u32_max l <-> True.
Proof. unfold above. rewrite Z.eqb_refl. reflexivity. Qed.

Lemma idx_range_above a nh m act lo hi q_lo q_hi h :
  idx_rep a nh m act lo hi -> 0 <= q_lo <= u32_max -> h ∈ act ->
  ActiveIndex2D.range_lo a q_lo <= lo h < ActiveIndex2D.range_hi a q_hi
  <-> above q_lo (lo h) /\ lo h < q_hi.
Proof.
  intros Hrep Hq Hh. rewrite (idx_range_lo _ _ _ _ _ _ q_lo Hrep Hq).
  destruct Hrep as [Hn Hm Hr _ [k2 Hp]]. unfold ActiveIndex2D.range_hi. rewrite Hm.
  pose proof (pr_act _ _ _ _ _ _ Hp h Hh) as [_ Hrk]. unfold above.
  destruct (Z.eqb_spec q_lo u32_max); lia.
Qed.

Lemma idx_range_lo_nonneg a nh m act lo hi q_lo :
  idx_rep a nh m act lo hi -> 0 <= q_lo <= u32_max -> 0 <= ActiveIndex2D.range_lo a q_lo.
Proof.
  intros Hrep Hq. rewrite (idx_range_lo _ _ _ _ _ _ q_lo Hrep Hq).
  destruct Hrep as [_ _ Hr _ _]. destruct (q_lo =? u32_max); lia.
Qed.

Lemma idx_CountB_u32 a nh m act lo hi q_lo q_hi :
  idx_rep a nh m act lo hi -> 0 <= q_lo <= u32_max ->
  ActiveIndex2D.CountB a q_lo q_hi
  = Some (zcount (fun h => bool_decide (above q_lo (lo h) /\ lo h < q_hi)) act).
Proof.
  intros Hrep Hq. pose proof Hrep as [Hn Hm Hr [k1 Hs] [k2 Hp]].
  unfold ActiveIndex2D.CountB. rewrite Hm. destruct (Z.eqb_spec m 0); [lia |].
  rewrite (pts_CountRange _ _ _ _ _ _ _ _ Hp)
    by (apply (idx_range_lo_nonneg _ _ _ _ _ _ q_lo Hrep Hq)).
  f_equal. apply zcount_ext. intros h Hh. apply bool_decide_ext.
  apply (idx_range_above _ _ _ _ _ _ q_lo q_hi h Hrep Hq Hh).
Qed.

(** X9: the two counting queries of the active index are exact.  In every
    state reached from [Init] by [ResetActive], [Insert] (of an inactive
    handle with ranks [0 <= l < u <= m]) and [Erase], [CountA(q)] is the
    number of active entries with [l <= q < u] (the stabbing query).
    [CountB(q_lo, q_hi)] is the number with [q_lo < l < q_hi] (the range
    query) for every [q_lo] below 2^32 - 1, also one at or above [m]; at
    [q_lo = 2^32 - 1] the lower bound [q_lo + 1] wraps around to 0 and
    [CountB] counts the entries with [l < q_hi].  Neither reads out of
    range. *)
Theorem active_index_counts_exact (nh m : Z) (items : list entry) (a : ActiveIndex2D.t) :
  0 <= nh < 2 ^ 32 -> 1 <= m <= 2 ^ 30 ->
  idx_reach nh m items a ->
  (forall q, 0 <= q ->
     ActiveIndex2D.CountA a q
     = Some (zcount (fun e => bool_decide (e_lo e <= q < e_hi e)) items))
  /\ (forall q_lo q_hi, 0 <= q_lo < u32_max ->
        ActiveIndex2D.CountB a q_lo q_hi
        = Some (zcount (fun e => bool_decide (q_lo < e_lo e < q_hi)) items))
  /\ (forall q_hi,
        ActiveIndex2D.CountB a u32_max q_hi
        = Some (zcount (fun e => bool_decide (e_lo e < q_hi)) items)).
Proof.
  intros Hnh Hm Hreach.
  destruct (idx_reach_rep nh m items a Hnh Hm Hreach) as [Hnd Hrep].
  split; [| split].
  - intros q Hq. rewrite (idx_CountA _ _ _ _ _ _ q Hrep Hq). apply (f_equal Some).
    exact (zcount_entries (fun l u => bool_decide (l <= q < u)) items Hnd).
  - intros q_lo q_hi Hq. rewrite (idx_CountB_u32 _ _ _ _ _ _ q_lo q_hi Hrep) by lia.
    apply (f_equal Some).
    transitivity (zcount (fun e => bool_decide (above q_lo (e_lo e) /\ e_lo e < q_hi)) items);
      [exact (zcount_entries (fun l _ => bool_decide (above q_lo l /\ l < q_hi)) items Hnd) |].
    apply zcount_ext. intros e _. apply bool_decide_ext.
    rewrite (above_below q_lo (e_lo e) Hq). lia.
  - intros q_hi. rewrite (idx_CountB_u32 _ _ _ _ _ _ u32_max q_hi Hrep)
      by (unfold u32_max; lia).
    apply (f_equal Some).
    transitivity (zcount (fun e => bool_decide (above u32_max (e_lo e) /\ e_lo e < q_hi))
                    items);
      [exact (zcount_entries (fun l _ => bool_decide (above u32_max l /\ l < q_hi))
                items Hnd) |].
    apply zcount_ext. intros e _. apply bool_decide_ext. rewrite above_wrap. tauto.
Qed.

Lemma active_index_counts_exact_witness :
  exists a, idx_reach 4 8 [(1, 2, 6); (0, 1, 5)] a
            /\ ActiveIndex2D.CountA a 3 = Some 2
            /\ ActiveIndex2D.CountB a 0 4 = Some 2
            /\ ActiveIndex2D.CountB a 9 12 = Some 0
            /\ ActiveIndex2D.CountB a u32_max 5 = Some 2.
Proof.
  assert (Hr : exists a, idx_reach 4 8 [(1, 2, 6); (0, 1, 5)] a).
  { eexists.
    eapply (reach_insert 4 8 [(0, 1, 5)] _ 1 2 6).
    - eapply (reach_insert 4 8 [] _ 0 1 5).
      + apply reach_init. vm_compute. reflexivity.
      + apply not_elem_of_nil.
      + lia.
      + lia.
      + lia.
      + vm_compute. reflexivity.
    - cbn. intros Hin. apply list_elem_of_singleton in Hin. discriminate.
    - lia.
    - lia.
    - lia.
    - vm_compute. reflexivity. }
  destruct Hr as [a Hr]. exists a. split; [exact Hr |].
  destruct (active_index_counts_exact 4 8 _ a ltac:(lia) ltac:(lia) Hr) as (HA & HB & HW).
  split; [rewrite (HA 3) by lia; reflexivity |].
  split; [rewrite (HB 0 4) by (unfold u32_max; lia); reflexivity |].
  split; [rewrite (HB 9 12) by (unfold u32_max; lia); reflexivity |].
  rewrite (HW 5). reflexivity.
Defined.

(** * Reporting and sampling from the buckets of a node set *)

(** The bucket of a node, empty outside the vector. *)
Definition bucket_of (nodes : list (list Item)) (c : Z) : list Item :=
  default [] (vget nodes c).

(** The handles stored in the buckets of the nodes [Q], node by node. *)
Definition stored_handles (nodes : list (list Item)) (Q : list Z) : list Z :=
  concat (map (fun c => map it_handle (bucket_of nodes c)) Q).

Lemma store_bucket_handles N nh mr nodes pin plc (act : list Z) (nd : Z -> list Z) idx bucket :
  store_ok N nh mr nodes pin plc ->
  NoDup act ->
  (forall h b, plc h b = if bool_decide (h ∈ act) then vget (nd h) b else None) ->
  vget nodes idx = Some bucket ->
  map it_handle bucket ≡ₚ filter (fun h => idx ∈ nd h) act.
Proof.
  intros Hok Hnd Hplc Hbk.
  apply NoDup_Permutation.
  - eapply store_bucket_handles_NoDup; eassumption.
  - apply NoDup_filter. exact Hnd.
  - intros h. rewrite list_elem_of_filter. split.
    + intros Hh. apply (list_elem_of_fmap (B:=Z)) in Hh as [[h' b] [-> Hin]]. simpl.
      apply list_elem_of_lookup in Hin as [j Hj].
      destruct (so_item _ _ _ _ _ _ Hok idx bucket j h' b Hbk Hj) as [Hp _].
      rewrite Hplc in Hp. case_bool_decide as Ha; [| discriminate].
      split; [| exact Ha].
      apply vget_Some in Hp as [_ Hp]. eapply list_elem_of_lookup_2. exact Hp.
    + intros [Hin Ha]. apply list_elem_of_lookup in Hin as [i Hi].
      assert (plc h (Z.of_nat i) = Some idx) as Hp.
      { rewrite Hplc. rewrite bool_decide_eq_true_2 by exact Ha.
        apply vget_Some. split; [lia |]. rewrite Nat2Z.id. exact Hi. }
      destruct (so_plc _ _ _ _ _ _ Hok _ _ _ Hp) as (bucket' & j & Hb' & _ & Hj).
      rewrite Hbk in Hb'. injection Hb' as <-.
      apply (list_elem_of_fmap (B:=Z)). exists (mkItem h (Z.of_nat i)).
      split; [reflexivity |]. eapply list_elem_of_lookup_2. exact Hj.
Qed.

Lemma concat_map_app_perm {A B} (f g : A -> list B) Q :
  concat (map (fun c => f c ++ g c) Q) ≡ₚ concat (map f Q) ++ concat (map g Q).
Proof.
  induction Q as [|c Q IH]; [reflexivity |].
  cbn [map concat]. rewrite IH. rewrite <- !app_assoc. apply Permutation_app_head.
  rewrite !app_assoc. apply Permutation_app_tail. apply Permutation_app_comm.
Qed.

Lemma concat_map_perm {A B} (f g : A -> list B) Q :
  (forall c, c ∈ Q -> f c ≡ₚ g c) -> concat (map f Q) ≡ₚ concat (map g Q).
Proof.
  induction Q as [|c Q IH]; intros H; [reflexivity |].
  cbn [map concat]. rewrite (H c) by left. rewrite IH; [reflexivity |].
  intros c' Hc'. apply H. right. exact Hc'.
Qed.

Lemma concat_map_single {A} (P : A -> bool) (h : Z) Q :
  concat (map (fun c => if P c then [h] else []) Q) = replicate (Z.to_nat (zcount P Q)) h.
Proof.
  induction Q as [|c Q IH]; [reflexivity |].
  cbn [map concat]. rewrite zcount_cons, IH.
  pose proof (zcount_bounds P Q) as Hb.
  destruct (P c); [| reflexivity].
  replace (Z.to_nat (1 + zcount P Q)) with (Datatypes.S (Z.to_nat (zcount P Q))) by lia.
  reflexivity.
Qed.

(** When every active handle has exactly one of its nodes in [Q] if it
    matches and none otherwise, the buckets of [Q] hold the matching
    handles, each once. *)
Lemma query_handles_perm (M : Z -> bool) (nd : Z -> list Z) Q : forall act,
  (forall h, h ∈ act -> hits (nd h) Q = if M h then 1 else 0) ->
  concat (map (fun c => filter (fun h => c ∈ nd h) act) Q)
  ≡ₚ filter (fun h => M h = true) act.
Proof.
  induction act as [|h act IH]; intros Hh.
  - rewrite filter_nil. clear Hh. induction Q as [|c Q IHQ]; [reflexivity |].
    cbn [map concat]. rewrite filter_nil. exact IHQ.
  - rewrite (concat_map_perm _ (fun c => (if bool_decide (c ∈ nd h) then [h] else [])
                                        ++ filter (fun x => c ∈ nd x) act)).
    2:{ intros c _. rewrite filter_cons. case_decide as Hc.
        - rewrite bool_decide_eq_true_2 by exact Hc. reflexivity.
        - rewrite bool_decide_eq_false_2 by exact Hc. reflexivity. }
    rewrite concat_map_app_perm, concat_map_single.
    rewrite IH by (intros x Hx; apply Hh; right; exact Hx).
    fold (hits (nd h) Q). rewrite (Hh h) by left.
    rewrite filter_cons. destruct (M h); cbn.
    + rewrite decide_True by reflexivity. reflexivity.
    + rewrite decide_False by discriminate. reflexivity.
Qed.

Lemma stored_handles_perm N nh mr nodes pin plc (act : list Z) (nd : Z -> list Z)
    (M : Z -> bool) Q :
  store_ok N nh mr nodes pin plc ->
  NoDup act ->
  (forall h b, plc h b = if bool_decide (h ∈ act) then vget (nd h) b else None) ->
  (forall c, c ∈ Q -> 0 <= c < N) ->
  (forall h, h ∈ act -> hits (nd h) Q = if M h then 1 else 0) ->
  stored_handles nodes Q ≡ₚ filter (fun h => M h = true) act.
Proof.
  intros Hok Hnd Hplc Hq Hh. unfold stored_handles.
  rewrite <- (query_handles_perm M nd Q act Hh).
  apply concat_map_perm. intros c Hc.
  pose proof (so_len_nodes _ _ _ _ _ _ Hok) as Hlen.
  destruct (vget_is_Some nodes c) as [bk Hbk]; [specialize (Hq c Hc); lia |].
  unfold bucket_of. rewrite Hbk. cbn [default].
  eapply store_bucket_handles; eassumption.
Qed.

Lemma stored_handles_app nodes Q1 Q2 :
  stored_handles nodes (Q1 ++ Q2) = stored_handles nodes Q1 ++ stored_handles nodes Q2.
Proof. unfold stored_handles. rewrite map_app, concat_app. reflexivity. Qed.

Lemma stored_handles_Permutation nodes Q1 Q2 :
  Q1 ≡ₚ Q2 -> stored_handles nodes Q1 ≡ₚ stored_handles nodes Q2.
Proof. intros Hp. unfold stored_handles. rewrite Hp. reflexivity. Qed.

Lemma elem_stored_handles nodes Q h :
  h ∈ stored_handles nodes Q
  <-> exists c it, c ∈ Q /\ it ∈ bucket_of nodes c /\ it_handle it = h.
Proof.
  unfold stored_handles. induction Q as [|c Q IH].
  - cbn [map concat]. split; [intros Hin; inversion Hin |].
    intros (c & it & Hc & _). inversion Hc.
  - cbn [map concat]. rewrite elem_of_app, IH. split.
    + intros [Hh | (c' & it & Hc' & Hit)].
      * apply (list_elem_of_fmap (B:=Z)) in Hh as (it & -> & Hit).
        exists c, it. split; [left | split; [exact Hit | reflexivity]].
      * exists c', it. split; [right; exact Hc' | exact Hit].
    + intros (c' & it & Hc' & Hit & <-). apply elem_of_cons in Hc' as [-> | Hc'].
      * left. apply (list_elem_of_fmap (B:=Z)). exists it. split; [reflexivity | exact Hit].
      * right. exists c', it. split; [exact Hc' | split; [exact Hit | reflexivity]].
Qed.

(** ** Which nodes of a query hold an active handle *)

Lemma pts_hits st nh m k act rk l r h :
  pts_rep st nh m k act rk -> 0 <= l -> l < r -> r <= m -> h ∈ act ->
  hits (pts_path k rk h)
       (cover_nodes word_fuel (l + 2 ^ Z.of_nat k) (r + 2 ^ Z.of_nat k))
  = if bool_decide (l <= rk h < r) then 1 else 0.
Proof.
  intros Hrep Hl Hlr Hr Hh.
  destruct (pr_shape _ _ _ _ _ _ Hrep) as [_ _ _ [_ Hk _ Hmm _ _] _ _].
  pose proof (pow2_30 k Hk) as H30. pose proof (pow2_pos k) as Hpos.
  pose proof (pr_act _ _ _ _ _ _ Hrep h Hh) as [_ Hrk].
  unfold pts_path. rewrite (cover_path_hits k); unfold word_fuel;
    rewrite ?pow2_succ'; try lia.
  apply f_equal with (f := fun b : bool => if b then 1 else 0).
  apply bool_decide_ext. lia.
Qed.

Lemma stab_hits st nh m k act lo hi q h :
  stab_rep st nh m k act lo hi -> 0 <= q < m -> h ∈ act ->
  hits (stab_cover k lo hi h) (path_nodes word_fuel (q + 2 ^ Z.of_nat k))
  = if bool_decide (lo h <= q < hi h) then 1 else 0.
Proof.
  intros Hrep Hq Hh.
  destruct (sr_shape _ _ _ _ _ _ _ Hrep) as [_ _ _ [_ Hk _ Hmm _ _] _ _ _].
  pose proof (pow2_30 k Hk) as H30. pose proof (pow2_pos k) as Hpos.
  pose proof (sr_act _ _ _ _ _ _ _ Hrep h Hh) as (_ & Hl & Hu).
  destruct (stab_cover_facts k lo hi h m Hk Hl Hu ltac:(lia)) as (Hcnd & _ & _).
  rewrite hits_sym; [| exact Hcnd | apply path_nodes_NoDup].
  rewrite <- (stab_cover_eq k lo hi h).
  rewrite (cover_path_hits k); unfold word_fuel; rewrite ?pow2_succ'; try lia.
  apply f_equal with (f := fun b : bool => if b then 1 else 0).
  apply bool_decide_ext. lia.
Qed.

(** ** The ordered decomposition of a range *)

Lemma Decompose_loop_eq : forall (f : nat) L R lefts rights,
  0 < L -> R < 2 ^ Z.of_nat f ->
  Z.of_nat (length lefts) + Z.of_nat f < 128 ->
  Z.of_nat (length rights) + Z.of_nat f < 128 ->
  exists ls rs,
    RangePointSegTree.Decompose_loop (Datatypes.S f) L R lefts rights
    = Some (lefts ++ ls, rights ++ rs)
    /\ ls ++ rs ≡ₚ cover_nodes (Datatypes.S f) L R
    /\ Z.of_nat (length ls) <= Z.of_nat f /\ Z.of_nat (length rs) <= Z.of_nat f.
Proof.
  induction f as [|f IH]; intros L R lefts rights HL HR Hll Hlr.
  - simpl in HR. cbn [RangePointSegTree.Decompose_loop cover_nodes].
    destruct (Z.ltb_spec L R); [lia |]. exists [], []. rewrite !app_nil_r.
    repeat split; cbn [length]; try reflexivity; lia.
  - rewrite pow2_succ in HR.
    remember (Datatypes.S f) as f' eqn:Ef.
    cbn [RangePointSegTree.Decompose_loop cover_nodes].
    destruct (Z.ltb_spec L R) as [Hlt|Hge].
    2:{ exists [], []. rewrite !app_nil_r. repeat split; cbn [length]; try reflexivity; lia. }
    unfold RangePointSegTree.kMaxCoverNodes.
    set (L' := Z.shiftr (if odd L then L + 1 else L) 1).
    set (R' := Z.shiftr (if odd R then R - 1 else R) 1).
    assert (0 < L' /\ R' < 2 ^ Z.of_nat f) as (HL' & HR').
    { subst L' R'. rewrite !shiftr1.
      pose proof (half_bounds (if odd L then L + 1 else L)) as HbL.
      pose proof (half_bounds (if odd R then R - 1 else R)) as HbR.
      pose proof (half_exact L) as HeL.
      destruct (odd L) eqn:EL, (odd R) eqn:ER; odd_cases; lia. }
    assert (Hstep : forall lefts' rights',
              Z.of_nat (length lefts') + Z.of_nat f < 128 ->
              Z.of_nat (length rights') + Z.of_nat f < 128 ->
              exists ls rs,
                RangePointSegTree.Decompose_loop f' L' R' lefts' rights'
                = Some (lefts' ++ ls, rights' ++ rs)
                /\ ls ++ rs ≡ₚ cover_nodes f' L' R'
                /\ Z.of_nat (length ls) <= Z.of_nat f /\ Z.of_nat (length rs) <= Z.of_nat f).
    { intros lefts' rights' H1 H2. subst f'. apply IH; assumption. }
    subst L' R'.
    destruct (odd L) eqn:EL, (odd R) eqn:ER.
    + destruct (Z.ltb_spec (Z.of_nat (length lefts)) 128); [| lia].
      destruct (Z.ltb_spec (Z.of_nat (length rights)) 128); [| lia].
      cbn [mbind option_bind].
      destruct (Hstep (lefts ++ [L]) (rights ++ [R - 1])) as (ls & rs & -> & Hp & H1 & H2);
        rewrite ?length_app; cbn [length]; try lia.
      exists (L :: ls), ((R - 1) :: rs). rewrite <- !app_assoc. cbn [app].
      split; [reflexivity |]. split; [| cbn [length]; lia].
      rewrite <- Hp. constructor. symmetry. apply Permutation_middle.
    + destruct (Z.ltb_spec (Z.of_nat (length lefts)) 128); [| lia].
      cbn [mbind option_bind].
      destruct (Hstep (lefts ++ [L]) rights) as (ls & rs & -> & Hp & H1 & H2);
        rewrite ?length_app; cbn [length]; try lia.
      exists (L :: ls), rs. rewrite <- !app_assoc. cbn [app].
      split; [reflexivity |]. split; [| cbn [length]; lia].
      rewrite <- Hp. reflexivity.
    + destruct (Z.ltb_spec (Z.of_nat (length rights)) 128); [| lia].
      cbn [mbind option_bind].
      destruct (Hstep lefts (rights ++ [R - 1])) as (ls & rs & -> & Hp & H1 & H2);
        rewrite ?length_app; cbn [length]; try lia.
      exists ls, ((R - 1) :: rs). rewrite <- !app_assoc. cbn [app].
      split; [reflexivity |]. split; [| cbn [length]; lia].
      rewrite <- Hp. symmetry. apply Permutation_middle.
    + cbn [mbind option_bind].
      destruct (Hstep lefts rights) as (ls & rs & -> & Hp & H1 & H2); try lia.
      exists ls, rs. split; [reflexivity |]. split; [exact Hp | lia].
Qed.

Lemma DecomposeOrdered_perm st l r L R :
  l < r -> wrap32 (l + RangePointSegTree.p_ st) = L ->
  wrap32 (r + RangePointSegTree.p_ st) = R -> 0 < L -> R < 2 ^ 63 ->
  exists cover,
    RangePointSegTree.DecomposeOrdered st l r = Some cover
    /\ cover ≡ₚ cover_nodes word_fuel L R.
Proof.
  intros Hlr EL ER HL HR. unfold RangePointSegTree.DecomposeOrdered.
  destruct (Z.leb_spec r l); [lia |]. rewrite EL, ER.
  destruct (Decompose_loop_eq 63 L R [] [] HL HR) as (ls & rs & Hd & Hp & H1 & H2);
    cbn [length]; try lia.
  unfold word_fuel. rewrite Hd. cbn [mbind option_bind app].
  unfold RangePointSegTree.kMaxCoverNodes.
  destruct (Z.leb_spec (Z.of_nat (length ls + length rs)) 128); [| lia].
  eexists. split; [reflexivity |].
  rewrite <- Hp. apply Permutation_app_head. symmetry. apply Permutation_rev.
Qed.

(** ** Reporting *)

Lemma filter_none {A} (P : A -> Prop) `{forall a, Decision (P a)} (l : list A) :
  (forall a, a ∈ l -> ~ P a) -> filter P l = [].
Proof.
  induction l as [|a l IH]; intros Hn; [reflexivity |].
  rewrite filter_cons. rewrite decide_False by (apply Hn; left).
  apply IH. intros b Hb. apply Hn. right. exact Hb.
Qed.

Lemma stored_handles_cons nodes c Q :
  stored_handles nodes (c :: Q) = map it_handle (bucket_of nodes c) ++ stored_handles nodes Q.
Proof. reflexivity. Qed.

Lemma stored_handles_bucket nodes c Q bk :
  vget nodes c = Some bk ->
  stored_handles nodes (c :: Q) = map it_handle bk ++ stored_handles nodes Q.
Proof. intros Hbk. rewrite stored_handles_cons. unfold bucket_of. rewrite Hbk. reflexivity. Qed.

Lemma report_fold nodes : forall cover out,
  (forall c, c ∈ cover -> 0 <= c < Z.of_nat (length nodes)) ->
  ofold (fun out node => bucket ← vget nodes node; Some (out ++ map it_handle bucket))
        cover out
  = Some (out ++ stored_handles nodes cover).
Proof.
  induction cover as [|c cover IH]; intros out Hc.
  - cbn [ofold]. unfold stored_handles. cbn [map concat]. rewrite app_nil_r. reflexivity.
  - cbn [ofold]. destruct (vget_is_Some nodes c) as [bk Hbk]; [apply Hc; left |].
    rewrite Hbk. cbn [mbind option_bind]. rewrite IH by (intros c' Hc'; apply Hc; right; exact Hc').
    rewrite (stored_handles_bucket _ _ _ _ Hbk). rewrite <- app_assoc. reflexivity.
Qed.

Lemma pts_ReportRange st nh m k act rk l r out :
  pts_rep st nh m k act rk -> 0 <= l ->
  exists hs, RangePointSegTree.ReportRange st l r out = Some (out ++ hs)
             /\ hs ≡ₚ filter (fun h => l <= rk h < r) act.
Proof.
  intros Hrep Hl.
  pose proof (pr_shape _ _ _ _ _ _ Hrep) as Hsh.
  destruct Hsh as [Hnh Hm Hmr [Hp Hk Hnhr Hmm Hnodes Hpin] _ _].
  pose proof (pow2_30 k Hk) as H30. pose proof (pow2_pos k) as Hpos.
  unfold RangePointSegTree.ReportRange. rewrite Hm.
  assert (Hzero : r <= l \/ Z.min r m <= Z.min l m ->
            filter (fun h => l <= rk h < r) act = []).
  { intros Hc. apply filter_none. intros h Hh.
    pose proof (pr_act _ _ _ _ _ _ Hrep h Hh) as [_ Hr]. lia. }
  destruct (Z.leb_spec r l) as [Hrl|Hrl]; cbn [orb].
  { exists []. rewrite app_nil_r, Hzero by lia. split; reflexivity. }
  destruct (Z.eqb_spec m 0) as [Hm0|Hm0]; [lia |].
  destruct (Z.leb_spec (Z.min r m) (Z.min l m)) as [Hrl'|Hrl'].
  { exists []. rewrite app_nil_r, Hzero by lia. split; reflexivity. }
  set (L := Z.min l m + 2 ^ Z.of_nat k). set (R := Z.min r m + 2 ^ Z.of_nat k).
  destruct (DecomposeOrdered_perm st (Z.min l m) (Z.min r m) L R) as (cover & -> & Hperm);
    rewrite ?Hp, ?wrap32_small by lia; try reflexivity; try (subst L R; lia).
  cbn [mbind option_bind].
  assert (Hcov : forall c, c ∈ cover -> 0 <= c < 2 * 2 ^ Z.of_nat k).
  { intros c Hc. apply (elem_of_Permutation_proper c _ _ Hperm) in Hc.
    apply cover_nodes_bounds in Hc; subst L R; lia. }
  rewrite report_fold by (intros c Hc; rewrite Hnodes; apply Hcov; exact Hc).
  eexists. split; [reflexivity |].
  rewrite (stored_handles_perm _ _ _ _ _ _ act (pts_path k rk)
             (fun h => bool_decide (l <= rk h < r)) cover
             (pr_store _ _ _ _ _ _ Hrep) (pr_nodup _ _ _ _ _ _ Hrep)
             ltac:(intros; reflexivity) Hcov).
  - erewrite list_filter_iff; [reflexivity |]. intros h. apply bool_decide_eq_true.
  - intros h Hh.
    transitivity (hits (pts_path k rk h) (cover_nodes word_fuel L R));
      [apply zcount_perm; exact Hperm |].
    pose proof (pr_act _ _ _ _ _ _ Hrep h Hh) as [_ Hr].
    subst L R.
    rewrite (pts_hits st nh m k act rk (Z.min l m) (Z.min r m) h Hrep) by (try assumption; lia).
    apply f_equal with (f := fun b : bool => if b then 1 else 0).
    apply bool_decide_ext. lia.
Qed.

Lemma stab_Report_loop_eq : forall (f : nat) st idx out,
  0 <= idx < 2 ^ Z.of_nat f -> idx < Z.of_nat (length (StabbingSegTree.nodes_ st)) ->
  StabbingSegTree.Report_loop (Datatypes.S f) st idx out
  = Some (out ++ stored_handles (StabbingSegTree.nodes_ st) (path_nodes (Datatypes.S f) idx)).
Proof.
  induction f as [|f IH]; intros st idx out Hidx Hlen.
  - simpl in Hidx. cbn [StabbingSegTree.Report_loop path_nodes].
    destruct (Z.ltb_spec 0 idx); [lia |]. unfold stored_handles. cbn [map concat].
    rewrite app_nil_r. reflexivity.
  - rewrite pow2_succ in Hidx.
    remember (Datatypes.S f) as f' eqn:Ef.
    cbn [StabbingSegTree.Report_loop path_nodes].
    destruct (Z.ltb_spec 0 idx) as [Hpos|Hz].
    2:{ unfold stored_handles. cbn [map concat]. rewrite app_nil_r. reflexivity. }
    destruct (vget_is_Some (StabbingSegTree.nodes_ st) idx ltac:(lia)) as [bk Hbk].
    rewrite Hbk. cbn [mbind option_bind].
    subst f'. pose proof (half_bounds idx) as Hhb.
    rewrite IH by (rewrite shiftr1; lia).
    rewrite (stored_handles_bucket _ _ _ _ Hbk). rewrite <- app_assoc. reflexivity.
Qed.

Lemma stab_Report st nh m k act lo hi q out :
  stab_rep st nh m k act lo hi -> 0 <= q ->
  exists hs, StabbingSegTree.Report st q out = Some (out ++ hs)
             /\ hs ≡ₚ filter (fun h => lo h <= q < hi h) act.
Proof.
  intros Hrep Hq.
  pose proof (sr_shape _ _ _ _ _ _ _ Hrep) as Hsh.
  destruct Hsh as [Hnh Hm Hmr [Hp Hk Hnhr Hmm Hnodes Hpin] _ _ _].
  pose proof (pow2_30 k Hk) as H30. pose proof (pow2_pos k) as Hpos.
  unfold StabbingSegTree.Report. rewrite Hm, Hp.
  destruct (Z.eqb_spec m 0) as [Hm0|Hm0]; [lia |]. cbn [orb].
  destruct (Z.leb_spec m q) as [Hmq|Hmq].
  { exists []. rewrite app_nil_r. split; [reflexivity |].
    rewrite filter_none; [reflexivity |]. intros h Hh.
    pose proof (sr_act _ _ _ _ _ _ _ Hrep h Hh) as (_ & _ & Hr). lia. }
  rewrite !wrap32_small by lia.
  set (x := q + 2 ^ Z.of_nat k).
  assert (Hpath : forall c, c ∈ path_nodes word_fuel x -> 0 <= c < 2 * 2 ^ Z.of_nat k).
  { intros c Hc%path_nodes_bounds; subst x; lia. }
  unfold word_fuel in *.
  rewrite stab_Report_loop_eq by (rewrite ?Hnodes; subst x; lia).
  eexists. split; [reflexivity |].
  rewrite (stored_handles_perm _ _ _ _ _ _ act (stab_cover k lo hi)
             (fun h => bool_decide (lo h <= q < hi h)) _
             (sr_store _ _ _ _ _ _ _ Hrep) (sr_nodup _ _ _ _ _ _ _ Hrep)
             ltac:(intros; reflexivity) Hpath).
  - erewrite list_filter_iff; [reflexivity |]. intros h. apply bool_decide_eq_true.
  - intros h Hh. apply (stab_hits st nh m k act lo hi q h Hrep); [lia | exact Hh].
Qed.

(** ** Sampling *)

(** The nodes of [Q] with a non-empty bucket, which are the ones the two
    [Sample] methods draw from. *)
Definition ne_nodes (nodes : list (list Item)) (Q : list Z) : list Z :=
  filter (fun c => node_size nodes c <> 0) Q.

Lemma node_size_bucket nodes c : node_size nodes c = Z.of_nat (length (bucket_of nodes c)).
Proof. unfold node_size, bucket_of. destruct (vget nodes c); reflexivity. Qed.

Lemma ne_nodes_cons nodes c Q :
  ne_nodes nodes (c :: Q)
  = if decide (node_size nodes c <> 0) then c :: ne_nodes nodes Q else ne_nodes nodes Q.
Proof. unfold ne_nodes. rewrite filter_cons. reflexivity. Qed.

Lemma stored_handles_ne nodes Q :
  stored_handles nodes (ne_nodes nodes Q) = stored_handles nodes Q.
Proof.
  induction Q as [|c Q IH]; [reflexivity |].
  rewrite ne_nodes_cons, !stored_handles_cons. destruct (decide (node_size nodes c <> 0)) as [Hc|Hc].
  - rewrite stored_handles_cons, IH. reflexivity.
  - rewrite IH. rewrite node_size_bucket in Hc.
    destruct (bucket_of nodes c); [reflexivity | cbn [length] in Hc; lia].
Qed.

Lemma ne_nodes_nil nodes Q : ne_nodes nodes Q = [] <-> zsum (node_size nodes) Q = 0.
Proof.
  induction Q as [|c Q IH]; [split; reflexivity |].
  rewrite ne_nodes_cons. cbn [zsum fold_right]. fold (zsum (node_size nodes) Q).
  pose proof (node_size_nonneg nodes c) as Hc.
  assert (0 <= zsum (node_size nodes) Q) as Hq
    by (apply zsum_nonneg; intros; apply node_size_nonneg).
  destruct (decide (node_size nodes c <> 0)) as [Hn|Hn].
  - split; [discriminate | lia].
  - rewrite IH. lia.
Qed.

Lemma pts_collect_eq st : forall cover ns ws tot,
  (forall c, c ∈ cover -> 0 <= c < Z.of_nat (length (RangePointSegTree.nodes_ st))) ->
  0 <= tot ->
  tot + zsum (node_size (RangePointSegTree.nodes_ st)) cover < 2 ^ 64 ->
  ofold (fun '(nodes, weights, total) node =>
           w ← RangePointSegTree.bucket_size st node;
           if w =? 0 then Some (nodes, weights, total)
           else Some (nodes ++ [node], weights ++ [w], wrap64 (total + w)))
        cover (ns, ws, tot)
  = Some (ns ++ ne_nodes (RangePointSegTree.nodes_ st) cover,
          ws ++ map (node_size (RangePointSegTree.nodes_ st))
                    (ne_nodes (RangePointSegTree.nodes_ st) cover),
          tot + zsum (node_size (RangePointSegTree.nodes_ st)) cover).
Proof.
  set (nodes := RangePointSegTree.nodes_ st).
  induction cover as [|c cover IH]; intros ns ws tot Hc Ht Hsum.
  - cbn [ofold zsum fold_right map]. unfold ne_nodes. rewrite filter_nil. cbn [map].
    rewrite !app_nil_r. do 2 f_equal. lia.
  - cbn [ofold]. cbn [zsum fold_right] in Hsum |- *. fold (zsum (node_size nodes) cover) in Hsum |- *.
    pose proof (node_size_nonneg nodes c) as Hn.
    assert (0 <= zsum (node_size nodes) cover) as Hq
      by (apply zsum_nonneg; intros; apply node_size_nonneg).
    assert (Hsz : RangePointSegTree.bucket_size st c = Some (node_size nodes c)).
    { unfold RangePointSegTree.bucket_size, node_size. fold nodes.
      destruct (vget_is_Some nodes c) as [bk ->]; [apply Hc; left | reflexivity]. }
    rewrite Hsz. cbn [mbind option_bind]. rewrite ne_nodes_cons.
    assert (Hc' : forall c', c' ∈ cover -> 0 <= c' < Z.of_nat (length nodes))
      by (intros c' Hin; apply Hc; right; exact Hin).
    destruct (Z.eqb_spec (node_size nodes c) 0) as [E|E].
    + rewrite decide_False by lia. cbn [mbind option_bind].
      rewrite IH by (try assumption; lia). do 2 f_equal. lia.
    + rewrite decide_True by exact E. cbn [mbind option_bind]. rewrite wrap64_small by lia.
      rewrite IH by (try assumption; lia). cbn [map]. rewrite <- !app_assoc. cbn [app].
      do 2 f_equal. lia.
Qed.

Lemma stab_Sample_path_eq : forall (f : nat) st idx ns ws tot,
  0 <= idx < 2 ^ Z.of_nat f -> idx < Z.of_nat (length (StabbingSegTree.nodes_ st)) ->
  Z.of_nat (length ns) + Z.of_nat f < 64 ->
  0 <= tot ->
  tot + zsum (node_size (StabbingSegTree.nodes_ st)) (path_nodes (Datatypes.S f) idx) < 2 ^ 64 ->
  StabbingSegTree.Sample_path (Datatypes.S f) st idx ns ws tot
  = Some (ns ++ ne_nodes (StabbingSegTree.nodes_ st) (path_nodes (Datatypes.S f) idx),
          ws ++ map (node_size (StabbingSegTree.nodes_ st))
                    (ne_nodes (StabbingSegTree.nodes_ st) (path_nodes (Datatypes.S f) idx)),
          tot + zsum (node_size (StabbingSegTree.nodes_ st)) (path_nodes (Datatypes.S f) idx)).
Proof.
  induction f as [|f IH]; intros st idx ns ws tot Hidx Hlen Hns Ht Hsum.
  - simpl in Hidx. cbn [StabbingSegTree.Sample_path path_nodes].
    destruct (Z.ltb_spec 0 idx); [lia |]. cbn [zsum fold_right]. unfold ne_nodes.
    rewrite filter_nil. cbn [map]. rewrite !app_nil_r. do 2 f_equal. lia.
  - rewrite pow2_succ in Hidx.
    remember (Datatypes.S f) as f' eqn:Ef.
    cbn [StabbingSegTree.Sample_path]. cbn [path_nodes] in Hsum |- *.
    destruct (Z.ltb_spec 0 idx) as [Hpos|Hz].
    2:{ cbn [zsum fold_right]. unfold ne_nodes. rewrite filter_nil. cbn [map].
        rewrite !app_nil_r. do 2 f_equal. lia. }
    cbn [zsum fold_right] in Hsum |- *.
    set (nodes := StabbingSegTree.nodes_ st) in *.
    fold (zsum (node_size nodes) (path_nodes f' (Z.shiftr idx 1))) in Hsum |- *.
    pose proof (node_size_nonneg nodes idx) as Hn.
    assert (0 <= zsum (node_size nodes) (path_nodes f' (Z.shiftr idx 1))) as Hrest
      by (apply zsum_nonneg; intros; apply node_size_nonneg).
    assert (Hsz : StabbingSegTree.bucket_size st idx = Some (node_size nodes idx)).
    { unfold StabbingSegTree.bucket_size, node_size. fold nodes.
      destruct (vget_is_Some nodes idx) as [bk ->]; [lia | reflexivity]. }
    rewrite Hsz. cbn [mbind option_bind]. rewrite ne_nodes_cons.
    unfold StabbingSegTree.kMaxPathNodes.
    subst f'. pose proof (half_bounds idx) as Hhb. rewrite shiftr1 in *.
    destruct (Z.ltb_spec 0 (node_size nodes idx)) as [E|E].
    + rewrite decide_True by lia.
      destruct (Z.ltb_spec (Z.of_nat (length ns)) 64); [| lia].
      rewrite wrap64_small by lia.
      rewrite IH; fold nodes; rewrite ?length_app; cbn [length]; try lia.
      cbn [map]. rewrite <- !app_assoc. cbn [app]. do 2 f_equal. lia.
    + rewrite decide_False by lia.
      rewrite IH; fold nodes; try lia. do 2 f_equal. lia.
Qed.

(** ** Draws that do not end

    The rejection loop of [UniformU64] is the only part of a draw whose
    termination depends on the generator.  [rng_skip n g] is the generator
    [g] after [n] words were drawn from it. *)
Definition rng_skip (n : nat) (g : Rng) : Rng :=
  Nat.iter n (fun g => snd (RngOps.NextU64 g)) g.

(** [g'] is [g] after at most [words] words were drawn. *)
Definition rng_words (g g' : Rng) (words : Z) : Prop :=
  exists n : nat, Z.of_nat n <= words /\ g' = rng_skip n g.

(** A draw of a run that started with the generator [g] did not end: after
    at most [words] words were drawn from [g], a call of [UniformU64] with a
    positive bound that satisfies [P] rejected every word it looked at. *)
Definition draw_stuck (g : Rng) (words : Z) (P : Z -> Prop) : Prop :=
  exists (n : nat) (bound : Z),
    Z.of_nat n <= words /\ P bound /\ 0 < bound
    /\ RngOps.UniformU64 bound (rng_skip n g) = None.

Lemma rng_skip_add n m g : rng_skip n (rng_skip m g) = rng_skip (m + n) g.
Proof. unfold rng_skip. rewrite (Nat.add_comm m n), Nat.iter_add. reflexivity. Qed.

Lemma rng_words_refl g words : 0 <= words -> rng_words g g words.
Proof. intros Hw. exists 0%nat. split; [exact Hw | reflexivity]. Qed.

Lemma rng_words_trans g g1 g2 w1 w2 w :
  rng_words g g1 w1 -> rng_words g1 g2 w2 -> w1 + w2 <= w -> rng_words g g2 w.
Proof.
  intros (n1 & H1 & ->) (n2 & H2 & ->) Hw. exists (n1 + n2)%nat.
  split; [lia | apply rng_skip_add].
Qed.

Lemma draw_stuck_here g bound words (P : Z -> Prop) :
  P bound -> 0 < bound -> RngOps.UniformU64 bound g = None -> 0 <= words ->
  draw_stuck g words P.
Proof. intros HP Hb Hu Hw. exists 0%nat, bound. repeat split; assumption. Qed.

Lemma draw_stuck_after g g1 w1 w2 w (P Q : Z -> Prop) :
  rng_words g g1 w1 -> draw_stuck g1 w2 P -> w1 + w2 <= w ->
  (forall b, P b -> Q b) -> draw_stuck g w Q.
Proof.
  intros (n1 & H1 & ->) (n2 & bound & H2 & HP & Hb & Hu) Hw HPQ.
  exists (n1 + n2)%nat, bound. rewrite <- rng_skip_add.
  split; [lia |]. split; [apply HPQ; exact HP |]. split; assumption.
Qed.

Lemma NextU64_words g : rng_words g (snd (RngOps.NextU64 g)) 1.
Proof. exists 1%nat. split; [lia | reflexivity]. Qed.

Lemma UniformU64_loop_words : forall fuel bound threshold g x g',
  RngOps.UniformU64_loop fuel bound threshold g = Some (x, g') ->
  rng_words g g' (Z.of_nat fuel).
Proof.
  induction fuel as [|fuel IH]; intros bound threshold g x g' Hu; [discriminate |].
  cbn [RngOps.UniformU64_loop] in Hu.
  pose proof (NextU64_words g) as Hw. destruct (RngOps.NextU64 g) as [y g1].
  cbn [snd] in Hw. destruct (threshold <=? wrap64 (y * bound)).
  - injection Hu as _ <-. destruct Hw as (n & Hn & ->). exists n. split; [lia | reflexivity].
  - eapply rng_words_trans; [exact Hw | apply (IH _ _ _ _ _ Hu) | lia].
Qed.

(** A call of [UniformU64] that returns has drawn at most [word_fuel] words. *)
Lemma UniformU64_words bound g x g' :
  RngOps.UniformU64 bound g = Some (x, g') -> rng_words g g' 64.
Proof.
  unfold RngOps.UniformU64. destruct (bound =? 0).
  - intros [= _ <-]. apply rng_words_refl. lia.
  - intros Hu. apply UniformU64_loop_words in Hu. exact Hu.
Qed.

Lemma UniformU32_words bound g x g' :
  RngOps.UniformU32 bound g = Some (x, g') -> rng_words g g' 64.
Proof.
  unfold RngOps.UniformU32.
  destruct (RngOps.UniformU64 bound g) as [[y g1]|] eqn:Hu; [| discriminate].
  cbn [mbind option_bind]. intros [= _ <-]. apply (UniformU64_words _ _ _ _ Hu).
Qed.

Lemma UniformU32_None bound g :
  RngOps.UniformU32 bound g = None -> RngOps.UniformU64 bound g = None.
Proof.
  unfold RngOps.UniformU32.
  destruct (RngOps.UniformU64 bound g) as [[y g1]|]; [discriminate | reflexivity].
Qed.

Lemma pick_scan_range : forall weights cum bi x,
  bi <= pick_scan weights cum bi x <= bi + Z.of_nat (length weights).
Proof.
  induction weights as [|w ws IH]; intros cum bi x; cbn [pick_scan length]; [lia |].
  destruct (x <? wrap64 (cum + w)); [lia |].
  specialize (IH (wrap64 (cum + w)) (bi + 1) x). lia.
Qed.

Lemma pick_bucket_range weights x :
  0 < Z.of_nat (length weights) < 2 ^ 32 ->
  0 <= pick_bucket weights x < Z.of_nat (length weights).
Proof.
  intros Hn. unfold pick_bucket. pose proof (pick_scan_range weights 0 0 x) as Hs.
  destruct (Z.leb_spec (Z.of_nat (length weights)) (pick_scan weights 0 0 x)).
  - rewrite wrap32_small by lia. lia.
  - lia.
Qed.

Definition draw_step (nodes_ : list (list Item)) (nodes weights : list Z) (total : Z)
    (st : list Z * Rng) : Z -> option (list Z * Rng) :=
  let '(out, g) := st in
  fun _ =>
  '(x, g) ← RngOps.UniformU64 total g;
  let bi := pick_bucket weights x in
  node ← vget nodes bi;
  bucket ← vget nodes_ node;
  '(pos, g) ← RngOps.UniformU32 (wrap32 (Z.of_nat (length bucket))) g;
  it ← vget bucket pos;
  Some (out ++ [it_handle it], g).

Lemma draw_handles_eq nodes_ nodes weights total k g :
  draw_handles nodes_ nodes weights total k g
  = ofold (draw_step nodes_ nodes weights total) (upto k) ([], g).
Proof. reflexivity. Qed.

Lemma draw_step_spec nodes_ nodes weights total out g i :
  0 < total ->
  0 < Z.of_nat (length nodes) < 2 ^ 32 -> length weights = length nodes ->
  (forall c, c ∈ nodes -> 0 < Z.of_nat (length (bucket_of nodes_ c)) < 2 ^ 32) ->
  (forall c, c ∈ nodes -> Z.of_nat (length (bucket_of nodes_ c)) <= total) ->
  match draw_step nodes_ nodes weights total (out, g) i with
  | Some (out', g') =>
      (exists h, out' = out ++ [h] /\ h ∈ stored_handles nodes_ nodes)
      /\ rng_words g g' 128
  | None => draw_stuck g 64 (fun b => b <= total)
  end.
Proof.
  intros Ht Hn Hw Hb Hle. unfold draw_step.
  destruct (RngOps.UniformU64 total g) as [[x g1]|] eqn:Hu;
    [| apply (draw_stuck_here g total); [lia | exact Ht | exact Hu | lia]].
  cbn [mbind option_bind].
  pose proof (UniformU64_words _ _ _ _ Hu) as Hw1.
  pose proof (pick_bucket_range weights x ltac:(rewrite Hw; exact Hn)) as Hbi.
  rewrite Hw in Hbi.
  destruct (vget_is_Some nodes (pick_bucket weights x) Hbi) as [node Hnode].
  rewrite Hnode. cbn [mbind option_bind].
  assert (Hin : node ∈ nodes).
  { apply vget_Some in Hnode as [_ Hl]. eapply list_elem_of_lookup_2. exact Hl. }
  specialize (Hb node Hin). specialize (Hle node Hin). unfold bucket_of in Hb, Hle.
  destruct (vget nodes_ node) as [bucket|] eqn:Hbk; [| cbn in Hb; lia].
  change (default [] (Some bucket)) with bucket in Hb, Hle. cbn [mbind option_bind].
  rewrite (wrap32_small (Z.of_nat (length bucket))) by lia.
  destruct (RngOps.UniformU32 (Z.of_nat (length bucket)) g1) as [[pos g2]|] eqn:Hp.
  2:{ apply UniformU32_None in Hp.
      eapply (draw_stuck_after g g1 64 0); [exact Hw1 | | lia | intros b Hbb; exact Hbb].
      apply (draw_stuck_here g1 (Z.of_nat (length bucket))); [exact Hle | lia | exact Hp | lia]. }
  cbn [mbind option_bind].
  pose proof (UniformU32_words _ _ _ _ Hp) as Hw2.
  assert (Hbound : 0 < Z.of_nat (length bucket) <= u32_max) by (unfold u32_max; lia).
  pose proof (UniformU32_range _ _ _ _ Hbound Hp) as Hpos.
  destruct (vget_is_Some bucket pos Hpos) as [it Hit]. rewrite Hit.
  cbn [mbind option_bind]. split.
  - exists (it_handle it). split; [reflexivity |].
    apply elem_stored_handles. exists node, it. split; [exact Hin |].
    split; [| reflexivity]. unfold bucket_of. rewrite Hbk. cbn [default].
    apply vget_Some in Hit as [_ Hl]. eapply list_elem_of_lookup_2. exact Hl.
  - eapply rng_words_trans; [exact Hw1 | exact Hw2 | lia].
Qed.

Lemma draw_fold_spec nodes_ nodes weights total :
  0 < total ->
  0 < Z.of_nat (length nodes) < 2 ^ 32 -> length weights = length nodes ->
  (forall c, c ∈ nodes -> 0 < Z.of_nat (length (bucket_of nodes_ c)) < 2 ^ 32) ->
  (forall c, c ∈ nodes -> Z.of_nat (length (bucket_of nodes_ c)) <= total) ->
  forall js out g,
    match ofold (draw_step nodes_ nodes weights total) js (out, g) with
    | Some (out', g') =>
        (exists new, out' = out ++ new /\ length new = length js
                     /\ forall h, h ∈ new -> h ∈ stored_handles nodes_ nodes)
        /\ rng_words g g' (128 * Z.of_nat (length js))
    | None => draw_stuck g (128 * Z.of_nat (length js)) (fun b => b <= total)
    end.
Proof.
  intros Ht Hn Hw Hb Hle. induction js as [|j js IH]; intros out g.
  - cbn [ofold]. split; [| apply rng_words_refl; cbn [length]; lia].
    exists []. rewrite app_nil_r. split; [reflexivity |].
    split; [reflexivity |]. intros h Hh. inversion Hh.
  - cbn [ofold].
    pose proof (draw_step_spec nodes_ nodes weights total out g j Ht Hn Hw Hb Hle) as Hs.
    destruct (draw_step nodes_ nodes weights total (out, g) j) as [[out1 g1]|].
    2:{ cbn [mbind option_bind]. destruct Hs as (n & bound & H1 & H2 & H3 & H4).
        exists n, bound. cbn [length]. repeat split; try assumption. lia. }
    cbn [mbind option_bind]. destruct Hs as [(h & -> & Hh) Hw1].
    specialize (IH (out ++ [h]) g1).
    destruct (ofold (draw_step nodes_ nodes weights total) js (out ++ [h], g1))
      as [[out2 g2]|].
    + destruct IH as [(new & -> & Hlen & Hnew) Hw2]. split.
      * exists (h :: new). rewrite <- app_assoc. split; [reflexivity |].
        split; [cbn [length]; rewrite Hlen; reflexivity |].
        intros h' [-> | Hin]%elem_of_cons; [exact Hh | apply Hnew; exact Hin].
      * eapply rng_words_trans; [exact Hw1 | exact Hw2 | cbn [length]; lia].
    + eapply draw_stuck_after; [exact Hw1 | exact IH | cbn [length]; lia |].
      intros b Hbb. exact Hbb.
Qed.

(** What a [Sample] call for [k] handles, entered with the generator [g],
    returned, against the handles [matching] the query: a failure exactly
    when nothing matches, otherwise [k] handles that all match.  Nothing is
    returned only when one of its draws did not end: each of the [k] handles
    takes two calls of [UniformU64], of at most [word_fuel] words each and
    with a positive bound that is at most the number of matching handles,
    and one of these calls rejected every word. *)
Definition sample_post (matching : list Z) (k : Z) (g : Rng)
    (res : option (bool * list Z * Rng)) : Prop :=
  match res with
  | Some (ok, out, g') =>
      if ok
      then matching <> [] /\ length out = Z.to_nat k /\ (forall h, h ∈ out -> h ∈ matching)
      else matching = [] /\ out = [] /\ g' = g
  | None =>
      matching <> []
      /\ draw_stuck g (128 * k) (fun b => b <= Z.of_nat (length matching))
  end.

Lemma sample_post_perm m1 m2 k g res :
  m1 ≡ₚ m2 -> sample_post m1 k g res -> sample_post m2 k g res.
Proof.
  intros Hp. assert (Hnil : m1 = [] <-> m2 = []).
  { split; intros ->; [symmetry in Hp |]; apply Permutation_nil_r in Hp; exact Hp. }
  unfold sample_post. destruct res as [[[[] out] g']|].
  - intros (H1 & H2 & H3). split; [tauto |]. split; [exact H2 |].
    intros h Hh. rewrite <- Hp. apply H3. exact Hh.
  - intros (H1 & H2 & H3). split; [tauto | split; assumption].
  - intros (H1 & H2). split; [tauto |].
    rewrite <- (Permutation_length Hp). exact H2.
Qed.

Lemma length_stored_handles nodes Q :
  Z.of_nat (length (stored_handles nodes Q)) = zsum (node_size nodes) Q.
Proof.
  induction Q as [|c Q IH]; [reflexivity |].
  rewrite stored_handles_cons, length_app, length_map. cbn [zsum fold_right].
  fold (zsum (node_size nodes) Q). rewrite <- IH, node_size_bucket. lia.
Qed.

Lemma bucket_le_stored nodes Q c :
  c ∈ Q -> Z.of_nat (length (bucket_of nodes c)) <= Z.of_nat (length (stored_handles nodes Q)).
Proof.
  induction Q as [|c' Q IH]; intros Hc; [inversion Hc |].
  rewrite stored_handles_cons, length_app, length_map.
  apply elem_of_cons in Hc as [-> | Hc]; [lia |]. specialize (IH Hc). lia.
Qed.

(** The draws of both [Sample] methods over the non-empty buckets of the
    node list [Q]. *)
Lemma sample_draws nodes_ Q total k g (matching : list Z) :
  stored_handles nodes_ Q ≡ₚ matching ->
  total = zsum (node_size nodes_) Q ->
  Z.of_nat (length Q) < 2 ^ 32 ->
  (forall c, c ∈ Q -> Z.of_nat (length (bucket_of nodes_ c)) < 2 ^ 32) ->
  sample_post matching k g
    (if (total =? 0) || Nat.eqb (length (ne_nodes nodes_ Q)) 0 then Some (false, [], g)
     else '(out, g) ← draw_handles nodes_ (ne_nodes nodes_ Q)
                        (map (node_size nodes_) (ne_nodes nodes_ Q)) total k g;
          Some (true, out, g)).
Proof.
  intros Hperm Ht HQ Hb.
  assert (0 <= total) as Hnn
    by (rewrite Ht; apply zsum_nonneg; intros; apply node_size_nonneg).
  assert (Hlen : Z.of_nat (length (stored_handles nodes_ Q)) = total).
  { rewrite Ht. clear. induction Q as [|c Q IH]; [reflexivity |].
    rewrite stored_handles_cons, length_app, length_map. cbn [zsum fold_right].
    fold (zsum (node_size nodes_) Q). rewrite <- IH, node_size_bucket. lia. }
  destruct (Z.eqb_spec total 0) as [E|E]; cbn [orb].
  { unfold sample_post. split; [| split; reflexivity].
    apply Permutation_length in Hperm. rewrite E in Hlen.
    destruct matching; [reflexivity | cbn [length] in Hperm; lia]. }
  assert (Hne : ne_nodes nodes_ Q <> []) by (rewrite ne_nodes_nil; lia).
  destruct (ne_nodes nodes_ Q) as [|c0 Q0] eqn:EQ; [congruence |].
  cbn [length Nat.eqb]. rewrite <- EQ.
  assert (Hm : matching <> []).
  { intros ->. apply Permutation_length in Hperm. cbn [length] in Hperm. lia. }
  rewrite draw_handles_eq.
  assert (Hsub : forall c, c ∈ ne_nodes nodes_ Q -> c ∈ Q /\ node_size nodes_ c <> 0).
  { intros c Hc. unfold ne_nodes in Hc. apply list_elem_of_filter in Hc. tauto. }
  pose proof (draw_fold_spec nodes_ (ne_nodes nodes_ Q)
                (map (node_size nodes_) (ne_nodes nodes_ Q)) total ltac:(lia)) as Hd.
  specialize (Hd).
  assert (Hlq : Z.of_nat (length (ne_nodes nodes_ Q)) <= Z.of_nat (length Q)).
  { unfold ne_nodes. pose proof (length_filter (fun c => node_size nodes_ c <> 0) Q). lia. }
  specialize (Hd ltac:(rewrite EQ in *; cbn [length] in *; lia) ltac:(apply length_map)).
  specialize (Hd ltac:(intros c Hc; destruct (Hsub c Hc) as [Hc1 Hc2];
                       specialize (Hb c Hc1); rewrite node_size_bucket in Hc2; lia)).
  specialize (Hd ltac:(intros c Hc; destruct (Hsub c Hc) as [Hc1 _]; rewrite <- Hlen;
                       apply bucket_le_stored; exact Hc1)).
  specialize (Hd (upto k) [] g).
  destruct (ofold _ (upto k) ([], g)) as [[out g']|] eqn:Hfold.
  - cbn [mbind option_bind]. destruct Hd as [(new & -> & Hl & Hin) _]. cbn [app].
    unfold sample_post. split; [exact Hm |]. split.
    + rewrite Hl. unfold upto. rewrite length_seqZ. reflexivity.
    + intros h Hh. rewrite <- Hperm, <- stored_handles_ne. apply Hin. exact Hh.
  - cbn [mbind option_bind]. unfold sample_post. split; [exact Hm |].
    destruct Hd as (n & bound & H1 & H2 & H3 & H4). exists n, bound.
    unfold upto in H1, Hfold. rewrite length_seqZ in H1.
    destruct (Z.ltb_spec k 0) as [Hneg|Hnn'];
      [rewrite seqZ_nil in Hfold by lia; discriminate Hfold |].
    split; [lia |]. split; [| split; assumption].
    rewrite <- (Permutation_length Hperm), Hlen. exact H2.
Qed.

Lemma filter_length_le {A} (P : A -> Prop) `{forall a, Decision (P a)} (l : list A) :
  Z.of_nat (length (filter P l)) <= Z.of_nat (length l).
Proof. pose proof (length_filter P l). lia. Qed.

Lemma filter_ext_elem {A} (P Q : A -> Prop) `{forall a, Decision (P a)}
    `{forall a, Decision (Q a)} (l : list A) :
  (forall a, a ∈ l -> P a <-> Q a) -> filter P l = filter Q l.
Proof.
  induction l as [|a l IH]; intros Hext; [reflexivity |].
  rewrite !filter_cons. rewrite IH by (intros b Hb; apply Hext; right; exact Hb).
  destruct (decide (P a)) as [Hp|Hp], (decide (Q a)) as [Hq|Hq]; try reflexivity;
    exfalso; specialize (Hext a ltac:(left)); tauto.
Qed.

Lemma pts_cover_handles st nh m k act rk l r cover :
  pts_rep st nh m k act rk -> 0 <= l -> l < r -> r <= m ->
  cover ≡ₚ cover_nodes word_fuel (l + 2 ^ Z.of_nat k) (r + 2 ^ Z.of_nat k) ->
  (forall c, c ∈ cover -> 0 <= c < 2 * 2 ^ Z.of_nat k)
  /\ Z.of_nat (length cover) <= 62
  /\ stored_handles (RangePointSegTree.nodes_ st) cover
     ≡ₚ filter (fun h => l <= rk h < r) act.
Proof.
  intros Hrep Hl Hlr Hr Hperm.
  destruct (pr_shape _ _ _ _ _ _ Hrep) as [_ _ _ [_ Hk _ Hmm _ _] _ _].
  pose proof (pow2_30 k Hk) as H30. pose proof (pow2_pos k) as Hpos.
  assert (Hcov : forall c, c ∈ cover -> 0 <= c < 2 * 2 ^ Z.of_nat k).
  { intros c Hc. apply (elem_of_Permutation_proper c _ _ Hperm) in Hc.
    apply cover_nodes_bounds in Hc; lia. }
  split; [exact Hcov |]. split.
  - rewrite (Permutation_length Hperm).
    pose proof (cover_nodes_length k word_fuel (l + 2 ^ Z.of_nat k) (r + 2 ^ Z.of_nat k)
                  ltac:(lia) ltac:(lia) ltac:(rewrite pow2_succ'; lia)). lia.
  - rewrite (stored_handles_perm _ _ _ _ _ _ act (pts_path k rk)
               (fun h => bool_decide (l <= rk h < r)) cover
               (pr_store _ _ _ _ _ _ Hrep) (pr_nodup _ _ _ _ _ _ Hrep)
               ltac:(intros; reflexivity) Hcov).
    + erewrite list_filter_iff; [reflexivity |]. intros h. apply bool_decide_eq_true.
    + intros h Hh.
      transitivity (hits (pts_path k rk h)
                      (cover_nodes word_fuel (l + 2 ^ Z.of_nat k) (r + 2 ^ Z.of_nat k)));
        [apply zcount_perm; exact Hperm |].
      apply (pts_hits st nh m k act rk l r h Hrep); assumption.
Qed.

Lemma stab_path_handles st nh m k act lo hi q :
  stab_rep st nh m k act lo hi -> 0 <= q < m ->
  (forall c, c ∈ path_nodes word_fuel (q + 2 ^ Z.of_nat k) -> 0 <= c < 2 * 2 ^ Z.of_nat k)
  /\ Z.of_nat (length (path_nodes word_fuel (q + 2 ^ Z.of_nat k))) <= 31
  /\ stored_handles (StabbingSegTree.nodes_ st) (path_nodes word_fuel (q + 2 ^ Z.of_nat k))
     ≡ₚ filter (fun h => lo h <= q < hi h) act.
Proof.
  intros Hrep Hq.
  destruct (sr_shape _ _ _ _ _ _ _ Hrep) as [_ _ _ [_ Hk _ Hmm _ _] _ _ _].
  pose proof (pow2_30 k Hk) as H30. pose proof (pow2_pos k) as Hpos.
  assert (Hpath : forall c, c ∈ path_nodes word_fuel (q + 2 ^ Z.of_nat k)
                            -> 0 <= c < 2 * 2 ^ Z.of_nat k).
  { intros c Hc%path_nodes_bounds; lia. }
  split; [exact Hpath |]. split.
  - rewrite (path_nodes_length k); [lia | unfold word_fuel; lia |].
    rewrite pow2_succ'. lia.
  - rewrite (stored_handles_perm _ _ _ _ _ _ act (stab_cover k lo hi)
               (fun h => bool_decide (lo h <= q < hi h)) _
               (sr_store _ _ _ _ _ _ _ Hrep) (sr_nodup _ _ _ _ _ _ _ Hrep)
               ltac:(intros; reflexivity) Hpath).
    + erewrite list_filter_iff; [reflexivity |]. intros h. apply bool_decide_eq_true.
    + intros h Hh. apply (stab_hits st nh m k act lo hi q h Hrep); [lia | exact Hh].
Qed.

Lemma sample_post_none k g : k <> 0 -> sample_post [] k g (Some (false, [], g)).
Proof. intros _. unfold sample_post. repeat split. Qed.

Lemma pts_SampleRange st nh m k act rk l r kk g :
  pts_rep st nh m k act rk -> 0 <= l -> kk <> 0 ->
  sample_post (filter (fun h => l <= rk h < r) act) kk g
    (RangePointSegTree.SampleRange st l r kk g).
Proof.
  intros Hrep Hl Hkk.
  pose proof (pr_shape _ _ _ _ _ _ Hrep) as Hsh.
  destruct Hsh as [Hnh Hm Hmr [Hp Hk Hnhr Hmm Hnodes Hpin] _ _].
  pose proof (pow2_30 k Hk) as H30. pose proof (pow2_pos k) as Hpos.
  pose proof (pts_act_length _ _ _ _ _ _ Hrep) as Hact.
  unfold RangePointSegTree.SampleRange. rewrite Hm.
  destruct (Z.eqb_spec kk 0) as [|_]; [contradiction |].
  assert (Hzero : r <= l \/ Z.min r m <= Z.min l m ->
            filter (fun h => l <= rk h < r) act = []).
  { intros Hc. apply filter_none. intros h Hh.
    pose proof (pr_act _ _ _ _ _ _ Hrep h Hh) as [_ Hr]. lia. }
  destruct (Z.leb_spec r l) as [Hrl|Hrl]; cbn [orb].
  { rewrite Hzero by lia. apply sample_post_none. exact Hkk. }
  destruct (Z.eqb_spec m 0) as [Hm0|Hm0]; [lia |].
  destruct (Z.leb_spec (Z.min r m) (Z.min l m)) as [Hrl'|Hrl'].
  { rewrite Hzero by lia. apply sample_post_none. exact Hkk. }
  set (L := Z.min l m + 2 ^ Z.of_nat k). set (R := Z.min r m + 2 ^ Z.of_nat k).
  destruct (DecomposeOrdered_perm st (Z.min l m) (Z.min r m) L R) as (cover & -> & Hperm);
    rewrite ?Hp, ?wrap32_small by lia; try reflexivity; try (subst L R; lia).
  cbn [mbind option_bind]. subst L R.
  destruct (pts_cover_handles st nh m k act rk (Z.min l m) (Z.min r m) cover Hrep)
    as (Hcov & Hlen & Hst); try assumption; try lia.
  assert (Hmatch : filter (fun h => Z.min l m <= rk h < Z.min r m) act
                   = filter (fun h => l <= rk h < r) act).
  { apply filter_ext_elem. intros h Hh.
    pose proof (pr_act _ _ _ _ _ _ Hrep h Hh) as [_ Hr]. lia. }
  rewrite Hmatch in Hst.
  pose proof (length_stored_handles (RangePointSegTree.nodes_ st) cover) as Hsum.
  pose proof (Permutation_length Hst) as Hpl.
  pose proof (filter_length_le (fun h => l <= rk h < r) act) as Hfl.
  rewrite pts_collect_eq; rewrite ?Hnodes; try assumption; try lia.
  cbn [mbind option_bind app]. rewrite Z.add_0_l.
  apply sample_draws; try assumption; try reflexivity; try lia.
  intros c Hc. pose proof (bucket_le_stored (RangePointSegTree.nodes_ st) cover c Hc). lia.
Qed.

Lemma stab_Sample st nh m k act lo hi q kk g :
  stab_rep st nh m k act lo hi -> 0 <= q -> kk <> 0 ->
  sample_post (filter (fun h => lo h <= q < hi h) act) kk g
    (StabbingSegTree.Sample st q kk g).
Proof.
  intros Hrep Hq Hkk.
  pose proof (sr_shape _ _ _ _ _ _ _ Hrep) as Hsh.
  destruct Hsh as [Hnh Hm Hmr [Hp Hk Hnhr Hmm Hnodes Hpin] _ _ _].
  pose proof (pow2_30 k Hk) as H30. pose proof (pow2_pos k) as Hpos.
  pose proof (stab_act_length _ _ _ _ _ _ _ Hrep) as Hact.
  unfold StabbingSegTree.Sample. rewrite Hm, Hp.
  destruct (Z.eqb_spec kk 0) as [|_]; [contradiction |].
  destruct (Z.eqb_spec m 0) as [Hm0|Hm0]; [lia |]. cbn [orb].
  destruct (Z.leb_spec m q) as [Hmq|Hmq].
  { rewrite filter_none; [apply sample_post_none; exact Hkk |]. intros h Hh.
    pose proof (sr_act _ _ _ _ _ _ _ Hrep h Hh) as (_ & _ & Hr). lia. }
  rewrite !wrap32_small by lia.
  destruct (stab_path_handles st nh m k act lo hi q Hrep) as (Hpath & Hlen & Hst); [lia |].
  pose proof (length_stored_handles (StabbingSegTree.nodes_ st)
                (path_nodes word_fuel (q + 2 ^ Z.of_nat k))) as Hsum.
  pose proof (Permutation_length Hst) as Hpl.
  pose proof (filter_length_le (fun h => lo h <= q < hi h) act) as Hfl.
  unfold word_fuel in *.
  rewrite stab_Sample_path_eq; rewrite ?Hnodes; cbn [length]; try lia.
  cbn [mbind option_bind app]. rewrite Z.add_0_l.
  apply sample_draws; try assumption; try reflexivity; try lia.
  intros c Hc.
  pose proof (bucket_le_stored (StabbingSegTree.nodes_ st) _ c Hc). lia.
Qed.

(** * Reporting and sampling from the active index *)

Lemma idx_ReportA a nh m act lo hi q out :
  idx_rep a nh m act lo hi -> 0 <= q ->
  exists hs, ActiveIndex2D.ReportA a q out = Some (out ++ hs)
             /\ hs ≡ₚ filter (fun h => lo h <= q < hi h) act.
Proof.
  intros [Hn Hm Hr [k1 Hs] [k2 Hp]] Hq. unfold ActiveIndex2D.ReportA.
  apply (stab_Report _ _ _ _ _ _ _ q out Hs Hq).
Qed.

Lemma idx_ReportB a nh m act lo hi q_lo q_hi out :
  idx_rep a nh m act lo hi -> 0 <= q_lo < m ->
  exists hs, ActiveIndex2D.ReportB a q_lo q_hi out = Some (out ++ hs)
             /\ hs ≡ₚ filter (fun h => q_lo < lo h < q_hi) act.
Proof.
  intros [Hn Hm Hr [k1 Hs] [k2 Hp]] Hq. unfold ActiveIndex2D.ReportB.
  unfold ActiveIndex2D.range_lo, ActiveIndex2D.range_hi. rewrite Hm.
  rewrite wrap32_small by lia.
  destruct (Z.leb_spec (q_lo + 1) m); [| lia].
  destruct (pts_ReportRange _ _ _ _ _ _ (q_lo + 1) (Z.min q_hi m) out Hp) as (hs & -> & Hperm);
    [lia |].
  exists hs. split; [reflexivity |]. rewrite Hperm.
  erewrite filter_ext_elem; [reflexivity |]. intros h Hh.
  pose proof (pr_act _ _ _ _ _ _ Hp h Hh) as [_ Hrk]. lia.
Qed.

Lemma idx_SampleA a nh m act lo hi q k g :
  idx_rep a nh m act lo hi -> 0 <= q -> k <> 0 ->
  sample_post (filter (fun h => lo h <= q < hi h) act) k g (ActiveIndex2D.SampleA a q k g).
Proof.
  intros [Hn Hm Hr [k1 Hs] [k2 Hp]] Hq Hk. unfold ActiveIndex2D.SampleA.
  apply (stab_Sample _ _ _ _ _ _ _ q k g Hs Hq Hk).
Qed.

Lemma idx_SampleB a nh m act lo hi q_lo q_hi k g :
  idx_rep a nh m act lo hi -> 0 <= q_lo < m -> k <> 0 ->
  sample_post (filter (fun h => q_lo < lo h < q_hi) act) k g
    (ActiveIndex2D.SampleB a q_lo q_hi k g).
Proof.
  intros [Hn Hm Hr [k1 Hs] [k2 Hp]] Hq Hk. unfold ActiveIndex2D.SampleB.
  unfold ActiveIndex2D.range_lo, ActiveIndex2D.range_hi. rewrite Hm.
  rewrite wrap32_small by lia.
  destruct (Z.leb_spec (q_lo + 1) m); [| lia].
  pose proof (pts_SampleRange _ _ _ _ _ _ (q_lo + 1) (Z.min q_hi m) k g Hp ltac:(lia) Hk)
    as Hpost.
  erewrite filter_ext_elem; [exact Hpost |]. intros h Hh.
  pose proof (pr_act _ _ _ _ _ _ Hp h Hh) as [_ Hrk]. cbv beta. lia.
Qed.

(** The B-pattern queries on every [u32] lower rank (see [idx_range_lo]). *)
Lemma idx_ReportB_u32 a nh m act lo hi q_lo q_hi out :
  idx_rep a nh m act lo hi -> 0 <= q_lo <= u32_max ->
  exists hs, ActiveIndex2D.ReportB a q_lo q_hi out = Some (out ++ hs)
             /\ hs ≡ₚ filter (fun h => above q_lo (lo h) /\ lo h < q_hi) act.
Proof.
  intros Hrep Hq. pose proof Hrep as [Hn Hm Hr [k1 Hs] [k2 Hp]].
  unfold ActiveIndex2D.ReportB.
  destruct (pts_ReportRange _ _ _ _ _ _ (ActiveIndex2D.range_lo a q_lo)
              (ActiveIndex2D.range_hi a q_hi) out Hp) as (hs & -> & Hperm);
    [apply (idx_range_lo_nonneg _ _ _ _ _ _ q_lo Hrep Hq) |].
  exists hs. split; [reflexivity |]. rewrite Hperm.
  erewrite filter_ext_elem; [reflexivity |]. intros h Hh.
  apply (idx_range_above _ _ _ _ _ _ q_lo q_hi h Hrep Hq Hh).
Qed.

Lemma idx_SampleB_u32 a nh m act lo hi q_lo q_hi k g :
  idx_rep a nh m act lo hi -> 0 <= q_lo <= u32_max -> k <> 0 ->
  sample_post (filter (fun h => above q_lo (lo h) /\ lo h < q_hi) act) k g
    (ActiveIndex2D.SampleB a q_lo q_hi k g).
Proof.
  intros Hrep Hq Hk. pose proof Hrep as [Hn Hm Hr [k1 Hs] [k2 Hp]].
  unfold ActiveIndex2D.SampleB.
  pose proof (pts_SampleRange _ _ _ _ _ _ (ActiveIndex2D.range_lo a q_lo)
                (ActiveIndex2D.range_hi a q_hi) k g Hp
                (idx_range_lo_nonneg _ _ _ _ _ _ q_lo Hrep Hq) Hk) as Hpost.
  erewrite filter_ext_elem; [exact Hpost |]. intros h Hh. cbv beta.
  symmetry. apply (idx_range_above _ _ _ _ _ _ q_lo q_hi h Hrep Hq Hh).
Qed.

(** The handles of the entries that satisfy a condition on their ranks. *)
Definition matching (P : Z -> Z -> Prop) `{forall l u, Decision (P l u)}
    (items : list entry) : list Z :=
  handles (filter (fun e => P (e_lo e) (e_hi e)) items).

Lemma filter_entries (P : Z -> Z -> Prop) `{forall l u, Decision (P l u)} items :
  NoDup (handles items) ->
  filter (fun h => P (rank_lo items h) (rank_hi items h)) (handles items)
  = matching P items.
Proof.
  unfold matching.
  induction items as [|e items IH]; intros Hnd; [reflexivity |].
  cbn [handles map] in Hnd |- *. apply NoDup_cons in Hnd as [Hne Hnd].
  rewrite !filter_cons. cbn [rank_lo rank_hi]. rewrite Z.eqb_refl.
  assert (Hrest : filter (fun h => P (rank_lo (e :: items) h) (rank_hi (e :: items) h))
                         (map e_handle items)
                  = handles (filter (fun e => P (e_lo e) (e_hi e)) items)).
  { rewrite <- (IH Hnd). apply filter_ext_elem. intros x Hx. cbn [rank_lo rank_hi].
    destruct (Z.eqb_spec x (e_handle e)) as [->|_]; [contradiction | reflexivity]. }
  cbn [rank_lo rank_hi] in Hrest.
  destruct (decide (P (e_lo e) (e_hi e))).
  - cbn [handles map]. f_equal. exact Hrest.
  - exact Hrest.
Qed.

Lemma matching_ext (P Q : Z -> Z -> Prop) `{forall l u, Decision (P l u)}
    `{forall l u, Decision (Q l u)} items :
  (forall l u, P l u <-> Q l u) -> matching P items = matching Q items.
Proof.
  intros Hext. unfold matching. f_equal. apply filter_ext_elem. intros e _. apply Hext.
Qed.

(** The entries whose lower rank is below [q_hi]. *)
Definition starts_below (q_hi l u : Z) : Prop := l < q_hi.

#[global] Instance starts_below_dec q_hi l u : Decision (starts_below q_hi l u).
Proof. unfold starts_below. apply _. Defined.

(** The entries a B-pattern query selects, on every [u32] lower rank. *)
Lemma matching_above items q_lo q_hi :
  NoDup (handles items) ->
  filter (fun h => above q_lo (rank_lo items h) /\ rank_lo items h < q_hi) (handles items)
  = matching (fun l _ => above q_lo l /\ l < q_hi) items.
Proof.
  intros Hnd.
  exact (filter_entries (fun l _ => above q_lo l /\ l < q_hi) items Hnd).
Qed.

(** X10: the two reporting queries of the active index are exact.  In every
    state reached from [Init] by [ResetActive], [Insert] and [Erase],
    [ReportA(q, out)] appends to [out] the handles of the active entries with
    [l <= q < u], each exactly once.  [ReportB(q_lo, q_hi, out)] appends
    those with [q_lo < l < q_hi] for every [q_lo] below 2^32 - 1, also one
    at or above [m]; at [q_lo = 2^32 - 1] the lower bound [q_lo + 1] wraps
    around to 0 and [ReportB] appends the entries with [l < q_hi].  What
    [out] held is kept in front and no vector is read out of range. *)
Theorem active_index_reports_exact (nh m : Z) (items : list entry) (a : ActiveIndex2D.t) :
  0 <= nh < 2 ^ 32 -> 1 <= m <= 2 ^ 30 ->
  idx_reach nh m items a ->
  (forall q out, 0 <= q ->
     exists hs, ActiveIndex2D.ReportA a q out = Some (out ++ hs)
                /\ hs ≡ₚ matching (fun l u => l <= q < u) items)
  /\ (forall q_lo q_hi out, 0 <= q_lo < u32_max ->
        exists hs, ActiveIndex2D.ReportB a q_lo q_hi out = Some (out ++ hs)
                   /\ hs ≡ₚ matching (fun l _ => q_lo < l < q_hi) items)
  /\ (forall q_hi out,
        exists hs, ActiveIndex2D.ReportB a u32_max q_hi out = Some (out ++ hs)
                   /\ hs ≡ₚ matching (starts_below q_hi) items).
Proof.
  intros Hnh Hm Hreach.
  destruct (idx_reach_rep nh m items a Hnh Hm Hreach) as [Hnd Hrep].
  split; [| split].
  - intros q out Hq.
    destruct (idx_ReportA _ _ _ _ _ _ q out Hrep Hq) as (hs & Hr & Hp).
    exists hs. split; [exact Hr |].
    pose proof (filter_entries (fun l u => l <= q < u) items Hnd) as Hf.
    cbv beta in Hf. rewrite <- Hf. exact Hp.
  - intros q_lo q_hi out Hq.
    destruct (idx_ReportB_u32 _ _ _ _ _ _ q_lo q_hi out Hrep ltac:(lia)) as (hs & Hr & Hp).
    exists hs. split; [exact Hr |]. rewrite Hp, (matching_above items q_lo q_hi Hnd).
    rewrite (matching_ext _ (fun l _ => q_lo < l < q_hi)); [reflexivity |].
    intros l _. rewrite (above_below q_lo l Hq). lia.
  - intros q_hi out.
    destruct (idx_ReportB_u32 _ _ _ _ _ _ u32_max q_hi out Hrep ltac:(unfold u32_max; lia))
      as (hs & Hr & Hp).
    exists hs. split; [exact Hr |]. rewrite Hp, (matching_above items u32_max q_hi Hnd).
    rewrite (matching_ext _ (starts_below q_hi)); [reflexivity |].
    intros l u. rewrite above_wrap. unfold starts_below. tauto.
Qed.

Lemma reach_two_entries :
  exists a, idx_reach 4 8 [(1, 2, 6); (0, 1, 5)] a.
Proof.
  eexists.
  eapply (reach_insert 4 8 [(0, 1, 5)] _ 1 2 6).
  - eapply (reach_insert 4 8 [] _ 0 1 5).
    + apply reach_init. vm_compute. reflexivity.
    + apply not_elem_of_nil.
    + lia.
    + lia.
    + lia.
    + vm_compute. reflexivity.
  - cbn. intros Hin. apply list_elem_of_singleton in Hin. discriminate.
  - lia.
  - lia.
  - lia.
  - vm_compute. reflexivity.
Defined.

Lemma active_index_reports_exact_witness :
  exists a, idx_reach 4 8 [(1, 2, 6); (0, 1, 5)] a
            /\ (exists hs, ActiveIndex2D.ReportA a 1 [7] = Some ([7] ++ hs) /\ hs ≡ₚ [0])
            /\ (exists hs, ActiveIndex2D.ReportB a 0 2 [] = Some ([] ++ hs) /\ hs ≡ₚ [0])
            /\ (exists hs, ActiveIndex2D.ReportB a u32_max 2 [] = Some ([] ++ hs)
                           /\ hs ≡ₚ [0]).
Proof.
  destruct reach_two_entries as [a Hr]. exists a. split; [exact Hr |].
  destruct (active_index_reports_exact 4 8 _ a ltac:(lia) ltac:(lia) Hr) as (HA & HB & HW).
  split; [apply (HA 1 [7]); lia |].
  split; [apply (HB 0 2 []); unfold u32_max; lia | apply (HW 2 [])].
Defined.

(** X11: sampling from the active index.  In every state reached from
    [Init] by [ResetActive], [Insert] and [Erase], and for every generator
    state [g] and every [k > 0]: [SampleA(q, k)] fails, with an empty output
    and the generator untouched, exactly when no active entry has
    [l <= q < u]; otherwise what it returns is [k] handles, each of an active
    entry with [l <= q < u].  [SampleB(q_lo, q_hi, k)] does the same for the
    entries with [q_lo < l < q_hi] when [q_lo] is below 2^32 - 1, and for
    the entries with [l < q_hi] at [q_lo = 2^32 - 1], where [q_lo + 1] wraps
    around.  No vector is read out of range: a call does not return only
    when, within the first [128 k] words drawn from [g], a call of
    [UniformU64] with a positive bound of at most the number of selected
    entries rejects 64 words in a row. *)
Theorem active_index_sample_support (nh m : Z) (items : list entry) (a : ActiveIndex2D.t) :
  0 <= nh < 2 ^ 32 -> 1 <= m <= 2 ^ 30 ->
  idx_reach nh m items a ->
  forall k g, k <> 0 ->
    (forall q, 0 <= q ->
       sample_post (matching (fun l u => l <= q < u) items) k g
         (ActiveIndex2D.SampleA a q k g))
    /\ (forall q_lo q_hi, 0 <= q_lo < u32_max ->
          sample_post (matching (fun l _ => q_lo < l < q_hi) items) k g
            (ActiveIndex2D.SampleB a q_lo q_hi k g))
    /\ (forall q_hi,
          sample_post (matching (starts_below q_hi) items) k g
            (ActiveIndex2D.SampleB a u32_max q_hi k g)).
Proof.
  intros Hnh Hm Hreach k g Hk.
  destruct (idx_reach_rep nh m items a Hnh Hm Hreach) as [Hnd Hrep].
  split; [| split].
  - intros q Hq.
    pose proof (filter_entries (fun l u => l <= q < u) items Hnd) as Hf.
    cbv beta in Hf. rewrite <- Hf.
    apply (idx_SampleA _ _ _ _ _ _ q k g Hrep Hq Hk).
  - intros q_lo q_hi Hq.
    replace (matching (fun l _ => q_lo < l < q_hi) items)
      with (filter (fun h => above q_lo (rank_lo items h) /\ rank_lo items h < q_hi)
              (handles items))
      by (rewrite (matching_above items q_lo q_hi Hnd); apply matching_ext;
          intros l _; rewrite (above_below q_lo l Hq); lia).
    apply (idx_SampleB_u32 _ _ _ _ _ _ q_lo q_hi k g Hrep ltac:(lia) Hk).
  - intros q_hi.
    replace (matching (starts_below q_hi) items)
      with (filter (fun h => above u32_max (rank_lo items h) /\ rank_lo items h < q_hi)
              (handles items))
      by (rewrite (matching_above items u32_max q_hi Hnd); apply matching_ext;
          intros l u; rewrite above_wrap; unfold starts_below; tauto).
    apply (idx_SampleB_u32 _ _ _ _ _ _ u32_max q_hi k g Hrep
             ltac:(unfold u32_max; lia) Hk).
Qed.

Lemma active_index_sample_support_witness :
  exists a, idx_reach 4 8 [(1, 2, 6); (0, 1, 5)] a
            /\ sample_post [1; 0] 3 (RngOps.Seed 7) (ActiveIndex2D.SampleA a 3 3 (RngOps.Seed 7))
            /\ sample_post [] 3 (RngOps.Seed 7) (ActiveIndex2D.SampleB a 2 9 3 (RngOps.Seed 7))
            /\ sample_post [1; 0] 3 (RngOps.Seed 7)
                 (ActiveIndex2D.SampleB a u32_max 9 3 (RngOps.Seed 7)).
Proof.
  destruct reach_two_entries as [a Hr]. exists a. split; [exact Hr |].
  destruct (active_index_sample_support 4 8 _ a ltac:(lia) ltac:(lia) Hr 3 (RngOps.Seed 7)
              ltac:(lia)) as (HA & HB & HW).
  split; [apply (HA 3); lia |].
  split; [apply (HB 2 9); unfold u32_max; lia | apply (HW 9)].
Defined.

(** * The second sweep of the two-pass driver *)

(** ** Membership in the join of the oracle *)

Lemma with_pos_elem {A} (l : list A) (j : nat) x :
  l !! j = Some x -> (Z.of_nat j, x) ∈ with_pos l.
Proof.
  intros Hx. unfold with_pos, upto. apply list_elem_of_lookup. exists j.
  rewrite lookup_zip_with.
  pose proof (lookup_lt_Some _ _ _ Hx) as Hlt.
  rewrite (lookup_seqZ_lt 0 (Z.of_nat (length l)) j) by lia.
  cbn [mbind option_bind]. rewrite Hx. cbn [mbind option_bind]. reflexivity.
Qed.

Lemma with_pos_box r i :
  0 <= i < RelationOps.Size r -> (i, box_at r i) ∈ with_pos (boxes r).
Proof.
  intros Hi. unfold RelationOps.Size in Hi.
  destruct (vget_is_Some (boxes r) i Hi) as [b Hb].
  apply vget_Some in Hb as [_ Hb].
  pose proof (box_at_lookup r _ _ Hb) as Hbox. rewrite Z2Nat.id in Hbox by lia.
  rewrite Hbox. pose proof (with_pos_elem _ _ _ Hb) as Hin.
  rewrite Z2Nat.id in Hin by lia. exact Hin.
Qed.

Lemma all_pairs_intro r s i j :
  0 <= i < RelationOps.Size r -> 0 <= j < RelationOps.Size s ->
  IntersectsHalfOpen (box_at r i) (box_at s j) = true ->
  mkPairId (id_of r i) (id_of s j) ∈ all_pairs r s.
Proof.
  intros Hi Hj Hx. unfold all_pairs, outer_pairs.
  rewrite list_elem_of_In, in_flat_map. exists (i, box_at r i). split.
  - rewrite <- list_elem_of_In. apply with_pos_box. exact Hi.
  - cbn [fst snd]. rewrite <- list_elem_of_In. apply elem_inner_pairs.
    exists j, (box_at s j). split; [apply with_pos_box; exact Hj |].
    split; [exact Hx | reflexivity].
Qed.

(** ** Filling the slots of one pattern *)

Lemma outfold_cons_Done {A St} (f : St -> A -> outcome St) a l s s' :
  outfold f (a :: l) s = Done s' ->
  exists s1, f s a = Done s1 /\ outfold f l s1 = Done s'.
Proof.
  cbn [outfold]. destruct (f s a) as [s1| |]; cbn [mbind outcome_mbind outcome_bind];
    try discriminate.
  intros Hf. exists s1. split; [reflexivity | exact Hf].
Qed.

Section Slots.
Variable J : list PairId.

(** An output position that holds a pair of the join. *)
Definition slot_ok (out : list PairId) (slot : Z) : Prop :=
  exists p, vget out slot = Some p /\ p ∈ J.

(** The first [n] entries of a slot list point at such positions. *)
Definition filled (slots : list Z) (n : Z) (out : list PairId) : Prop :=
  forall q, 0 <= q < n -> exists slot, vget slots q = Some slot /\ slot_ok out slot.

Lemma slot_ok_vset out x p out' slot :
  vset out x p = Some out' -> p ∈ J -> slot_ok out slot -> slot_ok out' slot.
Proof.
  intros Hs Hp (p0 & Hg & Hp0). unfold slot_ok.
  rewrite (vget_vset _ _ _ _ slot Hs). case_bool_decide.
  - exists p. split; [reflexivity | exact Hp].
  - exists p0. split; assumption.
Qed.

Lemma filled_mono slots n out out' :
  (forall slot, slot_ok out slot -> slot_ok out' slot) ->
  filled slots n out -> filled slots n out'.
Proof.
  intros Hm Hf q Hq. destruct (Hf q Hq) as (slot & Hs & Hok).
  exists slot. split; [exact Hs | apply Hm; exact Hok].
Qed.

Lemma fill_slots_fold (ds : Dataset) (ev : Event) (slots sampled : list Z) (begin : Z) :
  (forall oh p, oh ∈ sampled -> make_pair ds ev oh = Some p -> p ∈ J) ->
  forall (js : list Z) out out',
    (forall i, i ∈ js -> 0 <= begin + i < 2 ^ 32) ->
    ofold (fun pairs i =>
             slot ← vget slots (wrap32 (begin + i));
             oh ← vget sampled i;
             p ← make_pair ds ev oh;
             vset pairs slot p) js out = Some out' ->
    length out' = length out
    /\ (forall slot, slot_ok out slot -> slot_ok out' slot)
    /\ (forall i, i ∈ js ->
          exists slot, vget slots (begin + i) = Some slot /\ slot_ok out' slot).
Proof.
  intros Hmk. induction js as [|i js IH]; intros out out' Hr Hf.
  - cbn [ofold] in Hf. injection Hf as <-. split; [reflexivity |].
    split; [tauto |]. intros i Hi. inversion Hi.
  - cbn [ofold] in Hf.
    rewrite wrap32_small in Hf by (apply Hr; left).
    destruct (vget slots (begin + i)) as [slot|] eqn:Hslot; [| discriminate].
    cbn [mbind option_bind] in Hf.
    destruct (vget sampled i) as [oh|] eqn:Hoh; [| discriminate].
    cbn [mbind option_bind] in Hf.
    destruct (make_pair ds ev oh) as [p|] eqn:Hp; [| discriminate].
    cbn [mbind option_bind] in Hf.
    destruct (vset out slot p) as [out1|] eqn:Hset; [| discriminate].
    cbn [mbind option_bind] in Hf.
    assert (HpJ : p ∈ J).
    { apply (Hmk oh p); [| exact Hp]. apply vget_Some in Hoh as [_ Hl].
      eapply list_elem_of_lookup_2. exact Hl. }
    destruct (IH out1 out' ltac:(intros i' Hi'; apply Hr; right; exact Hi') Hf)
      as (Hlen & Hmono & Hnew).
    split; [rewrite Hlen; eapply vset_length; exact Hset |].
    split.
    + intros s Hs. apply Hmono. eapply slot_ok_vset; eassumption.
    + intros i' [-> | Hi']%elem_of_cons; [| apply Hnew; exact Hi'].
      exists slot. split; [exact Hslot |]. apply Hmono.
      exists p. split; [eapply vget_vset_eq; exact Hset | exact HpJ].
Qed.

Lemma sample_pattern_Done `{FloatOps} msg ds ev
    (sample : Z -> Rng -> option (bool * list Z * Rng)) (matching : list Z)
    offsets slots sid sid_next out g out' g' b e :
  sample_pattern msg ds ev sample offsets slots sid sid_next out g = Done (out', g') ->
  vget offsets sid = Some b -> vget offsets sid_next = Some e ->
  0 <= b -> b <= e -> e < 2 ^ 32 ->
  (forall k g0, k <> 0 -> sample_post matching k g0 (sample k g0)) ->
  (forall oh p, oh ∈ matching -> make_pair ds ev oh = Some p -> p ∈ J) ->
  filled slots b out ->
  length out' = length out
  /\ (forall slot, slot_ok out slot -> slot_ok out' slot)
  /\ filled slots e out'.
Proof.
  intros Hs Hb He Hb0 Hbe He32 Hsample Hmk Hfill. unfold sample_pattern in Hs.
  rewrite Hb, He in Hs. cbn [lift_opt mbind outcome_mbind outcome_bind] in Hs.
  rewrite wrap32_small in Hs by lia.
  destruct (Z.ltb_spec 0 (e - b)) as [Hk|Hk].
  2:{ injection Hs as <- <-. split; [reflexivity |]. split; [tauto |].
      assert (e = b) as -> by lia. exact Hfill. }
  specialize (Hsample (e - b) g ltac:(lia)).
  destruct (sample (e - b) g) as [[[ok sampled] g1]|]; [| discriminate].
  cbn [lift_opt mbind outcome_mbind outcome_bind] in Hs.
  destruct ok; cbn [negb orb] in Hs; [| discriminate].
  destruct (Z.eqb_spec (Z.of_nat (length sampled)) (e - b)) as [Hlen|Hlen];
    cbn [negb] in Hs; [| discriminate].
  destruct (fill_slots ds ev slots sampled b (e - b) out) as [out1|] eqn:Hf;
    cbn [lift_opt mbind outcome_mbind outcome_bind] in Hs; [| discriminate].
  injection Hs as <- <-.
  unfold sample_post in Hsample. destruct Hsample as (_ & _ & Hin).
  unfold fill_slots, upto in Hf.
  destruct (fill_slots_fold ds ev slots sampled b
              ltac:(intros oh p Hoh; apply Hmk; apply Hin; exact Hoh)
              (seqZ 0 (e - b)) out out1) as (Hl & Hmono & Hnew).
  - intros i Hi. apply elem_of_seqZ in Hi. lia.
  - exact Hf.
  - split; [exact Hl |]. split; [exact Hmono |].
    intros q Hq. destruct (Z.lt_ge_cases q b) as [Hlt|Hge].
    + destruct (Hfill q ltac:(lia)) as (slot & Hslot & Hok).
      exists slot. split; [exact Hslot | apply Hmono; exact Hok].
    + destruct (Hnew (q - b)) as (slot & Hslot & Hok).
      { apply elem_of_seqZ. lia. }
      replace (b + (q - b)) with q in Hslot by lia.
      exists slot. split; assumption.
Qed.

End Slots.

(** The join as the oracle collects it. *)
Definition join_of (ds : Dataset) : list PairId := all_pairs (R ds) (S ds).

Lemma count_start_snoc pre e :
  count_start (pre ++ [e]) = count_start pre + (if is_start e then 1 else 0).
Proof.
  unfold count_start. rewrite zcount_app, zcount_cons.
  unfold zcount at 2. cbn [zsum fold_right]. lia.
Qed.

Section SecondSweep.
Context `{FloatOps}.
Variable ds : Dataset.
Hypothesis Hvalid : DatasetOps.Validate true ds = true.
Hypothesis Hsize : RelationOps.Size (R ds) + RelationOps.Size (S ds) <= 2 ^ 30.

(** At a START event, an active rectangle of the other side that passes
    the rank test of pattern A or of pattern B intersects the query. *)
Lemma start_pattern_isect pre suf sd i j :
  sweep_events ds = pre ++ start_ev (rel_of ds sd) sd i :: suf ->
  0 <= i < n_of ds sd -> 0 <= j < n_of ds (other_side sd) ->
  active ds pre (other_side sd) j = true ->
  lo_rank ds (other_side sd) j <= lo_rank ds sd i < hi_rank ds (other_side sd) j
  \/ lo_rank ds sd i < lo_rank ds (other_side sd) j < hi_rank ds sd i ->
  isect ds sd i j = true.
Proof.
  intros Hsplit Hi Hj Ha Hpat.
  pose proof (proper_at ds Hvalid sd i Hi) as [Hpx Hpy].
  pose proof (proper_at ds Hvalid (other_side sd) j Hj) as [Hqx Hqy].
  destruct (pattern_overlap ds Hsize sd i (other_side sd) j Hi Hj) as [HA HB].
  destruct (start_active_overlap ds Hvalid pre suf _ Hsplit sd i (other_side sd) j
              eq_refl Hj Ha) as [Hx1 Hx2].
  unfold isect, IntersectsHalfOpen.
  rewrite (Intersects_proper _ _ Hpx Hpy Hqx Hqy).
  rewrite !andb_true_iff, !Z.ltb_lt. lia.
Qed.

Lemma make_pair_join sd i j p :
  0 <= i < n_of ds sd -> 0 <= j < n_of ds (other_side sd) ->
  isect ds sd i j = true ->
  make_pair ds (start_ev (rel_of ds sd) sd i) j = Some p ->
  p ∈ join_of ds.
Proof.
  intros Hi Hj Hx Hp. unfold make_pair in Hp. cbn [ev_side ev_index start_ev] in Hp.
  unfold join_of. destruct sd; cbn [rel_of other_side] in *.
  - destruct (RelationOps.GetId (R ds) i) as [r|] eqn:Er; [| discriminate].
    destruct (RelationOps.GetId (S ds) j) as [s|] eqn:Es; [| discriminate].
    cbn [mbind option_bind] in Hp. injection Hp as <-.
    replace r with (id_of (R ds) i) by (unfold id_of; rewrite Er; reflexivity).
    replace s with (id_of (S ds) j) by (unfold id_of; rewrite Es; reflexivity).
    apply all_pairs_intro; assumption.
  - destruct (RelationOps.GetId (R ds) j) as [r|] eqn:Er; [| discriminate].
    destruct (RelationOps.GetId (S ds) i) as [s|] eqn:Es; [| discriminate].
    cbn [mbind option_bind] in Hp. injection Hp as <-.
    replace r with (id_of (R ds) j) by (unfold id_of; rewrite Er; reflexivity).
    replace s with (id_of (S ds) i) by (unfold id_of; rewrite Es; reflexivity).
    apply all_pairs_intro; try assumption.
    unfold isect, IntersectsHalfOpen in Hx |- *. cbn [rel_of other_side] in Hx.
    rewrite Intersects_sym. exact Hx.
Qed.

(** The id of a START event is the number of START events before it. *)
Lemma start_id_eq ctx pre e suf :
  ctx_ok ds ctx -> sweep_events ds = pre ++ e :: suf -> ev_kind e = Start ->
  vget (Ours2DContext.start_id_of_event_ ctx) (Z.of_nat (length pre))
  = Some (count_start pre)
  /\ wrap32 (count_start pre) = count_start pre
  /\ 0 <= count_start pre < count_start (sweep_events ds)
  /\ count_start (sweep_events ds) <= 2 ^ 31.
Proof.
  intros Hctx Hsplit Hk.
  destruct (start_ids_spec _ _ _ _ _ (co_sids ds _ Hctx)) as (_ & _ & Hs).
  assert (sweep_events ds !! length pre = Some e) as Hl
    by (rewrite Hsplit; apply list_lookup_middle; reflexivity).
  specialize (Hs _ _ Hl Hk). cbn [length] in Hs. rewrite Z.add_0_l in Hs.
  pose proof (count_start_take _ _ _ Hl Hk) as Hc.
  pose proof (count_start_le (sweep_events ds)) as Hle.
  rewrite sweep_events_length in Hle.
  assert (Etake : take (length pre) (sweep_events ds) = pre).
  { rewrite Hsplit. rewrite take_app_length. reflexivity. }
  rewrite Etake in Hs, Hc.
  set (c := count_start pre) in *.
  assert (0 <= c < 2 ^ 31) as Hc31.
  { change (2 ^ 31) with (2 * 2 ^ 30). lia. }
  assert (to_i32 c = c) as Hi32.
  { unfold to_i32. rewrite wrap32_small by (change (2 ^ 32) with (2 * 2 ^ 31); lia).
    unfold i32_max. destruct (Z.leb_spec c 2147483647); [reflexivity |].
    change (2 ^ 31) with 2147483648 in Hc31. lia. }
  split; [| split; [| split]].
  - apply vget_Some. split; [lia |]. rewrite Nat2Z.id, Hs, Hi32. reflexivity.
  - apply wrap32_small. change (2 ^ 32) with (2 * 2 ^ 31). lia.
  - lia.
  - change (2 ^ 31) with (2 * 2 ^ 30). lia.
Qed.

(** What the second sweep has established after the events [pre]: the
    active sets are those of [pre], the output keeps its [t] positions, and
    the slots of the START events of [pre] hold pairs of the join. *)
Record sample_inv (plan : SlotPlan2D) (t : Z) (pre : list Event)
    (ar as_ : ActiveIndex2D.t) (out : list PairId) : Prop := mk_sample_inv {
  si_act : actives_ok ds pre ar as_;
  si_len : Z.of_nat (length out) = t;
  si_a : exists b, vget (offset_a plan) (count_start pre) = Some b
                   /\ filled (join_of ds) (slots_a plan) b out;
  si_b : exists b, vget (offset_b plan) (count_start pre) = Some b
                   /\ filled (join_of ds) (slots_b plan) b out
}.

(** Reading two consecutive offsets of a conserving plan. *)
Lemma offsets_step (t : Z) (E : nat) (offs slots : list Z) (c b : Z) :
  length offs = Datatypes.S E ->
  (forall e1 e2 x y, (e1 <= e2)%nat -> offs !! e1 = Some x -> offs !! e2 = Some y -> x <= y) ->
  offs !! 0%nat = Some 0 ->
  offs !! E = Some (Z.of_nat (length slots)) ->
  Z.of_nat (length slots) <= t ->
  0 <= c < Z.of_nat E ->
  vget offs c = Some b ->
  exists e, vget offs (c + 1) = Some e /\ 0 <= b /\ b <= e /\ e <= t.
Proof.
  intros Hlen Hmono Hzero Hlast Hsl Hc Hb.
  destruct (vget_is_Some offs (c + 1)) as [e He]; [lia |].
  exists e. split; [exact He |].
  apply vget_Some in Hb as [_ Hb]. apply vget_Some in He as [_ He].
  split; [apply (Hmono 0%nat (Z.to_nat c) 0 b); [lia | exact Hzero | exact Hb] |].
  split; [apply (Hmono (Z.to_nat c) (Z.to_nat (c + 1)) b e); [lia | exact Hb | exact He] |].
  pose proof (Hmono (Z.to_nat (c + 1)) E e _ ltac:(lia) He Hlast). lia.
Qed.

Lemma Sample_step_inv ctx plan t pre e suf ar as_ out g ar' as' out' g' :
  ctx_ok ds ctx ->
  0 <= t < 2 ^ 32 ->
  slot_conservation t (Z.to_nat (count_start (sweep_events ds))) plan ->
  sweep_events ds = pre ++ e :: suf ->
  sample_inv plan t pre ar as_ out ->
  OursSamplingBaseline.Sample_step ctx ds plan (ar, as_, out, g) (Z.of_nat (length pre), e)
  = Done (ar', as', out', g') ->
  sample_inv plan t (pre ++ [e]) ar' as' out'.
Proof.
  intros Hctx Ht Hplan Hsplit [Hact Hlen (ba & Hba & Hfa) (bb & Hbb & Hfb)] Hstep.
  assert (e ∈ sweep_events ds) as He by (rewrite Hsplit, elem_of_app, elem_of_cons; tauto).
  apply elem_sweep_events in He as (sd & i & Hi & [-> | ->]); fold (n_of ds sd) in Hi.
  - (* START *)
    destruct (start_id_eq ctx pre _ suf Hctx Hsplit eq_refl) as (Hsid & Hw32 & Hsr & H31).
    set (c := count_start pre) in *.
    pose proof (rank_range ds Hvalid Hsize sd i Hi) as (Hr1 & Hr2 & Hr3).
    unfold OursSamplingBaseline.Sample_step in Hstep. cbn [ev_kind start_ev] in Hstep.
    change (mkEvent (v0 (lo (box_at (rel_of ds sd) i))) Start sd (id_of (rel_of ds sd) i) i)
      with (start_ev (rel_of ds sd) sd i) in Hstep.
    rewrite Hsid in Hstep. cbn [lift_opt mbind outcome_mbind outcome_bind] in Hstep.
    rewrite Hw32 in Hstep.
    rewrite (query_ranks_ok ds ctx sd i Hctx Hi) in Hstep.
    cbn [lift_opt mbind outcome_mbind outcome_bind] in Hstep.
    rewrite (wrap32_small (c + 1)) in Hstep by (change (2 ^ 32) with (2 * 2 ^ 31); lia).
    rewrite sweep_other_tree in Hstep.
    destruct (Hact (other_side sd)) as (act & Hrep & Hmem).
    assert (Hjoin : forall oh p,
              oh ∈ act ->
              lo_rank ds (other_side sd) oh <= lo_rank ds sd i < hi_rank ds (other_side sd) oh
              \/ lo_rank ds sd i < lo_rank ds (other_side sd) oh < hi_rank ds sd i ->
              make_pair ds (start_ev (rel_of ds sd) sd i) oh = Some p -> p ∈ join_of ds).
    { intros oh p Hoh Hpat Hp. apply Hmem in Hoh as [Hj Ha].
      apply (make_pair_join sd i oh p Hi Hj); [| exact Hp].
      apply (start_pattern_isect pre suf sd i oh Hsplit Hi Hj Ha Hpat). }
    assert (HE : Z.of_nat (Z.to_nat (count_start (sweep_events ds)))
                 = count_start (sweep_events ds)) by lia.
    pose proof (sc_total _ _ _ Hplan) as Htot.
    destruct (offsets_step t _ (offset_a plan) (slots_a plan) c ba
                (sc_len_a _ _ _ Hplan) (sc_mono_a _ _ _ Hplan) (sc_zero_a _ _ _ Hplan)
                (sc_last_a _ _ _ Hplan) ltac:(lia) ltac:(lia) Hba)
      as (ea & Hea & Ha0 & Hab & Hat).
    destruct (offsets_step t _ (offset_b plan) (slots_b plan) c bb
                (sc_len_b _ _ _ Hplan) (sc_mono_b _ _ _ Hplan) (sc_zero_b _ _ _ Hplan)
                (sc_last_b _ _ _ Hplan) ltac:(lia) ltac:(lia) Hbb)
      as (eb & Heb & Hb0 & Hbb' & Hbt).
    destruct (sample_pattern _ ds _ (ActiveIndex2D.SampleA _ _) _ _ _ _ out g)
      as [[out1 g1]| |] eqn:HA; cbn [mbind outcome_mbind outcome_bind] in Hstep;
      try discriminate.
    destruct (sample_pattern_Done (join_of ds) _ ds _ _
                (filter (fun h => lo_rank ds (other_side sd) h <= lo_rank ds sd i
                                  < hi_rank ds (other_side sd) h) act)
                _ _ _ _ _ _ _ _ ba ea HA Hba Hea Ha0 Hab ltac:(lia))
      as (Hl1 & Hm1 & Hf1).
    { intros k g0 Hk. apply (idx_SampleA _ _ _ _ _ _ _ k g0 Hrep); [lia | exact Hk]. }
    { intros oh p [Hpat Hoh]%list_elem_of_filter Hp. apply (Hjoin oh p Hoh); [tauto | exact Hp]. }
    { exact Hfa. }
    destruct (sample_pattern _ ds _ (ActiveIndex2D.SampleB _ _ _) _ _ _ _ out1 g1)
      as [[out2 g2]| |] eqn:HB; cbn [mbind outcome_mbind outcome_bind] in Hstep;
      try discriminate.
    destruct (sample_pattern_Done (join_of ds) _ ds _ _
                (filter (fun h => lo_rank ds sd i < lo_rank ds (other_side sd) h
                                  < hi_rank ds sd i) act)
                _ _ _ _ _ _ _ _ bb eb HB Hbb Heb Hb0 Hbb' ltac:(lia))
      as (Hl2 & Hm2 & Hf2).
    { intros k g0 Hk. apply (idx_SampleB _ _ _ _ _ _ _ _ k g0 Hrep); [lia | exact Hk]. }
    { intros oh p [Hpat Hoh]%list_elem_of_filter Hp. apply (Hjoin oh p Hoh); [tauto | exact Hp]. }
    { eapply filled_mono; [exact Hm1 | exact Hfb]. }
    destruct (sweep_insert_ok ds Hvalid Hsize pre suf sd i _ _ Hsplit Hi Hact)
      as (ar1 & as1 & Hins & Hact').
    rewrite Hins in Hstep. cbn [lift_opt mbind outcome_mbind outcome_bind] in Hstep.
    injection Hstep as <- <- <- <-.
    constructor.
    + exact Hact'.
    + rewrite Hl2, Hl1. exact Hlen.
    + exists ea. rewrite count_start_snoc. cbn [is_start ev_kind start_ev EventKind_eqb].
      fold c. split; [exact Hea |]. eapply filled_mono; [exact Hm2 | exact Hf1].
    + exists eb. rewrite count_start_snoc. cbn [is_start ev_kind start_ev EventKind_eqb].
      fold c. split; [exact Heb | exact Hf2].
  - (* END *)
    destruct (sweep_erase_ok ds Hvalid Hsize pre suf sd i _ _ Hsplit Hi Hact)
      as (ar1 & as1 & Her & Hact').
    unfold OursSamplingBaseline.Sample_step in Hstep. cbn [ev_kind end_ev] in Hstep.
    change (mkEvent (v0 (hi (box_at (rel_of ds sd) i))) End sd (id_of (rel_of ds sd) i) i)
      with (end_ev (rel_of ds sd) sd i) in Hstep.
    rewrite Her in Hstep. cbn [lift_opt mbind outcome_mbind outcome_bind] in Hstep.
    injection Hstep as <- <- <- <-.
    constructor.
    + exact Hact'.
    + exact Hlen.
    + exists ba. rewrite count_start_snoc. cbn [is_start ev_kind end_ev EventKind_eqb].
      rewrite Z.add_0_r. split; assumption.
    + exists bb. rewrite count_start_snoc. cbn [is_start ev_kind end_ev EventKind_eqb].
      rewrite Z.add_0_r. split; assumption.
Qed.

Lemma Sample_fold ctx plan t :
  ctx_ok ds ctx ->
  0 <= t < 2 ^ 32 ->
  slot_conservation t (Z.to_nat (count_start (sweep_events ds))) plan ->
  forall suf pre ar as_ out g ar' as' out' g',
    sweep_events ds = pre ++ suf ->
    sample_inv plan t pre ar as_ out ->
    outfold (OursSamplingBaseline.Sample_step ctx ds plan)
      (zip (seqZ (Z.of_nat (length pre)) (Z.of_nat (length suf))) suf) (ar, as_, out, g)
    = Done (ar', as', out', g') ->
    sample_inv plan t (sweep_events ds) ar' as' out'.
Proof.
  intros Hctx Ht Hplan. induction suf as [|e suf IH];
    intros pre ar as_ out g ar' as' out' g' Hsplit Hinv Hfold.
  - cbn [length zip zip_with outfold] in Hfold. injection Hfold as <- <- <- <-.
    rewrite Hsplit, app_nil_r. exact Hinv.
  - cbn [length] in Hfold. rewrite seqZ_cons_S in Hfold. cbn [zip zip_with] in Hfold.
    apply outfold_cons_Done in Hfold as ([[[ar1 as1] out1] g1] & Hstep & Hrest).
    pose proof (Sample_step_inv ctx plan t pre e suf ar as_ out g ar1 as1 out1 g1
                  Hctx Ht Hplan Hsplit Hinv Hstep) as Hinv1.
    apply (IH (pre ++ [e]) ar1 as1 out1 g1 ar' as' out' g').
    + rewrite <- app_assoc. exact Hsplit.
    + exact Hinv1.
    + rewrite length_app. cbn [length].
      replace (Z.of_nat (length pre + 1)) with (Z.of_nat (length pre) + 1) by lia.
      exact Hrest.
Qed.

(** When the sweep is over every output position holds a pair of the join. *)
Lemma sample_inv_all plan t ar as_ out :
  0 <= t ->
  slot_conservation t (Z.to_nat (count_start (sweep_events ds))) plan ->
  sample_inv plan t (sweep_events ds) ar as_ out ->
  forall p, p ∈ out -> p ∈ join_of ds.
Proof.
  intros Ht Hplan [_ Hlen (ba & Hba & Hfa) (bb & Hbb & Hfb)] p Hp.
  apply list_elem_of_lookup in Hp as [j Hj].
  pose proof (lookup_lt_Some _ _ _ Hj) as Hjl.
  pose proof (count_start_le (sweep_events ds)) as Hcs.
  assert (Hin : Z.of_nat j ∈ slots_a plan ++ slots_b plan).
  { rewrite (sc_once _ _ _ Hplan). apply elem_of_seqZ. lia. }
  assert (Hslot : slot_ok (join_of ds) out (Z.of_nat j)).
  { apply vget_Some in Hba as [_ Hba]. apply vget_Some in Hbb as [_ Hbb].
    rewrite (sc_last_a _ _ _ Hplan) in Hba. injection Hba as <-.
    rewrite (sc_last_b _ _ _ Hplan) in Hbb. injection Hbb as <-.
    apply elem_of_app in Hin as [Hin | Hin];
      apply list_elem_of_lookup in Hin as [q Hq];
      pose proof (lookup_lt_Some _ _ _ Hq) as Hql.
    - destruct (Hfa (Z.of_nat q) ltac:(lia)) as (slot & Hs & Hok).
      apply vget_Some in Hs as [_ Hs]. rewrite Nat2Z.id, Hq in Hs. injection Hs as <-.
      exact Hok.
    - destruct (Hfb (Z.of_nat q) ltac:(lia)) as (slot & Hs & Hok).
      apply vget_Some in Hs as [_ Hs]. rewrite Nat2Z.id, Hq in Hs. injection Hs as <-.
      exact Hok. }
  destruct Hslot as (p' & Hg & Hp'). apply vget_Some in Hg as [_ Hg].
  rewrite Nat2Z.id, Hj in Hg. injection Hg as <-. exact Hp'.
Qed.

Lemma BuildSlotPlan2D_conserves t g w_total w_a w_b plan g' :
  0 <= t < 2 ^ 32 ->
  BuildSlotPlan2D t g w_total w_a w_b = Done (plan, g') ->
  slot_conservation t (length w_total) plan.
Proof.
  intros Ht Hb.
  assert (HE : length w_total <> 0%nat).
  { intros HE. unfold BuildSlotPlan2D in Hb. rewrite HE in Hb. discriminate. }
  destruct (AliasTable.BuildFromU64 w_total) as [alias| |] eqn:Halias;
    [| unfold BuildSlotPlan2D in Hb; rewrite Halias in Hb;
       destruct (Nat.eqb (length w_total) 0); discriminate ..].
  destruct (ofold (plan_assign alias w_a w_b) (upto t)
              ([], [], replicate (length w_total) 0, replicate (length w_total) 0, g))
    as [[[[[eids pats] ca] cb] g1]|] eqn:Hassign.
  - destruct (plan_of_assign t g w_total w_a w_b alias eids pats ca cb g1
                Ht HE Halias Hassign) as (plan' & Hb' & Hc).
    rewrite Hb in Hb'. injection Hb' as -> _. exact Hc.
  - unfold BuildSlotPlan2D in Hb. rewrite Halias in Hb.
    destruct (Nat.eqb (length w_total) 0); [discriminate |].
    cbn [mbind outcome_mbind outcome_bind] in Hb. rewrite Hassign in Hb. discriminate.
Qed.

(** [Sample] on a built driver whose weights, when present, are those of
    [Count]. *)
Lemma Sampling_Sample_sound b cfg g ss b' g' :
  sampling_ok ds b ->
  (OursSamplingBaseline.weights_valid_ b = true ->
   OursSamplingBaseline.W_ b = CountNaive (R ds) (S ds)) ->
  0 <= run_t cfg ->
  OursSamplingBaseline.Sample b cfg g = Done (ss, b', g') ->
  (forall p, p ∈ pairs ss -> p ∈ join_of ds)
  /\ Z.of_nat (length (pairs ss))
     = (if CountNaive (R ds) (S ds) =? 0 then 0 else run_t cfg)
  /\ weighted ss = false /\ with_replacement ss = true /\ weights_size ss = 0.
Proof.
  intros Hok HW Hnn Hs. pose proof Hok as [Hb Hctx Hwt Hwa Hwb].
  unfold OursSamplingBaseline.Sample in Hs.
  rewrite (co_ds ds _ Hctx), Hb, (co_built ds _ Hctx) in Hs. cbn [negb orb] in Hs.
  destruct (Z.ltb_spec u32_max (run_t cfg)) as [|Hu]; [discriminate |].
  unfold u32_max in Hu. rewrite (wrap32_small (run_t cfg)) in Hs by lia.
  destruct (Z.eqb_spec (run_t cfg) 0) as [Ht0|Ht0].
  { injection Hs as <- _ _. cbn [pairs weighted with_replacement weights_size length].
    split; [intros p Hp; inversion Hp |]. split; [| repeat split].
    rewrite Ht0. destruct (Z.eqb (CountNaive (R ds) (S ds)) 0); reflexivity. }
  lazymatch type of Hs with
  | @mbind _ _ _ _ ?k ?m = _ =>
      assert (Hb1 : exists b1, m = Done b1 /\ sampling_ok ds b1
                               /\ OursSamplingBaseline.W_ b1 = CountNaive (R ds) (S ds))
  end.
  { destruct (OursSamplingBaseline.weights_valid_ b) eqn:Hwv.
    - exists b. split; [reflexivity |]. split; [exact Hok | apply HW; reflexivity].
    - destruct (Sampling_Count_ok ds Hvalid Hsize b cfg Hok) as (b1 & Hc & Hok1 & HW1 & _).
      exists b1. rewrite Hc. cbn [mbind outcome_mbind outcome_bind].
      split; [reflexivity |]. split; assumption. }
  destruct Hb1 as (b1 & Hm & Hok1 & HW1). rewrite Hm in Hs.
  cbn [mbind outcome_mbind outcome_bind] in Hs. rewrite HW1 in Hs.
  destruct (Z.eqb_spec (CountNaive (R ds) (S ds)) 0) as [HJ|HJ].
  { injection Hs as <- _ _. cbn [pairs weighted with_replacement weights_size length].
    split; [intros p Hp; inversion Hp |]. repeat split. }
  destruct Hok1 as [Hb1 Hctx1 Hwt1 Hwa1 Hwb1].
  destruct (BuildSlotPlan2D (run_t cfg) g _ _ _) as [[plan g1]| |] eqn:Hplan;
    cbn [mbind outcome_mbind outcome_bind] in Hs; try discriminate.
  apply BuildSlotPlan2D_conserves in Hplan; [| lia].
  assert (HE : length (OursSamplingBaseline.w_total_ b1)
               = Z.to_nat (count_start (sweep_events ds))) by lia.
  rewrite HE in Hplan.
  pose proof (ctx_ok_ResetActive' ds _ Hctx1) as Hctx'.
  set (ctx' := Ours2DContext.ResetActive (OursSamplingBaseline.ctx_ b1)) in *.
  rewrite (co_events ds _ Hctx') in Hs. unfold with_pos, upto in Hs.
  destruct (outfold _ _ _) as [[[[ar as_] out] g2]| |] eqn:Hfold;
    cbn [mbind outcome_mbind outcome_bind] in Hs; try discriminate.
  injection Hs as <- _ _. cbn [pairs weighted with_replacement weights_size].
  pose proof (Sample_fold ctx' plan (run_t cfg) Hctx' ltac:(lia) Hplan
                (sweep_events ds) [] (Ours2DContext.active_r_ ctx')
                (Ours2DContext.active_s_ ctx')
                (replicate (Z.to_nat (run_t cfg)) (mkPairId 0 0)) g1 ar as_ out g2 eq_refl)
    as Hinv.
  cbn [length] in Hinv. change (Z.of_nat 0) with 0 in Hinv.
  specialize (Hinv ltac:(constructor;
    [ apply actives_ok_nil; exact Hctx1
    | rewrite length_replicate; lia
    | exists 0; split;
        [ apply vget_Some; split; [unfold count_start, zcount; cbn; lia |];
          exact (sc_zero_a _ _ _ Hplan)
        | intros q Hq; lia ]
    | exists 0; split;
        [ apply vget_Some; split; [unfold count_start, zcount; cbn; lia |];
          exact (sc_zero_b _ _ _ Hplan)
        | intros q Hq; lia ] ]) Hfold).
  split; [apply (sample_inv_all plan (run_t cfg) ar as_ out Hnn Hplan Hinv) |].
  split; [exact (si_len _ _ _ _ _ _ Hinv) | repeat split].
Qed.

End SecondSweep.

Lemma Validate_ids_ok req r : RelationOps.Validate req r = true -> ids_ok r.
Proof.
  unfold RelationOps.Validate, ids_ok. intros [_ Hids]%andb_prop.
  destruct (ids r) as [|x l]; [left; reflexivity |].
  right. apply Nat.eqb_eq in Hids. exact Hids.
Qed.

(** X12: the pairs the two-pass driver samples are pairs of the join.  On
    a validated dataset of at most 2^30 rectangles, after [Build] (and
    whether or not [Count] has been called), for every request of [t] pairs
    and every generator state: when [Sample] returns, every pair of the
    sample set is one of the pairs the brute-force oracle
    [CollectNaivePairs] enumerates, the set holds exactly [t] pairs when the
    join is not empty and none when it is empty, and it passes
    [SampleSet::Validate]. *)
Theorem sampled_pairs_are_join_pairs `{FloatOps} (ds : Dataset)
    (b0 b1 b b' : OursSamplingBaseline.t) (cfg0 cfg : Config) (g g' : Rng)
    (ss : SampleSet) :
  DatasetOps.Validate true ds = true ->
  RelationOps.Size (R ds) + RelationOps.Size (S ds) <= 2 ^ 30 ->
  OursSamplingBaseline.Build b0 ds cfg0 = Done b1 ->
  (b = b1 \/ exists cfg1 g1 c g2, Count b1 cfg1 g1 = Done (c, b, g2)) ->
  0 <= run_t cfg ->
  Sample b cfg g = Done (ss, b', g') ->
  exists J,
    CollectNaivePairs (R ds) (S ds) 0 = Some J
    /\ (forall p, p ∈ pairs ss -> p ∈ J)
    /\ Z.of_nat (length (pairs ss))
       = (if CountNaive (R ds) (S ds) =? 0 then 0 else run_t cfg)
    /\ SampleSetOps.Validate ss = Done tt.
Proof.
  intros Hv Hs Hb Hfrom Ht Hsample.
  destruct (Sampling_Build_cases ds Hv Hs b0 cfg0) as [[_ Hf] | [_ (b2 & Hb2 & Hok & Hwv)]].
  { rewrite Hf in Hb. discriminate. }
  rewrite Hb2 in Hb. injection Hb as <-.
  assert (Hready : sampling_ok ds b
                   /\ (OursSamplingBaseline.weights_valid_ b = true ->
                       OursSamplingBaseline.W_ b = CountNaive (R ds) (S ds))).
  { destruct Hfrom as [-> | (cfg1 & g1 & c & g2 & Hc)].
    - split; [exact Hok |]. rewrite Hwv. discriminate.
    - destruct (Sampling_Count_ok ds Hv Hs b2 cfg1 Hok) as (b3 & Hc3 & Hok3 & HW3 & _).
      cbn [Count OursSampling_IBaseline] in Hc. rewrite Hc3 in Hc.
      cbn [mbind outcome_mbind outcome_bind] in Hc. injection Hc as _ <- _.
      split; [exact Hok3 | intros _; exact HW3]. }
  destruct Hready as [Hokb HWb].
  cbn [Sample OursSampling_IBaseline] in Hsample.
  destruct (Sampling_Sample_sound ds Hv Hs b cfg g ss b' g' Hokb HWb Ht Hsample)
    as (Hin & Hlen & Hw & Hr & Hz).
  apply andb_prop in Hv as [[_ HvR]%andb_prop HvS].
  exists (all_pairs (R ds) (S ds)). split.
  - rewrite (CollectNaivePairs_eq (R ds) (S ds) 0
               (Validate_ids_ok _ _ HvR) (Validate_ids_ok _ _ HvS)).
    reflexivity.
  - split; [exact Hin |]. split; [exact Hlen |].
    unfold SampleSetOps.Validate. rewrite Hw, Hz. reflexivity.
Qed.

Lemma sampled_pairs_are_join_pairs_witness :
  exists ss b' g' J,
    Sample (H:=QFloat) sampling_built cfg_t8 (RngOps.Seed 42) = Done (ss, b', g')
    /\ CollectNaivePairs (R ds_small) (S ds_small) 0 = Some J
    /\ (forall p, p ∈ pairs ss -> p ∈ J)
    /\ Z.of_nat (length (pairs ss)) = 8.
Proof.
  assert (Hs : exists r, Sample (H:=QFloat) sampling_built cfg_t8 (RngOps.Seed 42) = Done r)
    by (eexists; vm_compute; reflexivity).
  destruct Hs as [[[ss b'] g'] Hs].
  destruct (sampled_pairs_are_join_pairs (H:=QFloat) ds_small sampling_fresh sampling_built
              sampling_built b' cfg_t8 cfg_t8 (RngOps.Seed 42) g' ss)
    as (J & HJ & Hin & Hlen & _).
  - reflexivity.
  - vm_compute. discriminate.
  - vm_compute. reflexivity.
  - left. reflexivity.
  - vm_compute. discriminate.
  - exact Hs.
  - exists ss, b', g', J. split; [exact Hs |]. split; [exact HJ |].
    split; [exact Hin | exact Hlen].
Defined.

(** * The alias table *)

Section AliasFloats.
Context `{FloatOps}.

(** Every entry is an index below [n]. *)
Definition indices_below (n : Z) (l : list Z) : Prop := Forall (fun a => 0 <= a < n) l.

Lemma vset_Forall {A} (P : A -> Prop) (l : list A) i x l' :
  vset l i x = Some l' -> Forall P l -> P x -> Forall P l'.
Proof. intros [_ ->]%vset_Some Hl Hx. apply Forall_insert; assumption. Qed.

Lemma vset_ok {A} (l : list A) (n i : Z) x :
  Z.of_nat (length l) = n -> 0 <= i < n ->
  exists l', vset l i x = Some l' /\ Z.of_nat (length l') = n.
Proof.
  intros Hl Hi. exists (<[Z.to_nat i := x]> l). split.
  - apply vset_is_Some. lia.
  - rewrite length_insert. exact Hl.
Qed.

(** The main loop of the construction ends: every round takes one index
    off the two stacks together. *)
Lemma build_loop_ok (n : Z) : forall (fuel : nat) scaled prob alias small large,
  Z.of_nat (length scaled) = n -> Z.of_nat (length prob) = n ->
  Z.of_nat (length alias) = n ->
  indices_below n small -> indices_below n large -> indices_below n alias ->
  (length small + length large < fuel)%nat ->
  exists prob' alias' small' large',
    AliasTable.build_loop fuel scaled prob alias small large
    = Some (prob', alias', small', large')
    /\ Z.of_nat (length prob') = n /\ Z.of_nat (length alias') = n
    /\ indices_below n small' /\ indices_below n large' /\ indices_below n alias'.
Proof.
  induction fuel as [|fuel IH]; intros scaled prob alias small large Hs Hp Ha Hsm Hlg Hal Hf;
    [lia |].
  cbn [AliasTable.build_loop].
  destruct small as [|s small'].
  { exists prob, alias, [], large. repeat split; assumption. }
  destruct large as [|l large'].
  { exists prob, alias, (s :: small'), []. repeat split; assumption. }
  apply Forall_cons in Hsm as [Hs0 Hsm]. apply Forall_cons in Hlg as [Hl0 Hlg].
  destruct (vget_is_Some scaled s ltac:(lia)) as [ss ->]. cbn [mbind option_bind].
  destruct (vset_ok prob n s (f_round ss) Hp Hs0) as (prob1 & -> & Hp1).
  cbn [mbind option_bind].
  destruct (vset_ok alias n s l Ha Hs0) as (alias1 & Hset & Ha1).
  rewrite Hset. cbn [mbind option_bind].
  pose proof (vset_Forall _ _ _ _ _ Hset Hal Hl0) as Hal1.
  destruct (vget_is_Some scaled l ltac:(lia)) as [sl ->]. cbn [mbind option_bind].
  destruct (vset_ok scaled n l (f_sub (f_add sl ss) AliasTable.f_one) Hs Hl0)
    as (scaled1 & -> & Hs1).
  cbn [mbind option_bind]. cbn [length] in Hf.
  destruct (f_ltb _ _).
  - apply IH; try assumption; [apply Forall_cons; split; assumption | cbn [length]; lia].
  - apply IH; try assumption; [apply Forall_cons; split; assumption | cbn [length]; lia].
Qed.

Lemma settle_ok (n : Z) : forall idxs prob alias,
  Z.of_nat (length prob) = n -> Z.of_nat (length alias) = n ->
  indices_below n idxs -> indices_below n alias ->
  exists prob' alias',
    AliasTable.settle idxs (prob, alias) = Some (prob', alias')
    /\ Z.of_nat (length prob') = n /\ Z.of_nat (length alias') = n
    /\ indices_below n alias'.
Proof.
  unfold AliasTable.settle.
  induction idxs as [|idx idxs IH]; intros prob alias Hp Ha Hi Hal.
  - exists prob, alias. repeat split; assumption.
  - apply Forall_cons in Hi as [Hi0 Hi]. cbn [ofold].
    destruct (vset_ok prob n idx AliasTable.f_one Hp Hi0) as (prob1 & -> & Hp1).
    cbn [mbind option_bind].
    destruct (vset_ok alias n idx idx Ha Hi0) as (alias1 & Hset & Ha1).
    rewrite Hset. cbn [mbind option_bind].
    apply IH; try assumption. eapply vset_Forall; eassumption.
Qed.

Lemma clamp_fold_ok (n : Z) : forall js prob alias,
  Z.of_nat (length prob) = n -> Z.of_nat (length alias) = n ->
  indices_below n js -> indices_below n alias ->
  exists prob' alias',
    ofold (fun '(prob, alias) i =>
             p ← vget prob i;
             prob ← (if f_ltb p AliasTable.f_zero then vset prob i AliasTable.f_zero
                     else Some prob);
             p ← vget prob i;
             prob ← (if f_ltb AliasTable.f_one p then vset prob i AliasTable.f_one
                     else Some prob);
             a ← vget alias i;
             alias ← (if n <=? a then vset alias i i else Some alias);
             Some (prob, alias)) js (prob, alias) = Some (prob', alias')
    /\ Z.of_nat (length prob') = n /\ Z.of_nat (length alias') = n
    /\ indices_below n alias'.
Proof.
  induction js as [|i js IH]; intros prob alias Hp Ha Hi Hal.
  - exists prob, alias. repeat split; assumption.
  - apply Forall_cons in Hi as [Hi0 Hi]. cbn [ofold].
    destruct (vget_is_Some prob i ltac:(lia)) as [p ->]. cbn [mbind option_bind].
    assert (H1 : exists prob1,
              (if f_ltb p AliasTable.f_zero then vset prob i AliasTable.f_zero
               else Some prob) = Some prob1 /\ Z.of_nat (length prob1) = n).
    { destruct (f_ltb p AliasTable.f_zero); [apply vset_ok; assumption |].
      exists prob. split; [reflexivity | exact Hp]. }
    destruct H1 as (prob1 & -> & Hp1). cbn [mbind option_bind].
    destruct (vget_is_Some prob1 i ltac:(lia)) as [p1 ->]. cbn [mbind option_bind].
    assert (H2 : exists prob2,
              (if f_ltb AliasTable.f_one p1 then vset prob1 i AliasTable.f_one
               else Some prob1) = Some prob2 /\ Z.of_nat (length prob2) = n).
    { destruct (f_ltb AliasTable.f_one p1); [apply vset_ok; assumption |].
      exists prob1. split; [reflexivity | exact Hp1]. }
    destruct H2 as (prob2 & -> & Hp2). cbn [mbind option_bind].
    destruct (vget_is_Some alias i ltac:(lia)) as [a ->]. cbn [mbind option_bind].
    assert (H3 : exists alias1,
              (if n <=? a then vset alias i i else Some alias) = Some alias1
              /\ Z.of_nat (length alias1) = n /\ indices_below n alias1).
    { destruct (n <=? a).
      - destruct (vset_ok alias n i i Ha Hi0) as (alias1 & Hset & Ha1).
        exists alias1. split; [exact Hset |]. split; [exact Ha1 |].
        eapply vset_Forall; eassumption.
      - exists alias. repeat split; assumption. }
    destruct H3 as (alias1 & -> & Ha1 & Hal1). cbn [mbind option_bind].
    apply IH; assumption.
Qed.

Lemma indices_below_upto n : indices_below n (upto n).
Proof.
  unfold indices_below, upto. apply Forall_forall. intros i Hi.
  apply elem_of_seqZ in Hi. lia.
Qed.

Lemma split_stacks_ok (n : Z) : forall (items : list (Z * F)) small large,
  indices_below n (map fst items) -> indices_below n small -> indices_below n large ->
  let '(small', large') :=
    fold_left (fun '(small, large) '(i, sc) =>
                 if f_ltb sc AliasTable.f_one then (i :: small, large)
                 else (small, i :: large)) items (small, large) in
  indices_below n small' /\ indices_below n large'
  /\ (length small' + length large' = length small + length large + length items)%nat.
Proof.
  induction items as [|[i sc] items IH]; intros small large Hi Hs Hl.
  - cbn [fold_left length]. repeat split; try assumption. lia.
  - cbn [map fst] in Hi. apply Forall_cons in Hi as [Hi0 Hi]. cbn [fold_left].
    destruct (f_ltb sc AliasTable.f_one).
    + specialize (IH (i :: small) large Hi ltac:(apply Forall_cons; split; assumption) Hl).
      destruct (fold_left _ items (i :: small, large)) as [small' large'].
      destruct IH as (H1 & H2 & H3). repeat split; try assumption. cbn [length] in *. lia.
    + specialize (IH small (i :: large) Hi Hs ltac:(apply Forall_cons; split; assumption)).
      destruct (fold_left _ items (small, i :: large)) as [small' large'].
      destruct IH as (H1 & H2 & H3). repeat split; try assumption. cbn [length] in *. lia.
Qed.

(** What a built table of [n] buckets looks like. *)
Record alias_wf (n : Z) (a : AliasTable.t) : Prop := mk_alias_wf {
  aw_n : AliasTable.n_ a = n;
  aw_prob : Z.of_nat (length (AliasTable.prob_ a)) = n;
  aw_alias : Z.of_nat (length (AliasTable.alias_ a)) = n;
  aw_below : indices_below n (AliasTable.alias_ a)
}.

Lemma BuildFromU64_wf (weights : list Z) :
  Z.of_nat (length weights) <= u32_max ->
  exists a, AliasTable.BuildFromU64 weights = Done a
            /\ alias_wf (Z.of_nat (length weights)) a.
Proof.
  intros Hn. unfold AliasTable.BuildFromU64.
  set (n := Z.of_nat (length weights)) in *.
  destruct (Z.eqb_spec n 0) as [Hn0|Hn0].
  { exists AliasTable.Clear. split; [reflexivity |]. rewrite Hn0.
    constructor; cbn; try reflexivity. constructor. }
  destruct (Z.ltb_spec u32_max n) as [|_]; [lia |].
  destruct (Z.eqb_spec (fold_left Z.add weights 0) 0) as [Hs|Hs].
  { eexists. split; [reflexivity |].
    constructor; cbn [AliasTable.n_ AliasTable.prob_ AliasTable.alias_].
    - reflexivity.
    - rewrite length_replicate. lia.
    - unfold upto. rewrite length_seqZ. lia.
    - apply indices_below_upto. }
  set (scaled := map (fun w => f_div (f_mul (f_of_Z w) (f_of_Z n))
                                 (f_of_Z (fold_left Z.add weights 0))) weights).
  assert (Hsc : Z.of_nat (length scaled) = n) by (unfold scaled; rewrite length_map; reflexivity).
  assert (Hzip : map fst (zip (upto n) scaled) = upto n).
  { apply fst_zip. unfold upto. rewrite length_seqZ. lia. }
  pose proof (split_stacks_ok n (zip (upto n) scaled) [] []) as Hsplit.
  rewrite Hzip in Hsplit.
  specialize (Hsplit (indices_below_upto n) ltac:(constructor) ltac:(constructor)).
  destruct (fold_left _ (zip (upto n) scaled) ([], [])) as [small large].
  destruct Hsplit as (Hsm & Hlg & Hlen).
  rewrite length_zip_with in Hlen. unfold upto in Hlen. rewrite length_seqZ in Hlen.
  cbn [length] in Hlen.
  destruct (build_loop_ok n (Datatypes.S (length weights)) scaled
              (replicate (Z.to_nat n) AliasTable.f_one) (replicate (Z.to_nat n) 0)
              small large Hsc)
    as (prob1 & alias1 & small1 & large1 & -> & Hp1 & Ha1 & Hsm1 & Hlg1 & Hal1);
    try assumption.
  { rewrite length_replicate. lia. }
  { rewrite length_replicate. lia. }
  { apply Forall_replicate. lia. }
  { lia. }
  cbn [mbind option_bind].
  destruct (settle_ok n large1 prob1 alias1 Hp1 Ha1 Hlg1 Hal1)
    as (prob2 & alias2 & -> & Hp2 & Ha2 & Hal2).
  cbn [mbind option_bind].
  destruct (settle_ok n small1 prob2 alias2 Hp2 Ha2 Hsm1 Hal2)
    as (prob3 & alias3 & -> & Hp3 & Ha3 & Hal3).
  cbn [mbind option_bind]. unfold AliasTable.clamp.
  destruct (clamp_fold_ok n (upto n) prob3 alias3 Hp3 Ha3 (indices_below_upto n) Hal3)
    as (prob4 & alias4 & -> & Hp4 & Ha4 & Hal4).
  cbn [mbind option_bind lift_opt].
  eexists. split; [reflexivity |].
  constructor; cbn [AliasTable.n_ AliasTable.prob_ AliasTable.alias_]; try assumption.
  reflexivity.
Qed.

Lemma alias_Sample_range n a g :
  alias_wf n a -> 0 < n ->
  match AliasTable.Sample a g with
  | Some (i, _) => 0 <= i < n
  | None => RngOps.UniformU64 n g = None
  end.
Proof.
  intros [Hn Hp Ha Hal] Hpos. unfold AliasTable.Sample. rewrite Hn.
  destruct (AliasTable.uniform_fallback_ a).
  - destruct (RngOps.UniformU64 n g) as [[i g1]|] eqn:Hu.
    + apply (UniformU64_range n g i g1 Hpos Hu).
    + reflexivity.
  - destruct (RngOps.UniformU64 n g) as [[i g1]|] eqn:Hu.
    2:{ cbn [mbind option_bind]. reflexivity. }
    cbn [mbind option_bind].
    pose proof (UniformU64_range n g i g1 Hpos Hu) as Hi.
    destruct (NextDouble g1) as [u g2].
    destruct (vget_is_Some (AliasTable.prob_ a) i ltac:(lia)) as [p ->].
    cbn [mbind option_bind].
    destruct (f_ltb u p); [exact Hi |].
    destruct (vget_is_Some (AliasTable.alias_ a) i ltac:(lia)) as [al Hal'].
    rewrite Hal'. cbn [mbind option_bind].
    apply vget_Some in Hal' as [_ Hl].
    unfold indices_below in Hal. rewrite Forall_forall in Hal. apply Hal.
    eapply list_elem_of_lookup_2. exact Hl.
Qed.

Lemma NextDouble_words g : rng_words g (snd (NextDouble g)) 1.
Proof.
  unfold NextDouble. pose proof (NextU64_words g) as Hw.
  destruct (RngOps.NextU64 g) as [x g1]. exact Hw.
Qed.

(** A draw from the table takes one call of [UniformU64] and at most one
    more word. *)
Lemma alias_Sample_words a g i g' :
  AliasTable.Sample a g = Some (i, g') ->
  is_Some (RngOps.UniformU64 (AliasTable.n_ a) g) /\ rng_words g g' 65.
Proof.
  unfold AliasTable.Sample. destruct (AliasTable.uniform_fallback_ a).
  - intros Hu. rewrite Hu. split; [eexists; reflexivity |].
    destruct (UniformU64_words _ _ _ _ Hu) as (n & Hn & ->). exists n. split; [lia | reflexivity].
  - destruct (RngOps.UniformU64 (AliasTable.n_ a) g) as [[j g1]|] eqn:Hu; [| discriminate].
    cbn [mbind option_bind]. intros Hs. split; [eexists; reflexivity |].
    pose proof (UniformU64_words _ _ _ _ Hu) as Hw1.
    pose proof (NextDouble_words g1) as Hw2.
    destruct (NextDouble g1) as [u g2]. cbn [snd] in Hw2.
    assert (g' = g2) as ->.
    { destruct (vget (AliasTable.prob_ a) j) as [p|]; [| discriminate].
      cbn [mbind option_bind] in Hs. destruct (f_ltb u p); [congruence |].
      destruct (vget (AliasTable.alias_ a) j) as [al|]; [| discriminate].
      cbn [mbind option_bind] in Hs. congruence. }
    eapply rng_words_trans; [exact Hw1 | exact Hw2 | lia].
Qed.

End AliasFloats.

(** X13: the alias table is built for every weight vector that fits, and
    it only ever hands out bucket indices.  Whatever the floating-point
    arithmetic does, [BuildFromU64] on [n <= 2^32 - 1] weights returns a table
    with [n] thresholds and [n] aliases, every alias an index below [n] (the
    loop of Vose's method ends and no vector is accessed out of range).  On
    such a table, for every generator state [g], [Sample] returns exactly
    when its call [UniformU64(n)] on [g] returns, and what it returns is an
    index below [n].  On more weights the build fails with its message. *)
Theorem alias_table_indices_in_range `{FloatOps} (weights : list Z) :
  let n := Z.of_nat (length weights) in
  if u32_max <? n
  then n <> 0
       /\ AliasTable.BuildFromU64 weights
          = Fail "AliasTable::BuildFromU64: n too large for u32 alias indices"
  else exists a,
         AliasTable.BuildFromU64 weights = Done a
         /\ AliasTable.n_ a = n
         /\ Z.of_nat (length (AliasTable.prob_ a)) = n
         /\ Z.of_nat (length (AliasTable.alias_ a)) = n
         /\ (forall i al, vget (AliasTable.alias_ a) i = Some al -> 0 <= al < n)
         /\ (0 < n -> forall g,
               match AliasTable.Sample a g with
               | Some (i, _) => 0 <= i < n /\ is_Some (RngOps.UniformU64 n g)
               | None => RngOps.UniformU64 n g = None
               end).
Proof.
  intros n. destruct (Z.ltb_spec u32_max n) as [Hbig|Hfit].
  - unfold u32_max in Hbig. split; [lia |]. unfold AliasTable.BuildFromU64. fold n.
    destruct (Z.eqb_spec n 0); [lia |].
    destruct (Z.ltb_spec u32_max n) as [|Hle]; [reflexivity |]. unfold u32_max in Hle. lia.
  - destruct (BuildFromU64_wf weights Hfit) as (a & Ha & Hwf). fold n in Hwf.
    exists a. split; [exact Ha |].
    split; [exact (aw_n _ _ Hwf) |]. split; [exact (aw_prob _ _ Hwf) |].
    split; [exact (aw_alias _ _ Hwf) |]. split.
    + intros i al Hal. apply vget_Some in Hal as [_ Hl].
      pose proof (aw_below _ _ Hwf) as Hb. unfold indices_below in Hb.
      rewrite Forall_forall in Hb. apply Hb. eapply list_elem_of_lookup_2. exact Hl.
    + intros Hpos g. pose proof (alias_Sample_range n a g Hwf Hpos) as Hr.
      destruct (AliasTable.Sample a g) as [[i g']|] eqn:Hs; [| exact Hr].
      split; [exact Hr |]. rewrite <- (aw_n _ _ Hwf).
      apply (alias_Sample_words a g i g' Hs).
Qed.

(** ** The slot plan is always built *)

Section PlanTotal.
Context `{FloatOps}.

(** The bounds of the draws of [BuildSlotPlan2D]: the number of events for
    the alias table, and [w_a[e] + w_b[e]] for the pattern of event [e]. *)
Definition plan_bound (E : Z) (w_a w_b : list Z) (b : Z) : Prop :=
  b = E \/ exists e wa wb, vget w_a e = Some wa /\ vget w_b e = Some wb
                           /\ b = wrap64 (wa + wb).

Lemma draw_pattern_total wa wb g :
  0 <= wa -> 0 <= wb ->
  match draw_pattern wa wb g with
  | Some (_, g') => rng_words g g' 64
  | None => 0 < wrap64 (wa + wb) /\ RngOps.UniformU64 (wrap64 (wa + wb)) g = None
  end.
Proof.
  intros Ha Hb. unfold draw_pattern.
  destruct (wa =? 0); [apply rng_words_refl; lia |].
  destruct (wb =? 0); [apply rng_words_refl; lia |].
  destruct (RngOps.UniformU64 (wrap64 (wa + wb)) g) as [[r g1]|] eqn:Hu.
  - cbn [mbind option_bind]. apply (UniformU64_words _ _ _ _ Hu).
  - cbn [mbind option_bind]. split; [| reflexivity].
    pose proof (wrap64_range (wa + wb)) as Hr.
    destruct (Z.eq_dec (wrap64 (wa + wb)) 0) as [E|E]; [| lia].
    unfold RngOps.UniformU64 in Hu. rewrite E in Hu. discriminate.
Qed.

Lemma vincr_ok (v : list Z) (n i : Z) :
  Z.of_nat (length v) = n -> 0 <= i < n ->
  exists v', vincr v i = Some v' /\ Z.of_nat (length v') = n.
Proof.
  intros Hl Hi. unfold vincr.
  destruct (vget_is_Some v i ltac:(lia)) as [c ->]. cbn [mbind option_bind].
  apply vset_ok; assumption.
Qed.

Lemma plan_assign_step_total alias w_a w_b (E : Z) eids pats ca cb g j :
  alias_wf E alias -> 0 < E < 2 ^ 32 ->
  Z.of_nat (length w_a) = E -> Z.of_nat (length w_b) = E ->
  Forall (fun w => 0 <= w) w_a -> Forall (fun w => 0 <= w) w_b ->
  Z.of_nat (length ca) = E -> Z.of_nat (length cb) = E ->
  match plan_assign alias w_a w_b (eids, pats, ca, cb, g) j with
  | Some (_, _, ca', cb', g') =>
      Z.of_nat (length ca') = E /\ Z.of_nat (length cb') = E /\ rng_words g g' 129
  | None => draw_stuck g 65 (plan_bound E w_a w_b)
  end.
Proof.
  intros Hwf HE Hla Hlb Hpa Hpb Hca Hcb. unfold plan_assign.
  pose proof (alias_Sample_range E alias g Hwf ltac:(lia)) as Hs.
  destruct (AliasTable.Sample alias g) as [[i g1]|] eqn:Hsample.
  2:{ cbn [mbind option_bind].
      apply (draw_stuck_here g E); [left; reflexivity | lia | exact Hs | lia]. }
  destruct (alias_Sample_words alias g i g1 Hsample) as [_ Hw1].
  cbn [mbind option_bind]. rewrite (wrap32_small i) by lia.
  destruct (vget_is_Some w_a i ltac:(lia)) as [wa Hwa]. rewrite Hwa.
  cbn [mbind option_bind].
  destruct (vget_is_Some w_b i ltac:(lia)) as [wb Hwb]. rewrite Hwb.
  cbn [mbind option_bind].
  assert (0 <= wa) as Hwa0.
  { rewrite Forall_forall in Hpa. apply Hpa. apply vget_Some in Hwa as [_ Hl].
    eapply list_elem_of_lookup_2. exact Hl. }
  assert (0 <= wb) as Hwb0.
  { rewrite Forall_forall in Hpb. apply Hpb. apply vget_Some in Hwb as [_ Hl].
    eapply list_elem_of_lookup_2. exact Hl. }
  pose proof (draw_pattern_total wa wb g1 Hwa0 Hwb0) as Hd.
  destruct (draw_pattern wa wb g1) as [[pat g2]|].
  2:{ cbn [mbind option_bind]. destruct Hd as [Hd1 Hd2].
      eapply (draw_stuck_after g g1 65 0); [exact Hw1 | | lia | intros b Hb; exact Hb].
      apply (draw_stuck_here g1 (wrap64 (wa + wb))); [| exact Hd1 | exact Hd2 | lia].
      right. exists i, wa, wb. repeat split; assumption. }
  cbn [mbind option_bind].
  assert (Hw : rng_words g g2 129) by (eapply rng_words_trans; [exact Hw1 | exact Hd | lia]).
  destruct (pat =? 0).
  - destruct (vincr_ok ca E i Hca Hs) as (ca' & -> & Hca').
    cbn [mbind option_bind]. repeat split; assumption.
  - destruct (vincr_ok cb E i Hcb Hs) as (cb' & -> & Hcb').
    cbn [mbind option_bind]. repeat split; assumption.
Qed.

Lemma plan_assign_total alias w_a w_b (E : Z) :
  alias_wf E alias -> 0 < E < 2 ^ 32 ->
  Z.of_nat (length w_a) = E -> Z.of_nat (length w_b) = E ->
  Forall (fun w => 0 <= w) w_a -> Forall (fun w => 0 <= w) w_b ->
  forall js eids pats ca cb g,
    Z.of_nat (length ca) = E -> Z.of_nat (length cb) = E ->
    match ofold (plan_assign alias w_a w_b) js (eids, pats, ca, cb, g) with
    | Some _ => True
    | None => draw_stuck g (129 * Z.of_nat (length js)) (plan_bound E w_a w_b)
    end.
Proof.
  intros Hwf HE Hla Hlb Hpa Hpb.
  induction js as [|j js IH]; intros eids pats ca cb g Hca Hcb; [exact I |].
  cbn [ofold].
  pose proof (plan_assign_step_total alias w_a w_b E eids pats ca cb g j
                Hwf HE Hla Hlb Hpa Hpb Hca Hcb) as Hstep.
  destruct (plan_assign alias w_a w_b (eids, pats, ca, cb, g) j)
    as [[[[[eids1 pats1] ca1] cb1] g1]|].
  2:{ cbn [mbind option_bind]. destruct Hstep as (n & bound & H1 & H2 & H3 & H4).
      exists n, bound. cbn [length]. repeat split; try assumption. lia. }
  cbn [mbind option_bind]. destruct Hstep as (H1 & H2 & Hw).
  specialize (IH eids1 pats1 ca1 cb1 g1 H1 H2).
  destruct (ofold (plan_assign alias w_a w_b) js (eids1, pats1, ca1, cb1, g1));
    [exact I |].
  eapply draw_stuck_after; [exact Hw | exact IH | cbn [length]; lia |].
  intros b Hb. exact Hb.
Qed.

End PlanTotal.

(** X14: the slot plan is always built.  For [t < 2^32] slots and weight
    vectors of one length [E] with [1 <= E <= 2^32 - 1] whose entries are
    [u64] values with [w_total[e] = w_a[e] + w_b[e]] (the condition the debug
    assertion of the first pass checks), [BuildSlotPlan2D] entered with the
    generator [g] never fails and never accesses a vector out of range,
    whatever the floating-point arithmetic: it returns a plan for [t] slots.
    It does not return only when, within the first [129 t] words drawn from
    [g], a call of [UniformU64] whose bound is [E] or a positive entry of
    [w_total] rejects 64 words in a row.  With no event at all it fails with
    its message. *)
Theorem slot_plan_is_always_built `{FloatOps} (t : Z) (g : Rng) (w_total w_a w_b : list Z) :
  0 <= t < 2 ^ 32 ->
  length w_a = length w_total -> length w_b = length w_total ->
  Z.of_nat (length w_total) <= u32_max ->
  Forall (fun w => 0 <= w) w_a -> Forall (fun w => 0 <= w) w_b ->
  (forall e wa wb, vget w_a e = Some wa -> vget w_b e = Some wb ->
                   vget w_total e = Some (wrap64 (wa + wb))) ->
  match BuildSlotPlan2D t g w_total w_a w_b with
  | Done (plan, _) => w_total <> [] /\ Z.of_nat (length (slots_a plan ++ slots_b plan)) = t
  | Fail msg => w_total = [] /\ msg = "BuildSlotPlan2D: empty event set"%string
  | Undef =>
      w_total <> []
      /\ draw_stuck g (129 * t)
           (fun b => b = Z.of_nat (length w_total) \/ b ∈ w_total)
  end.
Proof.
  intros Ht Hla Hlb Hfit Hpa Hpb Hsum.
  destruct w_total as [|w0 ws] eqn:Ew.
  { unfold BuildSlotPlan2D. cbn [length Nat.eqb]. split; reflexivity. }
  rewrite <- Ew in *.
  assert (Hne : w_total <> []) by (rewrite Ew; discriminate).
  assert (HE : length w_total <> 0%nat) by (rewrite Ew; cbn [length]; lia).
  destruct (BuildFromU64_wf w_total Hfit) as (alias & Halias & Hwf).
  unfold u32_max in Hfit.
  pose proof (plan_assign_total alias w_a w_b (Z.of_nat (length w_total)) Hwf
                ltac:(lia) ltac:(lia) ltac:(lia) Hpa Hpb (upto t) [] []
                (replicate (length w_total) 0) (replicate (length w_total) 0) g
                ltac:(rewrite length_replicate; reflexivity)
                ltac:(rewrite length_replicate; reflexivity)) as Hassign.
  destruct (ofold (plan_assign alias w_a w_b) (upto t)
              ([], [], replicate (length w_total) 0, replicate (length w_total) 0, g))
    as [[[[[eids pats] ca] cb] g1]|] eqn:Hfold.
  - destruct (plan_of_assign t g w_total w_a w_b alias eids pats ca cb g1
                Ht HE Halias Hfold) as (plan & -> & Hc).
    split; [exact Hne |]. rewrite length_app, Nat2Z.inj_add. exact (sc_total _ _ _ Hc).
  - unfold BuildSlotPlan2D.
    destruct (Nat.eqb_spec (length w_total) 0) as [|_]; [contradiction |].
    rewrite Halias. cbn [mbind outcome_mbind outcome_bind]. rewrite Hfold.
    cbn [lift_opt mbind outcome_mbind outcome_bind]. split; [exact Hne |].
    destruct Hassign as (n & bound & H1 & H2 & H3 & H4). exists n, bound.
    unfold upto in H1. rewrite length_seqZ in H1.
    split; [lia |]. split; [| split; assumption].
    destruct H2 as [-> | (e & wa & wb & Hwa & Hwb & ->)]; [left; reflexivity |].
    right. specialize (Hsum e wa wb Hwa Hwb). apply vget_Some in Hsum as [_ Hl].
    eapply list_elem_of_lookup_2. exact Hl.
Qed.

Lemma slot_plan_is_always_built_witness :
  exists plan g',
    BuildSlotPlan2D (H:=QFloat) 8 (RngOps.Seed 7) [2; 0; 3; 1] [1; 0; 0; 1] [1; 0; 3; 0]
    = Done (plan, g')
    /\ Z.of_nat (length (slots_a plan ++ slots_b plan)) = 8.
Proof.
  assert (Hsum : forall e wa wb,
             vget [1; 0; 0; 1] e = Some wa -> vget [1; 0; 3; 0] e = Some wb ->
             vget [2; 0; 3; 1] e = Some (wrap64 (wa + wb))).
  { intros e wa wb Ha Hb. pose proof (vget_lt _ _ _ Ha) as He. cbn [length] in He.
    assert (e = 0 \/ e = 1 \/ e = 2 \/ e = 3) as [-> | [-> | [-> | ->]]] by lia;
      cbn in Ha, Hb; injection Ha as <-; injection Hb as <-; reflexivity. }
  pose proof (slot_plan_is_always_built (H:=QFloat) 8 (RngOps.Seed 7)
                [2; 0; 3; 1] [1; 0; 0; 1] [1; 0; 3; 0]
                ltac:(lia) eq_refl eq_refl ltac:(vm_compute; discriminate)
                ltac:(repeat constructor; lia) ltac:(repeat constructor; lia) Hsum) as Hb.
  destruct (BuildSlotPlan2D (H:=QFloat) 8 (RngOps.Seed 7) [2; 0; 3; 1] [1; 0; 0; 1] [1; 0; 3; 0])
    as [[plan g']| |] eqn:Hplan.
  - exists plan, g'. split; [reflexivity | exact (proj2 Hb)].
  - exfalso. destruct Hb as [Hb _]. discriminate.
  - exfalso. vm_compute in Hplan. discriminate.
Defined.

(** * The events of a sweep *)

Definition start_on (r : Relation) (sd : Side) (axis : nat) (i : Z) (b : Box) : Event :=
  mkEvent (coord (lo b) axis) Start sd (id_of r i) i.

Definition end_on (r : Relation) (sd : Side) (axis : nat) (i : Z) (b : Box) : Event :=
  mkEvent (coord (hi b) axis) End sd (id_of r i) i.

(** The boxes that get events: those that are not empty on the sweep axis. *)
Definition on_axis (axis : nat) (b : Box) : bool := coord (lo b) axis <? coord (hi b) axis.

Fixpoint events_from (r : Relation) (sd : Side) (axis : nat) (bs : list Box) (i : Z)
    : list Event :=
  match bs with
  | [] => []
  | b :: bs' =>
      (if on_axis axis b then [start_on r sd axis i b; end_on r sd axis i b] else [])
      ++ events_from r sd axis bs' (i + 1)
  end.

Lemma AppendRelationEvents_loop_gen rel sd axis : forall bs i events,
  (forall j, i <= j < i + Z.of_nat (length bs) ->
     RelationOps.GetId rel j = Some (id_of rel j)) ->
  AppendRelationEvents_loop rel sd axis bs i events
  = Some (events ++ events_from rel sd axis bs i).
Proof.
  induction bs as [|b bs IH]; intros i events Hid.
  - cbn [AppendRelationEvents_loop events_from]. rewrite app_nil_r. reflexivity.
  - cbn [AppendRelationEvents_loop events_from].
    rewrite (Hid i) by (cbn [length]; lia). cbn [mbind option_bind].
    assert (Hrest : forall j, i + 1 <= j < i + 1 + Z.of_nat (length bs) ->
                      RelationOps.GetId rel j = Some (id_of rel j))
      by (intros j Hj; apply Hid; cbn [length]; lia).
    unfold on_axis. destruct (coord (lo b) axis <? coord (hi b) axis); cbn [negb].
    + rewrite (IH (i + 1) _ Hrest). rewrite <- app_assoc. reflexivity.
    + rewrite (IH (i + 1) _ Hrest). reflexivity.
Qed.

Lemma elem_events_from r sd axis : forall bs i e,
  e ∈ events_from r sd axis bs i <->
  exists (j : nat) b, bs !! j = Some b /\ on_axis axis b = true
    /\ (e = start_on r sd axis (i + Z.of_nat j) b \/ e = end_on r sd axis (i + Z.of_nat j) b).
Proof.
  induction bs as [|b bs IH]; intros i e.
  - cbn [events_from]. split; [intros He; inversion He |].
    intros (j & b & Hj & _). rewrite lookup_nil in Hj. discriminate.
  - cbn [events_from]. rewrite elem_of_app, IH. split.
    + intros [He | (j & b' & Hj & Hon & He)].
      * destruct (on_axis axis b) eqn:Hon; [| inversion He].
        exists 0%nat, b. rewrite Z.add_0_r. split; [reflexivity |]. split; [exact Hon |].
        rewrite !elem_of_cons in He. destruct He as [He | [He | He]]; [tauto | tauto |].
        inversion He.
      * exists (Datatypes.S j), b'. split; [exact Hj |]. split; [exact Hon |].
        replace (i + Z.of_nat (Datatypes.S j)) with (i + 1 + Z.of_nat j) by lia. exact He.
    + intros ([|j] & b' & Hj & Hon & He).
      * cbn in Hj. injection Hj as <-. left. rewrite Hon, Z.add_0_r in *.
        rewrite !elem_of_cons. tauto.
      * right. exists j, b'. split; [exact Hj |]. split; [exact Hon |].
        replace (i + 1 + Z.of_nat j) with (i + Z.of_nat (Datatypes.S j)) by lia. exact He.
Qed.

Lemma NoDup_events_from r sd axis : forall bs i, NoDup (events_from r sd axis bs i).
Proof.
  induction bs as [|b bs IH]; intros i; [constructor |].
  cbn [events_from]. apply NoDup_app. split; [| split; [| apply IH]].
  - destruct (on_axis axis b); [| constructor].
    apply NoDup_cons. split; [| apply NoDup_singleton].
    rewrite list_elem_of_singleton. unfold start_on, end_on. discriminate.
  - intros e He Hin. apply elem_events_from in Hin as (j & b' & _ & _ & Hin).
    destruct (on_axis axis b); [| inversion He].
    assert (ev_index e = i).
    { rewrite !elem_of_cons in He. destruct He as [-> | [-> | He]]; [reflexivity .. |].
      inversion He. }
    assert (ev_index e = i + 1 + Z.of_nat j) by (destruct Hin as [-> | ->]; reflexivity).
    lia.
Qed.

Lemma length_events_from r sd axis : forall bs i,
  Z.of_nat (length (events_from r sd axis bs i)) = 2 * zcount (on_axis axis) bs.
Proof.
  induction bs as [|b bs IH]; intros i; [reflexivity |].
  cbn [events_from]. rewrite length_app, Nat2Z.inj_add, IH, zcount_cons.
  destruct (on_axis axis b); cbn [length]; lia.
Qed.

(** In a vector sorted with a strict order, an element comes before every
    element it is less than. *)
Lemma sorted_before {A} (less : A -> A -> bool) (l : list A) a b :
  (forall x, less x x = false) ->
  StronglySorted (not_after less) l -> a ∈ l -> b ∈ l -> less a b = true ->
  exists l1 l2 l3, l = l1 ++ a :: l2 ++ b :: l3.
Proof.
  intros Hirr Hs Ha Hb Hab.
  apply list_elem_of_split in Hb as (l1 & l2 & ->).
  assert (Hne : a <> b) by (intros ->; rewrite Hirr in Hab; discriminate).
  apply elem_of_app in Ha as [Ha | Ha].
  - apply list_elem_of_split in Ha as (k1 & k2 & ->).
    exists k1, k2, l2. rewrite <- app_assoc. reflexivity.
  - apply elem_of_cons in Ha as [Ha | Ha]; [contradiction |].
    exfalso. destruct (sorted_split _ _ _ _ Hs) as [_ Hafter].
    specialize (Hafter a Ha). unfold not_after in Hafter. congruence.
Qed.

(** X15: the events that [BuildSweepEvents] creates.  For relations whose
    ids are absent or complete and a sweep axis of the plane, the call never
    reads out of range and returns a vector that holds, for every box that
    is not empty on the sweep axis, one START event at its lower and one END
    event at its upper coordinate, both with the id and the index of the
    box, and nothing else: a box that is empty on the axis gets no event.
    No event occurs twice, there are twice as many events as such boxes, and
    the START event of a box comes before its END event. *)
Theorem sweep_events_content (ds : Dataset) (axis : nat) (tb : SideTieBreak) :
  ids_ok (R ds) -> ids_ok (S ds) -> (axis < 2)%nat ->
  exists evs,
    BuildSweepEvents ds axis tb = Some evs
    /\ (forall e, e ∈ evs <->
          exists sd i b,
            vget (boxes (rel_of ds sd)) i = Some b /\ on_axis axis b = true
            /\ (e = start_on (rel_of ds sd) sd axis i b
                \/ e = end_on (rel_of ds sd) sd axis i b))
    /\ NoDup evs
    /\ Z.of_nat (length evs)
       = 2 * (zcount (on_axis axis) (boxes (R ds)) + zcount (on_axis axis) (boxes (S ds)))
    /\ (forall sd i b,
          vget (boxes (rel_of ds sd)) i = Some b -> on_axis axis b = true ->
          exists l1 l2 l3,
            evs = l1 ++ start_on (rel_of ds sd) sd axis i b
                     :: l2 ++ end_on (rel_of ds sd) sd axis i b :: l3).
Proof.
  intros HR HS _.
  set (raw := events_from (R ds) SideR axis (boxes (R ds)) 0
              ++ events_from (S ds) SideS axis (boxes (S ds)) 0).
  assert (Hbuild : BuildSweepEvents ds axis tb = Some (SortSweepEvents raw tb)).
  { unfold BuildSweepEvents, AppendRelationEvents.
    rewrite (AppendRelationEvents_loop_gen (R ds) SideR axis (boxes (R ds)) 0 [])
      by (intros j Hj; apply GetId_ok; [exact HR | unfold RelationOps.Size; lia]).
    cbn [mbind option_bind app].
    rewrite (AppendRelationEvents_loop_gen (S ds) SideS axis (boxes (S ds)) 0)
      by (intros j Hj; apply GetId_ok; [exact HS | unfold RelationOps.Size; lia]).
    reflexivity. }
  assert (Hmem : forall e, e ∈ raw <->
            exists sd i b,
              vget (boxes (rel_of ds sd)) i = Some b /\ on_axis axis b = true
              /\ (e = start_on (rel_of ds sd) sd axis i b
                  \/ e = end_on (rel_of ds sd) sd axis i b)).
  { intros e. unfold raw. rewrite elem_of_app, !elem_events_from. split.
    - intros [(j & b & Hj & Hon & He) | (j & b & Hj & Hon & He)];
        [exists SideR | exists SideS]; exists (Z.of_nat j), b; cbn [rel_of];
        rewrite Z.add_0_l in He;
        (split; [apply vget_Some; split; [lia | rewrite Nat2Z.id; exact Hj] |]);
        split; assumption.
    - intros (sd & i & b & Hb & Hon & He). apply vget_Some in Hb as [Hi Hb].
      destruct sd; [left | right]; exists (Z.to_nat i), b; cbn [rel_of] in *;
        rewrite Z.add_0_l, Z2Nat.id by lia; (split; [exact Hb |]); split; assumption. }
  assert (Hnd : NoDup raw).
  { unfold raw. apply NoDup_app. split; [apply NoDup_events_from |].
    split; [| apply NoDup_events_from].
    intros e (j & b & _ & _ & He)%elem_events_from (j' & b' & _ & _ & He')%elem_events_from.
    assert (ev_side e = SideR) by (destruct He as [-> | ->]; reflexivity).
    assert (ev_side e = SideS) by (destruct He' as [-> | ->]; reflexivity).
    congruence. }
  pose proof (SortSweepEvents_perm raw tb) as Hperm.
  exists (SortSweepEvents raw tb). split; [exact Hbuild |].
  split; [intros e; rewrite Hperm; apply Hmem |].
  split; [rewrite Hperm; exact Hnd |].
  split.
  - rewrite (Permutation_length Hperm). unfold raw.
    rewrite length_app, Nat2Z.inj_add, !length_events_from. lia.
  - intros sd i b Hb Hon.
    apply (sorted_before (EventLess tb)).
    + apply EventLess_irrefl.
    + apply SortSweepEvents_sorted.
    + rewrite Hperm. apply Hmem. exists sd, i, b. tauto.
    + rewrite Hperm. apply Hmem. exists sd, i, b. tauto.
    + unfold EventLess, start_on, end_on. cbn [ev_x].
      unfold on_axis in Hon. rewrite Hon. reflexivity.
Qed.

Lemma sweep_events_content_witness :
  exists evs,
    BuildSweepEvents ds_small 0 RBeforeS = Some evs
    /\ Z.of_nat (length evs) = 12
    /\ exists l1 l2 l3,
         evs = l1 ++ start_on (S ds_small) SideS 0 1 (bx 10 10 25 25)
                  :: l2 ++ end_on (S ds_small) SideS 0 1 (bx 10 10 25 25) :: l3.
Proof.
  destruct (sweep_events_content ds_small 0 RBeforeS) as (evs & Hb & _ & _ & Hlen & Hord).
  - left. reflexivity.
  - left. reflexivity.
  - lia.
  - exists evs. split; [exact Hb |]. split; [exact Hlen |].
    apply (Hord SideS 1 (bx 10 10 25 25)); reflexivity.
Defined.

(** * The weights of the first sweep *)

(** Pattern A: the y-interval of [b] contains the lower y of [a].
    Pattern B: the lower y of [b] lies strictly inside the y-interval of [a]. *)
Definition pattern_a (a b : Box) : bool :=
  (v1 (lo b) <=? v1 (lo a)) && (v1 (lo a) <? v1 (hi b)).

Definition pattern_b (a b : Box) : bool :=
  (v1 (lo a) <? v1 (lo b)) && (v1 (lo b) <? v1 (hi a)).

(** The partners of rectangle [i] of side [sd] among the rectangles of the
    other side that are active after the events [pre]. *)
Definition partners (ds : Dataset) (pat : Box -> Box -> bool) (pre : list Event)
    (sd : Side) (i : Z) : Z :=
  zcount (fun j => active ds pre (other_side sd) j
                   && pat (box_at (rel_of ds sd) i) (box_at (rel_of ds (other_side sd)) j))
         (seqZ 0 (n_of ds (other_side sd))).

(** The rectangles of the other side that started in [pre] and intersect
    rectangle [i] of side [sd]. *)
Definition degree (ds : Dataset) (pre : list Event) (sd : Side) (i : Z) : Z :=
  zcount (fun j => started ds pre (other_side sd) j && isect ds sd i j)
         (seqZ 0 (n_of ds (other_side sd))).

Definition zlist_sum (l : list Z) : Z := zsum (fun x => x) l.

Lemma zlist_sum_insert (l : list Z) (i : nat) (w : Z) :
  l !! i = Some 0 -> zlist_sum (<[i := w]> l) = zlist_sum l + w.
Proof.
  unfold zlist_sum. revert i. induction l as [|x l IH]; intros [|i] Hi; try discriminate.
  - injection Hi as ->. change (<[0%nat := w]> (0 :: l)) with (w :: l).
    rewrite !zsum_cons. lia.
  - change (<[Datatypes.S i := w]> (x :: l)) with (x :: <[i := w]> l).
    rewrite !zsum_cons. rewrite (IH i Hi). lia.
Qed.

Lemma snoc_split {A} (pre pre' suf' : list A) (e x : A) :
  pre ++ [e] = pre' ++ x :: suf' ->
  (suf' = [] /\ pre' = pre /\ x = e)
  \/ exists suf'', suf' = suf'' ++ [e] /\ pre = pre' ++ x :: suf''.
Proof.
  destruct suf' as [|y suf'] using rev_ind.
  - intros Heq. apply app_inj_tail in Heq as [-> ->]. left. repeat split.
  - intros Heq. right. exists suf'.
    change (pre' ++ x :: suf' ++ [y]) with (pre' ++ (x :: suf') ++ [y]) in Heq.
    rewrite app_assoc in Heq. apply app_inj_tail in Heq as [-> ->].
    split; reflexivity.
Qed.

Section FirstSweep.
Context `{FloatOps}.
Variable ds : Dataset.
Hypothesis Hvalid : DatasetOps.Validate true ds = true.
Hypothesis Hsize : RelationOps.Size (R ds) + RelationOps.Size (S ds) <= 2 ^ 30.

(** The two counts of a START event, read on the active set. *)
Lemma start_counts pre suf sd i act :
  sweep_events ds = pre ++ start_ev (rel_of ds sd) sd i :: suf ->
  0 <= i < n_of ds sd ->
  NoDup act ->
  (forall j, j ∈ act <-> 0 <= j < n_of ds (other_side sd)
                         /\ active ds pre (other_side sd) j = true) ->
  zcount (fun j => bool_decide (lo_rank ds (other_side sd) j <= lo_rank ds sd i
                                < hi_rank ds (other_side sd) j)) act
  = partners ds pattern_a pre sd i
  /\ zcount (fun j => bool_decide (lo_rank ds sd i < lo_rank ds (other_side sd) j
                                   < hi_rank ds sd i)) act
     = partners ds pattern_b pre sd i.
Proof.
  intros Hsplit Hi Hnd Hact.
  assert (Hconv : forall P Q : Z -> bool,
            (forall j, 0 <= j < n_of ds (other_side sd) -> P j = Q j) ->
            zcount P act
            = zcount (fun j => active ds pre (other_side sd) j && Q j)
                     (seqZ 0 (n_of ds (other_side sd)))).
  { intros P Q HPQ.
    rewrite (zcount_act_range _ act (n_of ds (other_side sd)) Hnd)
      by (intros j Hj; apply Hact in Hj; tauto).
    apply zcount_ext. intros j Hj. apply elem_of_seqZ in Hj.
    rewrite HPQ by lia. f_equal.
    destruct (active ds pre (other_side sd) j) eqn:Ea.
    - apply bool_decide_eq_true_2. apply Hact. split; [lia | exact Ea].
    - apply bool_decide_eq_false_2. rewrite Hact, Ea. intros [_ ?]. discriminate. }
  unfold partners. split; apply Hconv; intros j Hj;
    destruct (pattern_overlap ds Hsize sd i (other_side sd) j Hi Hj) as [HA HB];
    unfold pattern_a, pattern_b; apply eq_true_iff_eq;
    rewrite bool_decide_eq_true, andb_true_iff, ?Z.leb_le, !Z.ltb_lt; tauto.
Qed.

Lemma partners_degree pre suf sd i :
  sweep_events ds = pre ++ start_ev (rel_of ds sd) sd i :: suf ->
  0 <= i < n_of ds sd ->
  partners ds pattern_a pre sd i + partners ds pattern_b pre sd i = degree ds pre sd i.
Proof.
  intros Hsplit Hi. unfold partners, degree.
  rewrite zcount_or_disjoint.
  2:{ intros j _. unfold pattern_a, pattern_b.
      rewrite !andb_true_iff, !andb_false_iff, Z.leb_le, !Z.ltb_lt, !Z.ltb_ge. lia. }
  apply zcount_ext. intros j Hj. apply elem_of_seqZ in Hj.
  assert (0 <= j < n_of ds (other_side sd)) as Hj' by lia.
  pose proof (proper_at ds Hvalid sd i Hi) as [Hpx Hpy].
  pose proof (proper_at ds Hvalid (other_side sd) j Hj') as [Hqx Hqy].
  unfold isect, IntersectsHalfOpen.
  rewrite (Intersects_proper _ _ Hpx Hpy Hqx Hqy).
  unfold pattern_a, pattern_b.
  destruct (active ds pre (other_side sd) j) eqn:Ea.
  - destruct (start_active_overlap ds Hvalid pre suf _ Hsplit sd i (other_side sd) j
                eq_refl Hj' Ea) as [Hx1 Hx2].
    unfold active in Ea. apply andb_prop in Ea as [-> _]. cbn [andb].
    apply eq_true_iff_eq.
    rewrite !orb_true_iff, !andb_true_iff, Z.leb_le, !Z.ltb_lt. lia.
  - cbn [andb orb]. symmetry. unfold active in Ea.
    destruct (started ds pre (other_side sd) j); [| reflexivity].
    cbn [andb] in Ea |- *. apply negb_false_iff in Ea.
    pose proof (start_ended_disjoint ds pre suf _ Hsplit sd i (other_side sd) j eq_refl Ea)
      as Hd.
    destruct (Z.ltb_spec (v0 (lo (box_at (rel_of ds sd) i)))
                (v0 (hi (box_at (rel_of ds (other_side sd)) j)))); [lia | reflexivity].
Qed.

(** What the first sweep has stored after the events [pre]. *)
Record weights_inv (pre : list Event) (st : OursSamplingBaseline.count_state) : Prop :=
  mk_weights_inv {
  wi_done : forall pre' sd i suf',
    pre = pre' ++ start_ev (rel_of ds sd) sd i :: suf' ->
    vget (OursSamplingBaseline.cs_w_a st) (count_start pre')
    = Some (partners ds pattern_a pre' sd i)
    /\ vget (OursSamplingBaseline.cs_w_b st) (count_start pre')
       = Some (partners ds pattern_b pre' sd i)
    /\ vget (OursSamplingBaseline.cs_w_total st) (count_start pre')
       = Some (degree ds pre' sd i);
  wi_todo : forall sid, count_start pre <= sid < count_start (sweep_events ds) ->
    vget (OursSamplingBaseline.cs_w_total st) sid = Some 0;
  wi_sum : zlist_sum (OursSamplingBaseline.cs_w_total st) = pairs_count ds pre SideR
}.

Lemma count_start_prefix pre' x suf'' :
  is_start x = true -> count_start pre' < count_start (pre' ++ x :: suf'').
Proof.
  intros Hx. unfold count_start. rewrite zcount_app, zcount_cons, Hx.
  pose proof (zcount_bounds is_start suf''). lia.
Qed.

Lemma Count_step_weights ctx pre e suf st st' :
  ctx_ok ds ctx -> sweep_events ds = pre ++ e :: suf ->
  count_inv ds pre st -> weights_inv pre st ->
  OursSamplingBaseline.Count_step ctx st (Z.of_nat (length pre), e) = Some st' ->
  weights_inv (pre ++ [e]) st'.
Proof.
  intros Hctx Hsplit Hinv [Hdone Htodo Hsum] Hstep.
  pose proof Hinv as [Hact Hwa Hwb Hwt HW].
  assert (e ∈ sweep_events ds) as He by (rewrite Hsplit, elem_of_app, elem_of_cons; tauto).
  apply elem_sweep_events in He as (sd & i & Hi & [-> | ->]); fold (n_of ds sd) in Hi.
  - (* START *)
    destruct (start_id_eq ds Hsize ctx pre _ suf Hctx Hsplit eq_refl)
      as (Hsid & Hw32 & Hsr & H31).
    set (c := count_start pre) in *.
    destruct (Hact (other_side sd)) as (act & Hrep & Hmem).
    pose proof (rank_range ds Hvalid Hsize sd i Hi) as (Hr1 & Hr2 & Hr3).
    assert (Hnd : NoDup act).
    { destruct Hrep as [_ _ _ _ [k Hp]]. apply (pr_nodup _ _ _ _ _ _ Hp). }
    destruct (start_counts pre suf sd i act Hsplit Hi Hnd Hmem) as [EA EB].
    pose proof (partners_degree pre suf sd i Hsplit Hi) as Hdeg.
    assert (Hnb : 0 <= degree ds pre sd i <= 2 ^ 30)
      by exact (new_pairs_bound ds Hsize pre sd i).
    assert (HbA : 0 <= partners ds pattern_a pre sd i) by apply zcount_bounds.
    assert (HbB : 0 <= partners ds pattern_b pre sd i) by apply zcount_bounds.
    unfold OursSamplingBaseline.Count_step in Hstep. cbn [ev_kind start_ev] in Hstep.
    change (mkEvent (v0 (lo (box_at (rel_of ds sd) i))) Start sd (id_of (rel_of ds sd) i) i)
      with (start_ev (rel_of ds sd) sd i) in Hstep.
    rewrite Hsid in Hstep. cbn [mbind option_bind] in Hstep. rewrite Hw32 in Hstep.
    rewrite (query_ranks_ok ds ctx sd i Hctx Hi) in Hstep. cbn [mbind option_bind] in Hstep.
    rewrite sweep_other_tree in Hstep.
    rewrite (idx_CountA _ _ _ _ _ _ (lo_rank ds sd i) Hrep) in Hstep by lia.
    rewrite (idx_CountB _ _ _ _ _ _ (lo_rank ds sd i) (hi_rank ds sd i) Hrep) in Hstep by lia.
    cbn [mbind option_bind] in Hstep. rewrite EA, EB, Hdeg in Hstep.
    rewrite (wrap64_small (degree ds pre sd i)) in Hstep
      by (change (2 ^ 64) with (2 ^ 34 * 2 ^ 30); lia).
    rewrite (vset_is_Some (OursSamplingBaseline.cs_w_a st)) in Hstep by lia.
    rewrite (vset_is_Some (OursSamplingBaseline.cs_w_b st)) in Hstep by lia.
    rewrite (vset_is_Some (OursSamplingBaseline.cs_w_total st)) in Hstep by lia.
    cbn [mbind option_bind] in Hstep.
    destruct (sweep_insert _ _ _ _ _) as [[ar' as']|]; [| discriminate].
    cbn [mbind option_bind] in Hstep. injection Hstep as <-.
    constructor; cbn [OursSamplingBaseline.cs_w_a OursSamplingBaseline.cs_w_b
                      OursSamplingBaseline.cs_w_total].
    + intros pre' sd' i' suf' Heq.
      apply snoc_split in Heq as [(-> & -> & Hx) | (suf'' & -> & Hpre)].
      * apply (start_ev_inj ds) in Hx as [-> ->]. fold c.
        repeat split; apply vget_Some; (split; [lia |]);
          apply list_lookup_insert_eq; lia.
      * destruct (Hdone pre' sd' i' suf'' Hpre) as (H1 & H2 & H3).
        pose proof (count_start_prefix pre' (start_ev (rel_of ds sd') sd' i') suf'' eq_refl)
          as Hlt.
        rewrite <- Hpre in Hlt. fold c in Hlt.
        pose proof (zcount_bounds is_start pre') as Hp0. fold (count_start pre') in Hp0.
        assert (Hne : Z.to_nat c <> Z.to_nat (count_start pre')) by lia.
        repeat split; apply vget_Some; (split; [lia |]);
          rewrite list_lookup_insert_ne by exact Hne;
          [apply vget_Some in H1 | apply vget_Some in H2 | apply vget_Some in H3]; tauto.
    + intros sid Hs. rewrite count_start_snoc in Hs.
      cbn [is_start ev_kind start_ev EventKind_eqb] in Hs. fold c in Hs.
      specialize (Htodo sid ltac:(lia)). apply vget_Some in Htodo as [_ Ht].
      apply vget_Some. split; [lia |]. rewrite list_lookup_insert_ne by lia. exact Ht.
    + specialize (Htodo c ltac:(lia)). apply vget_Some in Htodo as [_ Ht].
      rewrite (zlist_sum_insert _ _ _ Ht), Hsum.
      rewrite <- (pairs_count_side ds (pre ++ _) sd).
      rewrite (pairs_count_start ds pre sd i Hi
                 (start_not_started ds pre suf _ Hsplit sd i eq_refl)).
      rewrite (pairs_count_side ds pre sd). reflexivity.
  - (* END *)
    unfold OursSamplingBaseline.Count_step in Hstep. cbn [ev_kind end_ev] in Hstep.
    destruct (sweep_erase _ _ _) as [[ar' as']|]; [| discriminate].
    cbn [mbind option_bind] in Hstep. injection Hstep as <-.
    constructor; cbn [OursSamplingBaseline.cs_w_a OursSamplingBaseline.cs_w_b
                      OursSamplingBaseline.cs_w_total].
    + intros pre' sd' i' suf' Heq.
      apply snoc_split in Heq as [(-> & -> & Hx) | (suf'' & -> & Hpre)];
        [discriminate |].
      apply (Hdone pre' sd' i' suf'' Hpre).
    + intros sid Hs. rewrite count_start_snoc in Hs.
      cbn [is_start ev_kind end_ev EventKind_eqb] in Hs. apply Htodo. lia.
    + rewrite Hsum. symmetry. apply pairs_count_end. reflexivity.
Qed.

Lemma Count_fold_weights ctx : ctx_ok ds ctx -> forall suf pre st st',
  sweep_events ds = pre ++ suf -> count_inv ds pre st -> weights_inv pre st ->
  ofold (OursSamplingBaseline.Count_step ctx)
    (zip (seqZ (Z.of_nat (length pre)) (Z.of_nat (length suf))) suf) st = Some st' ->
  count_inv ds (sweep_events ds) st' /\ weights_inv (sweep_events ds) st'.
Proof.
  intros Hctx. induction suf as [|e suf IH]; intros pre st st' Hsplit Hinv Hw Hfold.
  - cbn [length zip zip_with ofold] in Hfold. injection Hfold as <-.
    rewrite Hsplit, app_nil_r. split; assumption.
  - cbn [length] in Hfold. rewrite seqZ_cons_S in Hfold. cbn [zip zip_with ofold] in Hfold.
    destruct (Count_step_ok ds Hvalid Hsize ctx pre e suf st Hctx Hsplit Hinv)
      as (st1 & Hstep & Hinv1).
    rewrite Hstep in Hfold. cbn [mbind option_bind] in Hfold.
    pose proof (Count_step_weights ctx pre e suf st st1 Hctx Hsplit Hinv Hw Hstep) as Hw1.
    apply (IH (pre ++ [e]) st1 st').
    + rewrite <- app_assoc. exact Hsplit.
    + exact Hinv1.
    + exact Hw1.
    + rewrite length_app. cbn [length].
      replace (Z.of_nat (length pre + 1)) with (Z.of_nat (length pre) + 1) by lia.
      exact Hfold.
Qed.

Lemma Sampling_Count_weights b cfg c b' :
  sampling_ok ds b ->
  OursSamplingBaseline.Count b cfg = Done (c, b') ->
  (forall pre sd i suf,
     sweep_events ds = pre ++ start_ev (rel_of ds sd) sd i :: suf ->
     vget (OursSamplingBaseline.w_a_ b') (count_start pre)
     = Some (partners ds pattern_a pre sd i)
     /\ vget (OursSamplingBaseline.w_b_ b') (count_start pre)
        = Some (partners ds pattern_b pre sd i)
     /\ vget (OursSamplingBaseline.w_total_ b') (count_start pre)
        = Some (degree ds pre sd i))
  /\ zlist_sum (OursSamplingBaseline.w_total_ b') = CountNaive (R ds) (S ds)
  /\ OursSamplingBaseline.W_ b' = CountNaive (R ds) (S ds)
  /\ OursSamplingBaseline.weights_valid_ b' = true
  /\ Z.of_nat (length (OursSamplingBaseline.w_total_ b')) = count_start (sweep_events ds).
Proof.
  intros [Hb Hctx Hwt Hwa Hwb] Hcount.
  unfold OursSamplingBaseline.Count in Hcount.
  rewrite Hb, (co_built ds _ Hctx), (co_ds ds _ Hctx) in Hcount. cbn [negb orb] in Hcount.
  rewrite bool_decide_eq_true_2 in Hcount by (eexists; reflexivity). cbn [negb] in Hcount.
  pose proof (ctx_ok_ResetActive' ds _ Hctx) as Hctx'.
  set (ctx' := Ours2DContext.ResetActive (OursSamplingBaseline.ctx_ b)) in *.
  rewrite (co_events ds _ Hctx') in Hcount. unfold with_pos, upto in Hcount.
  set (st0 := OursSamplingBaseline.mkCountState
                (Ours2DContext.active_r_ ctx') (Ours2DContext.active_s_ ctx')
                (map (fun _ => 0) (OursSamplingBaseline.w_a_ b))
                (map (fun _ => 0) (OursSamplingBaseline.w_b_ b))
                (map (fun _ => 0) (OursSamplingBaseline.w_total_ b)) 0) in *.
  assert (Hinv0 : count_inv ds [] st0).
  { constructor; cbn [st0 OursSamplingBaseline.cs_ar OursSamplingBaseline.cs_as
        OursSamplingBaseline.cs_w_a OursSamplingBaseline.cs_w_b
        OursSamplingBaseline.cs_w_total OursSamplingBaseline.cs_W];
      rewrite ?length_map; try assumption.
    - apply actives_ok_nil. exact Hctx.
    - symmetry. apply pairs_count_nil. }
  assert (Hw0 : weights_inv [] st0).
  { constructor; cbn [st0 OursSamplingBaseline.cs_w_a OursSamplingBaseline.cs_w_b
        OursSamplingBaseline.cs_w_total].
    - intros pre' sd i suf' Heq. destruct pre'; discriminate.
    - intros sid Hs. pose proof (zcount_bounds is_start []) as H0.
      fold (count_start []) in H0.
      destruct (vget_is_Some (OursSamplingBaseline.w_total_ b) sid ltac:(lia)) as [x Hx].
      rewrite vget_map, Hx. reflexivity.
    - rewrite pairs_count_nil. unfold zlist_sum. rewrite zsum_map. apply zsum_zero.
      intros; reflexivity. }
  destruct (ofold _ _ st0) as [st'|] eqn:Hfold;
    cbn [lift_opt mbind outcome_mbind outcome_bind] in Hcount; [| discriminate].
  injection Hcount as _ <-.
  destruct (Count_fold_weights ctx' Hctx' (sweep_events ds) [] st0 st' eq_refl Hinv0 Hw0 Hfold)
    as [[Hact Hla Hlb Hlt HW] [Hdone Htodo Hsum]].
  cbn [OursSamplingBaseline.w_a_ OursSamplingBaseline.w_b_ OursSamplingBaseline.w_total_
       OursSamplingBaseline.W_ OursSamplingBaseline.weights_valid_].
  rewrite (pairs_count_all ds Hsize) in HW, Hsum.
  split; [exact Hdone |]. split; [exact Hsum |]. split; [exact HW |].
  split; [reflexivity | exact Hlt].
Qed.

End FirstSweep.

(** X16: the weights that [Count] leaves for [Sample].  On a validated
    dataset of at most 2^30 rectangles, after [Build] and [Count], for the
    START event of rectangle [i] of side [sd] with the events [pre] before
    it in the sweep, the entry of its id (the number of START events of
    [pre]) holds: in [w_a] the number of active rectangles of the other side
    whose y-interval contains the lower y of the rectangle, in [w_b] the
    number of those whose lower y lies strictly inside its y-interval, and in
    [w_total] their sum, which is the number of rectangles of the other side
    that started earlier and intersect it.  The entries of [w_total] add up
    to the size of the join, which is also [W]. *)
Theorem count_weights_are_degrees `{FloatOps} (ds : Dataset)
    (b0 b b' : OursSamplingBaseline.t) (cfg0 cfg : Config) (g g' : Rng) (c : CountResult) :
  DatasetOps.Validate true ds = true ->
  RelationOps.Size (R ds) + RelationOps.Size (S ds) <= 2 ^ 30 ->
  OursSamplingBaseline.Build b0 ds cfg0 = Done b ->
  Count b cfg g = Done (c, b', g') ->
  exists evs,
    BuildSweepEvents ds 0 RBeforeS = Some evs
    /\ (forall pre sd i suf,
          evs = pre ++ start_ev (rel_of ds sd) sd i :: suf ->
          vget (OursSamplingBaseline.w_a_ b') (count_start pre)
          = Some (partners ds pattern_a pre sd i)
          /\ vget (OursSamplingBaseline.w_b_ b') (count_start pre)
             = Some (partners ds pattern_b pre sd i)
          /\ vget (OursSamplingBaseline.w_total_ b') (count_start pre)
             = Some (partners ds pattern_a pre sd i + partners ds pattern_b pre sd i)
          /\ partners ds pattern_a pre sd i + partners ds pattern_b pre sd i
             = degree ds pre sd i)
    /\ Z.of_nat (length (OursSamplingBaseline.w_total_ b')) = count_start evs
    /\ zlist_sum (OursSamplingBaseline.w_total_ b') = CountNaive (R ds) (S ds)
    /\ OursSamplingBaseline.W_ b' = CountNaive (R ds) (S ds)
    /\ OursSamplingBaseline.weights_valid_ b' = true.
Proof.
  intros Hv Hs Hb Hc.
  destruct (Sampling_Build_cases ds Hv Hs b0 cfg0) as [[_ Hf] | [_ (b1 & Hb1 & Hok & _)]].
  { rewrite Hf in Hb. discriminate. }
  rewrite Hb1 in Hb. injection Hb as <-.
  cbn [Count OursSampling_IBaseline] in Hc.
  destruct (OursSamplingBaseline.Count b1 cfg) as [[c1 b2]| |] eqn:Hc1;
    cbn [mbind outcome_mbind outcome_bind] in Hc; try discriminate.
  injection Hc as _ <- _.
  destruct (Sampling_Count_weights ds Hv Hs b1 cfg c1 b2 Hok Hc1)
    as (Hdone & Hsum & HW & Hwv & Hlen).
  exists (sweep_events ds). split; [apply (BuildSweepEvents_eq ds Hv Hs) |].
  split; [| repeat split; assumption].
  intros pre sd i suf Hsplit.
  destruct (Hdone pre sd i suf Hsplit) as (H1 & H2 & H3).
  assert (Hi : 0 <= i < n_of ds sd).
  { assert (Hin : start_ev (rel_of ds sd) sd i ∈ sweep_events ds)
      by (rewrite Hsplit, elem_of_app, elem_of_cons; tauto).
    apply elem_sweep_events in Hin as (sd' & i' & Hi' & [Heq | Heq]); [| discriminate].
    apply (start_ev_inj ds) in Heq as [-> ->]. exact Hi'. }
  pose proof (partners_degree ds Hv pre suf sd i Hsplit Hi) as Hdeg.
  split; [exact H1 |]. split; [exact H2 |]. split; [rewrite Hdeg; exact H3 | exact Hdeg].
Qed.

Lemma count_weights_are_degrees_witness :
  exists c b' g' evs,
    Count (H:=QFloat) sampling_built cfg_t8 (RngOps.Seed 42) = Done (c, b', g')
    /\ BuildSweepEvents ds_small 0 RBeforeS = Some evs
    /\ OursSamplingBaseline.w_total_ b' = [0; 1; 1; 1; 1; 0]
    /\ zlist_sum (OursSamplingBaseline.w_total_ b') = 4.
Proof.
  assert (Hc : exists r, Count (H:=QFloat) sampling_built cfg_t8 (RngOps.Seed 42) = Done r)
    by (eexists; vm_compute; reflexivity).
  destruct Hc as [[[c b'] g'] Hc].
  destruct (count_weights_are_degrees (H:=QFloat) ds_small sampling_fresh sampling_built b'
              cfg_t8 cfg_t8 (RngOps.Seed 42) g' c)
    as (evs & Hevs & _ & _ & Hsum & _).
  - reflexivity.
  - vm_compute. discriminate.
  - vm_compute. reflexivity.
  - exact Hc.
  - exists c, b', g', evs. split; [exact Hc |]. split; [exact Hevs |].
    split; [| exact Hsum].
    vm_compute in Hc. injection Hc as _ <- _. reflexivity.
Defined.

(** * The report-based enumerator and Framework I *)

(** ** The join as a list of index pairs *)

(** The pairs [(i, j)] of intersecting boxes, in the order of [(i, j)]. *)
Definition ijoin (r s : Relation) : list (Z * Z) :=
  flat_map (fun i =>
    flat_map (fun j => if IntersectsHalfOpen (box_at r i) (box_at s j) then [(i, j)] else [])
             (seqZ 0 (RelationOps.Size s)))
    (seqZ 0 (RelationOps.Size r)).

Definition to_pair (r s : Relation) (ij : Z * Z) : PairId :=
  mkPairId (id_of r ij.1) (id_of s ij.2).

Lemma with_pos_map r :
  with_pos (boxes r) = map (fun i => (i, box_at r i)) (seqZ 0 (RelationOps.Size r)).
Proof.
  unfold with_pos, upto, RelationOps.Size. apply list_eq. intros k.
  rewrite lookup_zip_with, list_lookup_fmap.
  destruct (decide (k < length (boxes r))%nat) as [Hk|Hk].
  - rewrite lookup_seqZ_lt by lia. cbn [mbind option_bind fmap option_fmap option_map].
    destruct (lookup_lt_is_Some_2 (boxes r) k Hk) as [b Hb]. rewrite Hb.
    cbn [mbind option_bind]. rewrite Z.add_0_l, (box_at_lookup r k b Hb). reflexivity.
  - rewrite lookup_seqZ_ge by lia. reflexivity.
Qed.

Lemma all_pairs_ijoin r s : all_pairs r s = map (to_pair r s) (ijoin r s).
Proof.
  unfold all_pairs, outer_pairs, ijoin. rewrite !with_pos_map.
  assert (Hin : forall i js,
            inner_pairs (box_at r i) (id_of r i) s (map (fun j => (j, box_at s j)) js)
            = map (to_pair r s)
                (flat_map (fun j => if IntersectsHalfOpen (box_at r i) (box_at s j)
                                    then [(i, j)] else []) js)).
  { intros i js. unfold inner_pairs.
    induction js as [|j js IHj]; [reflexivity |].
    cbn [map flat_map fst snd]. rewrite map_app, <- IHj. f_equal.
    destruct (IntersectsHalfOpen (box_at r i) (box_at s j)); reflexivity. }
  induction (seqZ 0 (RelationOps.Size r)) as [|i is_ IH]; [reflexivity |].
  cbn [map flat_map fst snd]. rewrite map_app, <- IH. f_equal. apply Hin.
Qed.

Lemma elem_ijoin r s i j :
  (i, j) ∈ ijoin r s
  <-> 0 <= i < RelationOps.Size r /\ 0 <= j < RelationOps.Size s
      /\ IntersectsHalfOpen (box_at r i) (box_at s j) = true.
Proof.
  unfold ijoin. rewrite list_elem_of_In, in_flat_map. split.
  - intros (i' & Hi & Hin). apply in_flat_map in Hin as (j' & Hj & Hin).
    rewrite <- list_elem_of_In in Hi. rewrite <- list_elem_of_In in Hj.
    apply elem_of_seqZ in Hi, Hj.
    destruct (IntersectsHalfOpen (box_at r i') (box_at s j')) eqn:Hx; [| destruct Hin].
    destruct Hin as [Heq | []]. injection Heq as <- <-. repeat split; try lia. exact Hx.
  - intros (Hi & Hj & Hx). exists i. split; [apply list_elem_of_In, elem_of_seqZ; lia |].
    apply in_flat_map. exists j. split; [apply list_elem_of_In, elem_of_seqZ; lia |].
    rewrite Hx. left. reflexivity.
Qed.

Lemma NoDup_flat_map {A B} (f : A -> list B) (l : list A) :
  NoDup l -> (forall a, a ∈ l -> NoDup (f a)) ->
  (forall a a' b, a ∈ l -> a' ∈ l -> b ∈ f a -> b ∈ f a' -> a = a') ->
  NoDup (flat_map f l).
Proof.
  induction l as [|a l IH]; intros Hnd Hf Hinj; [constructor |].
  apply NoDup_cons in Hnd as [Ha Hnd]. cbn [flat_map]. apply NoDup_app. split; [| split].
  - apply Hf. left.
  - intros b Hb Hb'. apply list_elem_of_In, in_flat_map in Hb' as (a' & Ha' & Hb').
    rewrite <- list_elem_of_In in Ha'. rewrite <- list_elem_of_In in Hb'.
    assert (a = a') as <-; [| contradiction].
    apply (Hinj a a' b); [left | right; exact Ha' | exact Hb | exact Hb'].
  - apply IH; [exact Hnd | |].
    + intros a' Ha'. apply Hf. right. exact Ha'.
    + intros a1 a2 b H1 H2. apply Hinj; right; assumption.
Qed.

Lemma NoDup_ijoin r s : NoDup (ijoin r s).
Proof.
  unfold ijoin. apply NoDup_flat_map; [apply NoDup_seqZ | |].
  - intros i _. apply NoDup_flat_map; [apply NoDup_seqZ | |].
    + intros j _. destruct (IntersectsHalfOpen _ _); [apply NoDup_singleton | constructor].
    + intros j j' b _ _ Hb Hb'.
      destruct (IntersectsHalfOpen (box_at r i) (box_at s j)); [| inversion Hb].
      destruct (IntersectsHalfOpen (box_at r i) (box_at s j')); [| inversion Hb'].
      apply list_elem_of_singleton in Hb, Hb'. congruence.
  - intros i i' b _ _ Hb Hb'.
    apply list_elem_of_In, in_flat_map in Hb as (j & _ & Hb).
    apply list_elem_of_In, in_flat_map in Hb' as (j' & _ & Hb').
    destruct (IntersectsHalfOpen (box_at r i) (box_at s j)); [| destruct Hb].
    destruct (IntersectsHalfOpen (box_at r i') (box_at s j')); [| destruct Hb'].
    destruct Hb as [<- | []]. destruct Hb' as [Heq | []]. congruence.
Qed.

Lemma length_ijoin r s :
  Z.of_nat (length (ijoin r s)) <= RelationOps.Size r * RelationOps.Size s.
Proof.
  unfold ijoin.
  assert (Hin : forall i (js : list Z),
            (length (flat_map (fun j => if IntersectsHalfOpen (box_at r i) (box_at s j)
                                        then [(i, j)] else []) js) <= length js)%nat).
  { intros i js. induction js as [|j js IH]; [reflexivity |].
    cbn [flat_map]. rewrite length_app.
    destruct (IntersectsHalfOpen _ _); cbn [length]; lia. }
  assert (Hout : forall is_ : list Z,
            Z.of_nat (length (flat_map (fun i =>
              flat_map (fun j => if IntersectsHalfOpen (box_at r i) (box_at s j)
                                 then [(i, j)] else []) (seqZ 0 (RelationOps.Size s))) is_))
            <= Z.of_nat (length is_) * RelationOps.Size s).
  { intros is_. induction is_ as [|i is_ IH]; [cbn; lia |].
    cbn [flat_map]. rewrite length_app, Nat2Z.inj_add.
    pose proof (Hin i (seqZ 0 (RelationOps.Size s))) as H1.
    rewrite length_seqZ in H1. cbn [length]. unfold RelationOps.Size in *. lia. }
  pose proof (Hout (seqZ 0 (RelationOps.Size r))) as H. rewrite length_seqZ in H.
  unfold RelationOps.Size in *. lia.
Qed.

(** ** The pairs found along the sweep *)

Module RE := OursReportJoinEnumerator2D.
Module FI := OursEnumSamplingBaseline.

(** [next_run e ps e']: successive calls of [Next], the first on [e],
    return the pairs [ps] and then [false], which leaves [e']. *)
Inductive next_run : RE.t -> list PairId -> RE.t -> Prop :=
| run_stop e e' : RE.Next e = Some (e', None) -> next_run e [] e'
| run_pair e e1 p ps e' :
    RE.Next e = Some (e1, Some p) -> next_run e1 ps e' -> next_run e (p :: ps) e'.

Lemma idx_ResetActive_idem a :
  ActiveIndex2D.ResetActive (ActiveIndex2D.ResetActive a) = ActiveIndex2D.ResetActive a.
Proof.
  destruct a as [n m [] []].
  unfold ActiveIndex2D.ResetActive, StabbingSegTree.ResetActive,
    RangePointSegTree.ResetActive. cbn. rewrite !map_map. reflexivity.
Qed.

Lemma ctx_ResetActive_idem c :
  Ours2DContext.ResetActive (Ours2DContext.ResetActive c) = Ours2DContext.ResetActive c.
Proof.
  unfold Ours2DContext.ResetActive, Ours2DContext.set_active. cbn.
  rewrite !idx_ResetActive_idem. reflexivity.
Qed.

(** The loop of [Count] collects what the calls of [Next] return. *)
Lemma materialize_ok cap e ps e' :
  next_run e ps e' -> forall fuel acc,
  (length ps < fuel)%nat ->
  (0 <? cap) && (cap <? Z.of_nat (length (acc ++ ps))) = false ->
  FI.materialize fuel cap e acc = Some (e', Some (acc ++ ps)).
Proof.
  induction 1 as [e e' Hn | e e1 p ps e' Hn Hrun IH]; intros [|fuel] acc Hf Hcap;
    cbn [length] in Hf; try lia; cbn [FI.materialize]; rewrite Hn;
    cbn [mbind option_bind].
  - rewrite app_nil_r. reflexivity.
  - assert (Hstep : (0 <? cap) && (cap <? Z.of_nat (length (acc ++ [p]))) = false).
    { apply andb_false_iff in Hcap as [Hc | Hc]; [rewrite Hc; reflexivity |].
      apply andb_false_iff. right. rewrite Z.ltb_ge in Hc |- *.
      rewrite !length_app in *. cbn [length] in *. lia. }
    rewrite Hstep. rewrite (IH fuel (acc ++ [p])).
    + rewrite <- app_assoc. reflexivity.
    + lia.
    + rewrite <- app_assoc. exact Hcap.
Qed.

Lemma materialize_capped cap e ps e' :
  next_run e ps e' -> forall fuel acc,
  (length ps < fuel)%nat -> 0 < cap ->
  cap < Z.of_nat (length (acc ++ ps)) -> Z.of_nat (length acc) <= cap ->
  exists e1, FI.materialize fuel cap e acc = Some (e1, None).
Proof.
  induction 1 as [e e' Hn | e e1 p ps e' Hn Hrun IH]; intros [|fuel] acc Hf Hpos Hcap Hacc;
    cbn [length] in Hf; try lia.
  - rewrite app_nil_r in Hcap. lia.
  - cbn [FI.materialize]. rewrite Hn. cbn [mbind option_bind].
    destruct (Z.ltb_spec 0 cap) as [_|]; [| lia]. cbn [andb].
    destruct (Z.ltb_spec cap (Z.of_nat (length (acc ++ [p])))) as [Hlt | Hge].
    + eexists. reflexivity.
    + apply IH; [lia | exact Hpos | rewrite <- app_assoc; exact Hcap | exact Hge].
Qed.

(** The draws of [Sample] are positions of the cached vector; each takes
    one call of [UniformU64] with the bound [W]. *)
Lemma resample_fold (pairs : list PairId) (W : Z) :
  W = Z.of_nat (length pairs) -> 0 < W ->
  forall (l : list Z) out g,
    match ofold (fun '(out, g) (_ : Z) =>
                   '(idx, g) ← RngOps.UniformU64 W g;
                   p ← vget pairs idx;
                   Some (out ++ [p], g)) l (out, g) with
    | Some (out', g') =>
        (length out' = (length out + length l)%nat
         /\ forall p, p ∈ out' -> p ∈ out \/ p ∈ pairs)
        /\ rng_words g g' (64 * Z.of_nat (length l))
    | None => draw_stuck g (64 * Z.of_nat (length l)) (fun b => b = W)
    end.
Proof.
  intros HW Hpos. induction l as [|x l IH]; intros out g.
  - cbn [ofold]. split; [| apply rng_words_refl; cbn [length]; lia].
    split; [cbn [length]; lia | tauto].
  - cbn [ofold].
    destruct (RngOps.UniformU64 W g) as [[idx g1]|] eqn:Hu; cbn [mbind option_bind].
    + pose proof (UniformU64_range W g idx g1 Hpos Hu) as Hidx.
      pose proof (UniformU64_words W g idx g1 Hu) as Hw1.
      destruct (vget_is_Some pairs idx ltac:(lia)) as [p Hp]. rewrite Hp.
      cbn [mbind option_bind]. specialize (IH (out ++ [p]) g1).
      destruct (ofold _ l (out ++ [p], g1)) as [[out' g']|].
      * destruct IH as [[Hl Hsub] Hw2]. split; [split |].
        -- rewrite Hl, length_app. cbn [length]. lia.
        -- intros q Hq. destruct (Hsub q Hq) as [Hq' | Hq']; [| right; exact Hq'].
           apply elem_of_app in Hq' as [Hq' | Hq']; [left; exact Hq' |].
           apply list_elem_of_singleton in Hq' as ->. right.
           apply vget_Some in Hp as [_ Hp]. eapply list_elem_of_lookup_2. exact Hp.
        -- eapply rng_words_trans; [exact Hw1 | exact Hw2 | cbn [length]; lia].
      * eapply draw_stuck_after; [exact Hw1 | exact IH | cbn [length]; lia |].
        intros b Hb. exact Hb.
    + apply (draw_stuck_here g W); [reflexivity | exact Hpos | exact Hu |].
      cbn [length]. lia.
Qed.

Lemma length_all_pairs r s :
  RelationOps.Size r * RelationOps.Size s < 2 ^ 64 ->
  Z.of_nat (length (all_pairs r s)) = CountNaive r s.
Proof.
  intros Hsz. unfold all_pairs, with_pos, upto.
  rewrite length_outer_pairs by (rewrite length_seqZ; lia).
  unfold CountNaive. rewrite count_outer_fold; [lia | lia |].
  unfold RelationOps.Size in Hsz. lia.
Qed.

Section Enumerator.
Variable ds : Dataset.
Hypothesis Hvalid : DatasetOps.Validate true ds = true.
Hypothesis Hsize : RelationOps.Size (R ds) + RelationOps.Size (S ds) <= 2 ^ 30.

#[local] Existing Instance Side_eq_dec.

(** The index pair of the query [i] of side [sd] and a partner [j] of the
    other side: the index in [R] comes first. *)
Definition ipair (sd : Side) (i j : Z) : Z * Z :=
  match sd with SideR => (i, j) | SideS => (j, i) end.

(** The intersecting pairs whose two START events lie in [pre]. *)
Definition joined_by (pre : list Event) (ij : Z * Z) : Prop :=
  (0 <= ij.1 < n_of ds SideR /\ 0 <= ij.2 < n_of ds SideS)
  /\ started ds pre SideR ij.1 = true /\ started ds pre SideS ij.2 = true
  /\ isect ds SideR ij.1 ij.2 = true.

(** The partners of the query [i] of side [sd]: the rectangles of the other
    side that started in [pre] and intersect it. *)
Definition found (pre : list Event) (sd : Side) (i j : Z) : Prop :=
  0 <= j < n_of ds (other_side sd)
  /\ started ds pre (other_side sd) j = true /\ isect ds sd i j = true.

Definition rankA (sd : Side) (i j : Z) : Prop :=
  lo_rank ds (other_side sd) j <= lo_rank ds sd i < hi_rank ds (other_side sd) j.

Definition rankB (sd : Side) (i j : Z) : Prop :=
  lo_rank ds sd i < lo_rank ds (other_side sd) j < hi_rank ds sd i.

Lemma isect_ipair sd i j :
  isect ds SideR (ipair sd i j).1 (ipair sd i j).2 = isect ds sd i j.
Proof using Type.
  destruct sd; cbn [ipair fst snd]; [reflexivity |].
  unfold isect, IntersectsHalfOpen. cbn [other_side rel_of]. apply Intersects_sym.
Qed.

Lemma ipair_inj sd i j j' : ipair sd i j = ipair sd i j' -> j = j'.
Proof using Type. destruct sd; cbn [ipair]; congruence. Qed.

Lemma joined_snoc_end pre sd i ij :
  joined_by (pre ++ [end_ev (rel_of ds sd) sd i]) ij <-> joined_by pre ij.
Proof using Type.
  unfold joined_by. rewrite !started_snoc.
  rewrite !(bool_decide_eq_false_2 (end_ev _ _ _ = start_ev _ _ _)) by discriminate.
  rewrite !orb_false_r. reflexivity.
Qed.

Lemma joined_snoc_start pre suf sd i ij :
  sweep_events ds = pre ++ start_ev (rel_of ds sd) sd i :: suf ->
  0 <= i < n_of ds sd ->
  joined_by (pre ++ [start_ev (rel_of ds sd) sd i]) ij
  <-> joined_by pre ij \/ exists j, ij = ipair sd i j /\ found pre sd i j.
Proof using Type.
  intros Hsplit Hi.
  pose proof (start_not_started ds pre suf _ Hsplit sd i eq_refl) as Hns.
  destruct ij as [a b]. unfold joined_by, found. cbn [fst snd]. rewrite !started_snoc.
  rewrite (bool_decide_ext _ _ (start_ev_inj ds sd i SideR a)).
  rewrite (bool_decide_ext _ _ (start_ev_inj ds sd i SideS b)).
  destruct sd; cbn [other_side ipair].
  - rewrite (bool_decide_eq_false_2 (SideR = SideS /\ i = b)) by (intros [? _]; discriminate).
    rewrite orb_false_r. split.
    + intros (Hr & Ha & Hb & Hx). apply orb_prop in Ha as [Ha | Ha].
      * left. tauto.
      * apply bool_decide_eq_true_1 in Ha as [_ <-]. right. exists b.
        split; [reflexivity |]. tauto.
    + intros [(Hr & Ha & Hb & Hx) | (j & Heq & Hj & Hb & Hx)].
      * rewrite Ha. cbn [orb]. tauto.
      * injection Heq as -> ->. rewrite (bool_decide_eq_true_2 (SideR = SideR /\ i = i))
          by (split; reflexivity).
        rewrite orb_true_r. unfold n_of in *. cbn [rel_of other_side] in *. tauto.
  - rewrite (bool_decide_eq_false_2 (SideS = SideR /\ i = a)) by (intros [? _]; discriminate).
    rewrite orb_false_r.
    assert (Hsym : isect ds SideR a b = isect ds SideS b a).
    { unfold isect, IntersectsHalfOpen. cbn [other_side rel_of]. apply Intersects_sym. }
    split.
    + intros (Hr & Ha & Hb & Hx). apply orb_prop in Hb as [Hb | Hb].
      * left. tauto.
      * apply bool_decide_eq_true_1 in Hb as [_ <-]. right. exists a.
        split; [reflexivity |]. rewrite <- Hsym. tauto.
    + intros [(Hr & Ha & Hb & Hx) | (j & Heq & Hj & Hb & Hx)].
      * rewrite Hb. cbn [orb]. tauto.
      * injection Heq as -> ->. rewrite (bool_decide_eq_true_2 (SideS = SideS /\ i = i))
          by (split; reflexivity).
        rewrite orb_true_r, Hsym. unfold n_of in *. cbn [rel_of other_side] in *. tauto.
Qed.

Lemma joined_all ij : joined_by (sweep_events ds) ij <-> ij ∈ ijoin (R ds) (S ds).
Proof using Type.
  destruct ij as [a b]. rewrite elem_ijoin. unfold joined_by, isect, n_of.
  cbn [fst snd rel_of other_side]. split; [tauto |].
  intros (Ha & Hb & Hx). split; [tauto |]. split; [| split; [| exact Hx]].
  - unfold started. apply bool_decide_eq_true_2. apply elem_sweep_events.
    exists SideR, a. cbn [rel_of]. tauto.
  - unfold started. apply bool_decide_eq_true_2. apply elem_sweep_events.
    exists SideS, b. cbn [rel_of]. tauto.
Qed.

Lemma joined_mono pre suf ij : joined_by pre ij -> joined_by (pre ++ suf) ij.
Proof using Type.
  unfold joined_by, started. intros (Hr & Ha & Hb & Hx).
  apply bool_decide_eq_true_1 in Ha, Hb.
  split; [exact Hr |]. split; [| split; [| exact Hx]];
    apply bool_decide_eq_true_2, elem_of_app; left; assumption.
Qed.

(** At a START event, a partner has not ended. *)
Lemma found_active pre suf sd i j :
  sweep_events ds = pre ++ start_ev (rel_of ds sd) sd i :: suf ->
  0 <= i < n_of ds sd ->
  found pre sd i j -> active ds pre (other_side sd) j = true.
Proof using Hvalid.
  intros Hsplit Hi (Hj & Hs & Hx). unfold active. rewrite Hs. cbn [andb].
  destruct (ended ds pre (other_side sd) j) eqn:Ee; [| reflexivity].
  pose proof (start_ended_disjoint ds pre suf _ Hsplit sd i (other_side sd) j eq_refl Ee)
    as Hd.
  pose proof (proper_at ds Hvalid sd i Hi) as [Hpx Hpy].
  pose proof (proper_at ds Hvalid (other_side sd) j Hj) as [Hqx Hqy].
  unfold isect, IntersectsHalfOpen in Hx.
  rewrite (Intersects_proper _ _ Hpx Hpy Hqx Hqy) in Hx.
  rewrite !andb_true_iff, !Z.ltb_lt in Hx. lia.
Qed.

(** At a START event, the two rank tests find the active rectangles that
    intersect the query, and no rectangle passes both. *)
Lemma rank_found pre suf sd i j :
  sweep_events ds = pre ++ start_ev (rel_of ds sd) sd i :: suf ->
  0 <= i < n_of ds sd -> 0 <= j < n_of ds (other_side sd) ->
  active ds pre (other_side sd) j = true ->
  (rankA sd i j \/ rankB sd i j <-> isect ds sd i j = true)
  /\ ~ (rankA sd i j /\ rankB sd i j).
Proof using Hvalid Hsize.
  intros Hsplit Hi Hj Ha.
  pose proof (proper_at ds Hvalid sd i Hi) as [Hpx Hpy].
  pose proof (proper_at ds Hvalid (other_side sd) j Hj) as [Hqx Hqy].
  destruct (pattern_overlap ds Hsize sd i (other_side sd) j Hi Hj) as [HA HB].
  destruct (start_active_overlap ds Hvalid pre suf _ Hsplit sd i (other_side sd) j
              eq_refl Hj Ha) as [Hx1 Hx2].
  unfold rankA, rankB, isect, IntersectsHalfOpen.
  rewrite (Intersects_proper _ _ Hpx Hpy Hqx Hqy).
  rewrite !andb_true_iff, !Z.ltb_lt. lia.
Qed.

(** After the last event every rectangle has ended. *)
Lemma active_all sd i :
  0 <= i < n_of ds sd -> active ds (sweep_events ds) sd i = false.
Proof using Type.
  intros Hi. unfold active, ended.
  rewrite (bool_decide_eq_true_2 (end_ev _ _ _ ∈ sweep_events ds)).
  - apply andb_false_r.
  - apply elem_sweep_events. exists sd, i. tauto.
Qed.

Lemma ctx_ok_set ctx pre ar as_ :
  ctx_ok ds ctx -> actives_ok ds pre ar as_ ->
  ctx_ok ds (Ours2DContext.set_active ctx ar as_).
Proof using Type.
  intros [H1 H2 H3 H4 H5 H6 H7 H8 H9 _ _] Hact.
  destruct (Hact SideR) as (a1 & Ha1 & _). destruct (Hact SideS) as (a2 & Ha2 & _).
  constructor; cbn; try assumption.
  - exists a1. exact Ha1.
  - exists a2. exact Ha2.
Qed.

Lemma actives_ok_all ctx :
  ctx_ok ds ctx ->
  actives_ok ds (sweep_events ds)
    (Ours2DContext.active_r_ (Ours2DContext.ResetActive ctx))
    (Ours2DContext.active_s_ (Ours2DContext.ResetActive ctx)).
Proof using Type.
  intros Hctx sd. exists []. split.
  - destruct (co_ar ds _ Hctx) as [a1 Ha1]. destruct (co_as ds _ Hctx) as [a2 Ha2].
    destruct sd; cbn; eapply idx_ResetActive_rep; eassumption.
  - intros i. split; [intros Hi; inversion Hi |].
    intros [Hi Ha]. rewrite (active_all sd i Hi) in Ha. discriminate.
Qed.

(** ** The states of the enumerator *)

Definition side_flag (sd : Side) : bool :=
  match sd with SideR => true | SideS => false end.

(** Between two START events: the pairs returned so far are the pairs
    joined by the events processed. *)
Definition scan_inv (em : list (Z * Z)) (pre : list Event) : Prop :=
  NoDup em /\ forall ij, ij ∈ em <-> joined_by pre ij.

(** While the partners of a START event are returned: [base] are the
    pairs of the events before it, [seen] the partners of a pattern already
    returned in full, and the buffer holds the partners of the current
    pattern, the first [tmp_i_] of them returned. *)
Definition emit_inv (e : RE.t) (em : list (Z * Z)) (pre suf : list Event) : Prop :=
  exists sd i suf' base seen,
    suf = start_ev (rel_of ds sd) sd i :: suf'
    /\ 0 <= i < n_of ds sd
    /\ (RE.q_is_r_ e = side_flag sd /\ RE.q_idx_ e = i /\ RE.q_handle_ e = i
        /\ RE.q_ylo_ e = lo_rank ds sd i /\ RE.q_yhi_ e = hi_rank ds sd i)
    /\ scan_inv base pre
    /\ 0 <= RE.tmp_i_ e <= Z.of_nat (length (RE.tmp_ e))
    /\ em = base ++ map (ipair sd i) (seen ++ take (Z.to_nat (RE.tmp_i_ e)) (RE.tmp_ e))
    /\ NoDup (seen ++ RE.tmp_ e)
    /\ match RE.pat_ e with
       | RE.PatA =>
           seen = []
           /\ forall j, j ∈ RE.tmp_ e
                        <-> 0 <= j < n_of ds (other_side sd)
                            /\ active ds pre (other_side sd) j = true /\ rankA sd i j
       | RE.PatB => forall j, j ∈ seen ++ RE.tmp_ e <-> found pre sd i j
       end.

Definition stats_ok (e : RE.t) (em : list (Z * Z)) : Prop :=
  output_pairs (RE.stats_ e) = Z.of_nat (length em)
  /\ candidate_checks (RE.stats_ e) = Z.of_nat (length em)
  /\ num_events (RE.stats_ e) = Z.of_nat (length (sweep_events ds)).

Record enum_inv (e : RE.t) (em : list (Z * Z)) (pre suf : list Event) : Prop :=
  mk_enum_inv {
  ei_ctx : ctx_ok ds (RE.ctx_ e);
  ei_split : sweep_events ds = pre ++ suf;
  ei_pos : RE.pos_ e = Z.of_nat (length pre);
  ei_act : actives_ok ds pre (Ours2DContext.active_r_ (RE.ctx_ e))
                             (Ours2DContext.active_s_ (RE.ctx_ e));
  ei_stage : match RE.stage_ e with
             | RE.Scan => scan_inv em pre
             | RE.Emit => emit_inv e em pre suf
             end;
  ei_stats : stats_ok e em
}.

(** The rounds left before [Next] returns. *)
Definition rounds_left (e : RE.t) : Z :=
  3 * (Z.of_nat (length (sweep_events ds)) - RE.pos_ e)
  + match RE.stage_ e, RE.pat_ e with
    | RE.Scan, _ => 1
    | RE.Emit, RE.PatA => 0
    | RE.Emit, RE.PatB => -1
    end.

(** The pairs of a START event extend those of the events before it. *)
Lemma emit_list_sound pre suf sd i base l :
  sweep_events ds = pre ++ start_ev (rel_of ds sd) sd i :: suf ->
  0 <= i < n_of ds sd ->
  scan_inv base pre -> NoDup l -> (forall j, j ∈ l -> found pre sd i j) ->
  NoDup (base ++ map (ipair sd i) l)
  /\ forall ij, ij ∈ base ++ map (ipair sd i) l ->
                joined_by (pre ++ [start_ev (rel_of ds sd) sd i]) ij.
Proof using Type.
  intros Hsplit Hi [Hnb Hbase] Hnl Hl.
  pose proof (start_not_started ds pre suf _ Hsplit sd i eq_refl) as Hns.
  split.
  - apply NoDup_app. split; [exact Hnb |]. split.
    + intros ij Hij Hm. apply Hbase in Hij as (_ & Ha & Hb & _).
      apply list_elem_of_fmap in Hm as (j & -> & _).
      destruct sd; cbn [ipair fst snd] in Ha, Hb; congruence.
    + apply NoDup_fmap_2; [| exact Hnl]. intros j j' Heq. apply (ipair_inj sd i). exact Heq.
  - intros ij Hij. apply (joined_snoc_start pre suf sd i ij Hsplit Hi).
    apply elem_of_app in Hij as [Hij | Hij].
    + left. apply Hbase. exact Hij.
    + right. apply list_elem_of_fmap in Hij as (j & -> & Hj). exists j.
      split; [reflexivity | apply Hl; exact Hj].
Qed.

Lemma emit_list_complete pre suf sd i base l ij :
  sweep_events ds = pre ++ start_ev (rel_of ds sd) sd i :: suf ->
  0 <= i < n_of ds sd ->
  scan_inv base pre -> (forall j, found pre sd i j -> j ∈ l) ->
  joined_by (pre ++ [start_ev (rel_of ds sd) sd i]) ij ->
  ij ∈ base ++ map (ipair sd i) l.
Proof using Type.
  intros Hsplit Hi [Hnb Hbase] Hl Hij.
  apply (joined_snoc_start pre suf sd i ij Hsplit Hi) in Hij as [Hij | (j & -> & Hj)].
  - apply elem_of_app. left. apply Hbase. exact Hij.
  - apply elem_of_app. right. apply list_elem_of_fmap. exists j.
    split; [reflexivity | apply Hl; exact Hj].
Qed.

(** What the buffers of a START event hold are partners of the query. *)
Lemma seen_found e pre suf' sd i seen :
  sweep_events ds = pre ++ start_ev (rel_of ds sd) sd i :: suf' ->
  0 <= i < n_of ds sd ->
  match RE.pat_ e with
  | RE.PatA =>
      seen = []
      /\ forall j, j ∈ RE.tmp_ e
                   <-> 0 <= j < n_of ds (other_side sd)
                       /\ active ds pre (other_side sd) j = true /\ rankA sd i j
  | RE.PatB => forall j, j ∈ seen ++ RE.tmp_ e <-> found pre sd i j
  end ->
  forall j, j ∈ seen ++ RE.tmp_ e -> found pre sd i j.
Proof using Hvalid Hsize.
  intros Hsplit Hi Hpat j Hj. destruct (RE.pat_ e).
  - destruct Hpat as [-> Hpat]. cbn [app] in Hj. apply Hpat in Hj as (Hr & Ha & HA).
    destruct (rank_found pre suf' sd i j Hsplit Hi Hr Ha) as [Hiff _].
    split; [exact Hr |]. split; [| apply Hiff; left; exact HA].
    unfold active in Ha. apply andb_prop in Ha as [Ha _]. exact Ha.
  - apply Hpat. exact Hj.
Qed.

(** The pairs returned so far are distinct pairs of the join. *)
Lemma inv_sound e em pre suf :
  sweep_events ds = pre ++ suf ->
  match RE.stage_ e with
  | RE.Scan => scan_inv em pre
  | RE.Emit => emit_inv e em pre suf
  end ->
  NoDup em /\ forall ij, ij ∈ em -> ij ∈ ijoin (R ds) (S ds).
Proof using Hvalid Hsize.
  intros Hsplit Hst. destruct (RE.stage_ e).
  - destruct Hst as [Hnd Hem]. split; [exact Hnd |]. intros ij Hij.
    apply joined_all. rewrite Hsplit. apply joined_mono. apply Hem. exact Hij.
  - destruct Hst as (sd & i & suf' & base & seen & -> & Hi & _ & Hbase & Hti & -> & Hnd & Hpat).
    pose proof (seen_found e pre suf' sd i seen Hsplit Hi Hpat) as Hf.
    destruct (emit_list_sound pre suf' sd i base
                (seen ++ take (Z.to_nat (RE.tmp_i_ e)) (RE.tmp_ e)) Hsplit Hi Hbase)
      as [Hnd' Hj].
    + apply (sublist_NoDup _ _ Hnd). apply sublist_app; [reflexivity | apply sublist_take].
    + intros j Hj. apply Hf. apply (elem_of_sublist _ _ _ Hj).
      apply sublist_app; [reflexivity | apply sublist_take].
    + split; [exact Hnd' |]. intros ij Hij. apply joined_all. rewrite Hsplit.
      change (pre ++ start_ev (rel_of ds sd) sd i :: suf')
        with (pre ++ [start_ev (rel_of ds sd) sd i] ++ suf').
      rewrite app_assoc. apply joined_mono. apply Hj. exact Hij.
Qed.

Lemma em_bound em :
  NoDup em -> (forall ij, ij ∈ em -> ij ∈ ijoin (R ds) (S ds)) ->
  Z.of_nat (length em) <= Z.of_nat (length (ijoin (R ds) (S ds))) <= 2 ^ 60.
Proof using Hsize.
  intros Hnd Hsub. split.
  - apply Nat2Z.inj_le. apply submseteq_length. apply NoDup_submseteq; assumption.
  - pose proof (length_ijoin (R ds) (S ds)) as Hl.
    pose proof (size_rel ds Hsize SideR) as HR. pose proof (size_rel ds Hsize SideS) as HS.
    cbn [rel_of] in HR, HS. change (2 ^ 60) with (2 ^ 30 * 2 ^ 30). nia.
Qed.

(** ** One round of [Next] *)

Definition round_post (e : RE.t) (em : list (Z * Z)) (r : RE.round) : Prop :=
  match r with
  | RE.Again e' =>
      (exists pre' suf', enum_inv e' em pre' suf') /\ rounds_left e' < rounds_left e
  | RE.Yield e' p =>
      exists ij pre' suf',
        p = to_pair (R ds) (S ds) ij /\ enum_inv e' (em ++ [ij]) pre' suf'
  | RE.Finished e' => enum_inv e' em (sweep_events ds) [] /\ RE.stage_ e' = RE.Scan
  end.

Lemma emit_pair_ok e sd i j :
  RE.q_is_r_ e = side_flag sd -> RE.q_idx_ e = i ->
  0 <= i < n_of ds sd -> 0 <= j < n_of ds (other_side sd) ->
  RE.emit_pair ds e j = Some (to_pair (R ds) (S ds) (ipair sd i j)).
Proof using Hvalid.
  intros Hq Hidx Hi Hj. unfold RE.emit_pair. rewrite Hq, Hidx.
  pose proof (Validate_ids_ok true _ (valid_rel ds Hvalid SideR)) as HokR.
  pose proof (Validate_ids_ok true _ (valid_rel ds Hvalid SideS)) as HokS.
  cbn [rel_of] in HokR, HokS. unfold n_of in Hi, Hj.
  destruct sd; cbn [side_flag other_side rel_of ipair] in *;
    rewrite (GetId_ok (R ds)), (GetId_ok (S ds)) by assumption; reflexivity.
Qed.

Lemma pos_bound pre suf :
  sweep_events ds = pre ++ suf ->
  Z.of_nat (length pre) + Z.of_nat (length suf) = Z.of_nat (length (sweep_events ds))
  /\ Z.of_nat (length (sweep_events ds)) <= 2 ^ 31.
Proof using Hsize.
  intros Hsplit. pose proof (sweep_events_length ds) as Hl. split.
  - rewrite Hsplit, length_app. lia.
  - rewrite Hl. change (2 ^ 31) with (2 * 2 ^ 30). lia.
Qed.

Lemma round_scan e em pre suf :
  enum_inv e em pre suf -> RE.stage_ e = RE.Scan ->
  exists r, RE.Next_round e = Some r /\ round_post e em r.
Proof using Hvalid Hsize.
  intros [Hctx Hsplit Hpos Hact Hst Hstats] Hstage.
  destruct (pos_bound pre suf Hsplit) as [Hlen H31].
  destruct e as [ctx pos stage pat qr qi qh qlo qhi tmp ti st nr ns].
  cbn [RE.ctx_ RE.pos_ RE.stage_ RE.pat_ RE.q_is_r_ RE.q_idx_ RE.q_handle_ RE.q_ylo_
       RE.q_yhi_ RE.tmp_ RE.tmp_i_ RE.stats_ RE.active_r_ RE.active_s_] in *.
  subst stage pos. unfold RE.Next_round.
  cbn [RE.ctx_ RE.pos_ RE.stage_ RE.pat_ RE.q_is_r_ RE.q_idx_ RE.q_handle_ RE.q_ylo_
       RE.q_yhi_ RE.tmp_ RE.tmp_i_ RE.stats_ RE.active_r_ RE.active_s_].
  cbv zeta. rewrite (co_events ds _ Hctx).
  destruct suf as [|ev suf'].
  - (* the sweep is over *)
    rewrite app_nil_r in Hsplit. cbn [length] in Hlen.
    destruct (Z.leb_spec (Z.of_nat (length (sweep_events ds))) (Z.of_nat (length pre)));
      [| lia].
    eexists. split; [reflexivity |]. cbn [round_post]. split; [| reflexivity].
    constructor;
      cbn [RE.ctx_ RE.pos_ RE.stage_ RE.pat_ RE.q_is_r_ RE.q_idx_ RE.q_handle_ RE.q_ylo_
           RE.q_yhi_ RE.tmp_ RE.tmp_i_ RE.stats_ RE.active_r_ RE.active_s_].
    + apply ctx_ok_ResetActive'. exact Hctx.
    + rewrite app_nil_r. reflexivity.
    + rewrite Hsplit. reflexivity.
    + apply actives_ok_all. exact Hctx.
    + rewrite Hsplit. exact Hst.
    + exact Hstats.
  - cbn [length] in Hlen.
    destruct (Z.leb_spec (Z.of_nat (length (sweep_events ds))) (Z.of_nat (length pre)));
      [lia |].
    assert (Hev : vget (sweep_events ds) (Z.of_nat (length pre)) = Some ev).
    { apply vget_Some. split; [lia |]. rewrite Nat2Z.id, Hsplit.
      apply list_lookup_middle. reflexivity. }
    rewrite Hev. cbn [mbind option_bind].
    assert (He : ev ∈ sweep_events ds)
      by (rewrite Hsplit, elem_of_app, elem_of_cons; tauto).
    apply elem_sweep_events in He as (sd & i & Hi & [-> | ->]); fold (n_of ds sd) in Hi.
    + (* START *)
      cbn [ev_kind start_ev ev_side ev_index].
      change (mkEvent (v0 (lo (box_at (rel_of ds sd) i))) Start sd (id_of (rel_of ds sd) i) i)
        with (start_ev (rel_of ds sd) sd i).
      rewrite (query_ranks_ok ds ctx sd i Hctx Hi). cbn [mbind option_bind].
      pose proof (rank_range ds Hvalid Hsize sd i Hi) as (Hr1 & Hr2 & Hr3).
      pose proof (size_rel ds Hsize sd) as Hsz. fold (n_of ds sd) in Hsz.
      destruct (Hact (other_side sd)) as (act & Hrep & Hmem).
      destruct (idx_ReportA _ _ _ _ _ _ (lo_rank ds sd i) [] Hrep) as (hs & Hrp & Hperm);
        [lia |].
      assert (Hother : (if match sd with SideR => true | SideS => false end
                        then Ours2DContext.active_s_ ctx else Ours2DContext.active_r_ ctx)
                       = tree_of (Ours2DContext.active_r_ ctx) (Ours2DContext.active_s_ ctx)
                           (other_side sd)) by (destruct sd; reflexivity).
      rewrite Hother, Hrp. cbn [mbind option_bind app].
      eexists. split; [reflexivity |]. cbn [round_post]. split.
      * exists pre, (start_ev (rel_of ds sd) sd i :: suf').
        constructor;
          cbn [RE.ctx_ RE.pos_ RE.stage_ RE.pat_ RE.q_is_r_ RE.q_idx_ RE.q_handle_ RE.q_ylo_
               RE.q_yhi_ RE.tmp_ RE.tmp_i_ RE.stats_ RE.active_r_ RE.active_s_];
          try assumption; try reflexivity.
        exists sd, i, suf', em, [].
        cbn [RE.ctx_ RE.pos_ RE.stage_ RE.pat_ RE.q_is_r_ RE.q_idx_ RE.q_handle_ RE.q_ylo_
             RE.q_yhi_ RE.tmp_ RE.tmp_i_ RE.stats_ RE.active_r_ RE.active_s_].
        rewrite (wrap32_small i) by (change (2 ^ 32) with (4 * 2 ^ 30); lia).
        assert (Hnd : NoDup hs).
        { rewrite Hperm. apply NoDup_filter.
          destruct Hrep as [_ _ _ _ [k Hp]]. apply (pr_nodup _ _ _ _ _ _ Hp). }
        split; [reflexivity |]. split; [exact Hi |].
        split; [repeat split; destruct sd; reflexivity |].
        split; [exact Hst |]. split; [lia |].
        split; [cbn [take app map]; rewrite app_nil_r; reflexivity |].
        split; [exact Hnd |]. split; [reflexivity |].
        intros j. rewrite Hperm, list_elem_of_filter, Hmem. unfold rankA. tauto.
      * unfold rounds_left.
        cbn [RE.ctx_ RE.pos_ RE.stage_ RE.pat_ RE.q_is_r_ RE.q_idx_ RE.q_handle_ RE.q_ylo_
             RE.q_yhi_ RE.tmp_ RE.tmp_i_ RE.stats_ RE.active_r_ RE.active_s_]. lia.
    + (* END *)
      cbn [ev_kind end_ev].
      change (mkEvent (v0 (hi (box_at (rel_of ds sd) i))) End sd (id_of (rel_of ds sd) i) i)
        with (end_ev (rel_of ds sd) sd i).
      destruct (sweep_erase_ok ds Hvalid Hsize pre suf' sd i _ _ Hsplit Hi Hact)
        as (ar' & as' & Her & Hact').
      rewrite Her. cbn [mbind option_bind].
      assert (Hp1 : wrap64 (Z.of_nat (length pre) + 1)
                    = Z.of_nat (length (pre ++ [end_ev (rel_of ds sd) sd i]))).
      { rewrite length_app. cbn [length]. rewrite wrap64_small; [lia |].
        change (2 ^ 64) with (2 ^ 33 * 2 ^ 31). lia. }
      destruct (match ev_side (end_ev (rel_of ds sd) sd i) with
                | SideR => (wrap64 (nr - 1), ns)
                | SideS => (nr, wrap64 (ns - 1))
                end) as [nr' ns'].
      eexists. split; [reflexivity |]. cbn [round_post]. split.
      * exists (pre ++ [end_ev (rel_of ds sd) sd i]), suf'.
        constructor;
          cbn [RE.ctx_ RE.pos_ RE.stage_ RE.pat_ RE.q_is_r_ RE.q_idx_ RE.q_handle_ RE.q_ylo_
               RE.q_yhi_ RE.tmp_ RE.tmp_i_ RE.stats_ RE.active_r_ RE.active_s_].
        -- eapply ctx_ok_set; eassumption.
        -- rewrite <- app_assoc. exact Hsplit.
        -- exact Hp1.
        -- exact Hact'.
        -- destruct Hst as [Hnd Hem]. split; [exact Hnd |].
           intros ij. rewrite joined_snoc_end. apply Hem.
        -- exact Hstats.
      * unfold rounds_left.
        cbn [RE.ctx_ RE.pos_ RE.stage_ RE.pat_ RE.q_is_r_ RE.q_idx_ RE.q_handle_ RE.q_ylo_
             RE.q_yhi_ RE.tmp_ RE.tmp_i_ RE.stats_ RE.active_r_ RE.active_s_].
        rewrite Hp1, length_app. cbn [length]. lia.
Qed.

Lemma round_emit e em pre suf :
  enum_inv e em pre suf -> RE.stage_ e = RE.Emit ->
  exists r, RE.Next_round e = Some r /\ round_post e em r.
Proof using Hvalid Hsize.
  intros [Hctx Hsplit Hpos Hact Hst Hstats] Hstage.
  destruct (pos_bound pre suf Hsplit) as [Hlen H31].
  rewrite Hstage in Hst.
  destruct Hst as (sd & i & suf' & base & seen & -> & Hi & (Hqr & Hqi & Hqh & Hlo & Hhi)
                   & Hbase & Hti & Hem & Hnd & Hpat).
  pose proof (seen_found e pre suf' sd i seen Hsplit Hi Hpat) as Hfound.
  pose proof (rank_range ds Hvalid Hsize sd i Hi) as (Hr1 & Hr2 & Hr3).
  pose proof (size_rel ds Hsize sd) as Hsz. fold (n_of ds sd) in Hsz.
  pose proof (size_rel ds Hsize (other_side sd)) as Hsz'.
  fold (n_of ds (other_side sd)) in Hsz'.
  assert (Htl : Z.of_nat (length (RE.tmp_ e)) <= 2 ^ 30).
  { transitivity (n_of ds (other_side sd)); [| lia].
    apply NoDup_range_length; [lia | |].
    - apply NoDup_app in Hnd as (_ & _ & Hnd). exact Hnd.
    - intros j Hj. apply (Hfound j). apply elem_of_app. right. exact Hj. }
  destruct e as [ctx pos stage pat qr qi qh qlo qhi tmp ti st nr ns].
  cbn [RE.ctx_ RE.pos_ RE.stage_ RE.pat_ RE.q_is_r_ RE.q_idx_ RE.q_handle_ RE.q_ylo_
       RE.q_yhi_ RE.tmp_ RE.tmp_i_ RE.stats_ RE.active_r_ RE.active_s_] in *.
  subst stage pos qr qi qh qlo qhi. unfold stats_ok in Hstats. cbn [RE.stats_] in Hstats.
  unfold RE.Next_round.
  cbn [RE.ctx_ RE.pos_ RE.stage_ RE.pat_ RE.q_is_r_ RE.q_idx_ RE.q_handle_ RE.q_ylo_
       RE.q_yhi_ RE.tmp_ RE.tmp_i_ RE.stats_ RE.active_r_ RE.active_s_].
  cbv zeta. cbn [length] in Hlen.
  destruct (Z.ltb_spec ti (Z.of_nat (length tmp))) as [Hlt | Hge].
  - (* return the next partner of the buffer *)
    destruct (vget_is_Some tmp ti ltac:(lia)) as [oh Hoh]. rewrite Hoh.
    cbn [mbind option_bind]. rewrite (co_ds ds _ Hctx). cbn [mbind option_bind].
    apply vget_Some in Hoh as [_ Hoh].
    assert (Hin : oh ∈ seen ++ tmp).
    { apply elem_of_app. right. eapply list_elem_of_lookup_2. exact Hoh. }
    destruct (Hfound oh Hin) as (Hor & _ & _).
    erewrite (emit_pair_ok _ sd i oh); [| reflexivity | reflexivity | exact Hi | exact Hor].
    cbn [mbind option_bind].
    eexists. split; [reflexivity |]. cbn [round_post].
    exists (ipair sd i oh), pre, (start_ev (rel_of ds sd) sd i :: suf').
    split; [reflexivity |].
    assert (Hti1 : wrap64 (ti + 1) = ti + 1)
      by (apply wrap64_small; change (2 ^ 64) with (2 ^ 34 * 2 ^ 30); lia).
    assert (Hstage' : emit_inv
              (RE.mk ctx (Z.of_nat (length pre)) RE.Emit pat (side_flag sd) i i
                 (lo_rank ds sd i) (hi_rank ds sd i) tmp (wrap64 (ti + 1))
                 (mkJoinStats (num_events st) (wrap64 (candidate_checks st + 1))
                    (wrap64 (output_pairs st + 1)) (active_max_r st) (active_max_s st))
                 nr ns)
              (em ++ [ipair sd i oh]) pre (start_ev (rel_of ds sd) sd i :: suf')).
    { exists sd, i, suf', base, seen.
      cbn [RE.ctx_ RE.pos_ RE.stage_ RE.pat_ RE.q_is_r_ RE.q_idx_ RE.q_handle_ RE.q_ylo_
           RE.q_yhi_ RE.tmp_ RE.tmp_i_ RE.stats_ RE.active_r_ RE.active_s_].
      rewrite Hti1.
      split; [reflexivity |]. split; [exact Hi |]. split; [repeat split |].
      split; [exact Hbase |]. split; [lia |]. split; [| split; [exact Hnd | exact Hpat]].
      rewrite Hem. replace (Z.to_nat (ti + 1)) with (Datatypes.S (Z.to_nat ti)) by lia.
      rewrite (take_S_r _ _ _ Hoh), !app_assoc, !map_app. cbn [map].
      rewrite <- !app_assoc. reflexivity. }
    pose proof (inv_sound
                  (RE.mk ctx (Z.of_nat (length pre)) RE.Emit pat (side_flag sd) i i
                     (lo_rank ds sd i) (hi_rank ds sd i) tmp (wrap64 (ti + 1))
                     (mkJoinStats (num_events st) (wrap64 (candidate_checks st + 1))
                        (wrap64 (output_pairs st + 1)) (active_max_r st) (active_max_s st))
                     nr ns)
                  _ pre _ Hsplit Hstage') as [Hnd' Hsub'].
    pose proof (em_bound _ Hnd' Hsub') as [Hb1 Hb2].
    rewrite length_app in Hb1. cbn [length] in Hb1.
    destruct Hstats as (Ho & Hc & Hn).
    constructor;
      cbn [RE.ctx_ RE.pos_ RE.stage_ RE.pat_ RE.q_is_r_ RE.q_idx_ RE.q_handle_ RE.q_ylo_
           RE.q_yhi_ RE.tmp_ RE.tmp_i_ RE.stats_ RE.active_r_ RE.active_s_];
      try assumption; try reflexivity.
    unfold stats_ok.
    cbn [RE.stats_ output_pairs candidate_checks num_events].
    rewrite Ho, Hc, length_app. cbn [length].
    rewrite wrap64_small by (change (2 ^ 64) with (2 ^ 4 * 2 ^ 60); lia).
    repeat split; try lia; exact Hn.
  - assert (Hti' : ti = Z.of_nat (length tmp)) by lia.
    assert (Htake : take (Z.to_nat ti) tmp = tmp)
      by (apply take_ge; lia).
    rewrite Htake in Hem.
    destruct pat.
    + (* the partners of the second pattern *)
      destruct Hpat as [-> Hpat]. cbn [app] in *.
      destruct (Hact (other_side sd)) as (act & Hrep & Hmem).
      destruct (idx_ReportB _ _ _ _ _ _ (lo_rank ds sd i) (hi_rank ds sd i) [] Hrep)
        as (hs & Hrp & Hperm); [lia |].
      assert (Hother : RE.other_index
                (RE.mk ctx (Z.of_nat (length pre)) RE.Emit RE.PatA (side_flag sd) i i
                   (lo_rank ds sd i) (hi_rank ds sd i) tmp ti st nr ns)
              = tree_of (Ours2DContext.active_r_ ctx) (Ours2DContext.active_s_ ctx)
                  (other_side sd)) by (destruct sd; reflexivity).
      rewrite Hother, Hrp. cbn [mbind option_bind app].
      eexists. split; [reflexivity |]. cbn [round_post]. split.
      * exists pre, (start_ev (rel_of ds sd) sd i :: suf').
        constructor;
          cbn [RE.ctx_ RE.pos_ RE.stage_ RE.pat_ RE.q_is_r_ RE.q_idx_ RE.q_handle_ RE.q_ylo_
               RE.q_yhi_ RE.tmp_ RE.tmp_i_ RE.stats_ RE.active_r_ RE.active_s_];
          try assumption; try reflexivity.
        exists sd, i, suf', base, tmp.
        cbn [RE.ctx_ RE.pos_ RE.stage_ RE.pat_ RE.q_is_r_ RE.q_idx_ RE.q_handle_ RE.q_ylo_
             RE.q_yhi_ RE.tmp_ RE.tmp_i_ RE.stats_ RE.active_r_ RE.active_s_].
        assert (Hndh : NoDup hs).
        { rewrite Hperm. apply NoDup_filter.
          destruct Hrep as [_ _ _ _ [k Hp]]. apply (pr_nodup _ _ _ _ _ _ Hp). }
        assert (Hhs : forall j, j ∈ hs <-> 0 <= j < n_of ds (other_side sd)
                                  /\ active ds pre (other_side sd) j = true /\ rankB sd i j).
        { intros j. rewrite Hperm, list_elem_of_filter, Hmem. unfold rankB. tauto. }
        split; [reflexivity |]. split; [exact Hi |]. split; [repeat split |].
        split; [exact Hbase |]. split; [lia |].
        split; [cbn [take]; rewrite app_nil_r; exact Hem |].
        split.
        -- apply NoDup_app. split; [exact Hnd |]. split; [| exact Hndh].
           intros j Hj Hj'. apply Hpat in Hj as (Hr & Ha & HA).
           apply Hhs in Hj' as (_ & _ & HB).
           destruct (rank_found pre suf' sd i j Hsplit Hi Hr Ha) as [_ Hex]. tauto.
        -- intros j. rewrite elem_of_app, Hpat, Hhs. split.
           ++ intros [(Hr & Ha & HA) | (Hr & Ha & HB)];
                destruct (rank_found pre suf' sd i j Hsplit Hi Hr Ha) as [Hiff _];
                (split; [exact Hr |]; split; [| apply Hiff; tauto]);
                unfold active in Ha; apply andb_prop in Ha as [Ha _]; exact Ha.
           ++ intros Hf. pose proof (found_active pre suf' sd i j Hsplit Hi Hf) as Ha.
              destruct Hf as (Hr & _ & Hx).
              destruct (rank_found pre suf' sd i j Hsplit Hi Hr Ha) as [Hiff _].
              apply Hiff in Hx. tauto.
      * unfold rounds_left.
        cbn [RE.ctx_ RE.pos_ RE.stage_ RE.pat_ RE.q_is_r_ RE.q_idx_ RE.q_handle_ RE.q_ylo_
             RE.q_yhi_ RE.tmp_ RE.tmp_i_ RE.stats_ RE.active_r_ RE.active_s_]. lia.
    + (* the query becomes active *)
      destruct (sweep_insert_ok ds Hvalid Hsize pre suf' sd i _ _ Hsplit Hi Hact)
        as (ar' & as' & Hins & Hact').
      unfold sweep_insert in Hins. cbn [ev_side ev_index start_ev] in Hins.
      rewrite (wrap32_small i) in Hins by (change (2 ^ 32) with (4 * 2 ^ 30); lia).
      assert (Hp1 : wrap64 (Z.of_nat (length pre) + 1)
                    = Z.of_nat (length (pre ++ [start_ev (rel_of ds sd) sd i]))).
      { rewrite length_app. cbn [length]. rewrite wrap64_small; [lia |].
        change (2 ^ 64) with (2 ^ 33 * 2 ^ 31). lia. }
      assert (Hscan : scan_inv em (pre ++ [start_ev (rel_of ds sd) sd i])).
      { destruct (emit_list_sound pre suf' sd i base (seen ++ tmp) Hsplit Hi Hbase Hnd)
          as [Hnd' Hsub]; [intros j Hj; apply Hpat; exact Hj |].
        rewrite <- Hem in Hnd', Hsub. split; [exact Hnd' |].
        intros ij. split; [apply Hsub |]. intros Hj. rewrite Hem.
        apply (emit_list_complete pre suf' sd i base (seen ++ tmp) ij Hsplit Hi Hbase);
          [| exact Hj].
        intros j Hf. apply Hpat. exact Hf. }
      destruct Hstats as (Ho & Hc & Hn).
      destruct sd; cbn [side_flag] in *.
      * destruct (ActiveIndex2D.Insert (Ours2DContext.active_r_ ctx) i
                    (lo_rank ds SideR i) (hi_rank ds SideR i)) as [a|] eqn:Ea;
          [| discriminate].
        cbn [mbind option_bind] in Hins |- *. injection Hins as <- <-.
        eexists. split; [reflexivity |]. cbn [round_post]. split.
        -- exists (pre ++ [start_ev (R ds) SideR i]), suf'.
           constructor;
             cbn [RE.ctx_ RE.pos_ RE.stage_ RE.pat_ RE.q_is_r_ RE.q_idx_ RE.q_handle_
                  RE.q_ylo_ RE.q_yhi_ RE.tmp_ RE.tmp_i_ RE.stats_ RE.active_r_ RE.active_s_].
           ++ eapply ctx_ok_set; eassumption.
           ++ rewrite <- app_assoc. exact Hsplit.
           ++ exact Hp1.
           ++ exact Hact'.
           ++ exact Hscan.
           ++ repeat split; assumption.
        -- unfold rounds_left.
           cbn [RE.ctx_ RE.pos_ RE.stage_ RE.pat_ RE.q_is_r_ RE.q_idx_ RE.q_handle_
                RE.q_ylo_ RE.q_yhi_ RE.tmp_ RE.tmp_i_ RE.stats_ RE.active_r_ RE.active_s_].
           cbn [rel_of] in Hp1. rewrite Hp1, length_app. cbn [length]. lia.
      * destruct (ActiveIndex2D.Insert (Ours2DContext.active_s_ ctx) i
                    (lo_rank ds SideS i) (hi_rank ds SideS i)) as [a|] eqn:Ea;
          [| discriminate].
        cbn [mbind option_bind] in Hins |- *. injection Hins as <- <-.
        eexists. split; [reflexivity |]. cbn [round_post]. split.
        -- exists (pre ++ [start_ev (S ds) SideS i]), suf'.
           constructor;
             cbn [RE.ctx_ RE.pos_ RE.stage_ RE.pat_ RE.q_is_r_ RE.q_idx_ RE.q_handle_
                  RE.q_ylo_ RE.q_yhi_ RE.tmp_ RE.tmp_i_ RE.stats_ RE.active_r_ RE.active_s_].
           ++ eapply ctx_ok_set; eassumption.
           ++ rewrite <- app_assoc. exact Hsplit.
           ++ exact Hp1.
           ++ exact Hact'.
           ++ exact Hscan.
           ++ repeat split; assumption.
        -- unfold rounds_left.
           cbn [RE.ctx_ RE.pos_ RE.stage_ RE.pat_ RE.q_is_r_ RE.q_idx_ RE.q_handle_
                RE.q_ylo_ RE.q_yhi_ RE.tmp_ RE.tmp_i_ RE.stats_ RE.active_r_ RE.active_s_].
           cbn [rel_of] in Hp1. rewrite Hp1, length_app. cbn [length]. lia.
Qed.

(** ** A call of [Next] *)

Lemma Next_round_spec e em pre suf :
  enum_inv e em pre suf -> exists r, RE.Next_round e = Some r /\ round_post e em r.
Proof using Hvalid Hsize.
  intros Hinv. destruct (RE.stage_ e) eqn:Hst.
  - apply (round_scan e em pre suf Hinv Hst).
  - apply (round_emit e em pre suf Hinv Hst).
Qed.

Lemma rounds_left_pos e em pre suf : enum_inv e em pre suf -> 1 <= rounds_left e.
Proof using Hsize.
  intros [Hctx Hsplit Hpos Hact Hst Hstats].
  destruct (pos_bound pre suf Hsplit) as [Hlen _]. unfold rounds_left. rewrite Hpos.
  destruct (RE.stage_ e); [lia |].
  destruct Hst as (sd & i & suf' & base & seen & -> & _). cbn [length] in Hlen.
  destruct (RE.pat_ e); lia.
Qed.

Definition next_post (em : list (Z * Z)) (res : RE.t * option PairId) : Prop :=
  match res.2 with
  | Some p =>
      exists ij pre' suf',
        p = to_pair (R ds) (S ds) ij /\ enum_inv res.1 (em ++ [ij]) pre' suf'
  | None =>
      enum_inv res.1 em (sweep_events ds) [] /\ RE.stage_ res.1 = RE.Scan
      /\ Ours2DContext.ResetActive (RE.ctx_ res.1) = RE.ctx_ res.1
  end.

Lemma Next_loop_spec fuel : forall e em pre suf,
  enum_inv e em pre suf -> rounds_left e <= Z.of_nat fuel ->
  exists res, RE.Next_loop fuel e = Some res /\ next_post em res.
Proof using Hvalid Hsize.
  induction fuel as [|fuel IH]; intros e em pre suf Hinv Hfuel.
  - pose proof (rounds_left_pos e em pre suf Hinv). lia.
  - destruct (Next_round_spec e em pre suf Hinv) as (r & Hr & Hpost).
    cbn [RE.Next_loop]. rewrite Hr. cbn [mbind option_bind].
    destruct r as [e' | e' p | e']; cbn [round_post] in Hpost.
    + destruct Hpost as [(pre' & suf' & Hinv') Hlt].
      apply (IH e' em pre' suf' Hinv'). lia.
    + eexists. split; [reflexivity |]. exact Hpost.
    + eexists. split; [reflexivity |]. cbn [next_post fst snd].
      destruct Hpost as [Hinv' Hst']. split; [exact Hinv' |]. split; [exact Hst' |].
      revert Hr. clear. unfold RE.Next_round. cbv zeta.
      destruct (RE.stage_ e).
      * destruct (_ <=? _).
        -- intros Heq. injection Heq as <-. cbn [RE.ctx_]. apply ctx_ResetActive_idem.
        -- destruct (vget _ _) as [ev|]; [| discriminate]. cbn [mbind option_bind].
           destruct (ev_kind ev).
           ++ destruct (sweep_erase _ _ _) as [[? ?]|]; [| discriminate].
              cbn [mbind option_bind]. destruct (ev_side ev); discriminate.
           ++ destruct (Ours2DContext.query_ranks _ _) as [[? ?]|]; [| discriminate].
              cbn [mbind option_bind].
              destruct (ActiveIndex2D.ReportA _ _ _); discriminate.
      * destruct (_ <? _).
        -- destruct (vget _ _); [| discriminate]. cbn [mbind option_bind].
           destruct (Ours2DContext.ds_ _); [| discriminate]. cbn [mbind option_bind].
           destruct (RE.emit_pair _ _ _); discriminate.
        -- destruct (RE.pat_ e).
           ++ destruct (ActiveIndex2D.ReportB _ _ _ _); discriminate.
           ++ destruct (RE.q_is_r_ e); destruct (ActiveIndex2D.Insert _ _ _ _);
                discriminate.
Qed.

Lemma Next_spec e em pre suf :
  enum_inv e em pre suf -> exists res, RE.Next e = Some res /\ next_post em res.
Proof using Hvalid Hsize.
  intros Hinv. unfold RE.Next. apply (Next_loop_spec _ e em pre suf Hinv).
  rewrite (co_events ds _ (ei_ctx _ _ _ _ Hinv)). unfold rounds_left.
  rewrite (ei_pos _ _ _ _ Hinv).
  destruct (RE.stage_ e), (RE.pat_ e); lia.
Qed.

Lemma Create_inv ctx : ctx_ok ds ctx -> enum_inv (RE.Create ctx) [] [] (sweep_events ds).
Proof using Hsize.
  intros Hctx. destruct (pos_bound [] (sweep_events ds) eq_refl) as [_ H31].
  unfold RE.Create, RE.Reset.
  constructor;
    cbn [RE.ctx_ RE.pos_ RE.stage_ RE.pat_ RE.q_is_r_ RE.q_idx_ RE.q_handle_ RE.q_ylo_
         RE.q_yhi_ RE.tmp_ RE.tmp_i_ RE.stats_ RE.active_r_ RE.active_s_].
  - apply ctx_ok_ResetActive'. exact Hctx.
  - reflexivity.
  - reflexivity.
  - apply (actives_ok_nil ds ctx Hctx).
  - split; [constructor |]. intros ij. split; [intros Hin; inversion Hin |].
    intros (_ & Ha & _). unfold started in Ha.
    rewrite bool_decide_eq_false_2 in Ha by (intros Hin; inversion Hin). discriminate.
  - unfold stats_ok. cbn [RE.stats_ output_pairs candidate_checks num_events length].
    repeat split.
    change (Ours2DContext.events_ (Ours2DContext.ResetActive ctx))
      with (Ours2DContext.events_ ctx).
    rewrite (co_events ds _ Hctx). apply wrap64_small.
    change (2 ^ 64) with (2 ^ 33 * 2 ^ 31). lia.
Qed.

(** ** All the calls of [Next] *)

(** What the exhausted enumerator has returned. *)
Definition exhausted (e : RE.t) (em : list (Z * Z)) : Prop :=
  enum_inv e em (sweep_events ds) [] /\ RE.stage_ e = RE.Scan
  /\ Ours2DContext.ResetActive (RE.ctx_ e) = RE.ctx_ e.

Lemma run_exists (k : nat) : forall e em pre suf,
  enum_inv e em pre suf ->
  (length (ijoin (R ds) (S ds)) - length em <= k)%nat ->
  exists em' e',
    next_run e (map (to_pair (R ds) (S ds)) em') e' /\ exhausted e' (em ++ em').
Proof using Hvalid Hsize.
  induction k as [|k IH]; intros e em pre suf Hinv Hk;
    destruct (Next_spec e em pre suf Hinv) as ([e1 [p|]] & Hnext & Hpost);
    cbn [next_post fst snd] in Hpost.
  - destruct Hpost as (ij & pre' & suf' & -> & Hinv').
    destruct (inv_sound e1 _ pre' suf' (ei_split _ _ _ _ Hinv') (ei_stage _ _ _ _ Hinv'))
      as [Hnd Hsub].
    pose proof (em_bound _ Hnd Hsub) as [Hb _]. rewrite length_app in Hb.
    cbn [length] in Hb. lia.
  - exists [], e1. rewrite app_nil_r. split; [apply run_stop; exact Hnext | exact Hpost].
  - destruct Hpost as (ij & pre' & suf' & -> & Hinv').
    destruct (inv_sound e1 _ pre' suf' (ei_split _ _ _ _ Hinv') (ei_stage _ _ _ _ Hinv'))
      as [Hnd Hsub].
    pose proof (em_bound _ Hnd Hsub) as [Hb _]. rewrite length_app in Hb.
    cbn [length] in Hb.
    destruct (IH e1 (em ++ [ij]) pre' suf' Hinv') as (em' & e' & Hrun & Hex).
    { rewrite length_app. cbn [length]. lia. }
    exists (ij :: em'), e'. split.
    + cbn [map]. eapply run_pair; eassumption.
    + rewrite <- app_assoc in Hex. exact Hex.
  - exists [], e1. rewrite app_nil_r. split; [apply run_stop; exact Hnext | exact Hpost].
Qed.

Lemma exhausted_all e em :
  exhausted e em ->
  em ≡ₚ ijoin (R ds) (S ds)
  /\ output_pairs (RE.stats_ e) = Z.of_nat (length em)
  /\ candidate_checks (RE.stats_ e) = Z.of_nat (length em)
  /\ num_events (RE.stats_ e) = 2 * (RelationOps.Size (R ds) + RelationOps.Size (S ds))
  /\ RE.Next e = Some (e, None).
Proof using Hvalid Hsize.
  intros (Hinv & Hst & Hidem).
  pose proof (ei_stage _ _ _ _ Hinv) as Hscan. rewrite Hst in Hscan.
  destruct Hscan as [Hnd Hem].
  destruct (ei_stats _ _ _ _ Hinv) as (Ho & Hc & Hn).
  split; [| split; [exact Ho | split; [exact Hc | split]]].
  - apply NoDup_Permutation; [exact Hnd | apply NoDup_ijoin |].
    intros ij. rewrite Hem. apply joined_all.
  - rewrite Hn. apply sweep_events_length.
  - destruct (Next_spec e em _ _ Hinv) as ([e1 [p|]] & Hnext & Hpost);
      cbn [next_post fst snd] in Hpost.
    + destruct Hpost as (ij & pre' & suf' & -> & Hinv').
      destruct (inv_sound e1 _ pre' suf' (ei_split _ _ _ _ Hinv') (ei_stage _ _ _ _ Hinv'))
        as [Hnd' Hsub].
      apply NoDup_app in Hnd' as (_ & Hd & _).
      exfalso. apply (Hd ij); [| left]. apply Hem. apply joined_all. apply Hsub.
      apply elem_of_app. right. left.
    + rewrite Hnext. f_equal. f_equal. revert Hnext. unfold RE.Next.
      pose proof (co_events ds _ (ei_ctx _ _ _ _ Hinv)) as Hev.
      pose proof (ei_pos _ _ _ _ Hinv) as Hpos.
      cbn [RE.Next_loop Nat.add]. unfold RE.Next_round. rewrite Hst, Hev, Hpos.
      cbv zeta.
      destruct (Z.leb_spec (Z.of_nat (length (sweep_events ds)))
                  (Z.of_nat (length (sweep_events ds)))); [| lia].
      cbn [mbind option_bind]. intros Heq. injection Heq as <-.
      rewrite Hidem. destruct e.
      cbn [RE.ctx_ RE.pos_ RE.stage_ RE.pat_ RE.q_is_r_ RE.q_idx_ RE.q_handle_ RE.q_ylo_
           RE.q_yhi_ RE.tmp_ RE.tmp_i_ RE.stats_ RE.active_r_ RE.active_s_] in *.
      subst. reflexivity.
Qed.

(** ** Framework I *)

Section FrameworkI.
Context `{FloatOps}.

Definition join_cached (b : FI.t) : Prop :=
  FI.pairs_cached_ b = true -> FI.pairs_ b ≡ₚ all_pairs (R ds) (S ds).

Record fi_ok (b : FI.t) : Prop := mk_fi_ok {
  fo_built : FI.built_ b = true;
  fo_ctx : ctx_ok ds (FI.ctx_ b);
  fo_pairs : join_cached b
}.

Lemma join_size :
  Z.of_nat (length (all_pairs (R ds) (S ds))) = CountNaive (R ds) (S ds)
  /\ 0 <= CountNaive (R ds) (S ds) <= 2 ^ 60.
Proof using Hsize.
  pose proof (size_rel ds Hsize SideR) as HR. pose proof (size_rel ds Hsize SideS) as HS.
  cbn [rel_of] in HR, HS.
  assert (Hb : RelationOps.Size (R ds) * RelationOps.Size (S ds) <= 2 ^ 60)
    by (change (2 ^ 60) with (2 ^ 30 * 2 ^ 30); nia).
  rewrite <- length_all_pairs by (change (2 ^ 64) with (2 ^ 4 * 2 ^ 60); lia).
  split; [reflexivity |]. rewrite all_pairs_ijoin, length_map.
  pose proof (length_ijoin (R ds) (S ds)). lia.
Qed.

Lemma FI_Count_cached b cap :
  fi_ok b -> FI.pairs_cached_ b = true ->
  FI.Count b cap = Done (MakeExactCount (CountNaive (R ds) (S ds)), b).
Proof using Hsize.
  intros [Hb Hctx Hp] Hc. unfold FI.Count.
  rewrite (co_ds ds _ Hctx), Hb, (co_built ds _ Hctx), Hc. cbn [negb orb].
  destruct join_size as [Hl Hr]. rewrite (Permutation_length (Hp Hc)), Hl.
  rewrite wrap64_small by (change (2 ^ 64) with (2 ^ 4 * 2 ^ 60); lia). reflexivity.
Qed.

Lemma FI_Count_fresh b cap :
  fi_ok b -> FI.pairs_cached_ b = false ->
  if (0 <? cap) && (cap <? CountNaive (R ds) (S ds))
  then FI.Count b cap
       = Fail "OursEnumSamplingBaseline: join size exceeds enum_cap; refusing to materialize"
  else exists b',
         FI.Count b cap = Done (MakeExactCount (CountNaive (R ds) (S ds)), b')
         /\ fi_ok b' /\ FI.pairs_cached_ b' = true.
Proof using Hvalid Hsize.
  intros [Hb Hctx Hp] Hc.
  destruct join_size as [Hl Hr].
  destruct (run_exists (length (ijoin (R ds) (S ds))) _ [] _ _ (Create_inv _ Hctx))
    as (em & e' & Hrun & Hex); [cbn [length]; lia |].
  cbn [app] in Hex. destruct (exhausted_all e' em Hex) as (Hperm & _).
  assert (Hall : map (to_pair (R ds) (S ds)) em ≡ₚ all_pairs (R ds) (S ds)).
  { rewrite all_pairs_ijoin. apply fmap_Permutation. exact Hperm. }
  assert (Hlen : Z.of_nat (length (map (to_pair (R ds) (S ds)) em))
                 = CountNaive (R ds) (S ds)).
  { rewrite (Permutation_length Hall). exact Hl. }
  assert (Hfuel : (length (map (to_pair (R ds) (S ds)) em)
                   < Datatypes.S (length (boxes (R ds)) * length (boxes (S ds))))%nat).
  { rewrite length_map, (Permutation_length Hperm).
    pose proof (length_ijoin (R ds) (S ds)) as Hij. unfold RelationOps.Size in Hij. lia. }
  unfold FI.Count.
  rewrite (co_ds ds _ Hctx), Hb, (co_built ds _ Hctx), Hc. cbn [negb orb].
  destruct ((0 <? cap) && (cap <? CountNaive (R ds) (S ds))) eqn:Hcap.
  - apply andb_prop in Hcap as [H0 H1]. apply Z.ltb_lt in H0, H1.
    destruct (materialize_capped cap _ _ _ Hrun _ [] Hfuel H0) as [e1 Hm].
    + cbn [app]. lia.
    + cbn [length]. lia.
    + rewrite Hm. reflexivity.
  - rewrite (materialize_ok cap _ _ _ Hrun _ [] Hfuel)
      by (cbn [app]; rewrite Hlen; exact Hcap).
    cbn [lift_opt mbind outcome_mbind outcome_bind app]. rewrite Hlen.
    rewrite wrap64_small by (change (2 ^ 64) with (2 ^ 4 * 2 ^ 60); lia).
    eexists. split; [reflexivity |]. split; [| reflexivity].
    destruct Hex as (Hinv & _).
    constructor; cbn [FI.built_ FI.ctx_ FI.pairs_ FI.pairs_cached_].
    + reflexivity.
    + exact (ei_ctx _ _ _ _ Hinv).
    + intros _. exact Hall.
Qed.

Definition sample_done (cfg : Config) (ss : SampleSet) (b' : FI.t) : Prop :=
  fi_ok b'
  /\ (forall p, p ∈ pairs ss -> p ∈ all_pairs (R ds) (S ds))
  /\ Z.of_nat (length (pairs ss))
      = (if CountNaive (R ds) (S ds) =? 0 then 0 else run_t cfg)
  /\ weighted ss = false /\ with_replacement ss = true /\ weights_size ss = 0.

Lemma FI_Sample_spec b cfg cap g :
  fi_ok b -> 0 <= run_t cfg ->
  if u32_max <? run_t cfg
  then FI.Sample b cfg cap g
       = Fail "OursEnumSamplingBaseline::Sample: run.t too large (must fit in u32)"
  else if run_t cfg =? 0
  then FI.Sample b cfg cap g = Done (mkSampleSet [] 0 false true, b, g)
  else if negb (FI.pairs_cached_ b) && ((0 <? cap) && (cap <? CountNaive (R ds) (S ds)))
  then FI.Sample b cfg cap g
       = Fail "OursEnumSamplingBaseline: join size exceeds enum_cap; refusing to materialize"
  else match FI.Sample b cfg cap g with
       | Done (ss, b', g') => sample_done cfg ss b' /\ FI.pairs_cached_ b' = true
       | Fail _ => False
       | Undef => draw_stuck g (64 * run_t cfg) (fun b => b = CountNaive (R ds) (S ds))
       end.
Proof using Hvalid Hsize.
  intros Hok Ht. pose proof Hok as [Hb Hctx Hp].
  destruct join_size as [Hl Hr].
  unfold FI.Sample.
  rewrite (co_ds ds _ Hctx), Hb, (co_built ds _ Hctx). cbn [negb orb].
  destruct (Z.ltb_spec u32_max (run_t cfg)) as [Hbig | Hsmall]; [reflexivity |].
  unfold u32_max in Hsmall.
  rewrite (wrap32_small (run_t cfg)) by (change (2 ^ 32) with 4294967296; lia).
  destruct (Z.eqb_spec (run_t cfg) 0) as [Hz | Hnz]; [reflexivity |].
  assert (Hafter : forall b1, fi_ok b1 -> FI.pairs_cached_ b1 = true ->
            match (let W := wrap64 (Z.of_nat (length (FI.pairs_ b1))) in
                   if W =? 0 then Done (mkSampleSet [] 0 false true, b1, g)
                   else '(pairs, g0) ← lift_opt (FI.resample (FI.pairs_ b1) W (run_t cfg) g);
                        Done (mkSampleSet pairs 0 false true, b1, g0)) with
            | Done (ss, b', g') => sample_done cfg ss b' /\ FI.pairs_cached_ b' = true
            | Fail _ => False
            | Undef => draw_stuck g (64 * run_t cfg) (fun b => b = CountNaive (R ds) (S ds))
            end).
  { intros b1 Hok1 Hc1. pose proof (fo_pairs _ Hok1 Hc1) as Hperm.
    cbv zeta. rewrite (Permutation_length Hperm), Hl.
    rewrite wrap64_small by (change (2 ^ 64) with (2 ^ 4 * 2 ^ 60); lia).
    destruct (Z.eqb_spec (CountNaive (R ds) (S ds)) 0) as [HJ | HJ].
    - split; [| exact Hc1]. unfold sample_done. cbn [pairs weighted with_replacement
                                                      weights_size length].
      rewrite HJ. split; [exact Hok1 |]. split; [intros p Hin; inversion Hin |].
      repeat split.
    - unfold FI.resample.
      pose proof (resample_fold (FI.pairs_ b1) (CountNaive (R ds) (S ds))
                    ltac:(rewrite (Permutation_length Hperm); lia) ltac:(lia)
                    (upto (run_t cfg)) [] g) as Hfold.
      destruct (ofold _ (upto (run_t cfg)) ([], g)) as [[out g']|];
        cbn [lift_opt mbind outcome_mbind outcome_bind].
      2:{ destruct Hfold as (n & bound & H1 & H2 & H3 & H4). exists n, bound.
          unfold upto in H1. rewrite length_seqZ in H1.
          split; [lia |]. split; [exact H2 | split; assumption]. }
      destruct Hfold as [[Hlen Hsub] _]. split; [| exact Hc1].
      unfold sample_done. cbn [pairs weighted with_replacement weights_size].
      split; [exact Hok1 |]. split; [| split; [| repeat split]].
      + intros p Hq. destruct (Hsub p Hq) as [Hin | Hin]; [inversion Hin |].
        rewrite <- Hperm. exact Hin.
      + rewrite Hlen. unfold upto. rewrite length_seqZ. cbn [length].
        destruct (Z.eqb_spec (CountNaive (R ds) (S ds)) 0); lia. }
  destruct (FI.pairs_cached_ b) eqn:Hc; cbn [negb andb].
  - cbn [mbind outcome_mbind outcome_bind]. apply (Hafter b Hok Hc).
  - pose proof (FI_Count_fresh b cap Hok Hc) as Hcount.
    destruct ((0 <? cap) && (cap <? CountNaive (R ds) (S ds))).
    + rewrite Hcount. reflexivity.
    + destruct Hcount as (b' & -> & Hok' & Hc').
      cbn [mbind outcome_mbind outcome_bind]. apply (Hafter b' Hok' Hc').
Qed.

Lemma FI_Build_cases b0 cfg0 :
  (RelationOps.Size (R ds) + RelationOps.Size (S ds) = 0
   /\ FI.Build b0 ds cfg0 = Fail "Ours2DContext: empty y-domain")
  \/ (1 <= RelationOps.Size (R ds) + RelationOps.Size (S ds)
      /\ exists b, FI.Build b0 ds cfg0 = Done b /\ fi_ok b /\ FI.pairs_cached_ b = false).
Proof using Hvalid Hsize.
  unfold FI.Build. cbv zeta.
  destruct (Build_cases ds Hvalid Hsize (FI.ctx_ (FI.Reset b0)))
    as [[Hz Hf] | [Hn (ctx & Hb & Hctx)]]; rewrite ?Hf, ?Hb;
    cbn [mbind outcome_mbind outcome_bind]; [left | right]; (split; [assumption |]);
    [reflexivity |].
  eexists. split; [reflexivity |]. split; [| reflexivity].
  constructor; cbn [FI.built_ FI.ctx_ FI.pairs_ FI.pairs_cached_ FI.Reset];
    [reflexivity | exact Hctx | intros Hd; discriminate].
Qed.

End FrameworkI.
End Enumerator.

Lemma CollectNaivePairs_all ds :
  DatasetOps.Validate true ds = true ->
  CollectNaivePairs (R ds) (S ds) 0 = Some (all_pairs (R ds) (S ds)).
Proof.
  intros Hv. apply andb_prop in Hv as [[_ HvR]%andb_prop HvS].
  rewrite (CollectNaivePairs_eq (R ds) (S ds) 0
             (Validate_ids_ok _ _ HvR) (Validate_ids_ok _ _ HvS)).
  reflexivity.
Qed.

(** X17: the report-based enumerator returns the join.  On a validated
    dataset of at most 2^30 rectangles and a context built for it, the
    calls of [Next] on a new enumerator all return: they return pairs, then
    [false].  The pairs returned are, up to their order, the pairs the
    brute-force oracle [CollectNaivePairs] enumerates, each as often as the
    oracle has it.  When [Next] has returned [false], [Stats()] has the size
    of the join in [output_pairs] and in [candidate_checks] and two events
    for each rectangle in [num_events], and a further call of [Next] returns
    [false] again and changes nothing. *)
Theorem report_enumerator_returns_join (ds : Dataset) (c ctx : Ours2DContext.t) :
  DatasetOps.Validate true ds = true ->
  RelationOps.Size (R ds) + RelationOps.Size (S ds) <= 2 ^ 30 ->
  Ours2DContext.Build c ds = Done ctx ->
  exists ps e' J,
    next_run (RE.Create ctx) ps e'
    /\ CollectNaivePairs (R ds) (S ds) 0 = Some J
    /\ ps ≡ₚ J
    /\ output_pairs (RE.stats_ e') = CountNaive (R ds) (S ds)
    /\ candidate_checks (RE.stats_ e') = CountNaive (R ds) (S ds)
    /\ num_events (RE.stats_ e')
       = 2 * (RelationOps.Size (R ds) + RelationOps.Size (S ds))
    /\ RE.Next e' = Some (e', None).
Proof.
  intros Hv Hs Hb.
  destruct (Build_cases ds Hv Hs c) as [[_ Hf] | [_ (ctx' & Hb' & Hctx)]].
  { rewrite Hf in Hb. discriminate. }
  rewrite Hb' in Hb. injection Hb as <-.
  destruct (run_exists ds Hv Hs (length (ijoin (R ds) (S ds))) _ [] _ _
              (Create_inv ds Hs _ Hctx))
    as (em & e' & Hrun & Hex); [cbn [length]; lia |].
  cbn [app] in Hex.
  destruct (exhausted_all ds Hv Hs e' em Hex) as (Hperm & Ho & Hc & Hn & Hnext).
  destruct (join_size ds Hs) as [Hl _].
  assert (Hall : map (to_pair (R ds) (S ds)) em ≡ₚ all_pairs (R ds) (S ds)).
  { rewrite all_pairs_ijoin. apply fmap_Permutation. exact Hperm. }
  assert (Hlen : Z.of_nat (length em) = CountNaive (R ds) (S ds)).
  { rewrite <- Hl, <- (Permutation_length Hall), length_map. reflexivity. }
  exists (map (to_pair (R ds) (S ds)) em), e', (all_pairs (R ds) (S ds)).
  split; [exact Hrun |]. split; [apply CollectNaivePairs_all; exact Hv |].
  split; [exact Hall |]. rewrite Ho, Hc, Hlen. repeat split; assumption.
Qed.

Lemma report_enumerator_returns_join_witness :
  exists ctx ps e',
    Ours2DContext.Build ctx_clear ds_small = Done ctx
    /\ next_run (RE.Create ctx) ps e'
    /\ ps ≡ₚ [mkPairId 0 0; mkPairId 1 0; mkPairId 1 1; mkPairId 2 1]
    /\ output_pairs (RE.stats_ e') = 4
    /\ num_events (RE.stats_ e') = 12.
Proof.
  assert (Hb : exists ctx, Ours2DContext.Build ctx_clear ds_small = Done ctx)
    by (eexists; vm_compute; reflexivity).
  destruct Hb as [ctx Hb].
  destruct (report_enumerator_returns_join ds_small ctx_clear ctx)
    as (ps & e' & J & Hrun & HJ & Hperm & Ho & _ & Hn & _).
  - reflexivity.
  - vm_compute. discriminate.
  - exact Hb.
  - exists ctx, ps, e'. split; [exact Hb |]. split; [exact Hrun |].
    assert (EJ : J = [mkPairId 0 0; mkPairId 1 0; mkPairId 1 1; mkPairId 2 1]).
    { vm_compute in HJ. injection HJ as <-. reflexivity. }
    rewrite <- EJ. split; [exact Hperm |]. split; [exact Ho | exact Hn].
Defined.

(** X18: [Count] of Framework I materialises the join, within the cap.  On
    a validated dataset of at most 2^30 rectangles, after [Build]: when
    [enum_cap] is positive and smaller than the size of the join, [Count]
    fails with its message and returns no count; otherwise it returns the
    exact count of the brute-force oracle [CountNaive] and caches, up to
    their order, the pairs the oracle [CollectNaivePairs] enumerates.  Once
    the pairs are cached, [Count] returns the same count for every
    [enum_cap], also one the join exceeds, and keeps the cache. *)
Theorem enum_count_caches_join `{FloatOps} (ds : Dataset) (b0 b : FI.t)
    (cfg0 : Config) (enum_cap : Z) :
  DatasetOps.Validate true ds = true ->
  RelationOps.Size (R ds) + RelationOps.Size (S ds) <= 2 ^ 30 ->
  FI.Build b0 ds cfg0 = Done b ->
  if (0 <? enum_cap) && (enum_cap <? CountNaive (R ds) (S ds))
  then FI.Count b enum_cap
       = Fail "OursEnumSamplingBaseline: join size exceeds enum_cap; refusing to materialize"
  else exists b' J,
         FI.Count b enum_cap = Done (MakeExactCount (CountNaive (R ds) (S ds)), b')
         /\ FI.pairs_cached_ b' = true
         /\ CollectNaivePairs (R ds) (S ds) 0 = Some J
         /\ FI.pairs_ b' ≡ₚ J
         /\ forall cap',
              FI.Count b' cap' = Done (MakeExactCount (CountNaive (R ds) (S ds)), b').
Proof.
  intros Hv Hs Hb.
  destruct (FI_Build_cases ds Hv Hs b0 cfg0) as [[_ Hf] | [_ (b1 & Hb1 & Hok & Hc)]].
  { rewrite Hf in Hb. discriminate. }
  rewrite Hb1 in Hb. injection Hb as <-.
  pose proof (FI_Count_fresh ds Hv Hs b1 enum_cap Hok Hc) as Hcount.
  destruct ((0 <? enum_cap) && (enum_cap <? CountNaive (R ds) (S ds))); [exact Hcount |].
  destruct Hcount as (b' & Hcount & Hok' & Hc').
  exists b', (all_pairs (R ds) (S ds)).
  split; [exact Hcount |]. split; [exact Hc' |].
  split; [apply CollectNaivePairs_all; exact Hv |].
  split; [apply (fo_pairs ds _ Hok' Hc') |].
  intros cap'. apply (FI_Count_cached ds Hs b' cap' Hok' Hc').
Qed.

Definition fi_fresh : FI.t := FI.mk false false [] ctx_clear.

Definition fi_built : FI.t := done_or fi_fresh (FI.Build fi_fresh ds_small cfg_t8).

Lemma enum_count_caches_join_witness :
  FI.Count (H:=QFloat) fi_built 3
  = Fail "OursEnumSamplingBaseline: join size exceeds enum_cap; refusing to materialize"
  /\ exists b',
       FI.Count (H:=QFloat) fi_built 4 = Done (MakeExactCount 4, b')
       /\ FI.pairs_ b' ≡ₚ [mkPairId 0 0; mkPairId 1 0; mkPairId 1 1; mkPairId 2 1]
       /\ FI.Count (H:=QFloat) b' 3 = Done (MakeExactCount 4, b').
Proof.
  assert (Hv : DatasetOps.Validate true ds_small = true) by reflexivity.
  assert (Hs : RelationOps.Size (R ds_small) + RelationOps.Size (S ds_small) <= 2 ^ 30)
    by (vm_compute; discriminate).
  assert (Hb : FI.Build fi_fresh ds_small cfg_t8 = Done fi_built)
    by (vm_compute; reflexivity).
  assert (Hn : CountNaive (R ds_small) (S ds_small) = 4) by (vm_compute; reflexivity).
  split.
  - pose proof (enum_count_caches_join (H:=QFloat) ds_small fi_fresh fi_built cfg_t8 3
                  Hv Hs Hb) as H3.
    rewrite Hn in H3. exact H3.
  - pose proof (enum_count_caches_join (H:=QFloat) ds_small fi_fresh fi_built cfg_t8 4
                  Hv Hs Hb) as H4.
    rewrite Hn in H4. cbn [Z.ltb Z.compare Pos.compare Pos.compare_cont andb] in H4.
    destruct H4 as (b' & J & Hc & _ & HJ & Hperm & Hagain).
    exists b'. split; [exact Hc |]. split; [| apply Hagain].
    assert (EJ : J = [mkPairId 0 0; mkPairId 1 0; mkPairId 1 1; mkPairId 2 1]).
    { vm_compute in HJ. injection HJ as <-. reflexivity. }
    rewrite <- EJ. exact Hperm.
Defined.

(** X19: [Sample] of Framework I draws from the materialised join.  On a
    validated dataset of at most 2^30 rectangles, after [Build] and whether
    or not [Count] has been called, for a request of [t] pairs: a [t] above
    the largest [u32] is refused with its message; for [t = 0] the empty set
    is returned and neither the cache nor the generator is touched; when the
    pairs are not cached yet and [enum_cap] is positive and smaller than the
    size of the join, the call fails with the message of [Count]; in every
    other case the call does not fail, and when it returns, the join is
    cached, every pair of the sample set is one of the pairs the brute-force
    oracle [CollectNaivePairs] enumerates, the set holds exactly [t] pairs
    when the join is not empty and none when it is empty, it is marked as
    drawn with replacement and passes [SampleSet::Validate].  The call,
    entered with the generator [g], does not return only when, within the
    first [64 t] words drawn from [g], a call of [UniformU64] with the bound
    [|J|] rejects 64 words in a row. *)
Theorem enum_sample_draws_from_join `{FloatOps} (ds : Dataset) (b0 b1 b : FI.t)
    (cfg0 cfg : Config) (enum_cap : Z) (g : Rng) :
  DatasetOps.Validate true ds = true ->
  RelationOps.Size (R ds) + RelationOps.Size (S ds) <= 2 ^ 30 ->
  FI.Build b0 ds cfg0 = Done b1 ->
  (b = b1 \/ exists cap1 c, FI.Count b1 cap1 = Done (c, b)) ->
  0 <= run_t cfg ->
  if u32_max <? run_t cfg
  then FI.Sample b cfg enum_cap g
       = Fail "OursEnumSamplingBaseline::Sample: run.t too large (must fit in u32)"
  else if run_t cfg =? 0
  then FI.Sample b cfg enum_cap g = Done (mkSampleSet [] 0 false true, b, g)
  else if negb (FI.pairs_cached_ b)
          && ((0 <? enum_cap) && (enum_cap <? CountNaive (R ds) (S ds)))
  then FI.Sample b cfg enum_cap g
       = Fail "OursEnumSamplingBaseline: join size exceeds enum_cap; refusing to materialize"
  else match FI.Sample b cfg enum_cap g with
       | Done (ss, b', g') =>
           exists J,
             CollectNaivePairs (R ds) (S ds) 0 = Some J
             /\ (forall p, p ∈ pairs ss -> p ∈ J)
             /\ Z.of_nat (length (pairs ss))
                = (if CountNaive (R ds) (S ds) =? 0 then 0 else run_t cfg)
             /\ with_replacement ss = true
             /\ SampleSetOps.Validate ss = Done tt
             /\ FI.pairs_cached_ b' = true
             /\ FI.pairs_ b' ≡ₚ J
       | Fail _ => False
       | Undef => draw_stuck g (64 * run_t cfg) (fun b => b = CountNaive (R ds) (S ds))
       end.
Proof.
  intros Hv Hs Hb Hfrom Ht.
  destruct (FI_Build_cases ds Hv Hs b0 cfg0) as [[_ Hf] | [_ (b2 & Hb2 & Hok & Hc)]].
  { rewrite Hf in Hb. discriminate. }
  rewrite Hb2 in Hb. injection Hb as <-.
  assert (Hokb : fi_ok ds b).
  { destruct Hfrom as [-> | (cap1 & c & Hcount)]; [exact Hok |].
    pose proof (FI_Count_fresh ds Hv Hs b2 cap1 Hok Hc) as Hfresh.
    destruct ((0 <? cap1) && (cap1 <? CountNaive (R ds) (S ds))).
    - rewrite Hfresh in Hcount. discriminate.
    - destruct Hfresh as (b' & Hc' & Hok' & _). rewrite Hc' in Hcount.
      injection Hcount as _ <-. exact Hok'. }
  pose proof (FI_Sample_spec ds Hv Hs b cfg enum_cap g Hokb Ht) as Hspec.
  destruct (u32_max <? run_t cfg); [exact Hspec |].
  destruct (run_t cfg =? 0); [exact Hspec |].
  destruct (negb (FI.pairs_cached_ b)
            && ((0 <? enum_cap) && (enum_cap <? CountNaive (R ds) (S ds))));
    [exact Hspec |].
  destruct (FI.Sample b cfg enum_cap g) as [[[ss b'] g']| |]; [| exact Hspec | exact Hspec].
  destruct Hspec as [(Hok' & Hin & Hlen & Hw & Hr & Hz) Hc'].
  exists (all_pairs (R ds) (S ds)).
  split; [apply CollectNaivePairs_all; exact Hv |].
  split; [exact Hin |]. split; [exact Hlen |]. split; [exact Hr |].
  split; [unfold SampleSetOps.Validate; rewrite Hw, Hz; reflexivity |].
  split; [exact Hc' | apply (fo_pairs ds _ Hok' Hc')].
Qed.

Lemma enum_sample_draws_from_join_witness :
  exists ss b' g',
    FI.Sample (H:=QFloat) fi_built cfg_t8 0 (RngOps.Seed 42) = Done (ss, b', g')
    /\ (forall p, p ∈ pairs ss
                  -> p ∈ [mkPairId 0 0; mkPairId 1 0; mkPairId 1 1; mkPairId 2 1])
    /\ Z.of_nat (length (pairs ss)) = 8
    /\ FI.pairs_cached_ b' = true.
Proof.
  assert (Hv : DatasetOps.Validate true ds_small = true) by reflexivity.
  assert (Hs : RelationOps.Size (R ds_small) + RelationOps.Size (S ds_small) <= 2 ^ 30)
    by (vm_compute; discriminate).
  assert (Hb : FI.Build fi_fresh ds_small cfg_t8 = Done fi_built)
    by (vm_compute; reflexivity).
  assert (Hr : exists r, FI.Sample (H:=QFloat) fi_built cfg_t8 0 (RngOps.Seed 42) = Done r)
    by (eexists; vm_compute; reflexivity).
  destruct Hr as [[[ss b'] g'] Hr].
  pose proof (enum_sample_draws_from_join (H:=QFloat) ds_small fi_fresh fi_built fi_built
                cfg_t8 cfg_t8 0 (RngOps.Seed 42) Hv Hs Hb (or_introl eq_refl)
                ltac:(vm_compute; discriminate)) as Hspec.
  destruct (u32_max <? run_t cfg_t8) eqn:E1; [vm_compute in E1; discriminate E1 |].
  destruct (run_t cfg_t8 =? 0) eqn:E2; [vm_compute in E2; discriminate E2 |].
  destruct (negb (FI.pairs_cached_ fi_built)
            && ((0 <? 0) && (0 <? CountNaive (R ds_small) (S ds_small)))) eqn:E3.
  { apply andb_prop in E3 as [_ E3]. apply andb_prop in E3 as [E3 _]. discriminate E3. }
  rewrite Hr in Hspec.
  destruct Hspec as (J & HJ & Hin & Hlen & _ & _ & Hc & _).
  exists ss, b', g'. split; [exact Hr |].
  assert (EJ : J = [mkPairId 0 0; mkPairId 1 0; mkPairId 1 1; mkPairId 2 1]).
  { vm_compute in HJ. injection HJ as <-. reflexivity. }
  rewrite <- EJ. split; [exact Hin |]. split; [| exact Hc].
  rewrite Hlen. reflexivity.
Defined.

(** * The other enumerators of the join *)

(** [stream_run next e ps e']: successive calls of [next], the first on
    [e], return the pairs [ps] and then nothing, which leaves [e']. *)
Inductive stream_run {St : Type} (next : St -> option (St * option PairId))
    : St -> list PairId -> St -> Prop :=
| srun_stop e e' : next e = Some (e', None) -> stream_run next e [] e'
| srun_pair e e1 p ps e' :
    next e = Some (e1, Some p) -> stream_run next e1 ps e' ->
    stream_run next e (p :: ps) e'.

Lemma next_run_stream e ps e' : next_run e ps e' <-> stream_run RE.Next e ps e'.
Proof.
  split; induction 1; econstructor; eassumption.
Qed.

(** ** The brute-force stream *)

Module NS := NaiveJoinStream.

(** The pairs of box [i] of [r] with the boxes [js] of [s]. *)
Definition row (r s : Relation) (i : Z) (js : list Z) : list PairId :=
  flat_map (fun j => if IntersectsHalfOpen (box_at r i) (box_at s j)
                     then [to_pair r s (i, j)] else []) js.

(** The pairs still to come when the stream stands at [j] in the first
    box of [is_]. *)
Definition rest (r s : Relation) (is_ : list Z) (j : Z) : list PairId :=
  match is_ with
  | [] => []
  | i :: is' =>
      row r s i (seqZ j (RelationOps.Size s - j))
      ++ flat_map (fun i' => row r s i' (seqZ 0 (RelationOps.Size s))) is'
  end.

Lemma all_pairs_rows r s :
  all_pairs r s
  = flat_map (fun i => row r s i (seqZ 0 (RelationOps.Size s))) (seqZ 0 (RelationOps.Size r)).
Proof.
  rewrite all_pairs_ijoin. unfold ijoin, row.
  assert (Hin : forall i js,
            map (to_pair r s)
              (flat_map (fun j => if IntersectsHalfOpen (box_at r i) (box_at s j)
                                  then [(i, j)] else []) js)
            = flat_map (fun j => if IntersectsHalfOpen (box_at r i) (box_at s j)
                                 then [to_pair r s (i, j)] else []) js).
  { intros i js. induction js as [|j js IHj]; [reflexivity |].
    cbn [flat_map]. rewrite map_app, IHj. f_equal.
    destruct (IntersectsHalfOpen (box_at r i) (box_at s j)); reflexivity. }
  induction (seqZ 0 (RelationOps.Size r)) as [|i is_ IH]; [reflexivity |].
  cbn [flat_map]. rewrite map_app, IH. f_equal. apply Hin.
Qed.

Lemma row_cons r s i j js :
  row r s i (j :: js)
  = (if IntersectsHalfOpen (box_at r i) (box_at s j) then [to_pair r s (i, j)] else [])
    ++ row r s i js.
Proof. reflexivity. Qed.

Lemma vget_box_at r i :
  0 <= i < RelationOps.Size r -> vget (boxes r) i = Some (box_at r i).
Proof.
  intros Hi. unfold box_at, RelationOps.Size in *.
  destruct (vget_is_Some (boxes r) i Hi) as [b ->]. reflexivity.
Qed.

Lemma inner_spec r s i (Hs : ids_ok s) : forall (n : nat) j,
  0 <= j -> j + Z.of_nat n <= RelationOps.Size s ->
  exists j' o,
    NS.inner (box_at r i) (id_of r i) s (seqZ j (Z.of_nat n)) j = Some (j', o)
    /\ match o with
       | None => row r s i (seqZ j (Z.of_nat n)) = []
       | Some p =>
           j < j' <= j + Z.of_nat n
           /\ row r s i (seqZ j (Z.of_nat n))
              = p :: row r s i (seqZ j' (j + Z.of_nat n - j'))
       end.
Proof.
  induction n as [|n IH]; intros j Hj Hn.
  - exists j, None. split; reflexivity.
  - replace (Z.of_nat (Datatypes.S n)) with (Z.succ (Z.of_nat n)) in * by lia.
    rewrite seqZ_cons by lia. rewrite Z.pred_succ. cbn [NS.inner].
    rewrite (vget_box_at s j) by lia. cbn [mbind option_bind].
    rewrite (GetId_ok s j Hs) by lia. cbn [mbind option_bind].
    destruct (IntersectsHalfOpen (box_at r i) (box_at s j)) eqn:Hx.
    + exists (j + 1), (Some (mkPairId (id_of r i) (id_of s j))). split; [reflexivity |].
      split; [lia |]. rewrite row_cons, Hx. cbn [app]. unfold to_pair. cbn [fst snd].
      f_equal.
      replace (j + Z.succ (Z.of_nat n) - (j + 1)) with (Z.of_nat n) by lia.
      replace (j + 1) with (Z.succ j) by lia. reflexivity.
    + destruct (IH (j + 1) ltac:(lia) ltac:(lia)) as (j' & o & Hin & Hpost).
      replace (Z.succ j) with (j + 1) by lia.
      exists j', o. split; [exact Hin |]. rewrite row_cons, Hx. cbn [app].
      destruct o as [p|]; [| exact Hpost].
      destruct Hpost as [Hr Heq]. split; [lia |]. rewrite Heq. f_equal. f_equal. f_equal.
      lia.
Qed.

Lemma outer_spec r s (Hr : ids_ok r) (Hs : ids_ok s) : forall (m : nat) i j,
  0 <= i -> i + Z.of_nat m <= RelationOps.Size r ->
  0 <= j <= RelationOps.Size s ->
  exists i' j' o,
    NS.outer r s (seqZ i (Z.of_nat m)) i j = Some (i', j', o)
    /\ 0 <= i' <= RelationOps.Size r /\ 0 <= j' <= RelationOps.Size s
    /\ match o with
       | None => rest r s (seqZ i (Z.of_nat m)) j = []
       | Some p =>
           i <= i' < i + Z.of_nat m
           /\ rest r s (seqZ i (Z.of_nat m)) j
              = p :: rest r s (seqZ i' (i + Z.of_nat m - i')) j'
       end.
Proof.
  induction m as [|m IH]; intros i j Hi Hm Hj.
  - exists i, j, None. split; [reflexivity |]. repeat split; lia.
  - replace (Z.of_nat (Datatypes.S m)) with (Z.succ (Z.of_nat m)) in * by lia.
    rewrite seqZ_cons by lia. rewrite Z.pred_succ. cbn [NS.outer rest].
    rewrite (vget_box_at r i) by lia. cbn [mbind option_bind].
    rewrite (GetId_ok r i Hr) by lia. cbn [mbind option_bind]. cbv zeta.
    fold (RelationOps.Size s).
    destruct (inner_spec r s i Hs (Z.to_nat (RelationOps.Size s - j)) j ltac:(lia)
                ltac:(lia)) as (j' & o & Hin & Hpost).
    rewrite Z2Nat.id in Hin, Hpost by lia. rewrite Hin. cbn [mbind option_bind].
    destruct o as [p|].
    + destruct Hpost as [Hjr Heq].
      exists i, j', (Some p). split; [reflexivity |].
      split; [lia |]. split; [lia |]. split; [lia |].
      rewrite Heq. cbn [app]. f_equal.
      replace (i + Z.succ (Z.of_nat m) - i) with (Z.succ (Z.of_nat m)) by lia.
      rewrite (seqZ_cons i) by lia. rewrite Z.pred_succ. cbn [rest].
      replace (j + (RelationOps.Size s - j) - j') with (RelationOps.Size s - j') by lia.
      reflexivity.
    + rewrite Hpost. cbn [app].
      destruct (IH (i + 1) 0 ltac:(lia) ltac:(lia) ltac:(unfold RelationOps.Size; lia))
        as (i' & j1 & o & Hout & Hir & Hjr & Hpost').
      replace (Z.succ i) with (i + 1) by lia.
      exists i', j1, o. split; [exact Hout |]. split; [exact Hir |]. split; [exact Hjr |].
      assert (Hflat : flat_map (fun i' => row r s i' (seqZ 0 (RelationOps.Size s)))
                        (seqZ (i + 1) (Z.of_nat m))
                      = rest r s (seqZ (i + 1) (Z.of_nat m)) 0).
      { destruct (seqZ (i + 1) (Z.of_nat m)) as [|x l]; [reflexivity |].
        cbn [flat_map rest]. rewrite Z.sub_0_r. reflexivity. }
      rewrite Hflat. destruct o as [p|]; [| exact Hpost'].
      destruct Hpost' as [Hi' Heq]. split; [lia |]. rewrite Heq. f_equal. f_equal. f_equal.
      lia.
Qed.

(** The stream between two calls: [rem] are the pairs still to come. *)
Definition stream_at (r s : Relation) (e : NS.t) (rem : list PairId) : Prop :=
  NS.R_ e = r /\ NS.S_ e = s
  /\ if NS.done_ e then rem = []
     else 0 <= NS.i_ e <= RelationOps.Size r /\ 0 <= NS.j_ e <= RelationOps.Size s
          /\ rem = rest r s (seqZ (NS.i_ e) (RelationOps.Size r - NS.i_ e)) (NS.j_ e).

Lemma NS_Next_spec r s (Hr : ids_ok r) (Hs : ids_ok s) e rem :
  stream_at r s e rem ->
  exists e',
    match rem with
    | [] => NS.Next e = Some (e', None) /\ NS.done_ e' = true
    | p :: rem' => NS.Next e = Some (e', Some p)
    end
    /\ stream_at r s e' (tl rem).
Proof.
  intros (HR & HS & Hst). unfold NS.Next. destruct (NS.done_ e) eqn:Hd.
  - subst rem. exists e. split; [split; [reflexivity | exact Hd] |].
    split; [exact HR |]. split; [exact HS |]. rewrite Hd. reflexivity.
  - destruct Hst as (Hi & Hj & ->). rewrite HR, HS. cbv zeta.
    fold (RelationOps.Size r).
    destruct (outer_spec r s Hr Hs (Z.to_nat (RelationOps.Size r - NS.i_ e)) (NS.i_ e)
                (NS.j_ e) ltac:(lia) ltac:(lia) Hj)
      as (i' & j' & o & Hout & Hir & Hjr & Hpost).
    rewrite Z2Nat.id in Hout, Hpost by lia. rewrite Hout. cbn [mbind option_bind].
    destruct o as [p|].
    + destruct Hpost as [Hi' Heq]. rewrite Heq. eexists. split; [reflexivity |].
      cbn [tl]. split; [reflexivity |]. split; [reflexivity |].
      cbn [NS.done_ NS.i_ NS.j_]. split; [lia |]. split; [lia |].
      f_equal. f_equal. lia.
    + rewrite Hpost. eexists. split; [split; reflexivity |].
      split; [reflexivity |]. split; reflexivity.
Qed.

Lemma NS_run r s (Hr : ids_ok r) (Hs : ids_ok s) : forall rem e,
  stream_at r s e rem ->
  exists e', stream_run NS.Next e rem e' /\ NS.Next e' = Some (e', None)
             /\ NS.R_ e' = r /\ NS.S_ e' = s.
Proof.
  induction rem as [|p rem IH]; intros e Hst;
    destruct (NS_Next_spec r s Hr Hs e _ Hst) as (e1 & Hn & Hst1); cbn [tl] in Hst1.
  - destruct Hn as [Hn Hd]. exists e1. split; [apply srun_stop; exact Hn |].
    destruct Hst1 as (HR & HS & _). split; [| split; assumption].
    unfold NS.Next. rewrite Hd. reflexivity.
  - destruct (IH e1 Hst1) as (e' & Hrun & Hrest). exists e'.
    split; [eapply srun_pair; eassumption | exact Hrest].
Qed.

(** X20: the brute-force stream returns the join in the order of the
    oracle.  On relations whose ids are absent or complete, the calls of
    [NaiveJoinStream::Next] on a new stream never read out of range and
    return, one by one and in the same order, the pairs that
    [CollectNaivePairs] collects, and then [false]; a further call returns
    [false] again and leaves the stream as it is, and after [Reset] the
    stream returns the same pairs once more. *)
Theorem naive_stream_returns_join (r s : Relation) :
  ids_ok r -> ids_ok s ->
  exists J e',
    CollectNaivePairs r s 0 = Some J
    /\ stream_run NS.Next (NS.Create r s) J e'
    /\ NS.Next e' = Some (e', None)
    /\ stream_run NS.Next (NS.Reset e') J e'.
Proof.
  intros Hr Hs.
  assert (Hstart : stream_at r s (NS.Create r s) (all_pairs r s)).
  { split; [reflexivity |]. split; [reflexivity |]. cbn [NS.Create NS.Reset NS.done_
                                                         NS.i_ NS.j_].
    unfold RelationOps.Size. split; [lia |]. split; [lia |].
    rewrite all_pairs_rows. unfold RelationOps.Size. rewrite !Z.sub_0_r.
    destruct (seqZ 0 (Z.of_nat (length (boxes r)))) as [|x l]; [reflexivity |].
    cbn [flat_map rest]. unfold RelationOps.Size. rewrite Z.sub_0_r. reflexivity. }
  destruct (NS_run r s Hr Hs _ _ Hstart) as (e' & Hrun & Hstay & HR & HS).
  exists (all_pairs r s), e'.
  split; [rewrite (CollectNaivePairs_eq r s 0 Hr Hs); reflexivity |].
  split; [exact Hrun |]. split; [exact Hstay |].
  assert (Heq : NS.Reset e' = NS.Create r s)
    by (unfold NS.Reset, NS.Create; rewrite HR, HS; reflexivity).
  rewrite Heq.
  destruct (NS_run r s Hr Hs _ _ Hstart) as (e2 & Hrun2 & _).
  assert (Hdet : forall e ps e1, stream_run NS.Next e ps e1 ->
                 forall e2, stream_run NS.Next e ps e2 -> e1 = e2).
  { induction 1 as [e e1 Hn | e ea p ps e1 Hn Hrun1 IH]; intros eb Hb; inversion Hb; subst.
    - congruence.
    - apply IH. congruence. }
  rewrite (Hdet _ _ _ Hrun _ Hrun2). exact Hrun2.
Qed.

Lemma naive_stream_returns_join_witness :
  exists e',
    stream_run NS.Next (NS.Create (R ds_small) (S ds_small))
      [mkPairId 0 0; mkPairId 1 0; mkPairId 1 1; mkPairId 2 1] e'
    /\ NS.Next e' = Some (e', None).
Proof.
  destruct (naive_stream_returns_join (R ds_small) (S ds_small))
    as (J & e' & HJ & Hrun & Hstay & _).
  - left. reflexivity.
  - left. reflexivity.
  - assert (EJ : J = [mkPairId 0 0; mkPairId 1 0; mkPairId 1 1; mkPairId 2 1]).
    { vm_compute in HJ. injection HJ as <-. reflexivity. }
    exists e'. rewrite <- EJ. split; [exact Hrun | exact Hstay].
Defined.

(** ** Enumeration with a callback *)

(** What a callback has received after the pairs [l], fed one by one while
    it answers to go on; the flag says that it never asked to stop. *)
Fixpoint feed {St : Type} (emit : St -> PairId -> St * bool) (l : list PairId) (a : St)
    : St * bool :=
  match l with
  | [] => (a, true)
  | p :: l' => let '(a', go) := emit a p in if go then feed emit l' a' else (a', false)
  end.

Section Feed.
Context {St : Type}.
Variable emit : St -> PairId -> St * bool.

(** [feed] on the state of the loops, whose flag says "stopped". *)
Definition feed_st (l : list PairId) (st : St * bool) : St * bool :=
  if st.2 then st else let '(a, fin) := feed emit l st.1 in (a, negb fin).

Lemma feed_st_nil st : feed_st [] st = st.
Proof. destruct st as [a []]; reflexivity. Qed.

Lemma feed_st_app l1 l2 st : feed_st (l1 ++ l2) st = feed_st l2 (feed_st l1 st).
Proof.
  destruct st as [a stop]. destruct stop; [reflexivity |].
  unfold feed_st at 1 3. cbn [fst snd]. revert a.
  induction l1 as [|p l1 IH]; intros a.
  - cbn [app feed]. unfold feed_st. cbn [fst snd negb].
    destruct (feed emit l2 a). reflexivity.
  - cbn [app feed]. destruct (emit a p) as [a' go]. destruct go; [apply IH |].
    reflexivity.
Qed.

Lemma enumerate_inner_fold r s i (Hs : ids_ok s) : forall js st,
  (forall j, j ∈ js -> 0 <= j < RelationOps.Size s) ->
  ofold (enumerate_inner emit (box_at r i) (id_of r i) s)
    (map (fun j => (j, box_at s j)) js) st
  = Some (feed_st (row r s i js) st).
Proof.
  induction js as [|j js IH]; intros st Hjs.
  - cbn [map ofold]. rewrite feed_st_nil. reflexivity.
  - cbn [map ofold]. rewrite row_cons, feed_st_app.
    assert (Hstep : enumerate_inner emit (box_at r i) (id_of r i) s st (j, box_at s j)
                    = Some (feed_st (if IntersectsHalfOpen (box_at r i) (box_at s j)
                                     then [to_pair r s (i, j)] else []) st)).
    { destruct st as [a stop]. unfold enumerate_inner, feed_st. cbn [fst snd].
      destruct stop; [reflexivity |].
      destruct (IntersectsHalfOpen (box_at r i) (box_at s j)); [| reflexivity].
      rewrite (GetId_ok s j Hs) by (apply Hjs; left). cbn [mbind option_bind feed].
      unfold to_pair. cbn [fst snd].
      destruct (emit a (mkPairId (id_of r i) (id_of s j))) as [a' go].
      destruct go; reflexivity. }
    rewrite Hstep. cbn [mbind option_bind]. apply IH.
    intros j' Hj'. apply Hjs. right. exact Hj'.
Qed.

Lemma enumerate_outer_fold r s (Hr : ids_ok r) (Hs : ids_ok s) : forall is_ st,
  (forall i, i ∈ is_ -> 0 <= i < RelationOps.Size r) ->
  ofold (enumerate_outer emit r s) (map (fun i => (i, box_at r i)) is_) st
  = Some (feed_st (flat_map (fun i => row r s i (seqZ 0 (RelationOps.Size s))) is_) st).
Proof.
  induction is_ as [|i is_ IH]; intros st His.
  - cbn [map ofold flat_map]. rewrite feed_st_nil. reflexivity.
  - cbn [map ofold flat_map]. rewrite feed_st_app.
    assert (Hstep : enumerate_outer emit r s st (i, box_at r i)
                    = Some (feed_st (row r s i (seqZ 0 (RelationOps.Size s))) st)).
    { destruct st as [a stop]. unfold enumerate_outer.
      destruct stop; [reflexivity |].
      rewrite (GetId_ok r i Hr) by (apply His; left). cbn [mbind option_bind].
      rewrite with_pos_map. apply (enumerate_inner_fold r s i Hs).
      intros j Hj. apply elem_of_seqZ in Hj. lia. }
    rewrite Hstep. cbn [mbind option_bind]. apply IH.
    intros i' Hi'. apply His. right. exact Hi'.
Qed.

Lemma EnumerateNaive_feed r s a :
  ids_ok r -> ids_ok s ->
  EnumerateNaive emit r s a = Some (feed emit (all_pairs r s) a).
Proof.
  intros Hr Hs. unfold EnumerateNaive. rewrite with_pos_map.
  rewrite (enumerate_outer_fold r s Hr Hs)
    by (intros i Hi; apply elem_of_seqZ in Hi; lia).
  rewrite <- all_pairs_rows. unfold feed_st. cbn [fst snd].
  destruct (feed emit (all_pairs r s) a) as [a' fin]. cbn [mbind option_bind].
  rewrite negb_involutive. reflexivity.
Qed.

End Feed.

Lemma feed_collect (l acc : list PairId) :
  feed (fun out p => (out ++ [p], true)) l acc = (acc ++ l, true).
Proof.
  revert acc. induction l as [|p l IH]; intros acc; cbn [feed].
  - rewrite app_nil_r. reflexivity.
  - rewrite IH, <- app_assoc. reflexivity.
Qed.

(** X21: [EnumerateNaive] feeds the join to its callback.  On relations
    whose ids are absent or complete, for every callback and every state of
    it, [EnumerateNaive] never reads out of range and calls [emit] on the
    pairs that [CollectNaivePairs] collects, one by one and in the same
    order, as long as [emit] answers [true]; after the first [false] no
    further pair is passed and the result is [false], and the result is
    [true] when [emit] never answered [false].  With the callback that
    appends every pair to a vector it builds the vector of
    [CollectNaivePairs]. *)
Theorem enumerate_naive_feeds_callback (r s : Relation) :
  ids_ok r -> ids_ok s ->
  exists J,
    CollectNaivePairs r s 0 = Some J
    /\ (forall (St : Type) (emit : St -> PairId -> St * bool) (a : St),
          EnumerateNaive emit r s a = Some (feed emit J a))
    /\ EnumerateNaive (fun out p => (out ++ [p], true)) r s [] = Some (J, true).
Proof.
  intros Hr Hs. exists (all_pairs r s).
  split; [rewrite (CollectNaivePairs_eq r s 0 Hr Hs); reflexivity |].
  split.
  - intros St emit a. apply EnumerateNaive_feed; assumption.
  - rewrite (EnumerateNaive_feed _ r s [] Hr Hs), feed_collect. reflexivity.
Qed.

Lemma enumerate_naive_feeds_callback_witness :
  EnumerateNaive (fun (n : nat) (_ : PairId) => (Datatypes.S n, Nat.ltb n 2))
    (R ds_small) (S ds_small) 0%nat = Some (3%nat, false)
  /\ EnumerateNaive (fun out p => (out ++ [p], true)) (R ds_small) (S ds_small) []
     = Some ([mkPairId 0 0; mkPairId 1 0; mkPairId 1 1; mkPairId 2 1], true).
Proof.
  destruct (enumerate_naive_feeds_callback (R ds_small) (S ds_small))
    as (J & HJ & Hfeed & Hall).
  - left. reflexivity.
  - left. reflexivity.
  - assert (EJ : J = [mkPairId 0 0; mkPairId 1 0; mkPairId 1 1; mkPairId 2 1]).
    { vm_compute in HJ. injection HJ as <-. reflexivity. }
    split.
    + rewrite Hfeed, EJ. reflexivity.
    + rewrite Hall, EJ. reflexivity.
Defined.

(** ** The enumerator over a vector *)

Module VE := VectorJoinEnumerator.

(** The enumerator over [pairs] after [k] pairs. *)
Definition vec_at (pairs : list PairId) (k : Z) : VE.t :=
  VE.mk (Some pairs) k (mkJoinStats 0 0 k 0 0).

Lemma VE_run pairs (Hlen : Z.of_nat (length pairs) < 2 ^ 64) : forall (n : nat) k,
  0 <= k -> k + Z.of_nat n = Z.of_nat (length pairs) ->
  stream_run VE.Next (vec_at pairs k) (drop (Z.to_nat k) pairs)
    (vec_at pairs (Z.of_nat (length pairs))).
Proof.
  induction n as [|n IH]; intros k Hk Hn.
  - rewrite drop_ge by lia. replace k with (Z.of_nat (length pairs)) by lia.
    apply srun_stop. unfold VE.Next, vec_at. cbn [VE.pairs_ VE.pos_].
    destruct (Z.leb_spec (Z.of_nat (length pairs)) (Z.of_nat (length pairs))); [| lia].
    reflexivity.
  - destruct (lookup_lt_is_Some_2 pairs (Z.to_nat k) ltac:(lia)) as [p Hp].
    rewrite (drop_S _ _ _ Hp).
    apply (srun_pair _ _ (vec_at pairs (k + 1))).
    + unfold VE.Next, vec_at. cbn [VE.pairs_ VE.pos_ VE.stats_].
      destruct (Z.leb_spec (Z.of_nat (length pairs)) k); [lia |].
      assert (Hv : vget pairs k = Some p) by (apply vget_Some; split; [lia | exact Hp]).
      rewrite Hv. cbn [mbind option_bind num_events candidate_checks active_max_r
                       active_max_s].
      rewrite wrap64_small by lia. reflexivity.
    + replace (Datatypes.S (Z.to_nat k)) with (Z.to_nat (k + 1)) by lia.
      apply IH; lia.
Qed.

(** X22: the enumerator over a vector replays the vector.  For a vector
    of fewer than 2^64 pairs, the calls of [VectorJoinEnumerator::Next] on a
    new enumerator return the pairs of the vector, one by one and in their
    order, and then [false]; a further call returns [false] again and leaves
    the enumerator as it is; [Stats().output_pairs] is then the number of
    pairs returned; and after [Reset] the enumerator returns the same pairs
    once more.  An enumerator over the null pointer returns [false] at
    once. *)
Theorem vector_enumerator_replays_vector (pairs : list PairId) :
  Z.of_nat (length pairs) < 2 ^ 64 ->
  exists e',
    stream_run VE.Next (VE.Create (Some pairs)) pairs e'
    /\ VE.Next e' = Some (e', None)
    /\ output_pairs (VE.stats_ e') = Z.of_nat (length pairs)
    /\ stream_run VE.Next (VE.Reset e') pairs e'
    /\ VE.Next (VE.Create None) = Some (VE.Create None, None).
Proof.
  intros Hlen. exists (vec_at pairs (Z.of_nat (length pairs))).
  pose proof (VE_run pairs Hlen (length pairs) 0 ltac:(lia) ltac:(lia)) as Hrun.
  cbn [Z.to_nat drop] in Hrun.
  split; [exact Hrun |]. split; [| split; [reflexivity | split; [exact Hrun | reflexivity]]].
  unfold VE.Next, vec_at. cbn [VE.pairs_ VE.pos_].
  destruct (Z.leb_spec (Z.of_nat (length pairs)) (Z.of_nat (length pairs))); [| lia].
  reflexivity.
Qed.

Lemma vector_enumerator_replays_vector_witness :
  exists e',
    stream_run VE.Next (VE.Create (Some [mkPairId 3 4; mkPairId 1 2; mkPairId 3 4]))
      [mkPairId 3 4; mkPairId 1 2; mkPairId 3 4] e'
    /\ output_pairs (VE.stats_ e') = 3.
Proof.
  destruct (vector_enumerator_replays_vector [mkPairId 3 4; mkPairId 1 2; mkPairId 3 4])
    as (e' & Hrun & _ & Ho & _).
  - vm_compute. reflexivity.
  - exists e'. split; [exact Hrun | exact Ho].
Defined.

(** ** What [Enumerate] hands out *)

Lemma enum_Next_OfReport e :
  enum_Next (OfReport e) = ('(r, o) ← RE.Next e; Some (OfReport r, o)).
Proof. reflexivity. Qed.

Lemma enum_Next_OfVector e :
  enum_Next (OfVector e) = ('(v, o) ← VE.Next e; Some (OfVector v, o)).
Proof. reflexivity. Qed.

Lemma run_OfReport e ps e' :
  stream_run RE.Next e ps e' ->
  stream_run enum_Next (OfReport e) ps (OfReport e').
Proof.
  induction 1 as [e e' Hn | e e1 p ps e' Hn Hrun IH].
  - apply srun_stop. rewrite enum_Next_OfReport, Hn. reflexivity.
  - apply (srun_pair _ _ (OfReport e1)); [| exact IH].
    rewrite enum_Next_OfReport, Hn. reflexivity.
Qed.

Lemma run_OfVector e ps e' :
  stream_run VE.Next e ps e' ->
  stream_run enum_Next (OfVector e) ps (OfVector e').
Proof.
  induction 1 as [e e' Hn | e e1 p ps e' Hn Hrun IH].
  - apply srun_stop. rewrite enum_Next_OfVector, Hn. reflexivity.
  - apply (srun_pair _ _ (OfVector e1)); [| exact IH].
    rewrite enum_Next_OfVector, Hn. reflexivity.
Qed.

(** An enumerator that returns the pairs [J], in some order, and then
    [false] for good, with their number in [Stats().output_pairs]. *)
Definition enumerates (J : list PairId) (en : JoinEnumerator) : Prop :=
  exists ps e',
    stream_run enum_Next en ps e'
    /\ ps ≡ₚ J
    /\ enum_Next e' = Some (e', None)
    /\ output_pairs (enum_Stats e') = Z.of_nat (length J).

Section Enumerate.
Context `{FloatOps}.
Variable ds : Dataset.
Hypothesis Hvalid : DatasetOps.Validate true ds = true.
Hypothesis Hsize : RelationOps.Size (R ds) + RelationOps.Size (S ds) <= 2 ^ 30.

Definition enumerates_join (en : JoinEnumerator) : Prop :=
  enumerates (all_pairs (R ds) (S ds)) en.

Lemma report_enumerates ctx :
  ctx_ok ds ctx -> enumerates_join (OfReport (RE.Create ctx)).
Proof using Hvalid Hsize.
  intros Hctx.
  destruct (run_exists ds Hvalid Hsize (length (ijoin (R ds) (S ds))) _ [] _ _
              (Create_inv ds Hsize _ Hctx))
    as (em & e' & Hrun & Hex); [cbn [length]; lia |].
  cbn [app] in Hex.
  destruct (exhausted_all ds Hvalid Hsize e' em Hex) as (Hperm & Ho & _ & _ & Hnext).
  destruct (join_size ds Hsize) as [Hl _].
  assert (Hall : map (to_pair (R ds) (S ds)) em ≡ₚ all_pairs (R ds) (S ds)).
  { rewrite all_pairs_ijoin. apply fmap_Permutation. exact Hperm. }
  exists (map (to_pair (R ds) (S ds)) em), (OfReport e').
  split; [apply run_OfReport, next_run_stream; exact Hrun |].
  split; [exact Hall |]. split; [rewrite enum_Next_OfReport, Hnext; reflexivity |].
  change (enum_Stats (OfReport e')) with (RE.stats_ e').
  rewrite Ho, <- (Permutation_length Hall), length_map. reflexivity.
Qed.

Lemma vector_enumerates pairs :
  pairs ≡ₚ all_pairs (R ds) (S ds) ->
  enumerates_join (OfVector (VE.Create (Some pairs))).
Proof using Hsize.
  intros Hperm. destruct (join_size ds Hsize) as [Hl Hr].
  assert (Hlen : Z.of_nat (length pairs) = CountNaive (R ds) (S ds))
    by (rewrite (Permutation_length Hperm); exact Hl).
  pose proof (VE_run pairs ltac:(change (2 ^ 64) with (2 ^ 4 * 2 ^ 60); lia)
                (length pairs) 0 ltac:(lia) ltac:(lia)) as Hrun.
  cbn [Z.to_nat drop] in Hrun.
  exists pairs, (OfVector (vec_at pairs (Z.of_nat (length pairs)))).
  split; [apply run_OfVector; exact Hrun |]. split; [exact Hperm |].
  split; [| exact (f_equal Z.of_nat (Permutation_length Hperm))].
  rewrite enum_Next_OfVector. unfold VE.Next, vec_at. cbn [VE.pairs_ VE.pos_].
  destruct (Z.leb_spec (Z.of_nat (length pairs)) (Z.of_nat (length pairs))); [| lia].
  reflexivity.
Qed.

Lemma FI_Enumerate_ok b :
  fi_ok ds b -> exists en, FI.Enumerate b = Done en /\ enumerates_join en.
Proof using Hvalid Hsize.
  intros [Hb Hctx Hp]. unfold FI.Enumerate.
  rewrite Hb, (co_built ds _ Hctx), (co_ds ds _ Hctx). cbn [negb orb].
  rewrite bool_decide_eq_true_2 by (eexists; reflexivity). cbn [negb].
  destruct (FI.pairs_cached_ b) eqn:Hc.
  - eexists. split; [reflexivity |]. apply vector_enumerates. apply Hp. exact Hc.
  - eexists. split; [reflexivity |]. apply report_enumerates. exact Hctx.
Qed.

End Enumerate.

(** X23: [Enumerate] hands out an enumerator of the join.  On a validated
    dataset of at most 2^30 rectangles: [Enumerate] of Framework I after
    [Build], and whether or not [Count] has materialised the pairs (after
    [Count] it is the enumerator over the cached vector, before it the
    report-based one), [Enumerate] of Framework II after [Build] and also
    after [Count], and [Enumerate] of Framework III after [Build] return an
    enumerator whose calls of [Next] return, up to their order, the pairs
    the brute-force oracle [CollectNaivePairs] enumerates and then [false]
    for good, with the size of the join in [Stats().output_pairs].  On a
    driver that was reset and not built again each [Enumerate] fails with
    its message. *)
Theorem enumerate_hands_out_the_join `{FloatOps} (ds : Dataset) :
  DatasetOps.Validate true ds = true ->
  RelationOps.Size (R ds) + RelationOps.Size (S ds) <= 2 ^ 30 ->
  exists J,
    CollectNaivePairs (R ds) (S ds) 0 = Some J
    /\ Z.of_nat (length J) = CountNaive (R ds) (S ds)
    /\ (forall b0 cfg0 b1 b,
          FI.Build b0 ds cfg0 = Done b1 ->
          (b = b1 \/ exists cap c, FI.Count b1 cap = Done (c, b)) ->
          exists en, FI.Enumerate b = Done en /\ enumerates J en
                     /\ (FI.pairs_cached_ b = true
                         -> en = OfVector (VectorJoinEnumerator.Create (Some (FI.pairs_ b)))))
    /\ (forall b0 cfg0 b1 b,
          OursSamplingBaseline.Build b0 ds cfg0 = Done b1 ->
          (b = b1 \/ exists cfg c, OursSamplingBaseline.Count b1 cfg = Done (c, b)) ->
          exists en, OursSamplingBaseline_Enumerate b = Done en /\ enumerates J en)
    /\ (forall b0 cfg0 b,
          OursAdaptiveBaseline.Build b0 ds cfg0 = Done b ->
          exists en, OursAdaptiveBaseline_Enumerate b = Done en /\ enumerates J en)
    /\ (forall b, FI.Enumerate (FI.Reset b)
                  = Fail "OursEnumSamplingBaseline::Enumerate: call Build() first")
    /\ (forall b, OursSamplingBaseline_Enumerate (OursSamplingBaseline.Reset b)
                  = Fail "OursSamplingBaseline::Enumerate: call Build() first")
    /\ (forall b, OursAdaptiveBaseline_Enumerate (OursAdaptiveBaseline.Reset b)
                  = Fail "OursAdaptiveBaseline::Enumerate: call Build() first").
Proof.
  intros Hv Hs. exists (all_pairs (R ds) (S ds)).
  split; [apply CollectNaivePairs_all; exact Hv |].
  split; [apply (join_size ds Hs) |].
  split; [| split; [| split; [| repeat split; reflexivity]]].
  - intros b0 cfg0 b1 b Hb Hfrom.
    destruct (FI_Build_cases ds Hv Hs b0 cfg0) as [[_ Hf] | [_ (b2 & Hb2 & Hok & Hc)]].
    { rewrite Hf in Hb. discriminate. }
    rewrite Hb2 in Hb. injection Hb as <-.
    assert (Hokb : fi_ok ds b).
    { destruct Hfrom as [-> | (cap1 & c & Hcount)]; [exact Hok |].
      pose proof (FI_Count_fresh ds Hv Hs b2 cap1 Hok Hc) as Hfresh.
      destruct ((0 <? cap1) && (cap1 <? CountNaive (R ds) (S ds))).
      - rewrite Hfresh in Hcount. discriminate.
      - destruct Hfresh as (b' & Hc' & Hok' & _). rewrite Hc' in Hcount.
        injection Hcount as _ <-. exact Hok'. }
    destruct (FI_Enumerate_ok ds Hv Hs b Hokb) as (en & Hen & Hjoin).
    exists en. split; [exact Hen |]. split; [exact Hjoin |].
    intros Hcached. revert Hen. unfold FI.Enumerate.
    destruct (_ || _); [discriminate |]. rewrite Hcached. congruence.
  - intros b0 cfg0 b1 b Hb Hfrom.
    destruct (Sampling_Build_cases ds Hv Hs b0 cfg0) as [[_ Hf] | [_ (b2 & Hb2 & Hok & _)]].
    { rewrite Hf in Hb. discriminate. }
    rewrite Hb2 in Hb. injection Hb as <-.
    assert (Hokb : sampling_ok ds b).
    { destruct Hfrom as [-> | (cfg & c & Hcount)]; [exact Hok |].
      destruct (Sampling_Count_ok ds Hv Hs b2 cfg Hok) as (b3 & Hc3 & Hok3 & _).
      rewrite Hc3 in Hcount. injection Hcount as _ <-. exact Hok3. }
    destruct Hokb as [Hbuilt Hctx _ _ _]. unfold OursSamplingBaseline_Enumerate.
    rewrite Hbuilt, (co_built ds _ Hctx), (co_ds ds _ Hctx). cbn [negb orb].
    rewrite bool_decide_eq_true_2 by (eexists; reflexivity). cbn [negb].
    eexists. split; [reflexivity |]. apply (report_enumerates ds Hv Hs). exact Hctx.
  - intros b0 cfg0 b Hb.
    destruct (Adaptive_Build_ctx ds b0 cfg0 b Hv Hs Hb) as ([Hbuilt Hctx _ _ _] & _).
    unfold OursAdaptiveBaseline_Enumerate.
    rewrite Hbuilt, (co_built ds _ Hctx), (co_ds ds _ Hctx). cbn [negb orb].
    rewrite bool_decide_eq_true_2 by (eexists; reflexivity). cbn [negb].
    eexists. split; [reflexivity |]. apply (report_enumerates ds Hv Hs). exact Hctx.
Qed.

Lemma enumerate_hands_out_the_join_witness :
  exists en,
    FI.Enumerate fi_built = Done en
    /\ enumerates [mkPairId 0 0; mkPairId 1 0; mkPairId 1 1; mkPairId 2 1] en.
Proof.
  destruct (enumerate_hands_out_the_join (H:=QFloat) ds_small)
    as (J & HJ & _ & HI & _).
  - reflexivity.
  - vm_compute. discriminate.
  - assert (EJ : J = [mkPairId 0 0; mkPairId 1 0; mkPairId 1 1; mkPairId 2 1]).
    { vm_compute in HJ. injection HJ as <-. reflexivity. }
    destruct (HI fi_fresh cfg_t8 fi_built fi_built) as (en & Hen & Hjoin & _).
    + vm_compute. reflexivity.
    + left. reflexivity.
    + exists en. split; [exact Hen |]. rewrite <- EJ. exact Hjoin.
Defined.

(** * The first sweep of Framework III with a budget *)

Module AB := OursAdaptiveBaseline.

(** A pattern is drawn only when its weight is not zero. *)
Lemma draw_pattern_weight wa wb g p g' :
  draw_pattern wa wb g = Some (p, g') -> 0 <= wa -> 0 <= wb -> 0 < wa + wb ->
  (p = 0 -> wa <> 0) /\ (p <> 0 -> wb <> 0).
Proof.
  unfold draw_pattern. intros Hd Ha Hb Hw.
  destruct (Z.eqb_spec wa 0) as [E|E].
  - injection Hd as <- _. split; [discriminate | lia].
  - destruct (Z.eqb_spec wb 0) as [E'|E'].
    + injection Hd as <- _. split; [intros _; exact E | intros Hc; contradiction].
    + split; intros _; assumption.
Qed.

Section AdaptiveAny.
Context `{FloatOps}.

Lemma prefetch_patterns_weight wa wb s g pat kA kB :
  AB.prefetch_patterns wa wb s g = Some (pat, kA, kB) ->
  0 <= wa -> 0 <= wb -> 0 < wa + wb ->
  (kA <> 0 -> wa <> 0) /\ (kB <> 0 -> wb <> 0).
Proof.
  intros Hp Ha Hb Hw. unfold AB.prefetch_patterns in Hp.
  match type of Hp with
  | context [ofold ?f _ _] => set (step := f) in Hp
  end.
  assert (Hfold : forall l st st',
            ofold step l st = Some st' ->
            ((st.1.1.2 <> 0 -> wa <> 0) /\ (st.1.2 <> 0 -> wb <> 0)) ->
            (st'.1.1.2 <> 0 -> wa <> 0) /\ (st'.1.2 <> 0 -> wb <> 0)).
  { induction l as [|x l IH]; intros st st' Hf Hinv.
    - injection Hf as <-. exact Hinv.
    - cbn [ofold] in Hf. destruct (step st x) as [st1|] eqn:Hs; [| discriminate].
      cbn [mbind option_bind] in Hf. apply (IH st1 st' Hf).
      destruct st as [[[pt a] b] g0]. subst step. cbn beta iota in Hs.
      destruct (draw_pattern wa wb g0) as [[p g1]|] eqn:Hd; [| discriminate].
      cbn [mbind option_bind] in Hs.
      destruct (draw_pattern_weight wa wb g0 p g1 Hd Ha Hb Hw) as [HA HB].
      cbn [fst snd] in Hinv |- *.
      destruct (Z.eqb_spec p 0) as [E|E]; injection Hs as <-; cbn [fst snd].
      + split; [intros _; apply HA; exact E | apply Hinv].
      + split; [apply Hinv | intros _; apply HB; exact E]. }
  destruct (ofold step (upto s) ([], 0, 0, g)) as [[[[pt a] b] g1]|] eqn:Hf; [| discriminate].
  cbn [mbind option_bind] in Hp. injection Hp as -> -> ->.
  apply (Hfold _ _ _ Hf). cbn [fst snd]. split; intros Hc; contradiction.
Qed.

Lemma prefetch_samples_no_fail other nh m act lo hi q_lo q_hi wa wb sid s seed msg :
  idx_rep other nh m act lo hi -> 0 <= q_lo < m ->
  wa = zcount (fun h => bool_decide (lo h <= q_lo < hi h)) act ->
  wb = zcount (fun h => bool_decide (q_lo < lo h < q_hi)) act ->
  0 < wa + wb ->
  AB.prefetch_samples other q_lo q_hi wa wb sid s seed <> Fail msg.
Proof.
  intros Hrep Hq HA HB Hw. unfold AB.prefetch_samples. cbv zeta.
  assert (Ha0 : 0 <= wa) by (rewrite HA; apply zcount_bounds).
  assert (Hb0 : 0 <= wb) by (rewrite HB; apply zcount_bounds).
  destruct (AB.prefetch_patterns wa wb s _) as [[[pat kA] kB]|] eqn:Hp;
    cbn [lift_opt mbind outcome_mbind outcome_bind]; [| discriminate].
  destruct (prefetch_patterns_weight _ _ _ _ _ _ _ Hp Ha0 Hb0 Hw) as [HkA HkB].
  assert (HSA : forall g, match
            (if 0 <? kA then
               '(ok, sampA, g0) ← lift_opt (ActiveIndex2D.SampleA other q_lo kA g);
               if negb ok || negb (Z.of_nat (length sampA) =? kA)
               then Fail "OursAdaptiveBaseline::Count: prefetch SampleA failed"
               else Done (sampA, g0)
             else Done ([], g)) with Fail _ => False | _ => True end).
  { intros g. destruct (Z.ltb_spec 0 kA) as [Hk|Hk]; [| exact I].
    pose proof (idx_SampleA _ _ _ _ _ _ q_lo kA g Hrep ltac:(lia) ltac:(lia)) as Hpost.
    destruct (ActiveIndex2D.SampleA other q_lo kA g) as [[[ok out] g0]|];
      cbn [lift_opt mbind outcome_mbind outcome_bind]; [| exact I].
    cbn [sample_post] in Hpost. destruct ok.
    - destruct Hpost as (_ & Hl & _). rewrite Hl, Z2Nat.id by lia.
      rewrite Z.eqb_refl. exact I.
    - destruct Hpost as (Hnil & _). exfalso. apply (HkA ltac:(lia)).
      rewrite HA, zcount_filter_stdpp. cbv beta in Hnil. rewrite Hnil. reflexivity. }
  assert (HSB : forall g, match
            (if 0 <? kB then
               '(ok, sampB, g0) ← lift_opt (ActiveIndex2D.SampleB other q_lo q_hi kB g);
               if negb ok || negb (Z.of_nat (length sampB) =? kB)
               then Fail "OursAdaptiveBaseline::Count: prefetch SampleB failed"
               else Done (sampB, g0)
             else Done ([], g)) with Fail _ => False | _ => True end).
  { intros g. destruct (Z.ltb_spec 0 kB) as [Hk|Hk]; [| exact I].
    pose proof (idx_SampleB _ _ _ _ _ _ q_lo q_hi kB g Hrep Hq ltac:(lia)) as Hpost.
    destruct (ActiveIndex2D.SampleB other q_lo q_hi kB g) as [[[ok out] g0]|];
      cbn [lift_opt mbind outcome_mbind outcome_bind]; [| exact I].
    cbn [sample_post] in Hpost. destruct ok.
    - destruct Hpost as (_ & Hl & _). rewrite Hl, Z2Nat.id by lia.
      rewrite Z.eqb_refl. exact I.
    - destruct Hpost as (Hnil & _). exfalso. apply (HkB ltac:(lia)).
      rewrite HB, zcount_filter_stdpp. cbv beta in Hnil. rewrite Hnil. reflexivity. }
  match goal with
  | |- context [DeriveSeed (DeriveSeed3 ?a ?b ?c) 2] =>
      specialize (HSA (RngOps.Seed (DeriveSeed (DeriveSeed3 a b c) 2)))
  end.
  destruct (if 0 <? kA then _ else _) as [[sampA g1]| |];
    cbn [mbind outcome_mbind outcome_bind]; [| contradiction | discriminate].
  specialize (HSB g1).
  destruct (if 0 <? kB then _ else _) as [[sampB g2]| |];
    cbn [mbind outcome_mbind outcome_bind]; [| contradiction | discriminate].
  destruct (AB.interleave pat sampA sampB); discriminate.
Qed.

(** The branches of a START event leave the part of the state that the
    two-pass driver has too, and do not fail. *)
Lemma full_cache_part budget_B other nh m act lo hi q_lo q_hi wa wb w sid st :
  idx_rep other nh m act lo hi -> 0 <= q_lo < m ->
  wa = zcount (fun h => bool_decide (lo h <= q_lo < hi h)) act ->
  wb = zcount (fun h => bool_decide (q_lo < lo h < q_hi)) act ->
  w = wa + wb -> w < 2 ^ 64 ->
  match AB.full_cache budget_B other q_lo q_hi w sid st with
  | Done st' => two_pass_part st' = two_pass_part st
  | Fail _ => False
  | Undef => True
  end.
Proof.
  intros Hrep Hq HA HB Hw Hw64. unfold AB.full_cache.
  destruct (vset (AB.cs_cached st) sid 1) as [cached|];
    cbn [lift_opt mbind outcome_mbind outcome_bind]; [| exact I].
  destruct (vset (AB.cs_cache_off st) sid _) as [cache_off|];
    cbn [lift_opt mbind outcome_mbind outcome_bind]; [| exact I].
  destruct (idx_ReportA _ _ _ _ _ _ q_lo [] Hrep ltac:(lia)) as (hsA & -> & HpA).
  destruct (idx_ReportB _ _ _ _ _ _ q_lo q_hi [] Hrep Hq) as (hsB & -> & HpB).
  cbn [lift_opt mbind outcome_mbind outcome_bind app].
  destruct (vset (AB.cs_cache_len st) sid _) as [cache_len|];
    cbn [lift_opt mbind outcome_mbind outcome_bind]; [| exact I].
  assert (Hlen : wrap64 (Z.of_nat (length ((AB.cs_cache_partners st ++ hsA) ++ hsB))
                         - Z.of_nat (length (AB.cs_cache_partners st))) = w).
  { rewrite !length_app, (Permutation_length HpA), (Permutation_length HpB).
    rewrite !Nat2Z.inj_add, <- !zcount_filter_stdpp, <- HA, <- HB.
    assert (0 <= wa) by (rewrite HA; apply zcount_bounds).
    assert (0 <= wb) by (rewrite HB; apply zcount_bounds).
    rewrite wrap64_small by lia. lia. }
  rewrite Hlen, Z.eqb_refl. cbn [negb].
  destruct (AB.shrink_heap _ _ _ _ _) as [[[heap keep] pp]|];
    cbn [lift_opt mbind outcome_mbind outcome_bind]; [| exact I].
  reflexivity.
Qed.

Lemma prefetch_part cfg budget_B E i seed other nh m act lo hi q_lo q_hi wa wb w sid st :
  idx_rep other nh m act lo hi -> 0 <= q_lo < m ->
  wa = zcount (fun h => bool_decide (lo h <= q_lo < hi h)) act ->
  wb = zcount (fun h => bool_decide (q_lo < lo h < q_hi)) act ->
  0 < wa + wb ->
  match AB.prefetch cfg budget_B E i seed other q_lo q_hi wa wb w sid st with
  | Done st' => two_pass_part st' = two_pass_part st
  | Fail _ => False
  | Undef => True
  end.
Proof.
  intros Hrep Hq HA HB Hw. unfold AB.prefetch. cbv zeta.
  destruct (0 <? _); [| reflexivity].
  destruct (AB.prefetch_offer _ _ _ _ _ _ _ _ _ _ _) as [[[heap keep] pp]|];
    cbn [lift_opt mbind outcome_mbind outcome_bind]; [| exact I].
  destruct (vget keep sid) as [s_keep|];
    cbn [lift_opt mbind outcome_mbind outcome_bind]; [| exact I].
  destruct (0 <? s_keep).
  - pose proof (fun msg => prefetch_samples_no_fail other nh m act lo hi q_lo q_hi wa wb sid
                             s_keep seed msg Hrep Hq HA HB Hw) as Hnf.
    destruct (AB.prefetch_samples other q_lo q_hi wa wb sid s_keep seed) as [dst|msg|];
      cbn [mbind outcome_mbind outcome_bind]; [| exact (Hnf msg eq_refl) | exact I].
    destruct (vset pp sid dst); cbn [lift_opt mbind outcome_mbind outcome_bind];
      [reflexivity | exact I].
  - cbn [mbind outcome_mbind outcome_bind]. reflexivity.
Qed.

End AdaptiveAny.

Section AdaptiveSweep.
Context `{FloatOps}.
Variable ds : Dataset.
Hypothesis Hvalid : DatasetOps.Validate true ds = true.
Hypothesis Hsize : RelationOps.Size (R ds) + RelationOps.Size (S ds) <= 2 ^ 30.

(** Whatever the budget, an event of the first sweep of Framework III does
    to the weights and to the active sets what it does in Framework II,
    and it does not fail. *)
Lemma Adaptive_step_any cfg ctx budget_B w_small seed ep pre e suf st :
  ctx_ok ds ctx -> sweep_events ds = pre ++ e :: suf ->
  count_inv ds pre (two_pass_part st) ->
  match AB.Count_step cfg ctx budget_B w_small (count_start (sweep_events ds)) seed ep
          st (Z.of_nat (length pre), e) with
  | Done st' =>
      OursSamplingBaseline.Count_step ctx (two_pass_part st) (Z.of_nat (length pre), e)
      = Some (two_pass_part st')
  | Fail _ => False
  | Undef => True
  end.
Proof using Hvalid Hsize.
  intros Hctx Hsplit Hinv. pose proof Hinv as [Hact Hwa Hwb Hwt HW].
  cbn [two_pass_part OursSamplingBaseline.cs_ar OursSamplingBaseline.cs_as
       OursSamplingBaseline.cs_w_a OursSamplingBaseline.cs_w_b
       OursSamplingBaseline.cs_w_total OursSamplingBaseline.cs_W] in Hact, Hwa, Hwb, Hwt, HW.
  assert (e ∈ sweep_events ds) as He by (rewrite Hsplit, elem_of_app, elem_of_cons; tauto).
  apply elem_sweep_events in He as (sd & i & Hi & [-> | ->]); fold (n_of ds sd) in Hi.
  - (* START *)
    destruct (start_id_ok ds Hsize ctx pre _ suf Hctx Hsplit eq_refl)
      as (sid & Hsid & Hw32 & Hsr).
    destruct (Hact (other_side sd)) as (act & Hrep & Hmem).
    pose proof (rank_range ds Hvalid Hsize sd i Hi) as (Hr1 & Hr2 & Hr3).
    pose proof (idx_CountA _ _ _ _ _ _ (lo_rank ds sd i) Hrep ltac:(lia)) as HA.
    pose proof (idx_CountB _ _ _ _ _ _ (lo_rank ds sd i) (hi_rank ds sd i) Hrep
                  ltac:(lia)) as HB.
    destruct (sweep_query_ok ds Hvalid Hsize pre suf sd i _ _ Hsplit Hi Hact)
      as (wa & wb & HA' & HB' & Hwa0 & Hwb0 & Hsum).
    rewrite sweep_other_tree in HA', HB'. rewrite HA in HA'. rewrite HB in HB'.
    injection HA' as HA'. injection HB' as HB'.
    destruct (sweep_insert_ok ds Hvalid Hsize pre suf sd i _ _ Hsplit Hi Hact)
      as (ar' & as' & Hins & Hact').
    pose proof (new_pairs_bound ds Hsize pre sd i) as Hnb. rewrite <- Hsum in Hnb.
    pose proof (pairs_count_bound ds Hsize pre SideR) as Hpb.
    pose proof (count_start_le (sweep_events ds)) as Hcs.
    rewrite sweep_events_length in Hcs.
    assert (wrap64 (wa + wb) = wa + wb) as Hw64
      by (apply wrap64_small; change (2 ^ 64) with (2 ^ 34 * 2 ^ 30); lia).
    assert (AB.cs_W st + (wa + wb) < 2 ^ 64) as Hno.
    { change (2 ^ 64) with (2 ^ 4 * 2 ^ 60). change (2 ^ 60) with (2 ^ 30 * 2 ^ 30) in *.
      lia. }
    unfold AB.Count_step, OursSamplingBaseline.Count_step.
    cbn [ev_kind start_ev two_pass_part OursSamplingBaseline.cs_ar OursSamplingBaseline.cs_as
         OursSamplingBaseline.cs_w_a OursSamplingBaseline.cs_w_b
         OursSamplingBaseline.cs_w_total OursSamplingBaseline.cs_W].
    change (mkEvent (v0 (lo (box_at (rel_of ds sd) i))) Start sd (id_of (rel_of ds sd) i) i)
      with (start_ev (rel_of ds sd) sd i).
    rewrite Hsid. cbn [lift_opt mbind option_bind outcome_mbind outcome_bind]. rewrite Hw32.
    rewrite (wrap32_small (count_start (sweep_events ds)))
      by (change (2 ^ 32) with (4 * 2 ^ 30); lia).
    destruct (Z.leb_spec (count_start (sweep_events ds)) sid); [lia |].
    rewrite (query_ranks_ok ds ctx sd i Hctx Hi).
    cbn [lift_opt mbind option_bind outcome_mbind outcome_bind].
    rewrite sweep_other_tree, HA, HB.
    cbn [lift_opt mbind option_bind outcome_mbind outcome_bind].
    rewrite HA', HB', Hw64.
    rewrite (vset_is_Some (AB.cs_w_a st)) by lia.
    rewrite (vset_is_Some (AB.cs_w_b st)) by lia.
    rewrite (vset_is_Some (AB.cs_w_total st)) by lia.
    cbn [lift_opt mbind option_bind outcome_mbind outcome_bind].
    rewrite Hins. cbn [mbind option_bind].
    rewrite (wrap64_small (AB.cs_W st + (wa + wb))) by lia.
    assert (HWnew : (if 0 <? wa + wb
                     then if u64_max - (wa + wb) <? AB.cs_W st
                          then Fail "OursAdaptiveBaseline::Count: |J| overflowed u64"
                          else Done (AB.cs_W st + (wa + wb))
                     else Done (AB.cs_W st))
                    = Done (AB.cs_W st + (wa + wb))).
    { destruct (Z.ltb_spec 0 (wa + wb)).
      - unfold u64_max.
        destruct (Z.ltb_spec (18446744073709551615 - (wa + wb)) (AB.cs_W st));
          [| reflexivity].
        change (2 ^ 64) with 18446744073709551616 in Hno. lia.
      - f_equal. lia. }
    rewrite HWnew. cbn [mbind outcome_mbind outcome_bind].
    match goal with
    | |- context [AB.set_weights st ?a ?b ?c ?d ?f] => set (st1 := AB.set_weights st a b c d f)
    end.
    assert (Hbranch : forall o : outcome AB.count_state,
              match o with
              | Done st2 => two_pass_part st2 = two_pass_part st1
              | Fail _ => False
              | Undef => True
              end ->
              match (st2 ← o;
                     '(ar, as_) ← lift_opt (sweep_insert (start_ev (rel_of ds sd) sd i)
                                              (lo_rank ds sd i) (hi_rank ds sd i)
                                              (AB.cs_ar st2) (AB.cs_as st2));
                     Done (AB.set_actives st2 ar as_)) with
              | Done st' =>
                  Some (OursSamplingBaseline.mkCountState ar' as'
                          (<[Z.to_nat sid := wa]> (AB.cs_w_a st))
                          (<[Z.to_nat sid := wb]> (AB.cs_w_b st))
                          (<[Z.to_nat sid := wa + wb]> (AB.cs_w_total st))
                          (AB.cs_W st + (wa + wb)))
                  = Some (two_pass_part st')
              | Fail _ => False
              | Undef => True
              end).
    { intros [st2|msg|] Ho; cbn [mbind outcome_mbind outcome_bind];
        [| exact Ho | exact I].
      assert (Har : AB.cs_ar st2 = AB.cs_ar st)
        by (apply (f_equal OursSamplingBaseline.cs_ar) in Ho; exact Ho).
      assert (Has : AB.cs_as st2 = AB.cs_as st)
        by (apply (f_equal OursSamplingBaseline.cs_as) in Ho; exact Ho).
      rewrite Har, Has, Hins. cbn [lift_opt mbind outcome_mbind outcome_bind].
      f_equal. unfold two_pass_part in Ho |- *.
      cbn [AB.set_actives AB.cs_ar AB.cs_as AB.cs_w_a AB.cs_w_b AB.cs_w_total AB.cs_W].
      injection Ho as _ _ -> -> -> ->. subst st1.
      cbn [AB.set_weights AB.cs_w_a AB.cs_w_b AB.cs_w_total AB.cs_W]. reflexivity. }
    apply Hbranch.
    destruct (_ && _ && _ && _).
    + apply (full_cache_part budget_B _ _ _ _ _ _ _ _ wa wb (wa + wb) sid st1 Hrep);
        [lia | symmetry; exact HA' | symmetry; exact HB' | reflexivity | lia].
    + destruct (ep && (0 <? wa + wb)) eqn:Hep; [| reflexivity].
      apply andb_prop in Hep as [_ Hpos]. apply Z.ltb_lt in Hpos.
      apply (prefetch_part cfg budget_B _ _ seed _ _ _ _ _ _ _ _ wa wb (wa + wb) sid st1
               Hrep); [lia | symmetry; exact HA' | symmetry; exact HB' | exact Hpos].
  - (* END *)
    destruct (sweep_erase_ok ds Hvalid Hsize pre suf sd i _ _ Hsplit Hi Hact)
      as (ar' & as' & Her & Hact').
    unfold AB.Count_step, OursSamplingBaseline.Count_step.
    cbn [ev_kind end_ev two_pass_part OursSamplingBaseline.cs_ar OursSamplingBaseline.cs_as
         OursSamplingBaseline.cs_w_a OursSamplingBaseline.cs_w_b
         OursSamplingBaseline.cs_w_total OursSamplingBaseline.cs_W].
    change (mkEvent (v0 (hi (box_at (rel_of ds sd) i))) End sd (id_of (rel_of ds sd) i) i)
      with (end_ev (rel_of ds sd) sd i).
    rewrite Her. cbn [lift_opt mbind option_bind outcome_mbind outcome_bind]. reflexivity.
Qed.

Lemma Adaptive_fold_any cfg ctx budget_B w_small seed ep :
  ctx_ok ds ctx -> forall suf pre st,
  sweep_events ds = pre ++ suf ->
  count_inv ds pre (two_pass_part st) ->
  match outfold (AB.Count_step cfg ctx budget_B w_small (count_start (sweep_events ds))
                   seed ep)
          (zip (seqZ (Z.of_nat (length pre)) (Z.of_nat (length suf))) suf) st with
  | Done st' =>
      ofold (OursSamplingBaseline.Count_step ctx)
        (zip (seqZ (Z.of_nat (length pre)) (Z.of_nat (length suf))) suf) (two_pass_part st)
      = Some (two_pass_part st')
      /\ count_inv ds (sweep_events ds) (two_pass_part st')
  | Fail _ => False
  | Undef => True
  end.
Proof using Hvalid Hsize.
  intros Hctx. induction suf as [|e suf IH]; intros pre st Hsplit Hinv.
  - cbn [length zip zip_with seqZ outfold ofold]. split; [reflexivity |].
    rewrite Hsplit, app_nil_r. exact Hinv.
  - cbn [length]. rewrite seqZ_cons_S. cbn [zip zip_with ofold outfold].
    pose proof (Adaptive_step_any cfg ctx budget_B w_small seed ep pre e suf st
                  Hctx Hsplit Hinv) as Hstep.
    destruct (AB.Count_step cfg ctx budget_B w_small (count_start (sweep_events ds)) seed ep
                st (Z.of_nat (length pre), e)) as [st1|msg|];
      cbn [mbind outcome_mbind outcome_bind]; [| exact Hstep | exact I].
    destruct (Count_step_ok ds Hvalid Hsize ctx pre e suf _ Hctx Hsplit Hinv)
      as (s1 & Hs1 & Hinv1).
    rewrite Hstep in Hs1 |- *. injection Hs1 as <-. cbn [mbind option_bind].
    specialize (IH (pre ++ [e]) st1).
    rewrite length_app in IH. cbn [length] in IH.
    replace (Z.of_nat (length pre + 1)) with (Z.of_nat (length pre) + 1) in IH by lia.
    apply IH; [rewrite <- app_assoc; exact Hsplit | exact Hinv1].
Qed.

(** The two-pass driver that stands where the adaptive one stands. *)
Definition two_pass_of (b : AB.t) : OursSamplingBaseline.t :=
  OursSamplingBaseline.mk (AB.built_ b) (AB.ctx_ b) (AB.w_total_ b) (AB.w_a_ b) (AB.w_b_ b)
    0 false.

Lemma Adaptive_Count_any b cfg g :
  adaptive_ok ds b ->
  match AB.Count b cfg g with
  | Done (c, b', g') =>
      exists bS',
        OursSamplingBaseline.Count (two_pass_of b) cfg = Done (c, bS')
        /\ c = MakeExactCount (CountNaive (R ds) (S ds))
        /\ AB.W_ b' = CountNaive (R ds) (S ds)
        /\ AB.w_total_ b' = OursSamplingBaseline.w_total_ bS'
        /\ AB.w_a_ b' = OursSamplingBaseline.w_a_ bS'
        /\ AB.w_b_ b' = OursSamplingBaseline.w_b_ bS'
        /\ AB.weights_valid_ b' = true /\ AB.cache_valid_ b' = true
        /\ AB.budget_B_ b' = ExtraU64Or cfg "budget" (run_j_star cfg)
        /\ g' = (if (0 <? ExtraU64Or cfg "budget" (run_j_star cfg)) && (0 <? run_t cfg)
                 then snd (RngOps.NextU64 g) else g)
        /\ adaptive_ok ds b'
  | Fail _ => False
  | Undef => True
  end.
Proof using Hvalid Hsize.
  intros [Hb Hctx Hwt Hwa Hwb].
  unfold AB.Count, OursSamplingBaseline.Count, two_pass_of.
  cbn [OursSamplingBaseline.built_ OursSamplingBaseline.ctx_ OursSamplingBaseline.w_a_
       OursSamplingBaseline.w_b_ OursSamplingBaseline.w_total_].
  rewrite Hb, (co_built ds _ Hctx), (co_ds ds _ Hctx). cbn [negb orb].
  rewrite bool_decide_eq_true_2 by (eexists; reflexivity). cbn [negb]. cbv zeta.
  rewrite Hwt.
  pose proof (ctx_ok_ResetActive' ds _ Hctx) as Hctx'.
  set (ctx' := Ours2DContext.ResetActive (AB.ctx_ b)) in *.
  set (budget := ExtraU64Or cfg "budget" (run_j_star cfg)).
  set (ep := (0 <? budget) && (0 <? run_t cfg)).
  destruct (if ep then RngOps.NextU64 g else (0, g)) as [seed g1] eqn:Hseed.
  rewrite (co_events ds _ Hctx'). unfold with_pos, upto.
  match goal with
  | |- context [outfold _ _ ?s0] =>
      pose proof (Adaptive_fold_any cfg ctx' budget (ExtraU64Or cfg "w_small" 0) seed ep
                    Hctx' (sweep_events ds) [] s0 eq_refl) as Hfold
  end.
  cbn [length] in Hfold. change (Z.of_nat 0) with 0 in Hfold.
  match type of Hfold with
  | ?P -> _ => assert (Hinit : P)
  end.
  { constructor; cbn [two_pass_part AB.cs_ar AB.cs_as AB.cs_w_a AB.cs_w_b AB.cs_w_total
        AB.cs_W OursSamplingBaseline.cs_ar OursSamplingBaseline.cs_as
        OursSamplingBaseline.cs_w_a OursSamplingBaseline.cs_w_b
        OursSamplingBaseline.cs_w_total OursSamplingBaseline.cs_W];
      rewrite ?length_map; try assumption.
    - apply (actives_ok_nil ds _ Hctx).
    - symmetry. apply pairs_count_nil. }
  specialize (Hfold Hinit).
  destruct (outfold _ _ _) as [st'|msg|]; cbn [mbind outcome_mbind outcome_bind];
    [| exact Hfold | exact I].
  destruct Hfold as [Hfs Hinv]. unfold two_pass_part at 1 in Hfs.
  cbn [AB.cs_ar AB.cs_as AB.cs_w_a AB.cs_w_b AB.cs_w_total AB.cs_W] in Hfs.
  rewrite Hfs. cbn [lift_opt mbind outcome_mbind outcome_bind].
  pose proof Hinv as [Hact' Hwa' Hwb' Hwt' HW].
  rewrite (pairs_count_all ds Hsize) in HW.
  cbn [two_pass_part OursSamplingBaseline.cs_W OursSamplingBaseline.cs_w_a
       OursSamplingBaseline.cs_w_b OursSamplingBaseline.cs_w_total
       OursSamplingBaseline.cs_ar OursSamplingBaseline.cs_as] in HW, Hact', Hwa', Hwb', Hwt'
    |- *.
  rewrite HW. eexists. split; [reflexivity |].
  cbn [AB.W_ AB.w_total_ AB.w_a_ AB.w_b_ AB.weights_valid_ AB.cache_valid_ AB.budget_B_
       OursSamplingBaseline.w_total_ OursSamplingBaseline.w_a_ OursSamplingBaseline.w_b_].
  repeat (split; [reflexivity |]).
  split.
  - subst ep. destruct ((0 <? budget) && (0 <? run_t cfg)).
    + rewrite Hseed. reflexivity.
    + injection Hseed as _ <-. reflexivity.
  - constructor; cbn [AB.built_ AB.ctx_ AB.w_total_ AB.w_a_ AB.w_b_]; try assumption;
      try reflexivity.
    apply ctx_ok_ResetActive; [exact Hctx' | |].
    + destruct (Hact' SideR) as (a1 & Ha1 & _). exists a1. exact Ha1.
    + destruct (Hact' SideS) as (a2 & Ha2 & _). exists a2. exact Ha2.
Qed.

End AdaptiveSweep.


(** A budget of 100 partners, with every event of at most 10 partners
    cached in full. *)
Definition cfg_budget : Config :=
  mkConfig 8 0 (fun key => if String.eqb key "budget" then Some 100
                           else if String.eqb key "w_small" then Some 10 else None).


(** * The cache of Framework III *)

(** ** Lists *)

Lemma removelast_elem {A} (l : list A) x : x ∈ removelast l -> x ∈ l.
Proof.
  induction l as [|a l IH]; [intros Hx; exact Hx |].
  destruct l as [|b l]; [intros Hx; inversion Hx |].
  change (removelast (a :: b :: l)) with (a :: removelast (b :: l)).
  intros [-> | Hx]%elem_of_cons; [left | right; apply IH; exact Hx].
Qed.

Lemma take_drop_app_prefix {A} (l k : list A) (off len : nat) :
  (off + len <= length l)%nat ->
  take len (drop off (l ++ k)) = take len (drop off l).
Proof.
  intros Hl. rewrite drop_app_le by lia. apply take_app_le.
  rewrite length_drop. lia.
Qed.

(** Two places of a list: the earlier one lies inside the prefix of the
    later one. *)
Lemma split_earlier {A} (p1 p2 s1 s2 : list A) a1 a2 :
  p1 ++ a1 :: s1 = p2 ++ a2 :: s2 -> (length p1 < length p2)%nat ->
  exists mid, p2 = p1 ++ a1 :: mid.
Proof.
  intros Heq Hlt. exists (take (length p2 - Datatypes.S (length p1)) s1).
  assert (Hp2 : p2 = take (length p2) (p1 ++ a1 :: s1)).
  { rewrite Heq, take_app_length. reflexivity. }
  rewrite Hp2 at 1. rewrite take_app_ge by lia. f_equal.
  replace (length p2 - length p1)%nat
    with (Datatypes.S (length p2 - Datatypes.S (length p1))) by lia.
  reflexivity.
Qed.

Section AdaptiveCache.
Context `{FloatOps}.
Variable ds : Dataset.
Hypothesis Hvalid : DatasetOps.Validate true ds = true.
Hypothesis Hsize : RelationOps.Size (R ds) + RelationOps.Size (S ds) <= 2 ^ 30.

(** ** The partners of a START event *)

(** The rectangles of the other side that started in [pre] and intersect
    rectangle [i] of side [sd], in index order. *)
Definition partner_list (pre : list Event) (sd : Side) (i : Z) : list Z :=
  filter (fun j => started ds pre (other_side sd) j && isect ds sd i j = true)
         (seqZ 0 (n_of ds (other_side sd))).

Lemma elem_partner_list pre sd i j : j ∈ partner_list pre sd i <-> found ds pre sd i j.
Proof using Type.
  unfold partner_list, found. rewrite list_elem_of_filter, elem_of_seqZ, andb_true_iff.
  split; [intros [[Hs Hx] Hj] | intros [Hj [Hs Hx]]]; repeat split; try assumption; lia.
Qed.

Lemma NoDup_partner_list pre sd i : NoDup (partner_list pre sd i).
Proof using Type. apply NoDup_filter, NoDup_seqZ. Qed.

(** What [ReportA] and [ReportB] append at a START event is the list of
    its partners. *)
Lemma report_partner_list pre suf sd i act hsA hsB :
  sweep_events ds = pre ++ start_ev (rel_of ds sd) sd i :: suf ->
  0 <= i < n_of ds sd ->
  NoDup act ->
  (forall j, j ∈ act <-> 0 <= j < n_of ds (other_side sd)
                         /\ active ds pre (other_side sd) j = true) ->
  hsA ≡ₚ filter (fun h => lo_rank ds (other_side sd) h <= lo_rank ds sd i
                          < hi_rank ds (other_side sd) h) act ->
  hsB ≡ₚ filter (fun h => lo_rank ds sd i < lo_rank ds (other_side sd) h
                          < hi_rank ds sd i) act ->
  hsA ++ hsB ≡ₚ partner_list pre sd i.
Proof using Hvalid Hsize.
  intros Hsplit Hi Hnd Hact HA HB.
  apply NoDup_Permutation.
  - apply NoDup_app. split; [rewrite HA; apply NoDup_filter; exact Hnd |].
    split; [| rewrite HB; apply NoDup_filter; exact Hnd].
    intros j Ha Hb. rewrite HA in Ha. rewrite HB in Hb.
    apply list_elem_of_filter in Ha as [Ha _]. apply list_elem_of_filter in Hb as [Hb _]. lia.
  - apply NoDup_partner_list.
  - intros j. rewrite elem_of_app, HA, HB, !list_elem_of_filter, elem_partner_list.
    split.
    + intros Hj.
      assert (Hin : j ∈ act) by tauto.
      apply Hact in Hin as [Hr Ha].
      destruct (rank_found ds Hvalid Hsize pre suf sd i j Hsplit Hi Hr Ha) as [Hiff _].
      unfold rankA, rankB in Hiff.
      split; [exact Hr |]. split; [| apply Hiff; tauto].
      unfold active in Ha. apply andb_prop in Ha as [Ha _]. exact Ha.
    + intros Hf. pose proof Hf as (Hr & Hs & Hx).
      pose proof (found_active ds Hvalid pre suf sd i j Hsplit Hi Hf) as Ha.
      destruct (rank_found ds Hvalid Hsize pre suf sd i j Hsplit Hi Hr Ha) as [Hiff _].
      unfold rankA, rankB in Hiff.
      assert (Hin : j ∈ act) by (apply Hact; split; assumption).
      apply Hiff in Hx. tauto.
Qed.

(** ** The START event of an id *)

(** The START event of rectangle [i] of side [sd] comes after the events
    [pre], and its id is [sid]. *)
Definition start_of (sid : Z) (pre : list Event) (sd : Side) (i : Z) : Prop :=
  (exists suf, sweep_events ds = pre ++ start_ev (rel_of ds sd) sd i :: suf)
  /\ count_start pre = sid.

Lemma start_of_unique sid pre sd i pre' sd' i' :
  start_of sid pre sd i -> start_of sid pre' sd' i' -> pre' = pre /\ sd' = sd /\ i' = i.
Proof using Type.
  intros [[suf Hs] Hc] [[suf' Hs'] Hc'].
  assert (Hlen : length pre = length pre').
  { destruct (Nat.lt_trichotomy (length pre) (length pre')) as [Hlt | [Heq | Hlt]];
      [| exact Heq |].
    - destruct (split_earlier pre pre' suf suf' _ _ ltac:(rewrite <- Hs; exact Hs') Hlt)
        as [mid ->].
      pose proof (count_start_prefix pre (start_ev (rel_of ds sd) sd i) mid eq_refl). lia.
    - destruct (split_earlier pre' pre suf' suf _ _ ltac:(rewrite <- Hs'; exact Hs) Hlt)
        as [mid ->].
      pose proof (count_start_prefix pre' (start_ev (rel_of ds sd') sd' i') mid eq_refl). lia. }
  rewrite Hs in Hs'. apply app_inj_1 in Hs' as [-> Heq]; [| exact Hlen].
  injection Heq as _ -> _ ->. repeat split.
Qed.

(** ** The map from ids to rectangles that [Build] fills *)

Definition start_map_ok (ss : list Side) (si : list Z) (pre : list Event) : Prop :=
  forall pre' sd i suf', pre = pre' ++ start_ev (rel_of ds sd) sd i :: suf' ->
    vget ss (count_start pre') = Some sd /\ vget si (count_start pre') = Some i.

Lemma start_map_step_ok ctx pre e suf ss si ss' si' :
  ctx_ok ds ctx -> sweep_events ds = pre ++ e :: suf ->
  start_map_ok ss si pre ->
  AB.start_map_step ctx (count_start (sweep_events ds)) (ss, si) (Z.of_nat (length pre), e)
  = Some (ss', si') ->
  start_map_ok ss' si' (pre ++ [e]).
Proof using Hsize.
  intros Hctx Hsplit Hok Hstep.
  assert (e ∈ sweep_events ds) as He by (rewrite Hsplit, elem_of_app, elem_of_cons; tauto).
  apply elem_sweep_events in He as (sd & i & Hi & [-> | ->]).
  - (* START *)
    destruct (start_id_eq ds Hsize ctx pre _ suf Hctx Hsplit eq_refl)
      as (Hsid & Hw32 & Hsr & H31).
    unfold AB.start_map_step in Hstep. cbn [ev_kind start_ev ev_side ev_index] in Hstep.
    change (mkEvent (v0 (lo (box_at (rel_of ds sd) i))) Start sd (id_of (rel_of ds sd) i) i)
      with (start_ev (rel_of ds sd) sd i) in Hstep.
    rewrite Hsid in Hstep. cbn [mbind option_bind] in Hstep. rewrite Hw32 in Hstep.
    rewrite (wrap32_small (count_start (sweep_events ds))) in Hstep
      by (change (2 ^ 32) with (2 * 2 ^ 31); lia).
    destruct (Z.ltb_spec (count_start pre) (count_start (sweep_events ds))); [| lia].
    pose proof (size_rel ds Hsize sd) as Hsz.
    rewrite (wrap32_small i) in Hstep by (change (2 ^ 32) with (4 * 2 ^ 30); lia).
    destruct (vset ss (count_start pre) sd) as [ss1|] eqn:Hss; [| discriminate].
    cbn [mbind option_bind] in Hstep.
    destruct (vset si (count_start pre) i) as [si1|] eqn:Hsi; [| discriminate].
    cbn [mbind option_bind] in Hstep. injection Hstep as <- <-.
    intros pre' sd' i' suf' Heq.
    apply snoc_split in Heq as [(_ & -> & Heq) | (suf'' & _ & ->)].
    + apply (start_ev_inj ds) in Heq as [-> ->].
      split; eapply vget_vset_eq; eassumption.
    + destruct (Hok pre' sd' i' suf'' eq_refl) as [H1 H2].
      pose proof (count_start_prefix pre' (start_ev (rel_of ds sd') sd' i') suf'' eq_refl)
        as Hlt.
      rewrite (vget_vset_ne _ _ _ _ _ Hss) by lia.
      rewrite (vget_vset_ne _ _ _ _ _ Hsi) by lia. split; assumption.
  - (* END *)
    unfold AB.start_map_step in Hstep. cbn [ev_kind end_ev] in Hstep.
    injection Hstep as <- <-.
    intros pre' sd' i' suf' Heq.
    apply snoc_split in Heq as [(_ & _ & Heq) | (suf'' & _ & ->)]; [discriminate |].
    apply (Hok pre' sd' i' suf'' eq_refl).
Qed.

Lemma start_map_fold ctx : ctx_ok ds ctx -> forall suf pre ss si ss' si',
  sweep_events ds = pre ++ suf ->
  start_map_ok ss si pre ->
  ofold (AB.start_map_step ctx (count_start (sweep_events ds)))
    (zip (seqZ (Z.of_nat (length pre)) (Z.of_nat (length suf))) suf) (ss, si)
  = Some (ss', si') ->
  start_map_ok ss' si' (sweep_events ds).
Proof using Hsize.
  intros Hctx. induction suf as [|e suf IH]; intros pre ss si ss' si' Hsplit Hok Hf.
  - cbn [length zip zip_with ofold] in Hf. injection Hf as <- <-.
    rewrite Hsplit, app_nil_r. exact Hok.
  - cbn [length] in Hf. rewrite seqZ_cons_S in Hf. cbn [zip zip_with ofold] in Hf.
    destruct (AB.start_map_step _ _ (ss, si) _) as [[ss1 si1]|] eqn:Hstep; [| discriminate].
    cbn [mbind option_bind] in Hf.
    apply (IH (pre ++ [e]) ss1 si1 ss' si').
    + rewrite <- app_assoc. exact Hsplit.
    + apply (start_map_step_ok ctx pre e suf ss si ss1 si1 Hctx Hsplit Hok Hstep).
    + rewrite length_app. cbn [length].
      replace (Z.of_nat (length pre + 1)) with (Z.of_nat (length pre) + 1) by lia.
      exact Hf.
Qed.

Lemma Adaptive_Build_map a0 cfg b :
  AB.Build a0 ds cfg = Done b ->
  start_map_ok (AB.start_side_ b) (AB.start_index_ b) (sweep_events ds).
Proof using Hvalid Hsize.
  intros Hb. unfold AB.Build in Hb. cbn [AB.Reset AB.ctx_] in Hb.
  destruct (Build_cases ds Hvalid Hsize (Ours2DContext.Reset (AB.ctx_ a0)))
    as [[_ Hf] | [_ (ctx & Hc & Hctx)]].
  { rewrite Hf in Hb. discriminate. }
  rewrite Hc in Hb. cbn [mbind outcome_mbind outcome_bind] in Hb.
  rewrite (num_start_events_ok ds ctx Hctx), (co_events ds ctx Hctx) in Hb.
  unfold with_pos, upto in Hb.
  destruct (ofold _ _ _) as [[ss si]|] eqn:Hf; [| discriminate].
  cbn [lift_opt mbind outcome_mbind outcome_bind] in Hb. injection Hb as <-.
  cbn [AB.start_side_ AB.start_index_].
  eapply (start_map_fold ctx Hctx (sweep_events ds) [] _ _ ss si eq_refl); [| exact Hf].
  intros pre' sd i suf' Heq. destruct pre'; discriminate.
Qed.

(** ** What the first sweep caches *)

(** Every prefetched list of [pp'] is part of the list [pp] has for the
    same id. *)
Definition pp_sub (pp' pp : list (list Z)) : Prop :=
  forall sid pref', vget pp' sid = Some pref' ->
    exists pref, vget pp sid = Some pref /\ forall oh, oh ∈ pref' -> oh ∈ pref.

Lemma pp_sub_refl pp : pp_sub pp pp.
Proof using Type. intros sid pref Hg. exists pref. split; [exact Hg | tauto]. Qed.

Lemma pp_sub_trans a b c : pp_sub a b -> pp_sub b c -> pp_sub a c.
Proof using Type.
  intros Hab Hbc sid pa Ha. destruct (Hab sid pa Ha) as (pb & Hb & Hsub).
  destruct (Hbc sid pb Hb) as (pc & Hc & Hsub'). exists pc. split; [exact Hc |].
  intros oh Hoh. apply Hsub', Hsub, Hoh.
Qed.

Lemma drop_kept_sub popped keep pp keep' pp' :
  AB.drop_kept popped keep pp = Some (keep', pp') -> pp_sub pp' pp.
Proof using Type.
  unfold AB.drop_kept. intros Hd.
  destruct (slot_sid popped <? Z.of_nat (length keep));
    [| injection Hd as _ <-; apply pp_sub_refl].
  destruct (vget keep (slot_sid popped)) as [kj|]; [| discriminate].
  cbn [mbind option_bind] in Hd.
  destruct (0 <? kj); [| injection Hd as _ <-; apply pp_sub_refl].
  destruct (vset keep (slot_sid popped) _) as [keep1|]; [| discriminate].
  cbn [mbind option_bind] in Hd.
  destruct (vget pp (slot_sid popped)) as [pj|] eqn:Hpj; [| discriminate].
  cbn [mbind option_bind] in Hd.
  destruct (Nat.eqb (length pj) 0).
  - cbn [mbind option_bind] in Hd. injection Hd as _ <-. apply pp_sub_refl.
  - destruct (vset pp (slot_sid popped) (removelast pj)) as [pp1|] eqn:Hset; [| discriminate].
    cbn [mbind option_bind] in Hd. injection Hd as _ <-.
    intros sid pref' Hg. rewrite (vget_vset _ _ _ _ sid Hset) in Hg.
    case_bool_decide as E.
    + injection Hg as <-. subst sid. exists pj. split; [exact Hpj |].
      intros oh. apply removelast_elem.
    + exists pref'. split; [exact Hg | tauto].
Qed.

Lemma shrink_heap_sub : forall fuel B_samp heap keep pp heap' keep' pp',
  AB.shrink_heap fuel B_samp heap keep pp = Some (heap', keep', pp') -> pp_sub pp' pp.
Proof using Type.
  induction fuel as [|fuel IH]; intros B_samp heap keep pp heap' keep' pp' Hs;
    [discriminate |].
  cbn [AB.shrink_heap] in Hs.
  destruct (B_samp <? PrefetchHeap.Size heap); [| injection Hs as _ _ <-; apply pp_sub_refl].
  destruct (PrefetchHeap.PopMin heap) as [[popped heap1]|]; [| discriminate].
  cbn [mbind option_bind] in Hs.
  destruct (AB.drop_kept popped keep pp) as [[keep1 pp1]|] eqn:Hd; [| discriminate].
  cbn [mbind option_bind] in Hs.
  eapply pp_sub_trans; [eapply IH; exact Hs | eapply drop_kept_sub; exact Hd].
Qed.

Lemma prefetch_offer_sub w E i W_sofar t sid B_samp :
  forall fuel heap keep pp heap' keep' pp',
  AB.prefetch_offer fuel w E i W_sofar t sid B_samp heap keep pp = Some (heap', keep', pp') ->
  pp_sub pp' pp.
Proof using Type.
  induction fuel as [|fuel IH]; intros heap keep pp heap' keep' pp' Hs; [discriminate |].
  cbn [AB.prefetch_offer] in Hs.
  destruct (vget keep sid) as [kp|]; [| discriminate]. cbn [mbind option_bind] in Hs.
  destruct (PrefetchHeap.Size heap <? B_samp).
  - destruct (vincr keep sid) as [keep1|]; [| discriminate]. cbn [mbind option_bind] in Hs.
    eapply IH. exact Hs.
  - destruct (match PrefetchHeap.MinScore heap with
              | Some m => f_ltb m _
              | None => true
              end); [| injection Hs as _ _ <-; apply pp_sub_refl].
    destruct (vincr keep sid) as [keep1|]; [| discriminate]. cbn [mbind option_bind] in Hs.
    destruct (PrefetchHeap.PopMin _) as [[popped heap1]|]; [| discriminate].
    cbn [mbind option_bind] in Hs.
    destruct (AB.drop_kept popped keep1 pp) as [[keep2 pp1]|] eqn:Hd; [| discriminate].
    cbn [mbind option_bind] in Hs.
    eapply pp_sub_trans; [eapply IH; exact Hs | eapply drop_kept_sub; exact Hd].
Qed.

Lemma interleave_elem : forall pat sampA sampB l,
  AB.interleave pat sampA sampB = Some l -> forall x, x ∈ l -> x ∈ sampA \/ x ∈ sampB.
Proof using Type.
  induction pat as [|p pat IH]; intros sampA sampB l Hi x Hx.
  - injection Hi as <-. inversion Hx.
  - cbn [AB.interleave] in Hi. destruct (p =? 0).
    + destruct sampA as [|a sampA]; [discriminate |].
      destruct (AB.interleave pat sampA sampB) as [rest|] eqn:Hr; [| discriminate].
      cbn [mbind option_bind] in Hi. injection Hi as <-.
      apply elem_of_cons in Hx as [-> | Hx]; [left; left |].
      destruct (IH _ _ _ Hr x Hx) as [Hin | Hin]; [left; right; exact Hin | right; exact Hin].
    + destruct sampB as [|b sampB]; [discriminate |].
      destruct (AB.interleave pat sampA sampB) as [rest|] eqn:Hr; [| discriminate].
      cbn [mbind option_bind] in Hi. injection Hi as <-.
      apply elem_of_cons in Hx as [-> | Hx]; [right; left |].
      destruct (IH _ _ _ Hr x Hx) as [Hin | Hin]; [left; exact Hin | right; right; exact Hin].
Qed.

(** The prefetched samples of an event are active handles that pass the
    rank test of pattern A or of pattern B. *)
Lemma prefetch_samples_elem other nh m act lo hi q_lo q_hi wa wb sid s seed dst :
  idx_rep other nh m act lo hi -> 0 <= q_lo < m ->
  AB.prefetch_samples other q_lo q_hi wa wb sid s seed = Done dst ->
  forall oh, oh ∈ dst ->
    oh ∈ act /\ (lo oh <= q_lo < hi oh \/ q_lo < lo oh < q_hi).
Proof using Type.
  intros Hrep Hq Hp. unfold AB.prefetch_samples in Hp. cbv zeta in Hp.
  destruct (AB.prefetch_patterns wa wb s _) as [[[pat kA] kB]|];
    cbn [lift_opt mbind outcome_mbind outcome_bind] in Hp; [| discriminate].
  match type of Hp with
  | context [DeriveSeed (DeriveSeed3 ?a ?b ?c) 2] =>
      set (g0 := RngOps.Seed (DeriveSeed (DeriveSeed3 a b c) 2)) in Hp
  end.
  assert (HSA : forall g sampA g1,
            (if 0 <? kA then
               '(ok, sampA, g0) ← lift_opt (ActiveIndex2D.SampleA other q_lo kA g);
               if negb ok || negb (Z.of_nat (length sampA) =? kA)
               then Fail "OursAdaptiveBaseline::Count: prefetch SampleA failed"
               else Done (sampA, g0)
             else Done ([], g)) = Done (sampA, g1) ->
            forall oh, oh ∈ sampA -> oh ∈ act /\ lo oh <= q_lo < hi oh).
  { intros g sampA g1 Hs. destruct (Z.ltb_spec 0 kA) as [Hk|Hk].
    2:{ injection Hs as <- _. intros oh Hoh. inversion Hoh. }
    pose proof (idx_SampleA _ _ _ _ _ _ q_lo kA g Hrep ltac:(lia) ltac:(lia)) as Hpost.
    destruct (ActiveIndex2D.SampleA other q_lo kA g) as [[[ok out] g2]|];
      cbn [lift_opt mbind outcome_mbind outcome_bind] in Hs; [| discriminate].
    cbn [sample_post] in Hpost. destruct ok; cbn [negb orb] in Hs; [| discriminate].
    destruct (negb _); [discriminate |]. injection Hs as <- _.
    destruct Hpost as (_ & _ & Hin). intros oh Hoh. apply Hin in Hoh.
    apply list_elem_of_filter in Hoh. tauto. }
  assert (HSB : forall g sampB g1,
            (if 0 <? kB then
               '(ok, sampB, g0) ← lift_opt (ActiveIndex2D.SampleB other q_lo q_hi kB g);
               if negb ok || negb (Z.of_nat (length sampB) =? kB)
               then Fail "OursAdaptiveBaseline::Count: prefetch SampleB failed"
               else Done (sampB, g0)
             else Done ([], g)) = Done (sampB, g1) ->
            forall oh, oh ∈ sampB -> oh ∈ act /\ q_lo < lo oh < q_hi).
  { intros g sampB g1 Hs. destruct (Z.ltb_spec 0 kB) as [Hk|Hk].
    2:{ injection Hs as <- _. intros oh Hoh. inversion Hoh. }
    pose proof (idx_SampleB _ _ _ _ _ _ q_lo q_hi kB g Hrep Hq ltac:(lia)) as Hpost.
    destruct (ActiveIndex2D.SampleB other q_lo q_hi kB g) as [[[ok out] g2]|];
      cbn [lift_opt mbind outcome_mbind outcome_bind] in Hs; [| discriminate].
    cbn [sample_post] in Hpost. destruct ok; cbn [negb orb] in Hs; [| discriminate].
    destruct (negb _); [discriminate |]. injection Hs as <- _.
    destruct Hpost as (_ & _ & Hin). intros oh Hoh. apply Hin in Hoh.
    apply list_elem_of_filter in Hoh. tauto. }
  specialize (HSA g0).
  destruct (if 0 <? kA then _ else _) as [[sampA g1]| |];
    cbn [mbind outcome_mbind outcome_bind] in Hp; [| discriminate ..].
  specialize (HSA sampA g1 eq_refl). specialize (HSB g1).
  destruct (if 0 <? kB then _ else _) as [[sampB g2]| |];
    cbn [mbind outcome_mbind outcome_bind] in Hp; [| discriminate ..].
  specialize (HSB sampB g2 eq_refl).
  destruct (AB.interleave pat sampA sampB) as [l|] eqn:Hi;
    cbn [lift_opt] in Hp; [| discriminate].
  injection Hp as <-. intros oh Hoh.
  destruct (interleave_elem _ _ _ _ Hi oh Hoh) as [Hin | Hin].
  - destruct (HSA oh Hin). tauto.
  - destruct (HSB oh Hin). tauto.
Qed.

(** The cache: the partner list of every event that is marked as cached
    is its slice of [cache_partners], and a prefetched sample of an event
    is one of its partners. *)
Record cache_ok (cached cache_off cache_len cache_partners : list Z)
    (pp : list (list Z)) : Prop := mk_cache_ok {
  ck_cached : forall sid c, vget cached sid = Some c -> c <> 0 ->
    exists pre sd i off len,
      start_of sid pre sd i /\ 0 <= i < n_of ds sd
      /\ vget cache_off sid = Some off /\ vget cache_len sid = Some len
      /\ 0 <= off /\ 0 < len /\ off + len <= Z.of_nat (length cache_partners)
      /\ take (Z.to_nat len) (drop (Z.to_nat off) cache_partners) ≡ₚ partner_list pre sd i;
  ck_pref : forall sid pref oh, vget pp sid = Some pref -> oh ∈ pref ->
    exists pre sd i, start_of sid pre sd i /\ 0 <= i < n_of ds sd /\ found ds pre sd i oh
}.

Definition cache_ok_st (st : AB.count_state) : Prop :=
  cache_ok (AB.cs_cached st) (AB.cs_cache_off st) (AB.cs_cache_len st)
    (AB.cs_cache_partners st) (AB.cs_prefetch_partners st).

Definition cache_ok_b (b : AB.t) : Prop :=
  cache_ok (AB.cached_ b) (AB.cache_off_ b) (AB.cache_len_ b)
    (AB.cache_partners_ b) (AB.prefetch_partners_ b).

Lemma cache_ok_pp_sub cached cache_off cache_len cache_partners pp pp' :
  cache_ok cached cache_off cache_len cache_partners pp -> pp_sub pp' pp ->
  cache_ok cached cache_off cache_len cache_partners pp'.
Proof using Type.
  intros [Hc Hp] Hsub. constructor; [exact Hc |].
  intros sid pref' oh Hg Hoh. destruct (Hsub sid pref' Hg) as (pref & Hg' & Hin).
  apply (Hp sid pref oh Hg'). apply Hin. exact Hoh.
Qed.

Lemma partner_list_bound pre sd i : Z.of_nat (length (partner_list pre sd i)) <= 2 ^ 30.
Proof using Hsize.
  unfold partner_list.
  pose proof (length_filter (fun j => started ds pre (other_side sd) j && isect ds sd i j = true)
                (seqZ 0 (n_of ds (other_side sd)))) as Hl.
  rewrite length_seqZ in Hl. pose proof (size_rel ds Hsize (other_side sd)) as Hn.
  fold (n_of ds (other_side sd)) in Hn. lia.
Qed.

(** The full-cache branch of a START event. *)
Lemma full_cache_cache budget_B other act pre suf sd i w st :
  sweep_events ds = pre ++ start_ev (rel_of ds sd) sd i :: suf ->
  0 <= i < n_of ds sd ->
  idx_rep other (n_of ds (other_side sd)) (m_dom ds) act
    (lo_rank ds (other_side sd)) (hi_rank ds (other_side sd)) ->
  (forall j, j ∈ act <-> 0 <= j < n_of ds (other_side sd)
                         /\ active ds pre (other_side sd) j = true) ->
  0 < w ->
  cache_ok_st st ->
  match AB.full_cache budget_B other (lo_rank ds sd i) (hi_rank ds sd i) w
          (count_start pre) st with
  | Done st' =>
      cache_ok_st st'
      /\ Z.of_nat (length (AB.cs_cache_partners st'))
         = Z.of_nat (length (AB.cs_cache_partners st)) + w
      /\ AB.cs_W st' = AB.cs_W st
  | _ => True
  end.
Proof using Hvalid Hsize.
  intros Hsplit Hi Hrep Hmem Hw [Hc Hp]. unfold AB.full_cache.
  pose proof (rank_range ds Hvalid Hsize sd i Hi) as (Hr1 & Hr2 & Hr3).
  destruct (vset (AB.cs_cached st) (count_start pre) 1) as [cached|] eqn:Hs1;
    cbn [lift_opt mbind outcome_mbind outcome_bind]; [| exact I].
  destruct (vset (AB.cs_cache_off st) (count_start pre) _) as [cache_off|] eqn:Hs2;
    cbn [lift_opt mbind outcome_mbind outcome_bind]; [| exact I].
  destruct (idx_ReportA _ _ _ _ _ _ (lo_rank ds sd i) [] Hrep ltac:(lia)) as (hsA & -> & HpA).
  destruct (idx_ReportB _ _ _ _ _ _ (lo_rank ds sd i) (hi_rank ds sd i) [] Hrep ltac:(lia))
    as (hsB & -> & HpB).
  cbn [lift_opt mbind outcome_mbind outcome_bind app].
  assert (Hnd : NoDup act).
  { destruct Hrep as [_ _ _ _ [k Hpr]]. apply (pr_nodup _ _ _ _ _ _ Hpr). }
  pose proof (report_partner_list pre suf sd i act hsA hsB Hsplit Hi Hnd Hmem HpA HpB) as Hperm.
  pose proof (partner_list_bound pre sd i) as Hpb.
  rewrite <- (Permutation_length Hperm) in Hpb. rewrite length_app in Hpb.
  set (cp := AB.cs_cache_partners st) in *.
  assert (Hlen : wrap64 (Z.of_nat (length ((cp ++ hsA) ++ hsB)) - Z.of_nat (length cp))
                 = Z.of_nat (length (hsA ++ hsB))).
  { rewrite !length_app. rewrite wrap64_small; [lia |].
    change (2 ^ 64) with (2 ^ 34 * 2 ^ 30). lia. }
  rewrite Hlen.
  destruct (vset (AB.cs_cache_len st) (count_start pre) _) as [cache_len|] eqn:Hs3;
    cbn [lift_opt mbind outcome_mbind outcome_bind]; [| exact I].
  destruct (Z.eqb_spec (Z.of_nat (length (hsA ++ hsB))) w) as [Hlw|Hlw]; cbn [negb];
    [| exact I].
  destruct (AB.shrink_heap _ _ _ _ _) as [[[heap keep] pp]|] eqn:Hsh;
    cbn [lift_opt mbind outcome_mbind outcome_bind]; [| exact I].
  unfold cache_ok_st.
  cbn [AB.cs_cached AB.cs_cache_off AB.cs_cache_len AB.cs_cache_partners
       AB.cs_prefetch_partners AB.cs_W].
  split; [| split; [rewrite <- Hlw, !length_app; lia | reflexivity]].
  apply shrink_heap_sub in Hsh.
  apply (cache_ok_pp_sub _ _ _ _ (AB.cs_prefetch_partners st)); [| exact Hsh].
  constructor; [| exact Hp].
  intros sid c Hg Hc0. rewrite (vget_vset _ _ _ _ sid Hs1) in Hg.
  rewrite (vget_vset _ _ _ _ sid Hs2), (vget_vset _ _ _ _ sid Hs3).
  case_bool_decide as E.
  - subst sid. exists pre, sd, i, (Z.of_nat (length cp)), (Z.of_nat (length (hsA ++ hsB))).
    split; [split; [exists suf; exact Hsplit | reflexivity] |].
    split; [exact Hi |]. split; [reflexivity |]. split; [reflexivity |].
    split; [lia |]. split; [lia |].
    split; [rewrite !length_app in *; lia |].
    rewrite !Nat2Z.id, <- app_assoc, drop_app_length, take_ge by lia. exact Hperm.
  - destruct (Hc sid c Hg Hc0) as (pre' & sd' & i' & off & len & Hst & Hi' & Ho & Hl & Ho0
                                   & Hl0 & Hol & Hpm).
    exists pre', sd', i', off, len. fold cp in Hol, Hpm.
    repeat (split; [assumption |]).
    split; [rewrite !length_app; lia |].
    rewrite <- app_assoc, take_drop_app_prefix by lia. exact Hpm.
Qed.

(** The prefetch branch of a START event. *)
Lemma prefetch_cache cfg budget_B E ix seed other act pre suf sd i wa wb w st :
  sweep_events ds = pre ++ start_ev (rel_of ds sd) sd i :: suf ->
  0 <= i < n_of ds sd ->
  idx_rep other (n_of ds (other_side sd)) (m_dom ds) act
    (lo_rank ds (other_side sd)) (hi_rank ds (other_side sd)) ->
  (forall j, j ∈ act <-> 0 <= j < n_of ds (other_side sd)
                         /\ active ds pre (other_side sd) j = true) ->
  cache_ok_st st ->
  match AB.prefetch cfg budget_B E ix seed other (lo_rank ds sd i) (hi_rank ds sd i)
          wa wb w (count_start pre) st with
  | Done st' =>
      cache_ok_st st'
      /\ AB.cs_cache_partners st' = AB.cs_cache_partners st /\ AB.cs_W st' = AB.cs_W st
  | _ => True
  end.
Proof using Hvalid Hsize.
  intros Hsplit Hi Hrep Hmem Hok. unfold AB.prefetch. cbv zeta.
  pose proof (rank_range ds Hvalid Hsize sd i Hi) as (Hr1 & Hr2 & Hr3).
  destruct (0 <? _); [| split; [exact Hok | split; reflexivity]].
  destruct (AB.prefetch_offer _ _ _ _ _ _ _ _ _ _ _) as [[[heap keep] pp]|] eqn:Hoff;
    cbn [lift_opt mbind outcome_mbind outcome_bind]; [| exact I].
  apply prefetch_offer_sub in Hoff.
  pose proof (cache_ok_pp_sub _ _ _ _ _ pp Hok Hoff) as [Hc Hp].
  destruct (vget keep (count_start pre)) as [s_keep|];
    cbn [lift_opt mbind outcome_mbind outcome_bind]; [| exact I].
  destruct (0 <? s_keep).
  - destruct (AB.prefetch_samples other _ _ wa wb _ s_keep seed) as [dst|msg|] eqn:Hps;
      cbn [mbind outcome_mbind outcome_bind]; [| exact I ..].
    destruct (vset pp (count_start pre) dst) as [pp1|] eqn:Hset;
      cbn [lift_opt mbind outcome_mbind outcome_bind]; [| exact I].
    unfold cache_ok_st.
    cbn [AB.cs_cached AB.cs_cache_off AB.cs_cache_len AB.cs_cache_partners
         AB.cs_prefetch_partners AB.cs_W].
    split; [| split; reflexivity].
    constructor; [exact Hc |].
    intros sid pref oh Hg Hoh. rewrite (vget_vset _ _ _ _ sid Hset) in Hg.
    case_bool_decide as E0.
    + injection Hg as <-. subst sid. exists pre, sd, i.
      split; [split; [exists suf; exact Hsplit | reflexivity] |]. split; [exact Hi |].
      destruct (prefetch_samples_elem _ _ _ _ _ _ _ _ _ _ _ _ _ _ Hrep
                  (conj (proj1 Hr1) Hr3) Hps oh Hoh) as [Hact Hpat].
      apply Hmem in Hact as [Hr Ha].
      split; [exact Hr |]. split.
      * unfold active in Ha. apply andb_prop in Ha as [Ha _]. exact Ha.
      * apply (start_pattern_isect ds Hvalid Hsize pre suf sd i oh Hsplit Hi Hr Ha Hpat).
    + apply (Hp sid pref oh Hg Hoh).
  - cbn [mbind outcome_mbind outcome_bind]. unfold cache_ok_st.
    cbn [AB.cs_cached AB.cs_cache_off AB.cs_cache_len AB.cs_cache_partners
         AB.cs_prefetch_partners AB.cs_W].
    split; [| split; reflexivity].
    constructor; assumption.
Qed.

(** The cache is in order and holds at most as many partners as were
    counted. *)
Definition cache_inv_st (st : AB.count_state) : Prop :=
  cache_ok_st st /\ Z.of_nat (length (AB.cs_cache_partners st)) <= AB.cs_W st.

Definition cache_inv_b (b : AB.t) : Prop :=
  cache_ok_b b /\ Z.of_nat (length (AB.cache_partners_ b)) <= AB.W_ b.

(** An event of the first sweep keeps the cache. *)
Lemma Adaptive_step_cache cfg ctx budget_B w_small seed ep pre e suf st :
  ctx_ok ds ctx -> sweep_events ds = pre ++ e :: suf ->
  count_inv ds pre (two_pass_part st) ->
  cache_inv_st st ->
  match AB.Count_step cfg ctx budget_B w_small (count_start (sweep_events ds)) seed ep
          st (Z.of_nat (length pre), e) with
  | Done st' => cache_inv_st st'
  | _ => True
  end.
Proof using Hvalid Hsize.
  intros Hctx Hsplit Hinv [Hck Hcp]. pose proof Hinv as [Hact _ _ _ _].
  cbn [two_pass_part OursSamplingBaseline.cs_ar OursSamplingBaseline.cs_as] in Hact.
  assert (e ∈ sweep_events ds) as He by (rewrite Hsplit, elem_of_app, elem_of_cons; tauto).
  apply elem_sweep_events in He as (sd & i & Hi & [-> | ->]); fold (n_of ds sd) in Hi.
  - (* START *)
    destruct (start_id_eq ds Hsize ctx pre _ suf Hctx Hsplit eq_refl)
      as (Hsid & Hw32 & Hsr & H31).
    destruct (Hact (other_side sd)) as (act & Hrep & Hmem).
    unfold AB.Count_step. cbn [ev_kind start_ev].
    change (mkEvent (v0 (lo (box_at (rel_of ds sd) i))) Start sd (id_of (rel_of ds sd) i) i)
      with (start_ev (rel_of ds sd) sd i).
    rewrite Hsid. cbn [lift_opt mbind option_bind outcome_mbind outcome_bind]. rewrite Hw32.
    rewrite (wrap32_small (count_start (sweep_events ds)))
      by (change (2 ^ 32) with (2 * 2 ^ 31); lia).
    destruct (Z.leb_spec (count_start (sweep_events ds)) (count_start pre)); [lia |].
    rewrite (query_ranks_ok ds ctx sd i Hctx Hi).
    cbn [lift_opt mbind option_bind outcome_mbind outcome_bind].
    rewrite sweep_other_tree.
    destruct (ActiveIndex2D.CountA _ _) as [wa|];
      cbn [lift_opt mbind option_bind outcome_mbind outcome_bind]; [| exact I].
    destruct (ActiveIndex2D.CountB _ _ _) as [wb|];
      cbn [lift_opt mbind option_bind outcome_mbind outcome_bind]; [| exact I].
    destruct (vset (AB.cs_w_a st) _ _) as [w_a|];
      cbn [lift_opt mbind option_bind outcome_mbind outcome_bind]; [| exact I].
    destruct (vset (AB.cs_w_b st) _ _) as [w_b|];
      cbn [lift_opt mbind option_bind outcome_mbind outcome_bind]; [| exact I].
    destruct (vset (AB.cs_w_total st) _ _) as [w_total|];
      cbn [lift_opt mbind option_bind outcome_mbind outcome_bind]; [| exact I].
    set (w := wrap64 (wa + wb)).
    assert (Hbranch : forall o : outcome AB.count_state,
              match o with
              | Done st2 => cache_inv_st st2
              | _ => True
              end ->
              match (st2 ← o;
                     '(ar, as_) ← lift_opt (sweep_insert (start_ev (rel_of ds sd) sd i)
                                              (lo_rank ds sd i) (hi_rank ds sd i)
                                              (AB.cs_ar st2) (AB.cs_as st2));
                     Done (AB.set_actives st2 ar as_)) with
              | Done st' => cache_inv_st st'
              | _ => True
              end).
    { intros [st2|msg|] Ho; cbn [mbind outcome_mbind outcome_bind]; [| exact I ..].
      destruct (sweep_insert _ _ _ _ _) as [[ar as_]|];
        cbn [lift_opt mbind outcome_mbind outcome_bind]; [exact Ho | exact I]. }
    destruct (Z.ltb_spec 0 w) as [Hpos|Hpos].
    + destruct (u64_max - w <? AB.cs_W st); cbn [mbind outcome_mbind outcome_bind];
        [exact I |].
      match goal with
      | |- context [AB.set_weights st ?a ?b ?c ?d ?f] =>
          set (st1 := AB.set_weights st a b c d f)
      end.
      assert (Hck1 : cache_ok_st st1) by exact Hck.
      apply Hbranch.
      destruct (_ && _ && _ && _).
      * pose proof (full_cache_cache budget_B (tree_of (AB.cs_ar st) (AB.cs_as st)
                                                  (other_side sd))
                      act pre suf sd i w st1 Hsplit Hi Hrep Hmem Hpos Hck1) as Hfc.
        destruct (AB.full_cache _ _ _ _ _ _ _) as [st2|msg|]; [| exact I ..].
        destruct Hfc as (Hok2 & Hl2 & HW2). split; [exact Hok2 |].
        rewrite Hl2, HW2. subst st1. cbn [AB.set_weights AB.cs_cache_partners AB.cs_W]. lia.
      * destruct (ep && _).
        -- pose proof (prefetch_cache cfg budget_B (count_start (sweep_events ds))
                         (wrap32 (count_start pre + 1)) seed
                         (tree_of (AB.cs_ar st) (AB.cs_as st) (other_side sd))
                         act pre suf sd i wa wb w st1 Hsplit Hi Hrep Hmem Hck1) as Hpf.
           destruct (AB.prefetch _ _ _ _ _ _ _ _ _ _ _ _ _) as [st2|msg|]; [| exact I ..].
           destruct Hpf as (Hok2 & Hl2 & HW2). split; [exact Hok2 |].
           rewrite Hl2, HW2. subst st1. cbn [AB.set_weights AB.cs_cache_partners AB.cs_W]. lia.
        -- split; [exact Hck1 |]. subst st1.
           cbn [AB.set_weights AB.cs_cache_partners AB.cs_W]. lia.
    + cbn [mbind outcome_mbind outcome_bind].
      rewrite !andb_false_r. cbn [andb].
      apply Hbranch. split; [exact Hck | exact Hcp].
  - (* END *)
    unfold AB.Count_step. cbn [ev_kind end_ev].
    destruct (sweep_erase _ _ _) as [[ar as_]|];
      cbn [lift_opt mbind option_bind outcome_mbind outcome_bind];
      [split; [exact Hck | exact Hcp] | exact I].
Qed.

Lemma Adaptive_fold_cache cfg ctx budget_B w_small seed ep :
  ctx_ok ds ctx -> forall suf pre st st',
  sweep_events ds = pre ++ suf ->
  count_inv ds pre (two_pass_part st) -> cache_inv_st st ->
  outfold (AB.Count_step cfg ctx budget_B w_small (count_start (sweep_events ds)) seed ep)
    (zip (seqZ (Z.of_nat (length pre)) (Z.of_nat (length suf))) suf) st = Done st' ->
  cache_inv_st st'.
Proof using Hvalid Hsize.
  intros Hctx. induction suf as [|e suf IH]; intros pre st st' Hsplit Hinv Hck Hf.
  - cbn [length zip zip_with seqZ outfold] in Hf. injection Hf as <-. exact Hck.
  - cbn [length] in Hf. rewrite seqZ_cons_S in Hf. cbn [zip zip_with] in Hf.
    apply outfold_cons_Done in Hf as (st1 & Hstep & Hrest).
    pose proof (Adaptive_step_cache cfg ctx budget_B w_small seed ep pre e suf st
                  Hctx Hsplit Hinv Hck) as Hck1.
    pose proof (Adaptive_step_any ds Hvalid Hsize cfg ctx budget_B w_small seed ep pre e suf st
                  Hctx Hsplit Hinv) as Hany.
    rewrite Hstep in Hck1, Hany.
    destruct (Count_step_ok ds Hvalid Hsize ctx pre e suf _ Hctx Hsplit Hinv)
      as (s1 & Hs1 & Hinv1).
    rewrite Hany in Hs1. injection Hs1 as <-.
    apply (IH (pre ++ [e]) st1 st').
    + rewrite <- app_assoc. exact Hsplit.
    + exact Hinv1.
    + exact Hck1.
    + rewrite length_app. cbn [length].
      replace (Z.of_nat (length pre + 1)) with (Z.of_nat (length pre) + 1) by lia.
      exact Hrest.
Qed.

(** [Count] leaves the cache in order, whatever it held before. *)
Lemma Adaptive_Count_cache b cfg g c b' g' :
  adaptive_ok ds b -> AB.Count b cfg g = Done (c, b', g') ->
  cache_inv_b b'
  /\ AB.start_side_ b' = AB.start_side_ b /\ AB.start_index_ b' = AB.start_index_ b.
Proof using Hvalid Hsize.
  intros [Hb Hctx Hwt Hwa Hwb] Hc. unfold AB.Count in Hc.
  rewrite Hb, (co_built ds _ Hctx), (co_ds ds _ Hctx) in Hc. cbn [negb orb] in Hc.
  rewrite bool_decide_eq_true_2 in Hc by (eexists; reflexivity). cbn [negb] in Hc.
  cbv zeta in Hc. rewrite Hwt in Hc.
  pose proof (ctx_ok_ResetActive' ds _ Hctx) as Hctx'.
  set (ctx' := Ours2DContext.ResetActive (AB.ctx_ b)) in *.
  destruct (if _ && _ then RngOps.NextU64 g else (0, g)) as [seed g1].
  rewrite (co_events ds _ Hctx') in Hc. unfold with_pos, upto in Hc.
  destruct (outfold _ _ _) as [st'|msg|] eqn:Hfold;
    cbn [mbind outcome_mbind outcome_bind] in Hc; [| discriminate ..].
  injection Hc as _ <- _. split; [| split; reflexivity].
  change (cache_inv_st st').
  eapply (Adaptive_fold_cache _ ctx' _ _ _ _ Hctx' (sweep_events ds) [] _ st' eq_refl);
    [| | exact Hfold].
  - constructor; cbn [two_pass_part AB.cs_ar AB.cs_as AB.cs_w_a AB.cs_w_b AB.cs_w_total
        AB.cs_W OursSamplingBaseline.cs_ar OursSamplingBaseline.cs_as
        OursSamplingBaseline.cs_w_a OursSamplingBaseline.cs_w_b
        OursSamplingBaseline.cs_w_total OursSamplingBaseline.cs_W];
      rewrite ?length_map; try assumption.
    + apply (actives_ok_nil ds _ Hctx).
    + symmetry. apply pairs_count_nil.
  - split; [| cbn [AB.cs_cache_partners AB.cs_W length]; lia].
    constructor; cbn [AB.cs_cached AB.cs_cache_off AB.cs_cache_len AB.cs_cache_partners
                      AB.cs_prefetch_partners].
    + intros sid c0 Hg Hc0. rewrite vget_map in Hg.
      destruct (vget (AB.cached_ b) sid); [| discriminate].
      injection Hg as <-. contradiction.
    + intros sid pref oh Hg Hoh. rewrite vget_map in Hg.
      destruct (vget (AB.prefetch_partners_ b) sid); [| discriminate].
      injection Hg as <-. inversion Hoh.
Qed.

End AdaptiveCache.



(** * Sampling with Framework III *)

(** ** The residual plan is a counting sort *)

Lemma ofold_app {A St} (f : St -> A -> option St) l1 l2 s :
  ofold f (l1 ++ l2) s = ofold f l1 s ≫= ofold f l2.
Proof.
  revert s. induction l1 as [|a l1 IH]; intros s; [reflexivity |].
  cbn [app ofold]. destruct (f s a) as [s1|]; cbn [mbind option_bind]; [apply IH | reflexivity].
Qed.

Lemma seqZ_snoc (n : nat) : seqZ 0 (Z.of_nat (Datatypes.S n)) = seqZ 0 (Z.of_nat n) ++ [Z.of_nat n].
Proof.
  replace (Z.of_nat (Datatypes.S n)) with (Z.of_nat n + 1) by lia.
  rewrite seqZ_app by lia. rewrite Z.add_0_l. reflexivity.
Qed.

(** The assignments of event [s], and those of the events before [s]. *)
Definition cnt (l : list (Z * Z)) (s : Z) : Z := zcount (fun x => fst x =? s) l.

Definition below (l : list (Z * Z)) (s : Z) : Z := zcount (fun x => fst x <? s) l.

Lemma cnt_nil s : cnt [] s = 0.
Proof. reflexivity. Qed.

Lemma cnt_cons x l s : cnt (x :: l) s = (if fst x =? s then 1 else 0) + cnt l s.
Proof. reflexivity. Qed.

Lemma cnt_app l1 l2 s : cnt (l1 ++ l2) s = cnt l1 s + cnt l2 s.
Proof. apply zcount_app. Qed.

Lemma cnt_bounds l s : 0 <= cnt l s <= Z.of_nat (length l).
Proof. apply zcount_bounds. Qed.

Lemma below_bounds l s : 0 <= below l s <= Z.of_nat (length l).
Proof. apply zcount_bounds. Qed.

Lemma below_S l s : below l (s + 1) = below l s + cnt l s.
Proof.
  unfold below, cnt. induction l as [|x l IH]; [reflexivity |].
  rewrite !zcount_cons, IH.
  destruct (Z.ltb_spec (fst x) (s + 1)), (Z.ltb_spec (fst x) s), (Z.eqb_spec (fst x) s); lia.
Qed.

Lemma below_mono l s1 s2 : s1 <= s2 -> below l s1 <= below l s2.
Proof.
  intros Hle. unfold below. induction l as [|x l IH]; [reflexivity |].
  rewrite !zcount_cons.
  destruct (Z.ltb_spec (fst x) s1), (Z.ltb_spec (fst x) s2); lia.
Qed.

Lemma below_none l s : (forall x, x ∈ l -> s <= fst x) -> below l s = 0.
Proof.
  intros Hall. unfold below. induction l as [|x l IH]; [reflexivity |].
  rewrite zcount_cons, IH by (intros y Hy; apply Hall; right; exact Hy).
  pose proof (Hall x ltac:(left)). destruct (Z.ltb_spec (fst x) s); lia.
Qed.

Lemma below_all l s : (forall x, x ∈ l -> fst x < s) -> below l s = Z.of_nat (length l).
Proof.
  intros Hall. unfold below. induction l as [|x l IH]; [reflexivity |].
  rewrite zcount_cons, IH by (intros y Hy; apply Hall; right; exact Hy).
  pose proof (Hall x ltac:(left)). cbn [length]. destruct (Z.ltb_spec (fst x) s); lia.
Qed.

Lemma cnt_none l s : (forall x, x ∈ l -> fst x <> s) -> cnt l s = 0.
Proof.
  intros Hall. unfold cnt. induction l as [|x l IH]; [reflexivity |].
  rewrite zcount_cons, IH by (intros y Hy; apply Hall; right; exact Hy).
  pose proof (Hall x ltac:(left)). destruct (Z.eqb_spec (fst x) s); lia.
Qed.

(** The position the cursor fill writes for the assignment at place [n]. *)
Definition tpos (l : list (Z * Z)) (n : nat) (s : Z) : Z := below l s + cnt (take n l) s.

Lemma cnt_take_lt l n x :
  l !! n = Some x -> cnt (take n l) (fst x) < cnt l (fst x).
Proof.
  intros Hn. rewrite <- (take_drop_middle l n _ Hn) at 2.
  rewrite cnt_app, cnt_cons, Z.eqb_refl.
  pose proof (cnt_bounds (drop (Datatypes.S n) l) (fst x)). lia.
Qed.

Lemma cnt_take_mono l n1 n2 x :
  (n1 < n2)%nat -> l !! n1 = Some x ->
  cnt (take n1 l) (fst x) < cnt (take n2 l) (fst x).
Proof.
  intros Hlt Hn.
  assert (take n2 l !! n1 = Some x) as Hn' by (rewrite lookup_take_lt by lia; exact Hn).
  pose proof (cnt_take_lt (take n2 l) n1 x Hn') as Hc.
  rewrite take_take, Nat.min_l in Hc by lia. exact Hc.
Qed.

Lemma tpos_range l n x :
  l !! n = Some x ->
  below l (fst x) <= tpos l n (fst x) < below l (fst x + 1).
Proof.
  intros Hn. unfold tpos. rewrite below_S.
  pose proof (cnt_take_lt l n x Hn). pose proof (cnt_bounds (take n l) (fst x)). lia.
Qed.

Lemma tpos_inj l n1 n2 x1 x2 :
  (n1 < n2)%nat -> l !! n1 = Some x1 -> l !! n2 = Some x2 ->
  tpos l n1 (fst x1) <> tpos l n2 (fst x2).
Proof.
  intros Hlt H1 H2.
  pose proof (tpos_range l n1 x1 H1) as R1. pose proof (tpos_range l n2 x2 H2) as R2.
  destruct (Z.lt_trichotomy (fst x1) (fst x2)) as [Hc | [Hc | Hc]].
  - pose proof (below_mono l (fst x1 + 1) (fst x2) ltac:(lia)). lia.
  - pose proof (cnt_take_mono l n1 n2 x1 Hlt H1). unfold tpos. rewrite <- Hc. lia.
  - pose proof (below_mono l (fst x2 + 1) (fst x1) ltac:(lia)). lia.
Qed.

(** The first loop counts the assignments of event [s] at [s + 1]. *)
Lemma residual_count : forall l off0 off,
  ofold (fun off (x : Z * Z) => vincr off (fst x + 1)) l off0 = Some off ->
  length off = length off0
  /\ (forall x, x ∈ l -> 0 <= fst x + 1 < Z.of_nat (length off0))
  /\ (forall j v, vget off0 j = Some v -> 0 <= v -> v + Z.of_nat (length l) < 2 ^ 32 ->
        vget off j = Some (v + cnt l (j - 1))).
Proof.
  induction l as [|x l IH]; intros off0 off Hf.
  - injection Hf as <-. split; [reflexivity |]. split; [intros x Hx; inversion Hx |].
    intros j v Hv _ _. rewrite Hv, cnt_nil. f_equal. lia.
  - cbn [ofold] in Hf.
    destruct (vincr off0 (fst x + 1)) as [off1|] eqn:Hstep;
      cbn [mbind option_bind] in Hf; [| discriminate].
    unfold vincr in Hstep.
    destruct (vget off0 (fst x + 1)) as [c|] eqn:Hc; [| discriminate].
    cbn [mbind option_bind] in Hstep.
    destruct (IH off1 off Hf) as (Hlen & Hr & Hv).
    pose proof (vset_length _ _ _ _ Hstep) as Hl1.
    split; [congruence |]. split.
    + intros y [-> | Hy]%elem_of_cons.
      * apply vget_lt in Hc. exact Hc.
      * rewrite <- Hl1. apply Hr. exact Hy.
    + intros j v Hj Hv0 Hb. cbn [length] in Hb. rewrite cnt_cons.
      pose proof (vget_vset _ _ _ _ j Hstep) as Hg1.
      destruct (Z.eqb_spec (fst x) (j - 1)) as [E|E].
      * assert (j = fst x + 1) as -> by lia. rewrite Hc in Hj. injection Hj as ->.
        rewrite bool_decide_eq_true_2 in Hg1 by reflexivity.
        rewrite wrap32_small in Hg1 by lia.
        rewrite (Hv _ _ Hg1) by lia. f_equal. lia.
      * rewrite bool_decide_eq_false_2 in Hg1 by lia. rewrite Hj in Hg1.
        rewrite (Hv _ _ Hg1) by lia. reflexivity.
Qed.

(** The second loop turns the counts into offsets, in place. *)
Lemma residual_prefix (l : list (Z * Z)) (E : Z) :
  Z.of_nat (length l) < 2 ^ 32 ->
  (forall x, x ∈ l -> 0 <= fst x) ->
  forall (n : nat) off0 off,
    Z.of_nat n <= E ->
    Z.of_nat (length off0) = E + 1 ->
    (forall j, 0 <= j <= E -> vget off0 j = Some (cnt l (j - 1))) ->
    ofold (fun off i =>
             a ← vget off i;
             c ← vget off (i + 1);
             vset off (i + 1) (wrap32 (c + a))) (seqZ 0 (Z.of_nat n)) off0 = Some off ->
    Z.of_nat (length off) = E + 1
    /\ (forall j, 0 <= j <= Z.of_nat n -> vget off j = Some (below l j))
    /\ (forall j, Z.of_nat n < j <= E -> vget off j = Some (cnt l (j - 1))).
Proof.
  intros Hlen Hpos. induction n as [|n IH]; intros off0 off Hn Hl0 Hinit Hf.
  - cbn in Hf. injection Hf as <-. split; [exact Hl0 |]. split.
    + intros j Hj. assert (j = 0) as -> by lia. rewrite Hinit by lia.
      f_equal. rewrite below_none by (intros x Hx; apply Hpos; exact Hx).
      apply cnt_none. intros x Hx. pose proof (Hpos x Hx). lia.
    + intros j Hj. apply Hinit. lia.
  - rewrite seqZ_snoc, ofold_app in Hf.
    destruct (ofold _ (seqZ 0 (Z.of_nat n)) off0) as [off1|] eqn:Hf1;
      cbn [mbind option_bind] in Hf; [| discriminate].
    destruct (IH off0 off1 ltac:(lia) Hl0 Hinit Hf1) as (Hl1 & Hlo & Hhi).
    cbn [ofold] in Hf.
    rewrite (Hlo (Z.of_nat n)) in Hf by lia. cbn [mbind option_bind] in Hf.
    rewrite (Hhi (Z.of_nat n + 1)) in Hf by lia. cbn [mbind option_bind] in Hf.
    destruct (vset off1 _ _) as [off2|] eqn:Hset; [| discriminate].
    cbn [mbind option_bind] in Hf. injection Hf as <-.
    replace (Z.of_nat n + 1 - 1) with (Z.of_nat n) in Hset by lia.
    pose proof (below_S l (Z.of_nat n)) as HS.
    pose proof (below_bounds l (Z.of_nat n + 1)) as HB.
    rewrite wrap32_small in Hset by lia.
    split; [rewrite (vset_length _ _ _ _ Hset); exact Hl1 |]. split.
    + intros j Hj. rewrite (vget_vset _ _ _ _ j Hset). case_bool_decide as Ej.
      * subst j. f_equal. lia.
      * apply Hlo. lia.
    + intros j Hj. rewrite (vget_vset _ _ _ _ j Hset).
      rewrite bool_decide_eq_false_2 by lia. apply Hhi. lia.
Qed.

(** The third loop writes every slot at a place of its own. *)
Lemma residual_fill (l : list (Z * Z)) (E : Z) (offset : list Z) :
  Z.of_nat (length l) < 2 ^ 32 ->
  (forall x, x ∈ l -> 0 <= fst x < E) ->
  (forall j, 0 <= j <= E -> vget offset j = Some (below l j)) ->
  forall (n : nat) slots0 slots cursor,
    (n <= length l)%nat ->
    Z.of_nat (length slots0) = Z.of_nat (length l) ->
    ofold (fun '(slots, cursor) (x : Z * Z) =>
             pos ← vget cursor (fst x);
             cursor ← vset cursor (fst x) (wrap32 (pos + 1));
             slots ← vset slots pos (snd x);
             Some (slots, cursor)) (take n l) (slots0, offset) = Some (slots, cursor) ->
    Z.of_nat (length slots) = Z.of_nat (length l)
    /\ (forall s, 0 <= s < E -> vget cursor s = Some (tpos l n s))
    /\ (forall m x, (m < n)%nat -> l !! m = Some x ->
          vget slots (tpos l m (fst x)) = Some (snd x)).
Proof.
  intros Hlen Hr Hoff. induction n as [|n IH]; intros slots0 slots cursor Hn Hl0 Hf.
  - cbn in Hf. injection Hf as <- <-. split; [exact Hl0 |]. split.
    + intros s Hs. rewrite Hoff by lia. unfold tpos. rewrite take_0, cnt_nil.
      f_equal. lia.
    + intros m x Hm. lia.
  - destruct (lookup_lt_is_Some_2 l n ltac:(lia)) as [x Hx].
    rewrite (take_S_r _ _ _ Hx), ofold_app in Hf.
    destruct (ofold _ (take n l) (slots0, offset)) as [[slots1 cursor1]|] eqn:Hf1;
      cbn [mbind option_bind] in Hf; [| discriminate].
    destruct (IH slots0 slots1 cursor1 ltac:(lia) Hl0 Hf1) as (Hl1 & Hcur & Hdone).
    pose proof (Hr x (list_elem_of_lookup_2 _ _ _ Hx)) as Hrx.
    cbn [ofold] in Hf. rewrite (Hcur (fst x) Hrx) in Hf. cbn [mbind option_bind] in Hf.
    destruct (vset cursor1 (fst x) _) as [cursor2|] eqn:Hsc; [| discriminate].
    cbn [mbind option_bind] in Hf.
    destruct (vset slots1 (tpos l n (fst x)) (snd x)) as [slots2|] eqn:Hss; [| discriminate].
    cbn [mbind option_bind] in Hf. injection Hf as <- <-.
    pose proof (tpos_range l n x Hx) as Htr.
    pose proof (below_bounds l (fst x + 1)) as Hbb.
    pose proof (below_bounds l (fst x)) as Hbb0.
    rewrite wrap32_small in Hsc by lia.
    split; [rewrite (vset_length _ _ _ _ Hss); exact Hl1 |]. split.
    + intros s Hs. rewrite (vget_vset _ _ _ _ s Hsc). case_bool_decide as Es.
      * subst s. f_equal. unfold tpos. rewrite (take_S_r _ _ _ Hx), cnt_app, cnt_cons.
        rewrite Z.eqb_refl, cnt_nil. lia.
      * rewrite (Hcur s Hs). f_equal. unfold tpos.
        rewrite (take_S_r _ _ _ Hx), cnt_app, cnt_cons.
        destruct (Z.eqb_spec (fst x) s); [congruence |]. rewrite cnt_nil. lia.
    + intros m y Hm Hy. rewrite (vget_vset _ _ _ _ _ Hss). case_bool_decide as Em.
      * destruct (Nat.eq_dec m n) as [-> | Hne].
        -- rewrite Hx in Hy. injection Hy as <-. reflexivity.
        -- exfalso. apply (tpos_inj l m n y x ltac:(lia) Hy Hx). exact Em.
      * apply Hdone; [| exact Hy].
        destruct (Nat.eq_dec m n) as [-> | Hne]; [| lia].
        rewrite Hx in Hy. injection Hy as <-. contradiction.
Qed.

(** The plan of the residual slots of one pattern. *)
Record residual_ok (E : Z) (asg : list (Z * Z)) (offset slots : list Z) : Prop :=
  mk_residual_ok {
  ro_len : length offset = Datatypes.S (Z.to_nat E);
  ro_zero : offset !! 0%nat = Some 0;
  ro_mono : forall e1 e2 x y, (e1 <= e2)%nat ->
              offset !! e1 = Some x -> offset !! e2 = Some y -> x <= y;
  ro_last : offset !! Z.to_nat E = Some (Z.of_nat (length slots));
  ro_slots : length slots = length asg;
  ro_all : forall x, x ∈ asg -> snd x ∈ slots
}.

Lemma residual_plan_ok (E : Z) asg offset slots :
  0 <= E ->
  Z.of_nat (length asg) < 2 ^ 32 ->
  (forall x, x ∈ asg -> 0 <= fst x < E) ->
  AB.residual_plan E asg = Some (offset, slots) ->
  residual_ok E asg offset slots.
Proof.
  intros HE Hlen Hr Hp. unfold AB.residual_plan in Hp.
  set (l := std_sort AB.by_sid_slot asg) in *.
  assert (Hperm : l ≡ₚ asg) by apply std_sort_perm.
  assert (Hll : length l = length asg) by (rewrite Hperm; reflexivity).
  assert (Hrl : forall x, x ∈ l -> 0 <= fst x < E)
    by (intros x Hx; apply Hr; rewrite <- Hperm; exact Hx).
  destruct (ofold _ l (replicate (Z.to_nat (E + 1)) 0)) as [off1|] eqn:H1;
    cbn [mbind option_bind] in Hp; [| discriminate].
  destruct (residual_count l _ off1 H1) as (Hl1 & _ & Hv1).
  rewrite length_replicate in Hl1.
  destruct (ofold _ (upto E) off1) as [off2|] eqn:H2;
    cbn [mbind option_bind] in Hp; [| discriminate].
  unfold upto in H2. rewrite <- (Z2Nat.id E HE) in H2 at 1.
  destruct (residual_prefix l E ltac:(lia) ltac:(intros x Hx; apply Hrl; exact Hx)
              (Z.to_nat E) off1 off2 ltac:(lia) ltac:(lia)) as (Hl2 & Hlo & _).
  { intros j Hj. rewrite (Hv1 j 0); [f_equal; lia | | lia | lia].
    apply vget_replicate. lia. }
  { exact H2. }
  rewrite Z2Nat.id in Hlo by lia.
  destruct (ofold _ l (replicate (length l) 0, off2)) as [[slots1 cursor]|] eqn:H3;
    cbn [mbind option_bind] in Hp; [| discriminate].
  injection Hp as <- <-.
  rewrite <- (firstn_all l) in H3 at 1.
  destruct (residual_fill l E off2 ltac:(lia) Hrl Hlo (length l) _ slots1 cursor
              ltac:(lia) ltac:(rewrite length_replicate; reflexivity) H3)
    as (Hls & _ & Hdone).
  constructor.
  - lia.
  - pose proof (Hlo 0 ltac:(lia)) as H0. apply vget_Some in H0 as [_ H0].
    change (Z.to_nat 0) with 0%nat in H0. rewrite H0. f_equal. apply below_none. intros x Hx. apply Hrl. exact Hx.
  - intros e1 e2 x y Hle He1 He2.
    pose proof (lookup_lt_Some _ _ _ He1). pose proof (lookup_lt_Some _ _ _ He2).
    pose proof (Hlo (Z.of_nat e1) ltac:(lia)) as G1. apply vget_Some in G1 as [_ G1].
    pose proof (Hlo (Z.of_nat e2) ltac:(lia)) as G2. apply vget_Some in G2 as [_ G2].
    rewrite Nat2Z.id in G1, G2. rewrite He1 in G1. rewrite He2 in G2.
    injection G1 as ->. injection G2 as ->. apply below_mono. lia.
  - pose proof (Hlo E ltac:(lia)) as G. apply vget_Some in G as [_ G]. rewrite G.
    f_equal. rewrite below_all by (intros x Hx; apply Hrl; exact Hx). lia.
  - lia.
  - intros x Hx. rewrite <- Hperm in Hx. apply list_elem_of_lookup in Hx as [m Hm].
    pose proof (lookup_lt_Some _ _ _ Hm) as Hlt.
    pose proof (Hdone m x Hlt Hm) as Hg. apply vget_Some in Hg as [_ Hg].
    eapply list_elem_of_lookup_2. exact Hg.
Qed.

Section AdaptiveSample.
Context `{FloatOps}.
Variable ds : Dataset.
Hypothesis Hvalid : DatasetOps.Validate true ds = true.
Hypothesis Hsize : RelationOps.Size (R ds) + RelationOps.Size (S ds) <= 2 ^ 30.

(** ** Filling from the cache and from the prefetched samples *)

(** The pair written for a partner of the query is a pair of the join. *)
Lemma partner_pair pre sd i oh q_id p :
  0 <= i < n_of ds sd -> found ds pre sd i oh ->
  RelationOps.GetId (rel_of ds sd) i = Some q_id ->
  AB.cache_pair ds sd q_id oh = Some p -> p ∈ join_of ds.
Proof using Type.
  intros Hi (Hj & _ & Hx) Hq Hp. unfold AB.cache_pair in Hp. unfold join_of, n_of in *.
  destruct sd; cbn [rel_of other_side] in *.
  - destruct (RelationOps.GetId (S ds) oh) as [s|] eqn:Es; [| discriminate].
    cbn [mbind option_bind] in Hp. injection Hp as <-.
    replace q_id with (id_of (R ds) i) by (unfold id_of; rewrite Hq; reflexivity).
    replace s with (id_of (S ds) oh) by (unfold id_of; rewrite Es; reflexivity).
    apply all_pairs_intro; assumption.
  - destruct (RelationOps.GetId (R ds) oh) as [r|] eqn:Er; [| discriminate].
    cbn [mbind option_bind] in Hp. injection Hp as <-.
    replace q_id with (id_of (S ds) i) by (unfold id_of; rewrite Hq; reflexivity).
    replace r with (id_of (R ds) oh) by (unfold id_of; rewrite Er; reflexivity).
    apply all_pairs_intro; try assumption.
    unfold isect, IntersectsHalfOpen in Hx |- *. cbn [rel_of other_side] in Hx.
    rewrite Intersects_sym. exact Hx.
Qed.

(** Writing pairs of the join at the slots of a list. *)
Lemma write_fold {St A} (step : list PairId * St -> A -> option (list PairId * St))
    (slot_of : A -> Z) :
  (forall pairs s a pairs' s', step (pairs, s) a = Some (pairs', s') ->
     exists p, p ∈ join_of ds /\ vset pairs (slot_of a) p = Some pairs') ->
  forall l pairs s pairs' s',
    ofold step l (pairs, s) = Some (pairs', s') ->
    length pairs' = length pairs
    /\ (forall slot, slot_ok (join_of ds) pairs slot -> slot_ok (join_of ds) pairs' slot)
    /\ (forall a, a ∈ l -> slot_ok (join_of ds) pairs' (slot_of a)).
Proof using Type.
  intros Hstep. induction l as [|a l IH]; intros pairs s pairs' s' Hf.
  - cbn [ofold] in Hf. injection Hf as <- <-. split; [reflexivity |].
    split; [tauto |]. intros a Ha. inversion Ha.
  - cbn [ofold] in Hf. destruct (step (pairs, s) a) as [[pairs1 s1]|] eqn:Hs; [| discriminate].
    cbn [mbind option_bind] in Hf.
    destruct (Hstep _ _ _ _ _ Hs) as (p & Hp & Hset).
    destruct (IH _ _ _ _ Hf) as (Hl & Hm & Hn).
    split; [rewrite Hl; eapply vset_length; exact Hset |]. split.
    + intros slot Hok. apply Hm. eapply slot_ok_vset; eassumption.
    + intros a' [-> | Ha']%elem_of_cons; [| apply Hn; exact Ha'].
      apply Hm. exists p. split; [eapply vget_vset_eq; exact Hset | exact Hp].
Qed.

(** The state of the driver when the cache is valid. *)
Record sample_ready (b : AB.t) : Prop := mk_sample_ready {
  sr_ok : adaptive_ok ds b;
  sr_map : start_map_ok ds (AB.start_side_ b) (AB.start_index_ b) (sweep_events ds);
  sr_cache : cache_inv_b ds b;
  sr_W : AB.W_ b = CountNaive (R ds) (S ds)
}.

Lemma ready_W_bound b : sample_ready b -> AB.W_ b <= 2 ^ 60.
Proof using Hsize.
  intros [_ _ _ HW]. rewrite HW, <- (pairs_count_all ds Hsize).
  apply (pairs_count_bound ds Hsize).
Qed.

(** The rectangle that the map of [Build] gives for an id. *)
Lemma ready_map b sid side q_idx :
  sample_ready b ->
  vget (AB.start_side_ b) sid = Some side -> vget (AB.start_index_ b) sid = Some q_idx ->
  forall pre sd i, start_of ds sid pre sd i -> sd = side /\ i = q_idx.
Proof using Type.
  intros [_ Hmap _ _] Hs Hq pre sd i [[suf Hsplit] Hc].
  destruct (Hmap pre sd i suf Hsplit) as [H1 H2]. rewrite Hc in H1, H2.
  rewrite Hs in H1. rewrite Hq in H2. injection H1 as ->. injection H2 as ->. tauto.
Qed.

Lemma fill_from_cache_ok b sid side q_idx q_id seed slots pairs pairs' c :
  sample_ready b ->
  (forall pre sd i, start_of ds sid pre sd i -> sd = side /\ i = q_idx) ->
  vget (AB.cached_ b) sid = Some c -> c <> 0 ->
  RelationOps.GetId (rel_of ds side) q_idx = Some q_id ->
  AB.fill_from_cache b ds side q_id sid seed slots pairs = Done pairs' ->
  length pairs' = length pairs
  /\ (forall slot, slot_ok (join_of ds) pairs slot -> slot_ok (join_of ds) pairs' slot)
  /\ (forall slot, slot ∈ slots -> slot_ok (join_of ds) pairs' slot).
Proof using Hsize.
  intros Hready Hmap Hc Hc0 Hq Hf. pose proof (ready_W_bound b Hready) as HW60.
  destruct Hready as [_ _ [[Hck _] Hcp] _].
  destruct (Hck sid c Hc Hc0) as (pre & sd & i & off & len & Hst & Hi & Ho & Hl & Ho0 & Hl0
                                  & Hol & Hpm).
  destruct (Hmap pre sd i Hst) as [-> ->].
  unfold AB.fill_from_cache in Hf. rewrite Hl, Ho in Hf.
  cbn [lift_opt mbind outcome_mbind outcome_bind] in Hf.
  destruct (Z.eqb_spec len 0) as [|_]; [lia |].
  destruct (ofold _ slots _) as [[pairs1 g1]|] eqn:Hfold;
    cbn [lift_opt mbind outcome_mbind outcome_bind] in Hf; [| discriminate].
  injection Hf as <-.
  eapply (write_fold _ (fun slot => slot)); [| exact Hfold].
  intros prs g a prs' g' Hstep. cbv beta iota in Hstep.
  destruct (RngOps.UniformU64 len g) as [[pick g2]|] eqn:Hu; [| discriminate].
  cbn [mbind option_bind] in Hstep.
  pose proof (UniformU64_range len g pick g2 Hl0 Hu) as Hpick.
  rewrite wrap64_small in Hstep by (change (2 ^ 64) with (16 * 2 ^ 60); lia).
  destruct (vget (AB.cache_partners_ b) (off + pick)) as [oh|] eqn:Hoh; [| discriminate].
  cbn [mbind option_bind] in Hstep.
  destruct (AB.cache_pair ds side q_id oh) as [p|] eqn:Hp; [| discriminate].
  cbn [mbind option_bind] in Hstep.
  destruct (vset prs a p) as [prs1|] eqn:Hset; [| discriminate].
  cbn [mbind option_bind] in Hstep. injection Hstep as <- _.
  exists p. split; [| exact Hset].
  apply (partner_pair pre side q_idx oh q_id p Hi); [| exact Hq | exact Hp].
  apply elem_partner_list. rewrite <- Hpm.
  apply vget_Some in Hoh as [_ Hoh].
  apply (list_elem_of_lookup_2 _ (Z.to_nat pick)).
  rewrite lookup_take_lt by lia. rewrite lookup_drop.
  replace (Z.to_nat off + Z.to_nat pick)%nat with (Z.to_nat (off + pick)) by lia.
  exact Hoh.
Qed.

(** The residual slots of an event go to one of the two patterns. *)
Lemma tag_fold (sid : Z) (slots : list Z) (wa wb : Z) :
  forall (js : list Z) (aa bb : list (Z * Z)) (g : Rng) (aa' bb' : list (Z * Z)) (g' : Rng),
  ofold (fun '(asg_a, asg_b, prng) (j : Z) =>
           slot ← vget slots j;
           '(pat, prng) ← draw_pattern wa wb prng;
           if pat =? 0 then Some (asg_a ++ [(sid, slot)], asg_b, prng)
           else Some (asg_a, asg_b ++ [(sid, slot)], prng)) js (aa, bb, g)
  = Some (aa', bb', g') ->
  (forall x, x ∈ aa -> x ∈ aa') /\ (forall x, x ∈ bb -> x ∈ bb')
  /\ (forall j, j ∈ js -> exists slot, vget slots j = Some slot
                                     /\ ((sid, slot) ∈ aa' \/ (sid, slot) ∈ bb'))
  /\ (forall x, x ∈ aa' -> x ∈ aa \/ (fst x = sid /\ snd x ∈ slots))
  /\ (forall x, x ∈ bb' -> x ∈ bb \/ (fst x = sid /\ snd x ∈ slots))
  /\ (length aa' + length bb' = length aa + length bb + length js)%nat.
Proof using Type.
  induction js as [|j js IH]; intros aa bb g aa' bb' g' Hf.
  - cbn [ofold] in Hf. injection Hf as <- <- <-.
    split; [tauto |]. split; [tauto |]. split; [intros j Hj; inversion Hj |].
    split; [tauto |]. split; [tauto |]. cbn [length]. lia.
  - cbn [ofold] in Hf.
    destruct (vget slots j) as [slot|] eqn:Hslot; [| discriminate].
    cbn [mbind option_bind] in Hf.
    destruct (draw_pattern wa wb g) as [[pat g1]|]; [| discriminate].
    cbn [mbind option_bind] in Hf.
    assert (Hin : slot ∈ slots).
    { apply vget_Some in Hslot as [_ Hslot]. eapply list_elem_of_lookup_2. exact Hslot. }
    destruct (pat =? 0); cbn [mbind option_bind] in Hf;
      destruct (IH _ _ _ _ _ _ Hf) as (Ha & Hb & Hj & Ha' & Hb' & Hlen);
      rewrite length_app in Hlen; cbn [length] in Hlen |- *.
    + split; [intros x Hx; apply Ha, elem_of_app; left; exact Hx |].
      split; [exact Hb |]. split.
      * intros j' [-> | Hj']%elem_of_cons; [| apply Hj; exact Hj'].
        exists slot. split; [exact Hslot |]. left. apply Ha, elem_of_app. right. left.
      * split; [| split; [exact Hb' | lia]].
        intros x Hx. apply Ha' in Hx as [Hx | Hx]; [| right; exact Hx].
        apply elem_of_app in Hx as [Hx | Hx]; [left; exact Hx |].
        apply list_elem_of_singleton in Hx as ->. right. split; [reflexivity | exact Hin].
    + split; [exact Ha |].
      split; [intros x Hx; apply Hb, elem_of_app; left; exact Hx |]. split.
      * intros j' [-> | Hj']%elem_of_cons; [| apply Hj; exact Hj'].
        exists slot. split; [exact Hslot |]. right. apply Hb, elem_of_app. right. left.
      * split; [exact Ha' |]. split; [| lia].
        intros x Hx. apply Hb' in Hx as [Hx | Hx]; [| right; exact Hx].
        apply elem_of_app in Hx as [Hx | Hx]; [left; exact Hx |].
        apply list_elem_of_singleton in Hx as ->. right. split; [reflexivity | exact Hin].
Qed.

Lemma fill_from_prefetch_ok b sid side q_idx q_id seed slots k pairs aa bb pairs' aa' bb' :
  sample_ready b ->
  (forall pre sd i, start_of ds sid pre sd i -> sd = side /\ i = q_idx) ->
  RelationOps.GetId (rel_of ds side) q_idx = Some q_id ->
  k = Z.of_nat (length slots) ->
  AB.fill_from_prefetch b ds side q_id sid seed slots k (pairs, aa, bb)
  = Done (pairs', aa', bb') ->
  length pairs' = length pairs
  /\ (forall slot, slot_ok (join_of ds) pairs slot -> slot_ok (join_of ds) pairs' slot)
  /\ (forall slot, slot ∈ slots ->
        slot_ok (join_of ds) pairs' slot \/ (sid, slot) ∈ aa' \/ (sid, slot) ∈ bb')
  /\ (forall x, x ∈ aa -> x ∈ aa') /\ (forall x, x ∈ bb -> x ∈ bb')
  /\ (forall x, x ∈ aa' -> x ∈ aa \/ (fst x = sid /\ snd x ∈ slots))
  /\ (forall x, x ∈ bb' -> x ∈ bb \/ (fst x = sid /\ snd x ∈ slots))
  /\ (length aa' + length bb' <= length aa + length bb + length slots)%nat.
Proof using Type.
  intros Hready Hmap Hq Hk Hf. destruct Hready as [_ _ [[_ Hpf] _] _].
  unfold AB.fill_from_prefetch in Hf.
  destruct (vget (AB.prefetch_partners_ b) sid) as [pref|] eqn:Hpref;
    cbn [lift_opt mbind outcome_mbind outcome_bind] in Hf; [| discriminate].
  set (s := wrap32 (Z.of_nat (length pref))) in *.
  set (a := if s <? k then s else k) in *.
  assert (Ha : 0 <= a <= k).
  { pose proof (wrap32_range (Z.of_nat (length pref))). subst a. fold s in H0.
    destruct (Z.ltb_spec s k); lia. }
  destruct (ofold _ (upto a) pairs) as [pairs1|] eqn:Hfold;
    cbn [lift_opt mbind outcome_mbind outcome_bind] in Hf; [| discriminate].
  assert (H1 : length pairs1 = length pairs
               /\ (forall slot, slot_ok (join_of ds) pairs slot
                                -> slot_ok (join_of ds) pairs1 slot)
               /\ (forall j, j ∈ upto a ->
                     exists slot, vget slots j = Some slot
                                  /\ slot_ok (join_of ds) pairs1 slot)).
  { clear Hf. revert pairs pairs1 Hfold. generalize (upto a).
    induction l as [|j js IH]; intros pairs pairs1 Hfold.
    - cbn [ofold] in Hfold. injection Hfold as <-. split; [reflexivity |].
      split; [tauto |]. intros j Hj. inversion Hj.
    - cbn [ofold] in Hfold.
      destruct (vget slots j) as [slot|] eqn:Hslot; [| discriminate].
      cbn [mbind option_bind] in Hfold.
      destruct (vget pref j) as [oh|] eqn:Hoh; [| discriminate].
      cbn [mbind option_bind] in Hfold.
      destruct (AB.cache_pair ds side q_id oh) as [p|] eqn:Hp; [| discriminate].
      cbn [mbind option_bind] in Hfold.
      destruct (vset pairs slot p) as [pairs2|] eqn:Hset; [| discriminate].
      cbn [mbind option_bind] in Hfold.
      assert (HpJ : p ∈ join_of ds).
      { apply vget_Some in Hoh as [_ Hoh]. apply list_elem_of_lookup_2 in Hoh.
        destruct (Hpf sid pref oh Hpref Hoh) as (pre & sd & i & Hst & Hi & Hfound).
        destruct (Hmap pre sd i Hst) as [-> ->].
        apply (partner_pair pre side q_idx oh q_id p Hi Hfound Hq Hp). }
      destruct (IH _ _ Hfold) as (Hl & Hm & Hn).
      split; [rewrite Hl; eapply vset_length; exact Hset |]. split.
      + intros sl Hok. apply Hm. eapply slot_ok_vset; eassumption.
      + intros j' [-> | Hj']%elem_of_cons; [| apply Hn; exact Hj'].
        exists slot. split; [exact Hslot |]. apply Hm.
        exists p. split; [eapply vget_vset_eq; exact Hset | exact HpJ]. }
  destruct H1 as (Hl1 & Hm1 & Hn1).
  assert (Hidx : forall slot, slot ∈ slots ->
            exists j, 0 <= j < k /\ vget slots j = Some slot).
  { intros slot Hin. apply list_elem_of_lookup in Hin as [j Hj].
    pose proof (lookup_lt_Some _ _ _ Hj). exists (Z.of_nat j).
    split; [lia |]. apply vget_Some. split; [lia |]. rewrite Nat2Z.id. exact Hj. }
  destruct (Z.ltb_spec a k) as [Hak|Hak].
  - destruct (vget (AB.w_a_ b) sid) as [wa|];
      cbn [lift_opt mbind outcome_mbind outcome_bind] in Hf; [| discriminate].
    destruct (vget (AB.w_b_ b) sid) as [wb|];
      cbn [lift_opt mbind outcome_mbind outcome_bind] in Hf; [| discriminate].
    destruct (wrap64 (wa + wb) =? 0); [discriminate |].
    destruct (ofold _ (seqZ a (k - a)) _) as [[[aa1 bb1] g1]|] eqn:Htag;
      cbn [lift_opt mbind outcome_mbind outcome_bind] in Hf; [| discriminate].
    injection Hf as <- <- <-.
    destruct (tag_fold sid slots wa wb _ _ _ _ _ _ _ Htag)
      as (Haa & Hbb & Hj & Haa' & Hbb' & Hlen).
    rewrite length_seqZ in Hlen.
    split; [exact Hl1 |]. split; [exact Hm1 |].
    split; [| split; [exact Haa | split; [exact Hbb | split; [exact Haa' |
              split; [exact Hbb' | lia]]]]].
    intros slot Hin. destruct (Hidx slot Hin) as (j & Hjk & Hjs).
    destruct (Z.lt_ge_cases j a) as [Hlt|Hge].
    + left. destruct (Hn1 j) as (slot' & Hs' & Hok); [apply elem_of_seqZ; lia |].
      rewrite Hjs in Hs'. injection Hs' as <-. exact Hok.
    + right. destruct (Hj j) as (slot' & Hs' & Hor); [apply elem_of_seqZ; lia |].
      rewrite Hjs in Hs'. injection Hs' as <-. exact Hor.
  - injection Hf as <- <- <-.
    split; [exact Hl1 |]. split; [exact Hm1 |].
    split; [| split; [tauto | split; [tauto | split; [tauto | split; [tauto | lia]]]]].
    intros slot Hin. destruct (Hidx slot Hin) as (j & Hjk & Hjs).
    left. destruct (Hn1 j) as (slot' & Hs' & Hok); [apply elem_of_seqZ; lia |].
    rewrite Hjs in Hs'. injection Hs' as <-. exact Hok.
Qed.

Lemma run_of_spec sid : forall asg grp rest,
  AB.run_of sid asg = (grp, rest) ->
  asg = grp ++ rest /\ (forall x, x ∈ grp -> fst x = sid).
Proof using Type.
  induction asg as [|x asg IH]; intros grp rest Hr.
  - injection Hr as <- <-. split; [reflexivity |]. intros x Hx. inversion Hx.
  - cbn [AB.run_of] in Hr. destruct (Z.eqb_spec (fst x) sid) as [E|E].
    + destruct (AB.run_of sid asg) as [grp1 rest1] eqn:Hr1. injection Hr as <- <-.
      destruct (IH _ _ eq_refl) as [-> Hg]. split; [reflexivity |].
      intros y [-> | Hy]%elem_of_cons; [exact E | apply Hg; exact Hy].
    + injection Hr as <- <-. split; [reflexivity |]. intros y Hy. inversion Hy.
Qed.

(** The loop over the events of the sorted assignment: afterwards every slot
    either holds a pair of the join or waits in one of the residual lists. *)
Lemma fill_groups_ok b sc sp :
  sample_ready b ->
  forall fuel asg pairs aa bb pairs' aa' bb',
  Z.of_nat (length asg) < 2 ^ 32 ->
  AB.fill_groups fuel b ds sc sp asg (pairs, aa, bb) = Done (pairs', aa', bb') ->
  length pairs' = length pairs
  /\ (forall slot, slot_ok (join_of ds) pairs slot -> slot_ok (join_of ds) pairs' slot)
  /\ (forall x, x ∈ asg -> slot_ok (join_of ds) pairs' (snd x) \/ x ∈ aa' \/ x ∈ bb')
  /\ (forall x, x ∈ aa -> x ∈ aa') /\ (forall x, x ∈ bb -> x ∈ bb')
  /\ (forall x, x ∈ aa' -> x ∈ aa \/ x ∈ asg)
  /\ (forall x, x ∈ bb' -> x ∈ bb \/ x ∈ asg)
  /\ (length aa' + length bb' <= length aa + length bb + length asg)%nat.
Proof using Hsize.
  intros Hready. induction fuel as [|fuel IH]; intros asg pairs aa bb pairs' aa' bb' Hlen Hf;
    [discriminate |].
  cbn [AB.fill_groups] in Hf. destruct asg as [|[sid s0] tl].
  { injection Hf as <- <- <-. split; [reflexivity |]. split; [tauto |].
    split; [intros x Hx; inversion Hx |].
    split; [tauto |]. split; [tauto |]. split; [tauto |]. split; [tauto |]. lia. }
  destruct (AB.run_of sid ((sid, s0) :: tl)) as [grp rest] eqn:Hrun.
  destruct (run_of_spec sid _ _ _ Hrun) as [Hsplit Hgrp].
  assert (Hlg : Z.of_nat (length grp) + Z.of_nat (length rest)
                = Z.of_nat (length ((sid, s0) :: tl))).
  { rewrite Hsplit, length_app. lia. }
  rewrite (wrap32_small (Z.of_nat (length grp))) in Hf by lia.
  destruct (vget (AB.start_side_ b) sid) as [side|] eqn:Hside;
    cbn [lift_opt mbind outcome_mbind outcome_bind] in Hf; [| discriminate].
  destruct (vget (AB.start_index_ b) sid) as [q_idx|] eqn:Hqidx;
    cbn [lift_opt mbind outcome_mbind outcome_bind] in Hf; [| discriminate].
  assert (Hq : exists q_id, RelationOps.GetId (rel_of ds side) q_idx = Some q_id
                            /\ match side with
                               | SideR => RelationOps.GetId (R ds) q_idx
                               | SideS => RelationOps.GetId (S ds) q_idx
                               end = Some q_id).
  { destruct side; cbn [rel_of];
      destruct (RelationOps.GetId _ q_idx) as [q|]; try discriminate;
      exists q; split; reflexivity. }
  destruct Hq as (q_id & Hq & Hq'). rewrite Hq' in Hf.
  cbn [lift_opt mbind outcome_mbind outcome_bind] in Hf.
  destruct (vget (AB.cached_ b) sid) as [c|] eqn:Hc;
    cbn [lift_opt mbind outcome_mbind outcome_bind] in Hf; [| discriminate].
  pose proof (ready_map b sid side q_idx Hready Hside Hqidx) as Hmap.
  assert (Hslots : forall x, x ∈ grp -> snd x ∈ map snd grp).
  { intros x Hx. apply list_elem_of_fmap. exists x. split; [reflexivity | exact Hx]. }
  assert (Hback : forall x, fst x = sid /\ snd x ∈ map snd grp -> x ∈ (sid, s0) :: tl).
  { intros [x1 x2] [Hx1 Hx2]. cbn [fst snd] in Hx1, Hx2. subst x1.
    apply list_elem_of_fmap in Hx2 as ([y1 y2] & -> & Hy). rewrite Hsplit.
    apply elem_of_app. left. pose proof (Hgrp _ Hy) as Hy1. cbn [fst snd] in Hy1 |- *.
    subst y1. exact Hy. }
  assert (Hstep : exists pairs1 aa1 bb1,
            AB.fill_groups fuel b ds sc sp rest (pairs1, aa1, bb1) = Done (pairs', aa', bb')
            /\ length pairs1 = length pairs
            /\ (forall slot, slot_ok (join_of ds) pairs slot
                             -> slot_ok (join_of ds) pairs1 slot)
            /\ (forall slot, slot ∈ map snd grp ->
                  slot_ok (join_of ds) pairs1 slot \/ (sid, slot) ∈ aa1 \/ (sid, slot) ∈ bb1)
            /\ (forall x, x ∈ aa -> x ∈ aa1) /\ (forall x, x ∈ bb -> x ∈ bb1)
            /\ (forall x, x ∈ aa1 -> x ∈ aa \/ (fst x = sid /\ snd x ∈ map snd grp))
            /\ (forall x, x ∈ bb1 -> x ∈ bb \/ (fst x = sid /\ snd x ∈ map snd grp))
            /\ (length aa1 + length bb1 <= length aa + length bb + length (map snd grp))%nat).
  { destruct (Z.eqb_spec c 0) as [Hc0|Hc0]; cbn [negb] in Hf.
    - destruct (AB.fill_from_prefetch _ _ _ _ _ _ _ _ _) as [[[pairs1 aa1] bb1]|msg|] eqn:Hfp;
        cbn [mbind outcome_mbind outcome_bind] in Hf; [| discriminate ..].
      exists pairs1, aa1, bb1. split; [exact Hf |].
      apply (fill_from_prefetch_ok b sid side q_idx q_id sp (map snd grp)
               (Z.of_nat (length grp)) pairs aa bb pairs1 aa1 bb1 Hready Hmap Hq);
        [| exact Hfp].
      rewrite length_map. reflexivity.
    - destruct (AB.fill_from_cache _ _ _ _ _ _ _ _) as [pairs1|msg|] eqn:Hfc;
        cbn [mbind outcome_mbind outcome_bind] in Hf; [| discriminate ..].
      exists pairs1, aa, bb. split; [exact Hf |].
      destruct (fill_from_cache_ok b sid side q_idx q_id sc (map snd grp) pairs pairs1 c
                  Hready Hmap Hc Hc0 Hq Hfc) as (Hl & Hm & Hn).
      split; [exact Hl |]. split; [exact Hm |].
      split; [intros slot Hin; left; apply Hn; exact Hin |].
      split; [tauto |]. split; [tauto |]. split; [tauto |]. split; [tauto |]. lia. }
  destruct Hstep as (pairs1 & aa1 & bb1 & Hrest & Hl1 & Hm1 & Hn1 & Ha1 & Hb1 & Ha1' & Hb1'
                     & Hlen1).
  rewrite length_map in Hlen1.
  destruct (IH rest pairs1 aa1 bb1 pairs' aa' bb' ltac:(lia) Hrest)
    as (Hl2 & Hm2 & Hn2 & Ha2 & Hb2 & Ha2' & Hb2' & Hlen2).
  split; [congruence |]. split; [intros slot Hok; apply Hm2, Hm1, Hok |].
  split; [| split; [intros x Hx; apply Ha2, Ha1, Hx |
            split; [intros x Hx; apply Hb2, Hb1, Hx | split; [| split]]]].
  - intros x Hx. rewrite Hsplit in Hx. apply elem_of_app in Hx as [Hx | Hx].
    + pose proof (Hgrp x Hx) as Hfx. destruct x as [x1 x2]. cbn [fst snd] in *. subst x1.
      destruct (Hn1 x2 (Hslots _ Hx)) as [Hok | [Hin | Hin]].
      * left. apply Hm2. exact Hok.
      * right. left. apply Ha2. exact Hin.
      * right. right. apply Hb2. exact Hin.
    + apply Hn2. exact Hx.
  - intros x Hx. apply Ha2' in Hx as [Hx | Hx].
    + apply Ha1' in Hx as [Hx | Hx]; [left; exact Hx | right; apply Hback; exact Hx].
    + right. rewrite Hsplit. apply elem_of_app. right. exact Hx.
  - intros x Hx. apply Hb2' in Hx as [Hx | Hx].
    + apply Hb1' in Hx as [Hx | Hx]; [left; exact Hx | right; apply Hback; exact Hx].
    + right. rewrite Hsplit. apply elem_of_app. right. exact Hx.
  - lia.
Qed.

(** ** The residual sweep *)

(** What the residual sweep has established after the events [pre]: the
    active sets are those of [pre], the slots that were filled before the
    sweep still hold pairs of the join, and so do the residual slots of
    the START events of [pre]. *)
Record resid_inv (pairs0 : list PairId) (plan : SlotPlan2D) (pre : list Event)
    (ar as_ : ActiveIndex2D.t) (out : list PairId) : Prop := mk_resid_inv {
  ri_act : actives_ok ds pre ar as_;
  ri_len : length out = length pairs0;
  ri_keep : forall slot, slot_ok (join_of ds) pairs0 slot -> slot_ok (join_of ds) out slot;
  ri_a : exists b, vget (offset_a plan) (count_start pre) = Some b
                   /\ filled (join_of ds) (slots_a plan) b out;
  ri_b : exists b, vget (offset_b plan) (count_start pre) = Some b
                   /\ filled (join_of ds) (slots_b plan) b out
}.

Lemma Resid_step_inv ctx plan asg_a asg_b t seed pairs0 pre e suf ar as_ out ar' as' out' :
  ctx_ok ds ctx ->
  0 <= t < 2 ^ 32 ->
  residual_ok (count_start (sweep_events ds)) asg_a (offset_a plan) (slots_a plan) ->
  residual_ok (count_start (sweep_events ds)) asg_b (offset_b plan) (slots_b plan) ->
  Z.of_nat (length asg_a) <= t -> Z.of_nat (length asg_b) <= t ->
  sweep_events ds = pre ++ e :: suf ->
  resid_inv pairs0 plan pre ar as_ out ->
  AB.Sample_step ctx ds plan seed (ar, as_, out) (Z.of_nat (length pre), e)
  = Done (ar', as', out') ->
  resid_inv pairs0 plan (pre ++ [e]) ar' as' out'.
Proof using H Hvalid Hsize.
  intros Hctx Ht HplanA HplanB HtA HtB Hsplit [Hact Hlen Hkeep (ba & Hba & Hfa) (bb & Hbb & Hfb)]
    Hstep.
  assert (e ∈ sweep_events ds) as He by (rewrite Hsplit, elem_of_app, elem_of_cons; tauto).
  apply elem_sweep_events in He as (sd & i & Hi & [-> | ->]); fold (n_of ds sd) in Hi.
  - (* START *)
    destruct (start_id_eq ds Hsize ctx pre _ suf Hctx Hsplit eq_refl) as (Hsid & Hw32 & Hsr & H31).
    set (c := count_start pre) in *.
    pose proof (rank_range ds Hvalid Hsize sd i Hi) as (Hr1 & Hr2 & Hr3).
    unfold AB.Sample_step in Hstep. cbn [ev_kind start_ev] in Hstep.
    change (mkEvent (v0 (lo (box_at (rel_of ds sd) i))) Start sd (id_of (rel_of ds sd) i) i)
      with (start_ev (rel_of ds sd) sd i) in Hstep.
    rewrite Hsid in Hstep. cbn [lift_opt mbind outcome_mbind outcome_bind] in Hstep.
    rewrite Hw32 in Hstep.
    rewrite (query_ranks_ok ds ctx sd i Hctx Hi) in Hstep.
    cbn [lift_opt mbind outcome_mbind outcome_bind] in Hstep.
    rewrite sweep_other_tree in Hstep.
    destruct (Hact (other_side sd)) as (act & Hrep & Hmem).
    assert (Hjoin : forall oh p,
              oh ∈ act ->
              lo_rank ds (other_side sd) oh <= lo_rank ds sd i < hi_rank ds (other_side sd) oh
              \/ lo_rank ds sd i < lo_rank ds (other_side sd) oh < hi_rank ds sd i ->
              make_pair ds (start_ev (rel_of ds sd) sd i) oh = Some p -> p ∈ join_of ds).
    { intros oh p Hoh Hpat Hp. apply Hmem in Hoh as [Hj Ha].
      apply (make_pair_join ds sd i oh p Hi Hj); [| exact Hp].
      apply (start_pattern_isect ds Hvalid Hsize pre suf sd i oh Hsplit Hi Hj Ha Hpat). }
    assert (HE : Z.of_nat (Z.to_nat (count_start (sweep_events ds)))
                 = count_start (sweep_events ds)) by lia.
    destruct (offsets_step t _ (offset_a plan) (slots_a plan) c ba
                (ro_len _ _ _ _ HplanA) (ro_mono _ _ _ _ HplanA) (ro_zero _ _ _ _ HplanA)
                (ro_last _ _ _ _ HplanA)
                ltac:(rewrite (ro_slots _ _ _ _ HplanA); lia) ltac:(lia) Hba)
      as (ea & Hea & Ha0 & Hab & Hat).
    destruct (offsets_step t _ (offset_b plan) (slots_b plan) c bb
                (ro_len _ _ _ _ HplanB) (ro_mono _ _ _ _ HplanB) (ro_zero _ _ _ _ HplanB)
                (ro_last _ _ _ _ HplanB)
                ltac:(rewrite (ro_slots _ _ _ _ HplanB); lia) ltac:(lia) Hbb)
      as (eb & Heb & Hb0 & Hbb' & Hbt).
    destruct (sample_pattern _ ds _ (ActiveIndex2D.SampleA _ _) _ _ _ _ out _)
      as [[out1 g1]| |] eqn:HA; cbn [mbind outcome_mbind outcome_bind] in Hstep;
      try discriminate.
    destruct (sample_pattern_Done (join_of ds) _ ds _ _
                (filter (fun h => lo_rank ds (other_side sd) h <= lo_rank ds sd i
                                  < hi_rank ds (other_side sd) h) act)
                _ _ _ _ _ _ _ _ ba ea HA Hba Hea Ha0 Hab ltac:(lia))
      as (Hl1 & Hm1 & Hf1).
    { intros k g0 Hk. apply (idx_SampleA _ _ _ _ _ _ _ k g0 Hrep); [lia | exact Hk]. }
    { intros oh p [Hpat Hoh]%list_elem_of_filter Hp. apply (Hjoin oh p Hoh); [tauto | exact Hp]. }
    { exact Hfa. }
    destruct (sample_pattern _ ds _ (ActiveIndex2D.SampleB _ _ _) _ _ _ _ out1 _)
      as [[out2 g2]| |] eqn:HB; cbn [mbind outcome_mbind outcome_bind] in Hstep;
      try discriminate.
    destruct (sample_pattern_Done (join_of ds) _ ds _ _
                (filter (fun h => lo_rank ds sd i < lo_rank ds (other_side sd) h
                                  < hi_rank ds sd i) act)
                _ _ _ _ _ _ _ _ bb eb HB Hbb Heb Hb0 Hbb' ltac:(lia))
      as (Hl2 & Hm2 & Hf2).
    { intros k g0 Hk. apply (idx_SampleB _ _ _ _ _ _ _ _ k g0 Hrep); [lia | exact Hk]. }
    { intros oh p [Hpat Hoh]%list_elem_of_filter Hp. apply (Hjoin oh p Hoh); [tauto | exact Hp]. }
    { eapply filled_mono; [exact Hm1 | exact Hfb]. }
    destruct (sweep_insert_ok ds Hvalid Hsize pre suf sd i _ _ Hsplit Hi Hact)
      as (ar1 & as1 & Hins & Hact').
    rewrite Hins in Hstep. cbn [lift_opt mbind outcome_mbind outcome_bind] in Hstep.
    injection Hstep as <- <- <-.
    constructor.
    + exact Hact'.
    + rewrite Hl2, Hl1. exact Hlen.
    + intros slot Hok. apply Hm2, Hm1, Hkeep, Hok.
    + exists ea. rewrite count_start_snoc. cbn [is_start ev_kind start_ev EventKind_eqb].
      fold c. split; [exact Hea |]. eapply filled_mono; [exact Hm2 | exact Hf1].
    + exists eb. rewrite count_start_snoc. cbn [is_start ev_kind start_ev EventKind_eqb].
      fold c. split; [exact Heb | exact Hf2].
  - (* END *)
    destruct (sweep_erase_ok ds Hvalid Hsize pre suf sd i _ _ Hsplit Hi Hact)
      as (ar1 & as1 & Her & Hact').
    unfold AB.Sample_step in Hstep. cbn [ev_kind end_ev] in Hstep.
    change (mkEvent (v0 (hi (box_at (rel_of ds sd) i))) End sd (id_of (rel_of ds sd) i) i)
      with (end_ev (rel_of ds sd) sd i) in Hstep.
    rewrite Her in Hstep. cbn [lift_opt mbind outcome_mbind outcome_bind] in Hstep.
    injection Hstep as <- <- <-.
    constructor.
    + exact Hact'.
    + exact Hlen.
    + exact Hkeep.
    + exists ba. rewrite count_start_snoc. cbn [is_start ev_kind end_ev EventKind_eqb].
      rewrite Z.add_0_r. split; assumption.
    + exists bb. rewrite count_start_snoc. cbn [is_start ev_kind end_ev EventKind_eqb].
      rewrite Z.add_0_r. split; assumption.
Qed.

Lemma Resid_fold ctx plan asg_a asg_b t seed pairs0 :
  ctx_ok ds ctx ->
  0 <= t < 2 ^ 32 ->
  residual_ok (count_start (sweep_events ds)) asg_a (offset_a plan) (slots_a plan) ->
  residual_ok (count_start (sweep_events ds)) asg_b (offset_b plan) (slots_b plan) ->
  Z.of_nat (length asg_a) <= t -> Z.of_nat (length asg_b) <= t ->
  forall suf pre ar as_ out ar' as' out',
    sweep_events ds = pre ++ suf ->
    resid_inv pairs0 plan pre ar as_ out ->
    outfold (AB.Sample_step ctx ds plan seed)
      (zip (seqZ (Z.of_nat (length pre)) (Z.of_nat (length suf))) suf) (ar, as_, out)
    = Done (ar', as', out') ->
    resid_inv pairs0 plan (sweep_events ds) ar' as' out'.
Proof using H Hvalid Hsize.
  intros Hctx Ht HplanA HplanB HtA HtB. induction suf as [|e suf IH];
    intros pre ar as_ out ar' as' out' Hsplit Hinv Hfold.
  - cbn [length zip zip_with outfold] in Hfold. injection Hfold as <- <- <-.
    rewrite Hsplit, app_nil_r. exact Hinv.
  - cbn [length] in Hfold. rewrite seqZ_cons_S in Hfold. cbn [zip zip_with] in Hfold.
    apply outfold_cons_Done in Hfold as ([[ar1 as1] out1] & Hstep & Hrest).
    pose proof (Resid_step_inv ctx plan asg_a asg_b t seed pairs0 pre e suf ar as_ out
                  ar1 as1 out1 Hctx Ht HplanA HplanB HtA HtB Hsplit Hinv Hstep) as Hinv1.
    apply (IH (pre ++ [e]) ar1 as1 out1 ar' as' out').
    + rewrite <- app_assoc. exact Hsplit.
    + exact Hinv1.
    + rewrite length_app. cbn [length].
      replace (Z.of_nat (length pre + 1)) with (Z.of_nat (length pre) + 1) by lia.
      exact Hrest.
Qed.

(** ** The assignment of the slots to events *)

Lemma assign_fold alias (E : Z) :
  (forall g i g', AliasTable.Sample alias g = Some (i, g') -> 0 <= i < E) ->
  E <= 2 ^ 31 ->
  forall (js : list Z) (acc : list (Z * Z)) (g : Rng) acc' g',
    ofold (fun '(asg, rng_assign) (j : Z) =>
             '(i, rng_assign) ← AliasTable.Sample alias rng_assign;
             Some (asg ++ [(wrap32 i, j)], rng_assign)) js (acc, g) = Some (acc', g') ->
    exists l, acc' = acc ++ l /\ map snd l = js /\ forall x, x ∈ l -> 0 <= fst x < E.
Proof using Type.
  intros Hrange HE. induction js as [|j js IH]; intros acc g acc' g' Hf.
  - cbn [ofold] in Hf. injection Hf as <- <-. exists []. rewrite app_nil_r.
    split; [reflexivity |]. split; [reflexivity |]. intros x Hx. inversion Hx.
  - cbn [ofold] in Hf.
    destruct (AliasTable.Sample alias g) as [[i g1]|] eqn:Hs; [| discriminate].
    cbn [mbind option_bind] in Hf.
    pose proof (Hrange g i g1 Hs) as Hi.
    rewrite wrap32_small in Hf by (change (2 ^ 32) with (2 * 2 ^ 31); lia).
    destruct (IH _ _ _ _ Hf) as (l & -> & Hl & Hr).
    exists ((i, j) :: l). rewrite <- app_assoc. split; [reflexivity |].
    split; [cbn [map snd]; rewrite Hl; reflexivity |].
    intros x [-> | Hx]%elem_of_cons; [exact Hi | apply Hr; exact Hx].
Qed.

Lemma alias_of_weights_range (w : list Z) alias :
  Z.of_nat (length w) <= 2 ^ 31 ->
  AliasTable.BuildFromU64 w = Done alias ->
  forall g i g', AliasTable.Sample alias g = Some (i, g') -> 0 <= i < Z.of_nat (length w).
Proof using Type.
  intros Hlen Hb g i g' Hs.
  destruct (Z.eq_dec (Z.of_nat (length w)) 0) as [E0|E0].
  - exfalso. unfold AliasTable.BuildFromU64 in Hb. rewrite E0 in Hb.
    change (0 =? 0) with true in Hb. cbv iota in Hb. injection Hb as <-.
    unfold AliasTable.Sample, AliasTable.Clear in Hs.
    cbn [AliasTable.uniform_fallback_ AliasTable.n_ AliasTable.prob_ AliasTable.alias_] in Hs.
    change (RngOps.UniformU64 0 g) with (Some (0, g)) in Hs.
    cbn [mbind option_bind] in Hs. destruct (NextDouble g) as [u g1].
    discriminate Hs.
  - destruct (BuildFromU64_wf w) as (a & Ha & Hwf).
    { unfold u32_max. change (2 ^ 31) with 2147483648 in Hlen. lia. }
    rewrite Ha in Hb. injection Hb as <-.
    pose proof (alias_Sample_range _ a g Hwf ltac:(lia)) as Hr.
    rewrite Hs in Hr. exact Hr.
Qed.

(** ** [Sample] *)

Lemma slots_all_ok (t : Z) (out : list PairId) :
  Z.of_nat (length out) = t ->
  (forall j, 0 <= j < t -> slot_ok (join_of ds) out j) ->
  forall p, p ∈ out -> p ∈ join_of ds.
Proof using Type.
  intros Hlen Hall p Hp. apply list_elem_of_lookup in Hp as [j Hj].
  pose proof (lookup_lt_Some _ _ _ Hj) as Hjl.
  destruct (Hall (Z.of_nat j) ltac:(lia)) as (p' & Hg & Hp').
  apply vget_Some in Hg as [_ Hg]. rewrite Nat2Z.id, Hj in Hg. injection Hg as <-. exact Hp'.
Qed.

Lemma Adaptive_Sample_sound b cfg g ss b' g' :
  adaptive_ok ds b ->
  start_map_ok ds (AB.start_side_ b) (AB.start_index_ b) (sweep_events ds) ->
  (AB.weights_valid_ b && AB.cache_valid_ b = true ->
   cache_inv_b ds b /\ AB.W_ b = CountNaive (R ds) (S ds)) ->
  0 <= run_t cfg ->
  AB.Sample b cfg g = Done (ss, b', g') ->
  (forall p, p ∈ pairs ss -> p ∈ join_of ds)
  /\ Z.of_nat (length (pairs ss))
     = (if CountNaive (R ds) (S ds) =? 0 then 0 else run_t cfg)
  /\ weighted ss = false /\ with_replacement ss = true /\ weights_size ss = 0.
Proof using Hvalid Hsize.
  intros Hok Hmap Hvalid_flags Hnn Hs. pose proof Hok as [Hb Hctx Hwt Hwa Hwb].
  unfold AB.Sample in Hs.
  rewrite (co_ds ds _ Hctx), Hb, (co_built ds _ Hctx) in Hs. cbn [negb orb] in Hs.
  destruct (Z.ltb_spec u32_max (run_t cfg)) as [|Hu]; [discriminate |].
  unfold u32_max in Hu. rewrite (wrap32_small (run_t cfg)) in Hs by lia.
  destruct (Z.eqb_spec (run_t cfg) 0) as [Ht0|Ht0].
  { injection Hs as <- _ _. cbn [pairs weighted with_replacement weights_size length].
    split; [intros p Hp; inversion Hp |]. split; [| repeat split].
    rewrite Ht0. destruct (Z.eqb (CountNaive (R ds) (S ds)) 0); reflexivity. }
  lazymatch type of Hs with
  | @mbind _ _ _ _ ?k ?m = _ =>
      assert (Hb1 : match m with
                    | Done (b1, g1) => sample_ready b1
                    | _ => True
                    end)
  end.
  { destruct (AB.weights_valid_ b && AB.cache_valid_ b) eqn:Hwv.
    - destruct (Hvalid_flags eq_refl) as [Hci HW]. constructor; assumption.
    - pose proof (Adaptive_Count_any ds Hvalid Hsize b cfg g Hok) as Hany.
      destruct (AB.Count b cfg g) as [[[c b1] g1]|msg|] eqn:Hc;
        cbn [mbind outcome_mbind outcome_bind]; [| exact I ..].
      destruct Hany as (_ & _ & _ & HW1 & _ & _ & _ & _ & _ & _ & _ & Hok1).
      destruct (Adaptive_Count_cache ds Hvalid Hsize b cfg g c b1 g1 Hok Hc)
        as (Hci & Hss & Hsi).
      constructor; [exact Hok1 | rewrite Hss, Hsi; exact Hmap | exact Hci | exact HW1]. }
  destruct (if AB.weights_valid_ b && AB.cache_valid_ b then _ else _) as [[b1 g1]|msg|];
    cbn [mbind outcome_mbind outcome_bind] in Hs; [| discriminate ..].
  pose proof Hb1 as [Hok1 Hmap1 Hci1 HW1]. rewrite HW1 in Hs.
  destruct (Z.eqb_spec (CountNaive (R ds) (S ds)) 0) as [HJ|HJ].
  { injection Hs as <- _ _. cbn [pairs weighted with_replacement weights_size length].
    split; [intros p Hp; inversion Hp |]. repeat split. }
  destruct Hok1 as [Hbt1 Hctx1 Hwt1 Hwa1 Hwb1].
  pose proof (count_start_le (sweep_events ds)) as Hcs.
  rewrite (sweep_events_length ds) in Hcs.
  assert (HE31 : count_start (sweep_events ds) <= 2 ^ 31)
    by (change (2 ^ 31) with (2 * 2 ^ 30); lia).
  destruct (AliasTable.BuildFromU64 (AB.w_total_ b1)) as [alias|msg|] eqn:Halias;
    cbn [mbind outcome_mbind outcome_bind] in Hs; [| discriminate ..].
  pose proof (alias_of_weights_range (AB.w_total_ b1) alias ltac:(lia) Halias) as Hrange.
  rewrite Hwt1 in Hrange, Hs.
  destruct (RngOps.NextU64 g1) as [seed_assign g2].
  destruct (RngOps.NextU64 g2) as [seed_cache g3].
  destruct (RngOps.NextU64 g3) as [seed_pat g4].
  destruct (RngOps.NextU64 g4) as [seed_sweep g5].
  destruct (ofold _ (upto (run_t cfg)) _) as [[asg0 ga]|] eqn:Hasg;
    cbn [lift_opt mbind outcome_mbind outcome_bind] in Hs; [| discriminate].
  destruct (assign_fold alias _ Hrange HE31 _ _ _ _ _ Hasg) as (l0 & Hl0 & Hsnd & Hfst).
  rewrite app_nil_l in Hl0. subst l0.
  set (asg := std_sort AB.by_sid_slot asg0) in *.
  assert (Hperm : asg ≡ₚ asg0) by apply std_sort_perm.
  assert (Hlen0 : Z.of_nat (length asg0) = run_t cfg).
  { rewrite <- (length_map snd), Hsnd. unfold upto. rewrite length_seqZ. lia. }
  assert (Hlen : Z.of_nat (length asg) = run_t cfg) by (rewrite Hperm; exact Hlen0).
  assert (Hcover : forall j, 0 <= j < run_t cfg -> exists sid, (sid, j) ∈ asg).
  { intros j Hj. assert (Hin : j ∈ map snd asg0) by (rewrite Hsnd; apply elem_of_seqZ; lia).
    apply list_elem_of_fmap in Hin as ([sid j'] & -> & Hin). exists sid.
    rewrite Hperm. exact Hin. }
  assert (Hsids : forall x, x ∈ asg -> 0 <= fst x < count_start (sweep_events ds)).
  { intros x Hx. apply Hfst. rewrite <- Hperm. exact Hx. }
  set (pairs0 := replicate (Z.to_nat (run_t cfg)) (mkPairId 0 0)) in *.
  destruct (AB.fill_groups _ b1 ds seed_cache seed_pat asg (pairs0, [], []))
    as [[[pairs1 asg_a] asg_b]|msg|] eqn:Hfill;
    cbn [mbind outcome_mbind outcome_bind] in Hs; [| discriminate ..].
  destruct (fill_groups_ok b1 seed_cache seed_pat Hb1 _ asg pairs0 [] [] pairs1 asg_a asg_b
              ltac:(lia) Hfill) as (Hl1 & _ & Hcov & _ & _ & Hina & Hinb & Hlab).
  cbn [length] in Hlab.
  assert (Hl1' : Z.of_nat (length pairs1) = run_t cfg).
  { rewrite Hl1. unfold pairs0. rewrite length_replicate. lia. }
  destruct (Nat.eqb (length asg_a) 0 && Nat.eqb (length asg_b) 0) eqn:Hempty.
  - (* one pass *)
    injection Hs as <- _ _. cbn [pairs weighted with_replacement weights_size].
    split; [| split; [exact Hl1' | repeat split]].
    apply (slots_all_ok (run_t cfg) pairs1 Hl1').
    intros j Hj. destruct (Hcover j Hj) as [sid Hin].
    apply andb_prop in Hempty as [Ha Hb0]. apply Nat.eqb_eq in Ha, Hb0.
    destruct asg_a; [| discriminate]. destruct asg_b; [| discriminate].
    destruct (Hcov _ Hin) as [Hsl | [Hx | Hx]]; [exact Hsl | inversion Hx ..].
  - (* residual sweep *)
    clear Hempty.
    destruct (AB.residual_plan _ asg_a) as [[off_a sl_a]|] eqn:HpA;
      cbn [lift_opt mbind outcome_mbind outcome_bind] in Hs; [| discriminate].
    destruct (AB.residual_plan _ asg_b) as [[off_b sl_b]|] eqn:HpB;
      cbn [lift_opt mbind outcome_mbind outcome_bind] in Hs; [| discriminate].
    assert (HrA : residual_ok (count_start (sweep_events ds)) asg_a off_a sl_a).
    { apply residual_plan_ok; [lia | lia | | exact HpA].
      intros x Hx. apply Hina in Hx as [Hx | Hx]; [inversion Hx | apply Hsids; exact Hx]. }
    assert (HrB : residual_ok (count_start (sweep_events ds)) asg_b off_b sl_b).
    { apply residual_plan_ok; [lia | lia | | exact HpB].
      intros x Hx. apply Hinb in Hx as [Hx | Hx]; [inversion Hx | apply Hsids; exact Hx]. }
    pose proof (ctx_ok_ResetActive' ds _ Hctx1) as Hctx'.
    set (ctx' := Ours2DContext.ResetActive (AB.ctx_ b1)) in *.
    rewrite (co_events ds _ Hctx') in Hs. unfold with_pos, upto in Hs.
    destruct (outfold _ _ _) as [[[ar as_] out]| |] eqn:Hfold;
      cbn [mbind outcome_mbind outcome_bind] in Hs; [| discriminate ..].
    injection Hs as <- _ _. cbn [pairs weighted with_replacement weights_size].
    pose proof (Resid_fold ctx' (mkSlotPlan2D off_a off_b sl_a sl_b) asg_a asg_b
                  (run_t cfg) seed_sweep pairs1 Hctx' ltac:(lia) HrA HrB ltac:(lia) ltac:(lia)
                  (sweep_events ds) [] (Ours2DContext.active_r_ ctx')
                  (Ours2DContext.active_s_ ctx') pairs1 ar as_ out eq_refl) as Hinv.
    cbn [length] in Hinv. change (Z.of_nat 0) with 0 in Hinv.
    specialize (Hinv ltac:(constructor;
      [ apply actives_ok_nil; exact Hctx1
      | reflexivity
      | tauto
      | exists 0; split;
          [ apply vget_Some; split; [unfold count_start, zcount; cbn; lia |];
            exact (ro_zero _ _ _ _ HrA)
          | intros q Hq; lia ]
      | exists 0; split;
          [ apply vget_Some; split; [unfold count_start, zcount; cbn; lia |];
            exact (ro_zero _ _ _ _ HrB)
          | intros q Hq; lia ] ]) Hfold).
    destruct Hinv as [_ Hlo Hkeep (ba & Hba & Hfa) (bb & Hbb & Hfb)].
    cbn [offset_a offset_b slots_a slots_b] in Hba, Hbb, Hfa, Hfb.
    assert (Hlo' : Z.of_nat (length out) = run_t cfg) by (rewrite Hlo; exact Hl1').
    split; [| split; [exact Hlo' | repeat split]].
    apply (slots_all_ok (run_t cfg) out Hlo').
    apply vget_Some in Hba as [_ Hba]. apply vget_Some in Hbb as [_ Hbb].
    rewrite (ro_last _ _ _ _ HrA) in Hba. injection Hba as <-.
    rewrite (ro_last _ _ _ _ HrB) in Hbb. injection Hbb as <-.
    intros j Hj. destruct (Hcover j Hj) as [sid Hin].
    destruct (Hcov _ Hin) as [Hsl0 | [Hx | Hx]].
    + apply Hkeep. exact Hsl0.
    + pose proof (ro_all _ _ _ _ HrA _ Hx) as Hsl. cbn [snd] in Hsl.
      apply list_elem_of_lookup in Hsl as [q Hq].
      pose proof (lookup_lt_Some _ _ _ Hq) as Hql.
      destruct (Hfa (Z.of_nat q) ltac:(lia)) as (slot & Hsq & Hsok).
      apply vget_Some in Hsq as [_ Hsq]. rewrite Nat2Z.id, Hq in Hsq. injection Hsq as <-.
      exact Hsok.
    + pose proof (ro_all _ _ _ _ HrB _ Hx) as Hsl. cbn [snd] in Hsl.
      apply list_elem_of_lookup in Hsl as [q Hq].
      pose proof (lookup_lt_Some _ _ _ Hq) as Hql.
      destruct (Hfb (Z.of_nat q) ltac:(lia)) as (slot & Hsq & Hsok).
      apply vget_Some in Hsq as [_ Hsq]. rewrite Nat2Z.id, Hq in Hsq. injection Hsq as <-.
      exact Hsok.
Qed.

End AdaptiveSample.



(** * A run of the protocol, end to end *)

(** What the report of a run on [ds] says when it is right: the run
    succeeded, the report names the seed and the request, the count is the
    exact size of the join, and the samples are [t] pairs of the join (none
    when the join is empty). *)
Definition report_sound `{FloatOps} (ds : Dataset) (cfg : Config) (seed : Z)
    (rep : RunReport) : Prop :=
  ok rep = true /\ rr_seed rep = seed /\ rr_t rep = run_t cfg
  /\ rr_count rep = MakeExactCount (CountNaive (R ds) (S ds))
  /\ (exists J, CollectNaivePairs (R ds) (S ds) 0 = Some J
                /\ forall p, p ∈ pairs (rr_samples rep) -> p ∈ J)
  /\ Z.of_nat (length (pairs (rr_samples rep)))
     = (if CountNaive (R ds) (S ds) =? 0 then 0 else run_t cfg).

Section Runs.
Context `{FloatOps}.
Variable ds : Dataset.
Hypothesis Hvalid : DatasetOps.Validate true ds = true.
Hypothesis Hsize : RelationOps.Size (R ds) + RelationOps.Size (S ds) <= 2 ^ 30.

Lemma join_collected :
  CollectNaivePairs (R ds) (S ds) 0 = Some (join_of ds).
Proof using Hvalid.
  pose proof Hvalid as Hv. apply andb_prop in Hv as [[_ HvR]%andb_prop HvS].
  rewrite (CollectNaivePairs_eq (R ds) (S ds) 0
             (Validate_ids_ok _ _ HvR) (Validate_ids_ok _ _ HvS)).
  reflexivity.
Qed.

Lemma run_sampling_sound (s0 : OursSamplingBaseline.t) cfg seed rep b' :
  0 <= run_t cfg ->
  RunSamplingOnce s0 ds cfg seed = Done (rep, b') -> report_sound ds cfg seed rep.
Proof using Hvalid Hsize.
  intros Ht Hrun. unfold RunSamplingOnce, run_protocol in Hrun.
  cbn [Build Reset Count Sample OursSampling_IBaseline] in Hrun.
  destruct (Sampling_Build_cases ds Hvalid Hsize (OursSamplingBaseline.Reset s0) cfg)
    as [[_ Hf] | [_ (b1 & Hb1 & Hok1 & _)]].
  { rewrite Hf in Hrun. discriminate Hrun. }
  rewrite Hb1 in Hrun. cbn [mbind outcome_mbind outcome_bind] in Hrun.
  destruct (Sampling_Count_ok ds Hvalid Hsize b1 cfg Hok1) as (b2 & Hc & Hok2 & HW2 & _).
  rewrite Hc in Hrun. cbn [mbind outcome_mbind outcome_bind] in Hrun.
  destruct (OursSamplingBaseline.Sample b2 cfg _) as [[[ss b3] g3]|msg|] eqn:Hs;
    cbn [mbind outcome_mbind outcome_bind] in Hrun; [| discriminate Hrun ..].
  destruct (Sampling_Sample_sound ds Hvalid Hsize b2 cfg _ ss b3 g3 Hok2 ltac:(intros _; exact HW2)
              Ht Hs) as (Hin & Hlen & Hw & Hr & Hz).
  destruct (SampleSetOps.Validate ss) as [u|msg|];
    cbn [mbind outcome_mbind outcome_bind] in Hrun; [| discriminate Hrun ..].
  injection Hrun as <- _. unfold report_sound. cbn [ok rr_seed rr_t rr_count rr_samples].
  repeat (split; [reflexivity |]). split; [| exact Hlen].
  exists (join_of ds). split; [apply join_collected | exact Hin].
Qed.

Lemma run_adaptive_sound (a0 : AB.t) cfg seed rep b' :
  0 <= run_t cfg ->
  RunAdaptiveOnce a0 ds cfg seed = Done (rep, b') -> report_sound ds cfg seed rep.
Proof using Hvalid Hsize.
  intros Ht Hrun. unfold RunAdaptiveOnce, run_protocol in Hrun.
  cbn [Build Reset Count Sample OursAdaptive_IBaseline] in Hrun.
  destruct (AB.Build (AB.Reset a0) ds cfg) as [b1|msg|] eqn:Hb1;
    cbn [mbind outcome_mbind outcome_bind] in Hrun; [| discriminate Hrun ..].
  destruct (Adaptive_Build_ctx ds _ cfg b1 Hvalid Hsize Hb1) as (Hok1 & _).
  pose proof (Adaptive_Build_map ds Hvalid Hsize _ cfg b1 Hb1) as Hmap1.
  pose proof (Adaptive_Count_any ds Hvalid Hsize b1 cfg (RngOps.Seed (DeriveSeed seed 1)) Hok1)
    as Hany.
  destruct (AB.Count b1 cfg _) as [[[c b2] g2]|msg|] eqn:Hc;
    cbn [mbind outcome_mbind outcome_bind] in Hrun; [| discriminate Hrun ..].
  destruct Hany as (_ & _ & Hcv & HW & _ & _ & _ & _ & _ & _ & _ & Hok2).
  destruct (Adaptive_Count_cache ds Hvalid Hsize b1 cfg _ c b2 g2 Hok1 Hc) as (Hci & Hss & Hsi).
  destruct (AB.Sample b2 cfg _) as [[[ss b3] g3]|msg|] eqn:Hs;
    cbn [mbind outcome_mbind outcome_bind] in Hrun; [| discriminate Hrun ..].
  destruct (Adaptive_Sample_sound ds Hvalid Hsize b2 cfg _ ss b3 g3 Hok2
              ltac:(rewrite Hss, Hsi; exact Hmap1) ltac:(intros _; split; [exact Hci | exact HW])
              Ht Hs) as (Hin & Hlen & Hw & Hr & Hz).
  destruct (SampleSetOps.Validate ss) as [u|msg|];
    cbn [mbind outcome_mbind outcome_bind] in Hrun; [| discriminate Hrun ..].
  injection Hrun as <- _. unfold report_sound. cbn [ok rr_seed rr_t rr_count rr_samples].
  repeat (split; [reflexivity |]). split; [exact Hcv |]. split; [| exact Hlen].
  exists (join_of ds). split; [apply join_collected | exact Hin].
Qed.

End Runs.



(** * The event list that the sweep runs over *)

(** [evs] never places an event behind another one that it precedes in the
    order of the key. *)
Definition events_sorted (tb : SideTieBreak) (evs : list Event) : Prop :=
  StronglySorted (fun a b => ~ lex_lt (event_key tb b) (event_key tb a)) evs.

(** [evs] ascends strictly in the order of the key. *)
Definition events_ascending (tb : SideTieBreak) (evs : list Event) : Prop :=
  StronglySorted (fun a b => lex_lt (event_key tb a) (event_key tb b)) evs.

Lemma SortSweepEvents_events_sorted evs tb : events_sorted tb (SortSweepEvents evs tb).
Proof.
  eapply StronglySorted_mono; [| apply SortSweepEvents_sorted].
  intros a b Hab Hlt. apply EventLess_lex in Hlt. unfold not_after in Hab. congruence.
Qed.

Lemma events_sorted_ascending tb evs :
  NoDup evs -> events_sorted tb evs -> events_ascending tb evs.
Proof.
  unfold events_sorted, events_ascending.
  intros Hnd Hs. induction Hs as [|a l Hs IH Ha]; [constructor |].
  apply NoDup_cons in Hnd as [Hna Hnd]. constructor; [apply IH; exact Hnd |].
  rewrite Forall_forall in Ha |- *. intros b Hb. specialize (Ha b Hb).
  destruct (lex_lt_total (event_key tb a) (event_key tb b)) as [H | [H | H]];
    [reflexivity | exact H | | contradiction].
  apply event_key_inj in H. subst b. contradiction.
Qed.

(** What [BuildSweepEvents] returns is the sorted vector, whatever the ids. *)
Lemma BuildSweepEvents_sorted ds axis tb evs :
  BuildSweepEvents ds axis tb = Some evs -> events_sorted tb evs.
Proof.
  unfold BuildSweepEvents.
  destruct (AppendRelationEvents (R ds) SideR axis []) as [ev1|]; [| discriminate].
  cbn [mbind option_bind].
  destruct (AppendRelationEvents (S ds) SideS axis ev1) as [ev2|]; [| discriminate].
  cbn [mbind option_bind]. intros [= <-]. apply SortSweepEvents_events_sorted.
Qed.

Lemma BuildSweepEvents_ascending ds axis tb :
  ids_ok (R ds) -> ids_ok (S ds) ->
  exists evs, BuildSweepEvents ds axis tb = Some evs /\ events_ascending tb evs.
Proof.
  intros HR HS.
  set (raw := events_from (R ds) SideR axis (boxes (R ds)) 0
              ++ events_from (S ds) SideS axis (boxes (S ds)) 0).
  assert (Hbuild : BuildSweepEvents ds axis tb = Some (SortSweepEvents raw tb)).
  { unfold BuildSweepEvents, AppendRelationEvents.
    rewrite (AppendRelationEvents_loop_gen (R ds) SideR axis (boxes (R ds)) 0 [])
      by (intros j Hj; apply GetId_ok; [exact HR | unfold RelationOps.Size; lia]).
    cbn [mbind option_bind app].
    rewrite (AppendRelationEvents_loop_gen (S ds) SideS axis (boxes (S ds)) 0)
      by (intros j Hj; apply GetId_ok; [exact HS | unfold RelationOps.Size; lia]).
    reflexivity. }
  assert (Hnd : NoDup raw).
  { unfold raw. apply NoDup_app. split; [apply NoDup_events_from |].
    split; [| apply NoDup_events_from].
    intros e (j & b & _ & _ & He)%elem_events_from (j' & b' & _ & _ & He')%elem_events_from.
    assert (ev_side e = SideR) by (destruct He as [-> | ->]; reflexivity).
    assert (ev_side e = SideS) by (destruct He' as [-> | ->]; reflexivity).
    congruence. }
  exists (SortSweepEvents raw tb). split; [exact Hbuild |].
  apply events_sorted_ascending; [| apply SortSweepEvents_events_sorted].
  rewrite (SortSweepEvents_perm raw tb). exact Hnd.
Qed.

(** The context keeps the vector [BuildSweepEvents] returned for axis 0 and
    the tie-break R before S; this is the vector every sweep runs over. *)
Lemma Build_events c ds ctx :
  Ours2DContext.Build c ds = Done ctx ->
  BuildSweepEvents ds 0 RBeforeS = Some (Ours2DContext.events_ ctx).
Proof.
  unfold Ours2DContext.Build.
  destruct ((u32_max <? RelationOps.Size (R ds)) || (u32_max <? RelationOps.Size (S ds)));
    [discriminate |].
  destruct (BuildSweepEvents ds 0 RBeforeS) as [evs|];
    cbn [lift_opt mbind outcome_mbind outcome_bind]; [| discriminate].
  destruct (Ours2DContext.start_ids evs 0 []) as [sids sep].
  match goal with
  | |- (if ?c then Fail _ else _) = _ -> _ => destruct c; [discriminate |]
  end.
  destruct (ActiveIndex2D.Init (wrap32 (RelationOps.Size (R ds))) _) as [ar|];
    cbn [lift_opt mbind outcome_mbind outcome_bind]; [| discriminate].
  destruct (ActiveIndex2D.Init (wrap32 (RelationOps.Size (S ds))) _) as [as_|];
    cbn [lift_opt mbind outcome_mbind outcome_bind]; [| discriminate].
  intros [= <-]. reflexivity.
Qed.


(** * A run is a function of its declared inputs *)

(** [std::sort] leaves the order of equivalent elements open.  Under a
    comparator that is a strict total order no two elements are equivalent,
    so every sorted arrangement of a vector is the one the embedding
    computes. *)
Lemma std_sort_unique {A} (less : A -> A -> bool) :
  (forall a, less a a = false) ->
  (forall a b c, less a b = true -> less b c = true -> less a c = true) ->
  (forall a b c, less b a = false -> less c b = false -> less c a = false) ->
  (forall a b, less a b = false -> less b a = false -> a = b) ->
  forall l l', l' ≡ₚ l -> StronglySorted (not_after less) l' -> l' = std_sort less l.
Proof.
  intros Hirr Htr Hneg Htot l l' Hperm Hs.
  apply (StronglySorted_unique_strong (not_after less)).
  - intros x y _ _ Hxy Hyx. unfold not_after in *. apply Htot; assumption.
  - exact Hs.
  - apply std_sort_sorted; assumption.
  - rewrite Hperm. symmetry. apply std_sort_perm.
Qed.

Lemma by_sid_slot_cases (a b : Z * Z) :
  OursAdaptiveBaseline.by_sid_slot a b = true
  <-> fst a < fst b \/ (fst a = fst b /\ snd a < snd b).
Proof.
  unfold OursAdaptiveBaseline.by_sid_slot.
  destruct (Z.ltb_spec (fst a) (fst b)); [split; [tauto | reflexivity] |].
  destruct (Z.ltb_spec (fst b) (fst a)); [split; [discriminate | lia] |].
  rewrite Z.ltb_lt. split; [intros; right; lia | lia].
Qed.

Lemma by_sid_slot_false (a b : Z * Z) :
  OursAdaptiveBaseline.by_sid_slot a b = false
  <-> fst b < fst a \/ (fst a = fst b /\ snd b <= snd a).
Proof.
  pose proof (by_sid_slot_cases a b) as Hc.
  destruct (OursAdaptiveBaseline.by_sid_slot a b).
  - split; [discriminate |]. intros Hf. destruct Hc as [Hc _]. specialize (Hc eq_refl). lia.
  - split; [| reflexivity]. intros _.
    destruct (Z.lt_trichotomy (fst a) (fst b)) as [Hlt | [Heq | Hgt]];
      [| | left; exact Hgt].
    + destruct Hc as [_ Hc]. discriminate Hc. left. exact Hlt.
    + right. split; [exact Heq |].
      destruct (Z.lt_ge_cases (snd a) (snd b)) as [Hs | Hs]; [| lia].
      destruct Hc as [_ Hc]. discriminate Hc. right. split; assumption.
Qed.

Section Determinism.
Context `{FloatOps}.

(** What a run of Framework III reads of the configuration. *)
Definition adaptive_inputs (cfg : Config) : Z * Z * Z :=
  (run_t cfg, ExtraU64Or cfg "budget" (run_j_star cfg), ExtraU64Or cfg "w_small" 0).

(** A run of Framework II reads [run.t] of the configuration and nothing of
    the object it is started on. *)
Lemma RunSamplingOnce_inputs (b b' : OursSamplingBaseline.t) ds cfg cfg' seed :
  run_t cfg = run_t cfg' ->
  RunSamplingOnce b ds cfg seed = RunSamplingOnce b' ds cfg' seed.
Proof.
  intros Ht. unfold RunSamplingOnce, run_protocol.
  cbn [Build Reset Count Sample OursSampling_IBaseline].
  unfold OursSamplingBaseline.Sample. rewrite Ht. reflexivity.
Qed.

(** A run of Framework I reads [run.t] and [run.enum_cap]. *)
Lemma RunEnumSamplingOnce_inputs cap (b b' : OursEnumSamplingBaseline.t) ds cfg cfg' seed :
  run_t cfg = run_t cfg' ->
  @RunEnumSamplingOnce _ _ (OursEnumSampling_IBaseline cap) b ds cfg seed
  = @RunEnumSamplingOnce _ _ (OursEnumSampling_IBaseline cap) b' ds cfg' seed.
Proof.
  intros Ht. unfold RunEnumSamplingOnce, run_protocol.
  cbn [Build Reset Count Sample OursEnumSampling_IBaseline].
  unfold OursEnumSamplingBaseline.Sample. rewrite Ht. reflexivity.
Qed.

(** A run of Framework III reads [run.t], the budget (whose default is
    [run.j_star]) and [w_small]. *)
Lemma RunAdaptiveOnce_inputs (b b' : OursAdaptiveBaseline.t) ds cfg cfg' seed :
  adaptive_inputs cfg = adaptive_inputs cfg' ->
  RunAdaptiveOnce b ds cfg seed = RunAdaptiveOnce b' ds cfg' seed.
Proof.
  unfold adaptive_inputs. intros [= Ht Hb Hw]. unfold RunAdaptiveOnce, run_protocol.
  cbn [Build Reset Count Sample OursAdaptive_IBaseline].
  unfold OursAdaptiveBaseline.Sample, OursAdaptiveBaseline.Count,
    OursAdaptiveBaseline.Count_step, OursAdaptiveBaseline.prefetch.
  rewrite Ht, Hb, Hw. reflexivity.
Qed.

End Determinism.


(** * The running total of the first pass never wraps *)

Section RunningTotal.
Context `{FloatOps}.

(** The guarded addition of Framework III: on a START event whose weight
    would take the running total past 2^64 - 1 the step fails with the
    overflow message. *)
Lemma Adaptive_Count_step_overflow cfg ctx budget_B w_small E seed ep st pos ev
    sid q_ylo q_yhi wa wb w_a w_b w_t :
  ev_kind ev = Start ->
  vget (Ours2DContext.start_id_of_event_ ctx) pos = Some sid ->
  wrap32 sid < wrap32 E ->
  Ours2DContext.query_ranks ctx ev = Some (q_ylo, q_yhi) ->
  ActiveIndex2D.CountA (sweep_other ev (AB.cs_ar st) (AB.cs_as st)) q_ylo = Some wa ->
  ActiveIndex2D.CountB (sweep_other ev (AB.cs_ar st) (AB.cs_as st)) q_ylo q_yhi = Some wb ->
  vset (AB.cs_w_a st) (wrap32 sid) wa = Some w_a ->
  vset (AB.cs_w_b st) (wrap32 sid) wb = Some w_b ->
  vset (AB.cs_w_total st) (wrap32 sid) (wrap64 (wa + wb)) = Some w_t ->
  AB.cs_W st <= u64_max ->
  u64_max < AB.cs_W st + wrap64 (wa + wb) ->
  AB.Count_step cfg ctx budget_B w_small E seed ep st (pos, ev)
  = Fail "OursAdaptiveBaseline::Count: |J| overflowed u64".
Proof.
  intros Hk Hsid HE Hq Hwa Hwb Hsa Hsb Hst HW Hover.
  unfold AB.Count_step. rewrite Hk, Hsid.
  cbn [lift_opt mbind outcome_mbind outcome_bind].
  destruct (Z.leb_spec (wrap32 E) (wrap32 sid)) as [Hc|_]; [lia |].
  rewrite Hq. cbn [lift_opt mbind outcome_mbind outcome_bind].
  rewrite Hwa. cbn [lift_opt mbind outcome_mbind outcome_bind].
  rewrite Hwb. cbn [lift_opt mbind outcome_mbind outcome_bind].
  rewrite Hsa. cbn [lift_opt mbind outcome_mbind outcome_bind].
  rewrite Hsb. cbn [lift_opt mbind outcome_mbind outcome_bind].
  rewrite Hst. cbn [lift_opt mbind outcome_mbind outcome_bind].
  destruct (Z.ltb_spec 0 (wrap64 (wa + wb))) as [_|Hc]; [| lia].
  destruct (Z.ltb_spec (u64_max - wrap64 (wa + wb)) (AB.cs_W st)) as [_|Hc]; [| lia].
  reflexivity.
Qed.

Lemma two_pass_of_ok ds b : adaptive_ok ds b -> sampling_ok ds (two_pass_of b).
Proof. intros [H1 H2 H3 H4 H5]. constructor; assumption. Qed.

End RunningTotal.

(** The intersecting pairs of two relations: the join, by boxes. *)
Definition join_pairs (r s : Relation) : list (Box * Box) :=
  List.filter (fun p => IntersectsHalfOpen (fst p) (snd p)) (list_prod (boxes r) (boxes s)).

Lemma wrap64_succ z : wrap64 (wrap64 z + 1) = wrap64 (z + 1).
Proof. unfold wrap64. apply Zplus_mod_idemp_l. Qed.

Lemma CountNaive_inner rb (sbs : list Box) (c : Z) :
  fold_left (fun count sb => if IntersectsHalfOpen rb sb then wrap64 (count + 1) else count)
            sbs (wrap64 c)
  = wrap64 (c + Z.of_nat (length (List.filter (IntersectsHalfOpen rb) sbs))).
Proof.
  revert c. induction sbs as [|sb sbs IH]; intros c; cbn [fold_left List.filter].
  - cbn [length]. f_equal. lia.
  - destruct (IntersectsHalfOpen rb sb).
    + rewrite wrap64_succ, IH. cbn [length]. f_equal. lia.
    + apply IH.
Qed.

Lemma filter_pair_length rb (sbs : list Box) :
  length (List.filter (fun p : Box * Box => IntersectsHalfOpen (fst p) (snd p))
            (map (fun y => (rb, y)) sbs))
  = length (List.filter (IntersectsHalfOpen rb) sbs).
Proof.
  induction sbs as [|sb sbs IH]; [reflexivity |].
  cbn [map List.filter fst snd]. destruct (IntersectsHalfOpen rb sb); cbn [length]; lia.
Qed.

Lemma CountNaive_outer (rbs sbs : list Box) (c : Z) :
  fold_left
    (fun count rb =>
       fold_left
         (fun count sb =>
            if IntersectsHalfOpen rb sb then wrap64 (count + 1) else count)
         sbs count)
    rbs (wrap64 c)
  = wrap64 (c + Z.of_nat (length (List.filter
                                    (fun p : Box * Box => IntersectsHalfOpen (fst p) (snd p))
                                    (list_prod rbs sbs)))).
Proof.
  revert c. induction rbs as [|rb rbs IH]; intros c; cbn [fold_left list_prod].
  - cbn [List.filter length]. f_equal. lia.
  - rewrite CountNaive_inner, IH, List.filter_app, length_app, filter_pair_length.
    f_equal. lia.
Qed.

(** The oracle counts the join, on u64. *)
Lemma CountNaive_join_pairs r s :
  CountNaive r s = wrap64 (Z.of_nat (length (join_pairs r s))).
Proof.
  unfold CountNaive, join_pairs.
  exact (CountNaive_outer (boxes r) (boxes s) 0).
Qed.

Lemma join_pairs_length r s :
  Z.of_nat (length (join_pairs r s)) <= RelationOps.Size r * RelationOps.Size s.
Proof.
  unfold join_pairs, RelationOps.Size.
  pose proof (List.filter_length_le
                (fun p : Box * Box => IntersectsHalfOpen (fst p) (snd p))
                (list_prod (boxes r) (boxes s))) as Hle.
  rewrite List.length_prod in Hle. nia.
Qed.

(** A context is only built for relations whose sizes fit u32. *)
Lemma Build_sizes c ds ctx :
  Ours2DContext.Build c ds = Done ctx ->
  RelationOps.Size (R ds) <= u32_max /\ RelationOps.Size (S ds) <= u32_max.
Proof.
  unfold Ours2DContext.Build.
  destruct (Z.ltb_spec u32_max (RelationOps.Size (R ds)));
    destruct (Z.ltb_spec u32_max (RelationOps.Size (S ds)));
    cbn [orb]; try discriminate.
  intros _. lia.
Qed.

(** On relations whose sizes fit u32 the join has fewer than 2^64 pairs, and
    the oracle's count is their number. *)
Lemma join_fits_u64 ds :
  RelationOps.Size (R ds) <= u32_max -> RelationOps.Size (S ds) <= u32_max ->
  CountNaive (R ds) (S ds) = Z.of_nat (length (join_pairs (R ds) (S ds)))
  /\ Z.of_nat (length (join_pairs (R ds) (S ds))) <= u32_max * u32_max < 2 ^ 64.
Proof.
  intros HR HS.
  pose proof (join_pairs_length (R ds) (S ds)) as Hle.
  assert (0 <= RelationOps.Size (R ds)) as HR0 by (unfold RelationOps.Size; lia).
  assert (0 <= RelationOps.Size (S ds)) as HS0 by (unfold RelationOps.Size; lia).
  assert (Z.of_nat (length (join_pairs (R ds) (S ds))) <= u32_max * u32_max) as Hb by nia.
  assert (u32_max * u32_max < 2 ^ 64) as Hc by (vm_compute; reflexivity).
  split; [| split; assumption].
  rewrite CountNaive_join_pairs. apply wrap64_small. lia.
Qed.

Section BuiltSizes.
Context `{FloatOps}.

Lemma Sampling_Build_sizes b0 ds cfg b :
  OursSamplingBaseline.Build b0 ds cfg = Done b ->
  RelationOps.Size (R ds) <= u32_max /\ RelationOps.Size (S ds) <= u32_max.
Proof.
  unfold OursSamplingBaseline.Build.
  destruct (Ours2DContext.Build _ ds) as [ctx| |] eqn:Hctx;
    cbn [mbind outcome_mbind outcome_bind]; try discriminate.
  intros _. exact (Build_sizes _ _ _ Hctx).
Qed.

Lemma Adaptive_Build_sizes a0 ds cfg b :
  AB.Build a0 ds cfg = Done b ->
  RelationOps.Size (R ds) <= u32_max /\ RelationOps.Size (S ds) <= u32_max.
Proof.
  unfold AB.Build.
  destruct (Ours2DContext.Build _ ds) as [ctx| |] eqn:Hctx;
    cbn [mbind outcome_mbind outcome_bind]; try discriminate.
  intros _. exact (Build_sizes _ _ _ Hctx).
Qed.

End BuiltSizes.

